(* ===== verification/_CoqProject ===== *)
-Q . S2P
Prelude.v
Float32.v
Action.v
Bridge.v
BridgeSpec.v
BridgeFacts.v
BridgeProps.v
BridgeCalls.v
BridgeDemo.v
Control.v
ControlProps.v
Scheduler.v
SchedulerProps.v
ControlDemo.v
Transport.v
Keys.v
KeysProps.v
ControlPlane.v
ControlPlaneProps.v
ControlPlaneDemo.v
Order.v
Version.v
VersionProps.v
Findings.v
Engine.v
EngineProps.v
ScoreProps.v
CveSource.v
Text.v
Ocsf.v
Ingest.v
IngestProps.v
ActivityProps.v
IngestDemo.v
Substrate.v
ProcMon.v
NetMon.v
FileMon.v
Corr.v
CorrFacts.v
CorrConserve.v
CorrBounds.v
CorrMemory.v
CorrExec.v
CorrTrace.v
EndToEnd.v
MonitorProps.v
Posture.v
PostureProps.v
AgentExec.v
AgentService.v
AgentProps.v
Fs.v
JsonStore.v
Feed.v
FeedProps.v
FeedLive.v
Nvd.v
Packages.v
Listeners.v
Sweep.v
Snapshot.v
Manager.v
Inventory.v
InventoryProps.v
Observe.v
ObserveProps.v
Sensors.v
SensorProps.v
EtwSensor.v
Enrich.v
Emit.v
AgentBoot.v
FromEvents.v
CorrDemo.v
PostureDemo.v
AgentDemo.v
StoreDemo.v
RuntimeDemo.v
HostDemo.v
