(* ===== verification/Prelude.v ===== *)
(** * Torda: verification development

    Torda is an endpoint agent with a server side: sensors emit OCSF events, the
    server turns them into scored findings, and an operator remediates findings by
    signed commands that an agent executes in stages.  This library models the
    decision logic of both sides, from the system call that a kernel program sees to the
    finding on the console, and from the command that reaches an agent to the finding that
    is closed, and proves what makes it correct.

    ** Parts, and where they are

    The remediation side:

    - Remediation bridge ([server/remediation/src/action.rs], [audit.rs],
      [bridge.rs]): [Action] has the data, [Bridge] one definition per method of
      [Bridge<A>] on the state record [Bridge] (actions, audit sink, sequence
      number).  [BridgeSpec] is the abstract lifecycle automaton and the operations a
      client can issue; [BridgeFacts], [BridgeProps] and [BridgeCalls] hold the
      invariants, the refinement, and the executor calls and events of each stage;
      [BridgeDemo] a concrete walk.
    - Command dispatch and replay guard ([control.rs]): [Control], [ControlProps].
    - Maintenance windows ([scheduler.rs]): [Scheduler], [SchedulerProps];
      [ControlDemo] applies both to concrete commands.
    - Transport ([server/transport/src/lib.rs]): [Transport], frames and the
      in-process duplex channel, with their theorems.
    - Control plane ([server/control-plane/src/lib.rs],
      [control-server/src/issuer.rs]): [Keys] (key files, trust sets, reload, signer),
      [ControlPlane] (agent handler, agent loop, result correlation, client), with
      [KeysProps], [ControlPlaneProps] and [ControlPlaneDemo].
    - The agent's side of it ([crates/agent/src/apply.rs], [lib.rs], [main.rs]):
      [AgentExec] has the executors (the bounded run of a payload, the kill of its process
      group, the allow-list), [AgentService] the role policy and the accept loop,
      [AgentBoot] the configuration and the start of the agent with its theorems;
      [AgentProps], [AgentDemo].

    The findings side:

    - Findings ([crates/findings/src/lib.rs], [server/findings-engine/src]):
      [Findings] is the data contract, [Engine] scoring, decision, correlation,
      grouping and lifecycle, [EngineProps] and [ScoreProps] their theorems.
    - Ingest ([server/ingest/src], [crates/ocsf]): [Version] (dpkg, rpm, semver),
      [CveSource] (OSV ranges, families, composite source), [Nvd] (the NVD source),
      [Ingest] (SBOM matching, reachability, the eight mappers, the in-memory store, the
      re-scoring verifier), [Enrich] (CVSS, EPSS and KEV snapshots), with [VersionProps],
      [IngestProps], [ActivityProps] and [IngestDemo].
    - Stores: [Fs] is a disk whose every operation can fail or be cut short by a crash of
      the process, with a Hoare logic that has a crash condition; [JsonStore] the findings store
      on it ([server/ingest/src/store.rs]); [Feed], [FeedProps] and [FeedLive] the signed
      feed ([crates/feed/src], [server/feed-live/src/lib.rs]); [StoreDemo].
    - The batch program ([server/ingest/src/bin/findings-from-events.rs]): [FromEvents]
      composes the sources, the pipeline and the file store into a run from an event file
      to findings files.

    The agent:

    - Sensors of the kernel ([crates/substrate-ebpf-common], [crates/substrate-ebpf],
      [crates/substrate/src/ebpf.rs], [etw.rs]): [Sensors] has the records that cross the
      rings, the tracepoint programs, the decoding, the enrichment from [/proc] and the
      drain loops; [EtwSensor] the callbacks of the Windows providers and the bounded
      cache of file names; [SensorProps].
    - Monitors ([crates/core/src/lib.rs], [crates/modules/procmon], [netmon],
      [filemon]): [Substrate] has the bus events, severities and the platform a
      module observes; [ProcMon], [NetMon] and [FileMon] the rulesets, the file
      policy and every event handler, [MonitorProps] their theorems.
    - Cross-sensor correlator ([crates/modules/corr/src/lib.rs]): [Corr] is the whole
      task, one definition per function: process contexts, the three buffers of
      events that wait for their exec, exited processes, chain trackers, the grace
      tick, shutdown and the records it emits.  [CorrFacts] has the lemmas on its state
      and buffers, [CorrConserve] conservation of events, [CorrBounds] the grace period,
      [CorrMemory] the caps, [CorrExec] exec and lineage, [CorrTrace] the records;
      [CorrDemo] concrete runs.
    - Other observers of the bus ([crates/modules/libload], [aiusage]): [Observe],
      [ObserveProps].
    - Host inventory ([crates/substrate/src/packages.rs], [listeners.rs], [ai.rs],
      [ai_models.rs], [network_hosts.rs], [files.rs], [lib.rs]): [Packages], [Listeners],
      [Sweep] have the parsers, the walk and the sweep, [Snapshot] the tables that the
      snapshot service answers from; [HostDemo] a concrete host.
    - Snapshot modules ([crates/modules/asset], [vuln], [health], [aidiscovery],
      [aimodel], [netdiscovery], [compliance], [drift], [fim], [crates/compliance/src]):
      [Posture] has controls, drift and integrity with the change gate, [Inventory] the
      other payloads and the life cycle of all nine, [PostureProps], [InventoryProps],
      [PostureDemo].
    - Runtime ([crates/core/src/lib.rs], [resource.rs], [crates/agent/src/emit.rs]):
      [Manager] has the module manager, the refresh scheduler and the resource governor,
      [Emit] the rotating event file; [RuntimeDemo].

    Shared: [Ocsf] ([crates/ocsf/src/lib.rs]) is the envelope both sides share, the
    interface to [serde_json] and a concrete JSON type for it; [EndToEnd] composes the
    sensors with the server's mappers.  [Float32] is IEEE binary32 as the Standard Library
    specifies it with the monotonicity of its rounded products, [Order] total preorders as
    comparison functions, ordered maps, grouping and stable sorting, [Text] what the
    program uses of [str], of paths, of UTF-8 and of number parsing.  This file has the result type,
    the state-and-error monad [M] (a method on [&mut self] keeps the mutations it made
    before it failed), Hoare-style reasoning about it, machine integers and tactics.

    How they interact: the kernel's records become [SubstrateEvent]s on the bus, which
    delivers them to the monitors, to the correlator (which re-uses their rulesets) and to
    the other observers; the snapshot modules read the tables of the snapshot; the
    envelopes of all of them are the input of the ingest mappers.  In the other direction
    the transport carries frames to the agent loop ([serve_one]), which authenticates,
    authorizes and admits a command ([Control]) before it reaches the bridge or the
    scheduler; the bridge calls an [Executor] and asks a [Verifier]; [AgentExec] supplies
    the executor that runs payloads on the host, [Ingest] the verifier that re-runs the
    findings engine, and the engine is parametric in its enrichment, asset-context and
    reachability sources, of which [Enrich] reads its data from the installed feed.  The
    interfaces are type classes ([Executor], [Verifier], [AuditSink],
    [SignatureVerifier], [Authorizer], [Clock], [Transport], [EnrichmentSource],
    [CveSource], [FindingsStore], [AgentModule], ...); clients are proved against them and
    the program's own implementations are instances.

    ** What the theorems show

    - Bridge: no executor call without a recorded approval; the audit trail is a run
      of the lifecycle automaton and determines the states; exactly which targets
      each stage applies and rolls back; no panic; records stay well formed; an
      operation touches one action; audit numbering.
    - Dispatch: an executed command passed every gate; forged and replayed commands
      have no effect but an audit event, until the session itself is re-opened below
      the number replayed; the drafter never approves; what a tick runs of the queue runs
      inside its window, and no freshness token runs twice.
    - Control plane and agent: serving a command is exactly the steps of a dispatch
      history that the command requires, and its answer the verdict of the gates and the
      lifecycle; a hostile frame is inert; a request has at most one accepted result each
      time it is issued; trust follows its history; reload is atomic; frames round-trip
      and channels are first-in first-out; the agent runs nothing but what the command it
      is serving asks for, on an approved action ([journal] lists the commands it takes
      in), and a run comes back unless its deadline overflows; a start fails closed, the
      sink is the one the settings ask for ([reads] is how a command line reads), and
      every process traces back to the configuration file.
    - Findings: one finding per identity with all its evidence; the engine panics at most
      on a confidence that is a NaN; verdicts follow from canonical inputs, never from a
      source's severity label; scores stay in 0..=100, never fall when the context gets
      riskier, and runtime evidence only raises them; fix grouping is exact.
    - Ingest: exactly the vulnerable components are reported; OSV and NVD ranges decide
      interval membership; runtime reachability is the exact join; one network
      finding per destination with the strongest rule; operator decisions survive
      every later run; the verifier says Fixed only when the findings are gone.
    - Stores: acknowledged batches survive failures and process crashes, and the file store
      implements the in-memory one; an install is all or nothing and installs only what
      verified; the builder's bundles verify; enrichment cites the feed it came from.
    - Kernel sensors: every record decodes to what the call named; the memory of the file
      sensor is bounded and never names the wrong file; the parent of a process is found
      behind any command name.
    - Monitors: a dotted address is parsed back and told local or external exactly;
      an exit is joined with its exec across other traffic; what verdict the process
      rules give.
    - Correlator: for every history of deliveries, ticks and stops, no event is lost
      or duplicated, memory stays within its caps, every record is justified by what came
      before; over a period without connections and writes none waits past its grace; an
      exec may come before or after a run of connections of its process that the buffer
      has room for; suspicion follows a lineage of execs.
    - Other observers and inventory: AI usage is the reference attribution with a bounded
      table; a library is reported once; the dpkg inventory, the expansion of a CIDR block
      and the model-file walk are exact.
    - Runtime: every module with an interval is refreshed within a bounded number of
      rounds; an emitted line ends the active event file, and the rolls lose at most the
      oldest.
    - End to end: the findings on the console are exactly those the sensors' and the
      correlator's records call for, down to the system calls; those of the packages and
      of the libraries opened on a host; those of its posture as it is now.  The files of
      the batch program hold what the engine gives for its input and its store.
    - Some theorems record behaviour that contradicts the code's own documentation
      or intent: [failed_rollback_retry_reported_as_dropped],
      [rejected_rollback_changed_the_bridge], [suppressed_finding_still_in_items],
      [canary_judged_by_unapplied_targets], [finding_id_collision],
      [semver_leading_zero_accepted], [correlation_component_truncated],
      [exfil_accuses_a_benign_process], [waiting_connection_is_miscredited],
      [encoded_command_adds_no_weight], [fired_write_has_no_finding],
      [scheduled_command_is_lost], [failed_install_misattributes_content],
      [failed_rename_truncates_the_log], [refreshes_are_blind],
      [non_ascii_name_kills_aiusage], [reopened_file_is_evicted_first],
      [torn_line_loses_the_batch].

    ** Modelling choices

    Strings are byte strings; [u64] counters wrap, [as u8] saturates, [as u16]
    truncates.  Panics are values ([Panicked], or [None] in the engine), so their
    absence is proved.  [HashMap] is [gmap] where only lookups matter; [BTreeMap] is an
    ordered list of pairs.  A stable sort of a total preorder has one result, so [sort_by]
    is an insertion sort; where the comparison is not total on the elements, as that of
    confidences with a NaN, the standard sort may panic, and [sort_total] is [None].
    A deadline past the end of [Instant] panics ([instant_add]); a panic of the agent's
    executor unwinds the control thread ([Unwinding], [serve_frame]).

    Fuel: the loops of the version comparisons and of trimming take the bytes left plus
    one, those of [Text] (splitting, replacing, decoding) the length of their input, and
    every iteration consumes a byte.  The wait loop of a payload takes a number of polls,
    and [run_is_bounded] shows that the timeout over the poll interval is enough; the
    scheduler runs for any number of rounds, and [enough] of them reach every module.

    The correlator's task is a run over the list of what wakes its [select!] (an
    event, a gap, the interval, a stop, the end of the bus), in any order; the other
    observers run over what the bus delivers.  Every read of a clock and every walk of a
    [HashMap] is a numbered observation of the [Host]: the theorems hold for every
    monotonic clock and every hash order.  A disk operation is a numbered observation of
    the [Faults]: whether it fails, and how much of a write is torn off.  A crash is one of the
    process: what an operation that returned wrote is on the disk.  The entries a directory
    listing leaves out are a [Listing].

    Third-party code is an interface with the laws the program relies on: ed25519
    signatures, hexadecimal and UTF-8-validated key text, the serde encodings of
    commands, results, frames, manifests, snapshots, events and findings, and [serde_json]
    values and record deserialization.  What the operating system gives is an argument: the output of the
    inventory commands, whether a connection succeeds, the entries of a directory, the
    files of [/proc], what the helpers of the kernel return to a tracepoint program.
    Every theorem with a hypothesis is applied to a concrete instance in a [Demo] file.

    ** Not modelled

    Sockets and TLS ([transport-tls], the TCP transport, the HTTP probe of an AI runtime),
    the serde formats themselves, the loading of the kernel programs and the sessions and
    threads of the event backends (aya, ferrisetw), the TOML parser and the tokio tasks of
    the agent's [main], the lag of a full broadcast channel, the [torda-feed] command
    line and its sample keys, the control-server binary, benchmarks and demonstration
    binaries: they are input and output around the parts above, or code of libraries. *)

From stdpp Require Import base tactics gmap strings list pretty.
From Stdlib Require Import ZArith.

Declare Scope torda_scope.
Delimit Scope torda_scope with torda.
Open Scope torda_scope.

(** ** Results *)

(** What a Rust call can come back with: [Ok v], [Err e] (the error's Display
    text), or a panic.  A panic is a value of its own so that its absence can
    be proved. *)
Inductive Result (A : Type) : Type :=
  | Ok (a : A)
  | Err (e : string)
  | Panicked.
Arguments Ok {A} a.
Arguments Err {A} e.
Arguments Panicked {A}.

Definition is_ok {A} (r : Result A) : bool :=
  match r with Ok _ => true | _ => false end.
Definition is_err {A} (r : Result A) : bool :=
  match r with Err _ => true | _ => false end.

#[export] Instance result_eq_dec {A} `{EqDecision A} : EqDecision (Result A).
Proof. solve_decision. Defined.

(** ** A state-and-error monad

    A method on [&mut self] that returns [anyhow::Result<T>] keeps the
    mutations it made before it bailed: the state is returned on every path. *)
Definition M (S A : Type) : Type := S → S * Result A.

Definition m_ret {S A} (a : A) : M S A := λ s, (s, Ok a).
Definition m_bind {S A B} (k : A → M S B) (m : M S A) : M S B := λ s,
  match m s with
  | (s', Ok a) => k a s'
  | (s', Err e) => (s', Err e)
  | (s', Panicked) => (s', Panicked)
  end.
#[export] Instance M_ret S : MRet (M S) := λ A, m_ret.
#[export] Instance M_bind S : MBind (M S) := λ A B, m_bind.

Definition bail {S A} (e : string) : M S A := λ s, (s, Err e).
Definition panic {S A} : M S A := λ s, (s, Panicked).
Definition gets {S A} (f : S → A) : M S A := λ s, (s, Ok (f s)).
Definition modify {S} (f : S → S) : M S unit := λ s, (f s, Ok tt).

(** [o.unwrap()]. *)
Definition unwrap {S A} (o : option A) : M S A :=
  match o with Some a => m_ret a | None => panic end.

(** [o.ok_or_else(|| e)?]. *)
Definition ok_or {S A} (o : option A) (e : string) : M S A :=
  match o with Some a => m_ret a | None => bail e end.

(** Run a method of a component on that component's part of a larger state. *)
Definition zoom {S T A} (get : S → T) (put : T → S → S) (m : M T A) : M S A :=
  λ s, let '(t, r) := m (get s) in (put t s, r).

Definition on_fst {S T A} (m : M S A) : M (S * T) A :=
  λ s, let '(s1, r) := m s.1 in ((s1, s.2), r).

(** ** What a computation can do to the state *)

(** [rel_m R m]: whatever [m] returns, it moves the state along [R]. *)
Definition rel_m {S A} (R : S → S → Prop) (m : M S A) : Prop :=
  ∀ s, R s (m s).1.

(** A Hoare triple that also speaks about errors and panics. *)
Definition triple {S A} (P : S → Prop) (m : M S A)
    (Q : Result A → S → Prop) : Prop :=
  ∀ s, P s → Q (m s).2 (m s).1.

Definition no_panic {S A} (P : S → Prop) (m : M S A) : Prop :=
  triple P m (λ r _, r ≠ Panicked).

(** Total correctness: [m] comes back with [Ok], and what it returns and leaves
    satisfies [Q]. *)
Definition wp {S A} (m : M S A) (Q : A → S → Prop) : S → Prop := λ s,
  match m s with (s', Ok a) => Q a s' | _ => False end.

(** [for x in l { f(x) }]. *)
Fixpoint for_each {S A} (f : A → M S unit) (l : list A) : M S unit :=
  match l with
  | [] => m_ret tt
  | x :: l => m_bind (λ _, for_each f l) (f x)
  end.

Create HintDb torda.

Section rel_m.
Context {S : Type} (R : S → S → Prop) `{!PreOrder R}.

Lemma rel_m_ret {A} (a : A) : rel_m R (m_ret a).
Proof. intros s. reflexivity. Qed.

Lemma rel_m_mret {A} (a : A) : rel_m R (mret a : M S A).
Proof. intros s. reflexivity. Qed.

Lemma rel_m_bail {A} e : rel_m R (bail e : M S A).
Proof. intros s. reflexivity. Qed.

Lemma rel_m_panic {A} : rel_m R (panic : M S A).
Proof. intros s. reflexivity. Qed.

Lemma rel_m_gets {A} (f : S → A) : rel_m R (gets f).
Proof. intros s. reflexivity. Qed.

Lemma rel_m_unwrap {A} (o : option A) : rel_m R (unwrap o : M S A).
Proof. destruct o; intros s; reflexivity. Qed.

Lemma rel_m_ok_or {A} (o : option A) e : rel_m R (ok_or o e : M S A).
Proof. destruct o; intros s; reflexivity. Qed.

Lemma rel_m_bind {A B} (m : M S A) (k : A → M S B) :
  rel_m R m → (∀ a, rel_m R (k a)) → rel_m R (m ≫= k).
Proof.
  intros Hm Hk s. specialize (Hm s).
  unfold mbind, M_bind, m_bind. destruct (m s) as [s' [a|e|]]; simpl in *; [|done..].
  transitivity s'; [done|]. apply Hk.
Qed.

Lemma rel_m_modify (f : S → S) : (∀ s, R s (f s)) → rel_m R (modify f).
Proof. intros Hf s. apply Hf. Qed.
End rel_m.

#[export] Hint Resolve rel_m_ret rel_m_mret rel_m_bail rel_m_panic rel_m_gets
  rel_m_unwrap rel_m_ok_or rel_m_bind rel_m_modify : torda.

Lemma rel_m_on_fst {S T A} (R : S → S → Prop) (R' : S * T → S * T → Prop)
    (m : M S A) :
  (∀ s s' t, R s s' → R' (s, t) (s', t)) →
  rel_m R m → rel_m R' (on_fst m : M (S * T) A).
Proof.
  intros HR Hm [s t]. specialize (Hm s). unfold on_fst. simpl.
  destruct (m s) as [s' r]; simpl in *. by apply HR.
Qed.

(** ** Total correctness *)

Section wp.
Context {S : Type}.

Lemma wp_ret {A} (a : A) Q (s : S) : Q a s → wp (m_ret a) Q s.
Proof. done. Qed.

Lemma wp_mret {A} (a : A) Q (s : S) : Q a s → wp (mret a) Q s.
Proof. done. Qed.

Lemma wp_gets {A} (f : S → A) Q s : Q (f s) s → wp (gets f) Q s.
Proof. done. Qed.

Lemma wp_modify (f : S → S) Q s : Q tt (f s) → wp (modify f) Q s.
Proof. done. Qed.

Lemma wp_unwrap {A} (o : option A) a Q (s : S) : o = Some a → Q a s → wp (unwrap o) Q s.
Proof. by intros ->. Qed.

Lemma wp_mono {A} (m : M S A) (Q Q' : A → S → Prop) s :
  wp m Q s → (∀ a s', Q a s' → Q' a s') → wp m Q' s.
Proof. unfold wp. destruct (m s) as [s' [a|e|]]; naive_solver. Qed.

Lemma wp_bind {A B} (m : M S A) (k : A → M S B) Q s :
  wp m (λ a s', wp (k a) Q s') s → wp (m ≫= k) Q s.
Proof. unfold wp, mbind, M_bind, m_bind. by destruct (m s) as [s' [a|e|]]. Qed.

Lemma wp_ext {A} (m m' : M S A) Q s : m s = m' s → wp m' Q s → wp m Q s.
Proof. unfold wp. by intros ->. Qed.

Lemma wp_and {A} (m : M S A) (Q Q' : A → S → Prop) s :
  wp m Q s → wp m Q' s → wp m (λ a s', Q a s' ∧ Q' a s') s.
Proof. unfold wp. by destruct (m s) as [s' [a|e|]]. Qed.

Lemma wp_ok {A} (m : M S A) Q s : wp m Q s → ∃ a s', m s = (s', Ok a) ∧ Q a s'.
Proof. unfold wp. destruct (m s) as [s' [a|e|]]; naive_solver. Qed.

Lemma wp_intro {A} (m : M S A) (Q : A → S → Prop) s s' a :
  m s = (s', Ok a) → Q a s' → wp m Q s.
Proof. unfold wp. by intros ->. Qed.

(** A loop with an invariant that speaks of what is still to do. *)
Lemma wp_for_each {A} (f : A → M S unit) (I : list A → S → Prop) l s :
  (∀ x l s, I (x :: l) s → wp (f x) (λ _ s', I l s') s) →
  I l s → wp (for_each f l) (λ _ s', I [] s') s.
Proof.
  intros Hf. revert s. induction l as [|x l IH]; intros s HI; [done|].
  apply (wp_bind (f x) (λ _, for_each f l)). eapply wp_mono; [by apply Hf|]. auto.
Qed.
End wp.

(** ** Operations that always succeed *)

Definition total_m {S A} (m : M S A) : Prop := ∀ s, ∃ a s', m s = (s', Ok a).

Section total.
Context {S : Type}.

Lemma total_ret {A} (a : A) : total_m (m_ret a : M S A).
Proof. intros s. by do 2 eexists. Qed.
Lemma total_mret {A} (a : A) : total_m (mret a : M S A).
Proof. intros s. by do 2 eexists. Qed.
Lemma total_gets {A} (f : S → A) : total_m (gets f).
Proof. intros s. by do 2 eexists. Qed.
Lemma total_modify (f : S → S) : total_m (modify f).
Proof. intros s. by do 2 eexists. Qed.
Lemma total_unwrap {A} (a : A) : total_m (unwrap (Some a) : M S A).
Proof. intros s. by do 2 eexists. Qed.

Lemma total_bind {A B} (m : M S A) (k : A → M S B) :
  total_m m → (∀ a, total_m (k a)) → total_m (m ≫= k).
Proof.
  intros Hm Hk s. destruct (Hm s) as (a & s' & Hs). destruct (Hk a s') as (b & s'' & Hs').
  exists b, s''. unfold mbind, M_bind, m_bind. by rewrite Hs.
Qed.

Lemma total_for_each {A} (f : A → M S unit) l : (∀ x, total_m (f x)) → total_m (for_each f l).
Proof.
  intros Hf. induction l as [|x l IH]; [apply total_ret|].
  by apply (total_bind (f x) (λ _, for_each f l)).
Qed.

Lemma total_ext {A} (m m' : M S A) : (∀ s, m s = m' s) → total_m m' → total_m m.
Proof. intros Heq Hm s. rewrite Heq. apply Hm. Qed.

Lemma rel_m_ext {A} (R : S → S → Prop) (m m' : M S A) :
  (∀ s, m s = m' s) → rel_m R m' → rel_m R m.
Proof. intros Heq Hm s. rewrite Heq. apply Hm. Qed.

Lemma for_each_ext {A} (f g : A → M S unit) l s :
  (∀ x s, f x s = g x s) → for_each f l s = for_each g l s.
Proof.
  intros Hfg. revert s. induction l as [|x l IH]; intros s; [done|]. cbn. unfold m_bind.
  rewrite Hfg. destruct (g x s) as [s' [a|e|]]; [apply IH|done..].
Qed.

Lemma for_each_app {A} (f : A → M S unit) l1 l2 s :
  for_each f (l1 ++ l2) s = (for_each f l1 ≫= λ _, for_each f l2) s.
Proof.
  revert s. induction l1 as [|x l1 IH]; intros s; [done|]. cbn.
  unfold mbind, M_bind, m_bind in *. destruct (f x s) as [s' [[]|e|]]; [|done..].
  rewrite IH. by destruct (for_each f l1 s').
Qed.

Lemma wp_total {A} (m : M S A) (R : S → S → Prop) s :
  total_m m → rel_m R m → wp m (λ _ s', R s s') s.
Proof.
  intros Hm HR. destruct (Hm s) as (a & s' & Hs). specialize (HR s). unfold wp.
  rewrite Hs in *. done.
Qed.

Lemma rel_m_for_each {A} (R : S → S → Prop) `{!PreOrder R} (f : A → M S unit) l :
  (∀ x, rel_m R (f x)) → rel_m R (for_each f l).
Proof.
  intros Hf. induction l as [|x l IH]; [by apply rel_m_ret|].
  by apply (rel_m_bind R (f x) (λ _, for_each f l)).
Qed.
End total.

(** [preserves I m]: [m] succeeds and re-establishes [I]. *)
Definition preserves {S A} (I : S → Prop) (m : M S A) : Prop :=
  ∀ s, I s → wp m (λ _ s', I s') s.

Section preserves.
Context {S : Type} (I : S → Prop).

Lemma preserves_mret {A} (a : A) : preserves I (mret a).
Proof. intros s Hs. by apply wp_mret. Qed.
Lemma preserves_gets {A} (f : S → A) : preserves I (gets f).
Proof. intros s Hs. by apply wp_gets. Qed.
Lemma preserves_modify (f : S → S) : (∀ s, I s → I (f s)) → preserves I (modify f).
Proof. intros Hf s Hs. apply wp_modify. auto. Qed.
Lemma preserves_bind {A B} (m : M S A) (k : A → M S B) :
  preserves I m → (∀ a, preserves I (k a)) → preserves I (m ≫= k).
Proof.
  intros Hm Hk s Hs. apply wp_bind. eapply wp_mono; [by apply Hm|]. intros a s' Hs'. by apply Hk.
Qed.
Lemma preserves_for_each {A} (f : A → M S unit) l :
  (∀ x, preserves I (f x)) → preserves I (for_each f l).
Proof. intros Hf s Hs. apply (wp_for_each f (λ _, I)); [|done]. intros. by apply Hf. Qed.
Lemma preserves_total {A} (m : M S A) (R : S → S → Prop) :
  total_m m → rel_m R m → (∀ s s', R s s' → I s → I s') → preserves I m.
Proof.
  intros Hm HR HI s Hs. eapply wp_mono; [by apply wp_total|]. intros a s' Hs'. exact (HI s s' Hs' Hs).
Qed.
Lemma preserves_ext {A} (m m' : M S A) : (∀ s, m s = m' s) → preserves I m' → preserves I m.
Proof. intros Heq Hm s Hs. unfold wp. rewrite Heq. by apply Hm. Qed.
End preserves.

(** [keeps f]: the part [f] of the state is left alone. *)
Definition keeps {S T} (f : S → T) (s s' : S) : Prop := f s' = f s.
#[export] Instance keeps_preorder {S T} (f : S → T) : PreOrder (keeps f).
Proof. split; [done|]. intros s1 s2 s3. unfold keeps. congruence. Qed.

(** ** Running a computation step by step *)

Section run.
Context {S A B : Type}.
Implicit Types (m : M S A) (k : A → M S B).

Lemma bind_ok m k s s' a : m s = (s', Ok a) → (m ≫= k) s = k a s'.
Proof. intros H. unfold mbind, M_bind, m_bind. by rewrite H. Qed.

Lemma bind_err m k s s' e : m s = (s', Err e) → (m ≫= k) s = (s', Err e).
Proof. intros H. unfold mbind, M_bind, m_bind. by rewrite H. Qed.

Lemma bind_ok_inv m k s s' r :
  (m ≫= k) s = (s', Ok r) → ∃ s1 a, m s = (s1, Ok a) ∧ k a s1 = (s', Ok r).
Proof.
  unfold mbind, M_bind, m_bind. destruct (m s) as [s1 [a|e|]]; naive_solver.
Qed.
End run.

Lemma mret_bind {S A B} (a : A) (k : A → M S B) : (mret a ≫= k) = k a.
Proof. done. Qed.

Lemma on_fst_run {S T A} (m : M S A) s (t : T) s' r :
  m s = (s', r) → on_fst m (s, t) = ((s', t), r).
Proof. intros H. unfold on_fst. simpl. by rewrite H. Qed.

(** Run the first step of a bind with a known result; [go H] for a step of the
    whole state, [go_fst H] for one on the first component. *)
Ltac go H := erewrite bind_ok; [|exact H]; simpl.
Ltac go_fst H := erewrite bind_ok; [|apply on_fst_run; exact H]; simpl.

(** ** Maps *)

Lemma alter_as_insert {V} (f : V → V) (k : string) (m : gmap string V) v :
  m !! k = Some v → alter f k m = <[k := f v]> m.
Proof.
  intros H. apply map_eq. intros j. destruct (decide (k = j)) as [<-|Hne].
  - by rewrite lookup_alter_eq, H, lookup_insert_eq.
  - by rewrite lookup_alter_ne, lookup_insert_ne.
Qed.

(** ** Lists *)

Lemma submseteq_NoDup {A} (l k : list A) : l ⊆+ k → NoDup k → NoDup l.
Proof.
  intros (k' & Hk)%submseteq_Permutation Hnd. rewrite Hk in Hnd.
  by apply NoDup_app in Hnd as [? _].
Qed.

Lemma filter_cons_bool {T} (f : T → bool) y l :
  filter f (y :: l) = if f y then y :: filter f l else filter f l.
Proof. rewrite filter_cons. by destruct (f y). Qed.

(** ** Machine integers *)

Definition u32_modulus : Z := 2 ^ 32.
Definition u64_modulus : Z := 2 ^ 64.
Definition u64_max : Z := u64_modulus - 1.
(** [as u64] / wrapping [u64] arithmetic (the release profile). *)
Definition wrap_u64 (z : Z) : Z := z mod u64_modulus.
Definition wrap_u32 (z : Z) : Z := z mod u32_modulus.
(** [u64::saturating_add]. *)
Definition saturating_add_u64 (a b : Z) : Z := Z.min (a + b) u64_max.

Definition is_u64 (z : Z) : Prop := (0 ≤ z < u64_modulus)%Z.

Lemma wrap_u64_is_u64 z : is_u64 (wrap_u64 z).
Proof. apply Z.mod_pos_bound. reflexivity. Qed.

Lemma wrap_u64_id z : is_u64 z → wrap_u64 z = z.
Proof. intros. by apply Z.mod_small. Qed.

(** ** Text *)

(** Decimal rendering of an unsigned integer, Rust's [{}] on [u64]/[usize]. *)
Definition show_Z (z : Z) : string := pretty z.
Definition show_nat (n : nat) : string := pretty (Z.of_nat n).

(** ** Tactics *)

(** Split every [match]/[if] in the goal, closing what is absurd. *)
Ltac split_matches :=
  simplify_eq/=; repeat (case_match; simplify_eq/=); try done.
