(* ===== verification/Float32.v ===== *)
(** * Rust's [f32]

    IEEE-754 binary32 as the Standard Library specifies it ([spec_float] with a
    24-bit mantissa and maximal exponent 128): the operations are executable
    and NaN, the infinities and both zeros are values. *)

From stdpp Require Import base tactics numbers.
From Stdlib Require Import ZArith SpecFloat.
From S2P Require Import Prelude.

Local Open Scope Z_scope.

Definition f32_prec : Z := 24.
Definition f32_emax : Z := 128.

Abbreviation f32 := spec_float.

(** Equality of representations (not the IEEE comparison). *)
#[export] Instance f32_eq_dec : EqDecision f32.
Proof. solve_decision. Defined.

(** [z as f32]: round to nearest, ties to even. *)
Definition f32_of_Z (z : Z) : f32 := binary_normalize f32_prec f32_emax z 0 false.

Definition f32_div (x y : f32) : f32 := SFdiv f32_prec f32_emax x y.
Definition f32_mul (x y : f32) : f32 := SFmul f32_prec f32_emax x y.
Definition f32_add (x y : f32) : f32 := SFadd f32_prec f32_emax x y.

(** [x > y], [x < y], [x >= y]: false as soon as one side is NaN. *)
Definition f32_gt (x y : f32) : bool := SFltb y x.
Definition f32_lt (x y : f32) : bool := SFltb x y.
Definition f32_ge (x y : f32) : bool := SFleb y x.

(** A decimal literal [num/den]; both sides are exact for the literals the
    program uses, so one correctly rounded division gives the nearest f32. *)
Definition f32_lit (num den : Z) : f32 := f32_div (f32_of_Z num) (f32_of_Z den).

Definition f32_zero : f32 := S754_zero false.
Definition f32_one : f32 := f32_of_Z 1.

(** [x.clamp(lo, hi)]; NaN passes through. *)
Definition f32_clamp (x lo hi : f32) : f32 :=
  if f32_lt x lo then lo else if f32_gt x hi then hi else x.

Definition f32_is_nan (x : f32) : bool :=
  match x with S754_nan => true | _ => false end.

(** [x.max(y)]: the other operand when one is NaN. *)
Definition f32_max (x y : f32) : f32 :=
  if f32_is_nan x then y else if f32_is_nan y then x
  else if f32_lt x y then y else x.

(** [x.partial_cmp(&y)]. *)
Definition f32_partial_cmp (x y : f32) : option comparison := SFcompare x y.

(** [x.round() as u8]: half away from zero, then the saturating cast (NaN is 0). *)
Definition f32_round_abs (m : positive) (e : Z) : Z :=
  if 0 <=? e then Zpos m * 2 ^ e
  else (Zpos m + 2 ^ (- e - 1)) / 2 ^ (- e).

Definition f32_round_as_u8 (x : f32) : Z :=
  match x with
  | S754_nan => 0
  | S754_zero _ => 0
  | S754_infinity s => if s then 0 else 255
  | S754_finite true _ _ => 0
  | S754_finite false m e => Z.min 255 (f32_round_abs m e)
  end.

Example f32_lit_04 : f32_lit 4 10 = S754_finite false 13421773 (-25).
Proof. reflexivity. Qed.
Example f32_third_gt : f32_gt (f32_div (f32_of_Z 1) (f32_of_Z 3)) (f32_lit 3 10) = true.
Proof. reflexivity. Qed.
Example f32_round_half : f32_round_as_u8 (f32_lit 5 2) = 3.
Proof. reflexivity. Qed.

(** ** Order facts *)

Lemma f32_gt_nan_r x : f32_gt x S754_nan = false.
Proof. by destruct x. Qed.

Lemma f32_gt_irrefl x : f32_gt x x = false.
Proof.
  unfold f32_gt, SFltb, SFcompare. destruct x as [[]|[]| |[] m e]; try done;
    rewrite Z.compare_refl; change (Pos.compare_cont Eq m m) with (m ?= m)%positive;
    rewrite Pos.compare_refl; done.
Qed.

Lemma f32_clamp_cases x lo hi :
  f32_clamp x lo hi = lo ∨ f32_clamp x lo hi = hi ∨
  (f32_clamp x lo hi = x ∧ f32_lt x lo = false ∧ f32_gt x hi = false).
Proof. unfold f32_clamp. destruct (f32_lt x lo), (f32_gt x hi); naive_solver. Qed.

Lemma f32_of_Z_0 : f32_of_Z 0 = f32_zero.
Proof. reflexivity. Qed.

Lemma f32_round_as_u8_range x : 0 <= f32_round_as_u8 x <= 255.
Proof.
  destruct x as [| []| |[] m e]; simpl; try lia.
  split; [|lia]. unfold f32_round_abs. apply Z.min_glb; [lia|].
  destruct (0 <=? e) eqn:He.
  - apply Z.leb_le in He. pose proof (Z.pow_nonneg 2 e). nia.
  - apply Z.leb_gt in He. apply Z.div_pos.
    + pose proof (Z.pow_nonneg 2 (- e - 1)). lia.
    + apply Z.pow_pos_nonneg; lia.
Qed.

(** * Rounding is monotone

    What scoring needs of binary32 multiplication: the values of finite floats as
    scaled integers, the product with a normal constant as one correctly rounded
    integer quotient, and that both are monotone. *)

Local Open Scope Z_scope.

(** ** Digits *)

Lemma digits_bounds m :
  2 ^ (Zpos (digits2_pos m) - 1) ≤ Zpos m < 2 ^ Zpos (digits2_pos m).
Proof.
  induction m as [m IH|m IH|]; cbn [digits2_pos]; [| |done].
  - rewrite Pos2Z.inj_succ. unfold Z.succ. rewrite Z.add_simpl_r.
    assert (0 < Zpos (digits2_pos m)) by lia.
    rewrite (Z.pow_add_r 2 (Zpos (digits2_pos m)) 1), Z.pow_1_r by lia.
    replace (Zpos (digits2_pos m)) with (Zpos (digits2_pos m) - 1 + 1) at 1 by lia.
    rewrite Z.pow_add_r, Z.pow_1_r by lia. lia.
  - rewrite Pos2Z.inj_succ. unfold Z.succ. rewrite Z.add_simpl_r.
    assert (0 < Zpos (digits2_pos m)) by lia.
    rewrite (Z.pow_add_r 2 (Zpos (digits2_pos m)) 1), Z.pow_1_r by lia.
    replace (Zpos (digits2_pos m)) with (Zpos (digits2_pos m) - 1 + 1) at 1 by lia.
    rewrite Z.pow_add_r, Z.pow_1_r by lia. lia.
Qed.

Lemma digits_le m k : 0 ≤ k → Zpos m < 2 ^ k → Zpos (digits2_pos m) ≤ k.
Proof.
  intros Hk Hm. destruct (digits_bounds m) as [Hlo _].
  destruct (Z.le_gt_cases (Zpos (digits2_pos m)) k) as [|Hgt]; [done|].
  assert (2 ^ k ≤ 2 ^ (Zpos (digits2_pos m) - 1)) by (apply Z.pow_le_mono_r; lia). lia.
Qed.

Lemma digits_ge m k : 0 ≤ k → 2 ^ k ≤ Zpos m → k + 1 ≤ Zpos (digits2_pos m).
Proof.
  intros Hk Hm. destruct (digits_bounds m) as [_ Hhi].
  destruct (Z.le_gt_cases (k + 1) (Zpos (digits2_pos m))) as [|Hgt]; [done|].
  assert (2 ^ Zpos (digits2_pos m) ≤ 2 ^ k) by (apply Z.pow_le_mono_r; lia). lia.
Qed.

(** ** The shift with its two sticky bits *)

Lemma iter_pos_nat {T} (f : T → T) p x : iter_pos f p x = Nat.iter (Pos.to_nat p) f x.
Proof.
  revert x. induction p as [p IH|p IH|]; intros x; cbn [iter_pos]; [| |done].
  - rewrite !IH, Pos2Nat.inj_xI. rewrite <-Nat.iter_add. rewrite <-Nat.iter_succ_r. f_equal. lia.
  - rewrite !IH, Pos2Nat.inj_xO. rewrite <-Nat.iter_add. f_equal. lia.
Qed.

(** After [k] steps: the quotient, the first bit shifted out, whether any later
    bit was set. *)
Definition shifted (P k : Z) (mrs : shr_record) : Prop :=
  shr_m mrs = P / 2 ^ k ∧
  ∃ low, 0 ≤ low < 2 ^ (k - 1) ∧
    P mod 2 ^ k = (if shr_r mrs then 2 ^ (k - 1) else 0) + low ∧
    shr_s mrs = negb (low =? 0).

Lemma shr_1_spec m r s :
  0 ≤ m → shr_1 (Build_shr_record m r s) = Build_shr_record (m / 2) (Z.odd m) (r || s).
Proof.
  intros Hm. destruct m as [|[p|p|]|p]; try done; try lia; simpl; f_equal.
  - by rewrite Pos2Z.inj_xI, Z.mul_comm, Z.div_add_l.
  - by rewrite Pos2Z.inj_xO, Z.mul_comm, Z.div_mul.
Qed.

Lemma shifted_first P : 0 ≤ P → shifted P 1 (shr_1 (Build_shr_record P false false)).
Proof.
  intros HP. rewrite shr_1_spec by done. split; [done|]. exists 0.
  rewrite Z.sub_diag, Z.pow_0_r, Z.pow_1_r. split; [lia|]. split; [|done]. simpl.
  rewrite Zmod_odd. by destruct (Z.odd P).
Qed.

Lemma shifted_next P k mrs :
  0 ≤ P → 1 ≤ k → shifted P k mrs → shifted P (k + 1) (shr_1 mrs).
Proof.
  intros HP Hk [Hm (low & Hlow & Hmod & Hs)]. destruct mrs as [m r s].
  cbn [shr_m shr_r shr_s] in *.
  assert (0 < 2 ^ k) by (apply Z.pow_pos_nonneg; lia).
  assert (0 < 2 ^ (k - 1)) by (apply Z.pow_pos_nonneg; lia).
  assert (2 ^ k = 2 * 2 ^ (k - 1)) as Hpow
    by (rewrite <-Z.pow_succ_r by lia; f_equal; lia).
  rewrite shr_1_spec by (subst m; apply Z.div_pos; lia). unfold shifted. cbn [shr_m shr_r shr_s].
  rewrite Z.pow_add_r, Z.pow_1_r by lia. split.
  { subst m. by rewrite Z.div_div by lia. }
  exists (P mod 2 ^ k). rewrite Z.add_simpl_r. split; [by apply Z.mod_pos_bound|]. split.
  - rewrite Z.rem_mul_r, Zmod_odd by lia. subst m. destruct (Z.odd (P / 2 ^ k)); lia.
  - subst s. rewrite Hmod.
    destruct r; [destruct (Z.eqb_spec (2 ^ (k - 1) + low) 0)|destruct (Z.eqb_spec (0 + low) 0)];
      destruct (Z.eqb_spec low 0); simpl; try done; lia.
Qed.

Lemma shr_iter P p :
  0 ≤ P → shifted P (Zpos p) (iter_pos shr_1 p (Build_shr_record P false false)).
Proof.
  intros HP. rewrite iter_pos_nat. destruct (Pos2Nat.is_succ p) as [k Hk]. rewrite Hk.
  replace (Zpos p) with (Z.of_nat k + 1) by lia. clear p Hk.
  induction k as [|k IH]; [by apply shifted_first|].
  rewrite Nat.iter_succ. replace (Z.of_nat (S k) + 1) with (Z.of_nat k + 1 + 1) by lia.
  apply shifted_next; [done|lia|done].
Qed.

(** ** Round to nearest, ties to even, of [P / 2 ^ n] *)

Definition rne (P n : Z) : Z :=
  match 2 * (P mod 2 ^ n) ?= 2 ^ n with
  | Lt => P / 2 ^ n
  | Eq => if Z.even (P / 2 ^ n) then P / 2 ^ n else P / 2 ^ n + 1
  | Gt => P / 2 ^ n + 1
  end.

Lemma rne_shifted P k mrs :
  1 ≤ k → shifted P k mrs →
  round_nearest_even (shr_m mrs) (loc_of_shr_record mrs) = rne P k.
Proof.
  intros Hk [Hm (low & Hlow & Hmod & Hs)]. destruct mrs as [m r s]. simpl in *. subst m.
  unfold rne. rewrite Hmod.
  assert (2 ^ k = 2 * 2 ^ (k - 1)) as -> by (rewrite <-Z.pow_succ_r by lia; f_equal; lia).
  set (h := 2 ^ (k - 1)) in *.
  destruct (Z.eqb_spec low 0) as [->|Hne]; cbn [negb] in Hs; subst s; destruct r;
    cbn [round_nearest_even loc_of_shr_record shr_m];
    match goal with |- context [?a ?= ?b] => destruct (Z.compare_spec a b) end; first [done|lia].
Qed.

Lemma rne_bounds P n : P / 2 ^ n ≤ rne P n ≤ P / 2 ^ n + 1.
Proof. unfold rne. destruct (_ ?= _); [destruct (Z.even _)|..]; lia. Qed.

Lemma rne_0 P : rne P 0 = P.
Proof. unfold rne. by rewrite Z.pow_0_r, Z.mod_1_r, Z.div_1_r. Qed.

(** Rounding does not pass an integer. *)
Lemma rne_le P n B : 0 ≤ n → P ≤ B * 2 ^ n → rne P n ≤ B.
Proof.
  intros Hn HP. assert (0 < 2 ^ n) as Hpos by (apply Z.pow_pos_nonneg; lia).
  pose proof (rne_bounds P n) as Hb. pose proof (Z.div_mod P (2 ^ n) ltac:(lia)) as Hdm.
  pose proof (Z.mod_pos_bound P (2 ^ n) Hpos) as Hmod.
  destruct (Z.eq_dec (P mod 2 ^ n) 0) as [H0|H0].
  - assert (rne P n = P / 2 ^ n) as ->; [|nia].
    unfold rne. rewrite H0. replace (2 * 0) with 0 by lia.
    destruct (Z.compare_spec 0 (2 ^ n)); first [done|lia].
  - assert (P / 2 ^ n < B); [|lia]. apply Z.div_lt_upper_bound; [done|].
    rewrite (Z.mul_comm (2 ^ n) B). assert (P ≠ B * 2 ^ n); [|lia]. intros ->. by rewrite Z.mod_mul in H0 by lia.
Qed.

Lemma rne_mono P1 n1 P2 n2 :
  0 ≤ n1 → 0 ≤ n2 → P1 * 2 ^ n2 ≤ P2 * 2 ^ n1 → rne P1 n1 ≤ rne P2 n2.
Proof.
  intros Hn1 Hn2 Hle. pose proof (rne_bounds P1 n1) as Hb1. pose proof (rne_bounds P2 n2) as Hb2.
  assert (0 < 2 ^ n1) as Ha by (apply Z.pow_pos_nonneg; lia).
  assert (0 < 2 ^ n2) as Hb by (apply Z.pow_pos_nonneg; lia).
  pose proof (Z.div_mod P1 (2 ^ n1) ltac:(lia)) as H1. pose proof (Z.mod_pos_bound P1 (2 ^ n1) Ha) as Hr1.
  pose proof (Z.div_mod P2 (2 ^ n2) ltac:(lia)) as H2. pose proof (Z.mod_pos_bound P2 (2 ^ n2) Hb) as Hr2.
  unfold rne in *. set (a := 2 ^ n1) in *. set (b := 2 ^ n2) in *.
  set (q1 := P1 / a) in *. set (q2 := P2 / b) in *. set (r1 := P1 mod a) in *. set (r2 := P2 mod b) in *.
  clearbody a b q1 q2 r1 r2. subst P1 P2.
  assert (q1 ≤ q2) as Hq.
  { destruct (Z.le_gt_cases q1 q2) as [|Hgt]; [done|exfalso].
    assert (r2 * a < b * a) by nia. assert (a * b * (q2 + 1) ≤ a * b * q1) by nia. nia. }
  destruct (Z.eq_dec q1 q2) as [<-|Hne]; [|lia].
  assert (r1 * b ≤ r2 * a) as Hr by nia.
  assert (a ≤ 2 * r1 → 2 * r2 < b → False) as Hhalf.
  { intros Hx Hy. assert (a * b ≤ 2 * r1 * b) by nia. assert (2 * r2 * a < b * a) by nia. lia. }
  assert (a < 2 * r1 → 2 * r2 = b → False) as Htie.
  { intros Hx Hy. assert (a * b < 2 * r1 * b) by nia. assert (2 * r2 * a = b * a) by nia. lia. }
  destruct (Z.compare_spec (2 * r1) a), (Z.compare_spec (2 * r2) b), (Z.even q1); lia.
Qed.

(** ** [binary_round_aux] for binary32 *)

Abbreviation fx := (fexp 24 128).
Lemma fx_eq e : fx e = Z.max (e - 24) (-149).
Proof. done. Qed.

(** How far the mantissa [P] is shifted at exponent [E]. *)
Definition shift_of (P E : Z) : Z := Z.max 0 (fx (Zdigits2 P + E) - E).

Lemma shr_fexp_exact P E :
  0 ≤ P → ∃ mrs, shr_fexp 24 128 P E loc_Exact = (mrs, E + shift_of P E) ∧
    shr_m mrs = P / 2 ^ shift_of P E ∧
    round_nearest_even (shr_m mrs) (loc_of_shr_record mrs) = rne P (shift_of P E).
Proof.
  intros HP. unfold shr_fexp, shr, shift_of. cbn [shr_record_of_loc].
  destruct (fx (Zdigits2 P + E) - E) as [|p|p] eqn:Hn.
  - eexists. split; [by rewrite Z.add_0_r|]. cbn. by rewrite Z.div_1_r, rne_0.
  - eexists. split; [done|]. replace (Z.max 0 (Zpos p)) with (Zpos p) by lia.
    pose proof (shr_iter P p HP) as Hs. split; [apply Hs|]. apply rne_shifted; [lia|done].
  - eexists. split; [by rewrite Z.add_0_r|]. cbn. by rewrite Z.div_1_r, rne_0.
Qed.

(** The float of a rounded mantissa [M] (at most 2^24) at exponent [e]. *)
Definition float_of (M e : Z) : f32 :=
  match M with
  | Zpos m =>
      if M =? 2 ^ 24
      then if e + 1 <=? 104 then S754_finite false (2 ^ 23) (e + 1) else S754_infinity false
      else if e <=? 104 then S754_finite false m e else S754_infinity false
  | _ => S754_zero false
  end.

Lemma round_aux_eq p E :
  let n := shift_of (Zpos p) E in
  binary_round_aux 24 128 false (Zpos p) E loc_Exact = float_of (rne (Zpos p) n) (E + n) ∧
  0 ≤ rne (Zpos p) n ≤ 2 ^ 24 ∧ -149 ≤ E + n.
Proof.
  intros n. assert (0 ≤ n) as Hn by (unfold n, shift_of; lia).
  assert (-149 ≤ E + n) as He by (unfold n, shift_of; rewrite fx_eq; lia).
  destruct (digits_bounds p) as [_ Hhi].
  assert (rne (Zpos p) n ≤ 2 ^ 24) as Hup.
  { apply rne_le; [done|]. rewrite <-Z.pow_add_r by lia.
    assert (2 ^ Zpos (digits2_pos p) ≤ 2 ^ (24 + n)); [|lia]. apply Z.pow_le_mono_r; [lia|].
    unfold n, shift_of. rewrite fx_eq. cbn [Zdigits2]. lia. }
  assert (0 ≤ rne (Zpos p) n) as Hlo.
  { pose proof (rne_bounds (Zpos p) n). pose proof (Z.div_pos (Zpos p) (2 ^ n)).
    pose proof (Z.pow_pos_nonneg 2 n). lia. }
  split; [|done]. unfold binary_round_aux.
  destruct (shr_fexp_exact (Zpos p) E ltac:(lia)) as (mrs & -> & _ & ->). fold n.
  set (M := rne (Zpos p) n) in *. set (e := E + n) in *. clearbody M e. clear mrs.
  destruct (shr_fexp_exact M e Hlo) as (mrs & -> & -> & _).
  assert (shift_of M e = if M =? 2 ^ 24 then 1 else 0) as ->.
  { unfold shift_of. rewrite fx_eq. destruct (Z.eqb_spec M (2 ^ 24)) as [->|Hne].
    - change (Zdigits2 (2 ^ 24)) with 25. lia.
    - destruct M as [|m|]; cbn [Zdigits2]; [lia| |lia].
      pose proof (digits_le m 24 ltac:(lia) ltac:(lia)). lia. }
  unfold float_of. destruct (Z.eqb_spec M (2 ^ 24)) as [->|Hne]; [done|].
  rewrite Z.pow_0_r, Z.div_1_r, Z.add_0_r. by destruct M.
Qed.

(** A normal mantissa fills its 24 bits. *)
Lemma rne_normal p E :
  E ≤ fx (Zdigits2 (Zpos p) + E) → -149 < E + shift_of (Zpos p) E →
  2 ^ 23 ≤ rne (Zpos p) (shift_of (Zpos p) E).
Proof.
  intros HE He. unfold shift_of in *. rewrite fx_eq in *. cbn [Zdigits2] in *.
  set (d := Zpos (digits2_pos p)) in *. assert (24 ≤ d) as Hd by lia.
  replace (Z.max 0 (Z.max (d + E - 24) (-149) - E)) with (d - 24) by lia.
  pose proof (rne_bounds (Zpos p) (d - 24)) as [Hb _].
  etransitivity; [|exact Hb]. apply Z.div_le_lower_bound; [apply Z.pow_pos_nonneg; lia|].
  rewrite <-Z.pow_add_r by lia. replace (d - 24 + 23) with (d - 1) by lia. apply digits_bounds.
Qed.

(** ** Values

    [val x] is the value of a non-negative float times [2 ^ 400], an integer for
    every exponent below: [2 ^ 600] for the infinity, [0] for what the saturating
    cast sends to [0] (zeros, negatives, NaN). *)

Definition val (x : f32) : Z :=
  match x with
  | S754_finite false m e => Zpos m * 2 ^ (e + 400)
  | S754_infinity false => 2 ^ 600
  | _ => 0
  end.

(** A float as the arithmetic produces it: normal, or at the least exponent. *)
Definition canonical (x : f32) : Prop :=
  match x with
  | S754_finite false m e =>
      Zpos m < 2 ^ 24 ∧ -149 ≤ e ≤ 104 ∧ (-149 < e → 2 ^ 23 ≤ Zpos m)
  | _ => True
  end.

(** A constant whose mantissa fills its 24 bits. *)
Definition full (x : f32) : Prop :=
  match x with
  | S754_finite false m e => 2 ^ 23 ≤ Zpos m < 2 ^ 24 ∧ -100 ≤ e ≤ 0
  | _ => False
  end.

Lemma pow_pos n : 0 ≤ n → 0 < 2 ^ n.
Proof. intros. apply Z.pow_pos_nonneg; lia. Qed.

Lemma full_canonical x : full x → canonical x.
Proof. destruct x as [| | |[] m e]; simpl; try done. lia. Qed.

Lemma val_nonneg x : 0 ≤ val x.
Proof. destruct x as [|[]| |[] m e]; simpl; lia. Qed.

Lemma val_finite_lt m e : canonical (S754_finite false m e) → val (S754_finite false m e) < 2 ^ 528.
Proof.
  intros (Hm & He & _). simpl. replace 528 with (24 + 504) by done. rewrite (Z.pow_add_r 2 24 504) by lia.
  assert (2 ^ (e + 400) ≤ 2 ^ 504) by (apply Z.pow_le_mono_r; lia).
  pose proof (pow_pos (e + 400)). nia.
Qed.

Lemma val_le_inf x : canonical x → val x ≤ 2 ^ 600.
Proof.
  destruct x as [|[]| |[] m e]; intros Hc; [done..|]. pose proof (val_finite_lt m e Hc). assert (2 ^ 528 ≤ 2 ^ 600) by by vm_compute. lia.
Qed.

Lemma val_finite_pos m e : canonical (S754_finite false m e) → 0 < val (S754_finite false m e).
Proof. intros (Hm & He & _). simpl. pose proof (pow_pos (e + 400)). lia. Qed.

(** ** Rounding a product *)

(** Values from [2 ^ 128] on overflow to the infinity. *)
Definition ovf (R : Z) : Z := if 2 ^ 528 <=? R then 2 ^ 600 else R.

Lemma ovf_mono R R' : R ≤ R' → ovf R ≤ ovf R'.
Proof.
  unfold ovf. intros Hle.
  assert (2 ^ 528 ≤ 2 ^ 600) by by vm_compute.
  destruct (Z.leb_spec (2 ^ 528) R), (Z.leb_spec (2 ^ 528) R'); lia.
Qed.

Lemma float_of_val M e :
  0 ≤ M ≤ 2 ^ 24 → -149 ≤ e → (-149 < e → 2 ^ 23 ≤ M) →
  canonical (float_of M e) ∧ val (float_of M e) = ovf (M * 2 ^ (e + 400)).
Proof.
  intros HM He Hn. unfold float_of, ovf.
  assert (0 < 2 ^ (e + 400)) as Hpos by (apply pow_pos; lia).
  destruct M as [|m|m]; [split; [done|]; by rewrite Z.mul_0_l| |lia].
  destruct (Z.eqb_spec (Zpos m) (2 ^ 24)) as [->|Hne].
  - rewrite <-Z.pow_add_r by lia.
    destruct (Z.leb_spec (e + 1) 104) as [Hs|Hs].
    + assert (2 ^ (24 + (e + 400)) < 2 ^ 528) as Hlt by (apply Z.pow_lt_mono_r; lia).
      destruct (Z.leb_spec (2 ^ 528) (2 ^ (24 + (e + 400)))); [lia|]. split; [simpl; lia|].
      unfold val. change (Zpos (2 ^ 23)) with (2 ^ 23). rewrite <-Z.pow_add_r by lia. f_equal. lia.
    + assert (2 ^ 528 ≤ 2 ^ (24 + (e + 400))) by (apply Z.pow_le_mono_r; lia).
      destruct (Z.leb_spec (2 ^ 528) (2 ^ (24 + (e + 400)))); [done|lia].
  - destruct (Z.leb_spec e 104) as [Hs|Hs].
    + assert (canonical (S754_finite false m e)) as Hc by (simpl; lia).
      pose proof (val_finite_lt m e Hc) as Hlt. simpl in Hlt. split; [done|].
      destruct (Z.leb_spec (2 ^ 528) (Zpos m * 2 ^ (e + 400))); [lia|done].
    + assert (2 ^ 505 ≤ 2 ^ (e + 400)) by (apply Z.pow_le_mono_r; lia).
      assert (2 ^ 528 = 2 ^ 23 * 2 ^ 505) by by vm_compute.
      destruct (Z.leb_spec (2 ^ 528) (Zpos m * 2 ^ (e + 400))); [done|nia].
Qed.

(** The exact product [p * 2 ^ E] as it reaches the rounding. *)
Definition rounded (p : positive) (E : Z) : f32 :=
  binary_round_aux 24 128 false (Zpos p) E loc_Exact.

Lemma rounded_spec p E :
  2 ^ 23 ≤ Zpos p →
  let e := fx (Zdigits2 (Zpos p) + E) in
  let M := rne (Zpos p) (e - E) in
  E ≤ e ∧ -149 ≤ e ∧ M ≤ 2 ^ 24 ∧ (-149 < e → 2 ^ 23 ≤ M) ∧
  canonical (rounded p E) ∧ val (rounded p E) = ovf (M * 2 ^ (e + 400)).
Proof.
  intros Hp e M. pose proof (digits_ge p 23 ltac:(lia) Hp) as Hd.
  assert (E ≤ e) as He by (unfold e; rewrite fx_eq; cbn [Zdigits2]; lia).
  assert (shift_of (Zpos p) E = e - E) as Hs by (unfold shift_of; fold e; lia).
  pose proof (round_aux_eq p E) as Hr. cbv zeta in Hr. rewrite Hs in Hr.
  replace (E + (e - E)) with e in Hr by lia. destruct Hr as (Hr & HM & Hlow). fold M in Hr, HM.
  assert (-149 < e → 2 ^ 23 ≤ M) as Hn.
  { intros. pose proof (rne_normal p E) as Hnorm. rewrite Hs in Hnorm. apply Hnorm; [done|lia]. }
  unfold rounded. rewrite Hr. destruct (float_of_val M e HM Hlow Hn). repeat split; auto; lia.
Qed.

Lemma rounded_canonical p E : 2 ^ 23 ≤ Zpos p → canonical (rounded p E).
Proof. intros Hw. by destruct (rounded_spec p E Hw) as (_ & _ & _ & _ & ? & _). Qed.

Lemma scale_digits K p q E F :
  - K ≤ E → - K ≤ F → Zpos p * 2 ^ (E + K) ≤ Zpos q * 2 ^ (F + K) →
  Zdigits2 (Zpos p) + E ≤ Zdigits2 (Zpos q) + F.
Proof.
  intros HE HF Hle. cbn [Zdigits2]. destruct (digits_bounds p) as [Hp _], (digits_bounds q) as [_ Hq].
  set (d := Zpos (digits2_pos p)) in *. set (f := Zpos (digits2_pos q)) in *.
  assert (0 < d) by (unfold d; lia). assert (0 < f) by (unfold f; lia).
  pose proof (pow_pos (E + K) ltac:(lia)). pose proof (pow_pos (F + K) ltac:(lia)).
  assert (2 ^ (d - 1) * 2 ^ (E + K) < 2 ^ f * 2 ^ (F + K)) as Hlt by nia.
  rewrite <-!Z.pow_add_r in Hlt by lia. apply Z.pow_lt_mono_r_iff in Hlt; lia.
Qed.

(** The exact products are compared at any scale [K] that makes both integers. *)
Lemma rounded_mono K p q E F :
  2 ^ 23 ≤ Zpos p → 2 ^ 23 ≤ Zpos q → - K ≤ E → - K ≤ F →
  Zpos p * 2 ^ (E + K) ≤ Zpos q * 2 ^ (F + K) →
  val (rounded p E) ≤ val (rounded q F).
Proof.
  intros Hp Hq HpE HqF Hle.
  destruct (rounded_spec p E Hp) as (HE & HeL & HM & _ & _ & ->).
  destruct (rounded_spec q F Hq) as (HF & HfL & _ & Hn & _ & ->).
  pose proof (scale_digits K p q E F HpE HqF Hle) as Hd.
  set (e := fx (Zdigits2 (Zpos p) + E)) in *. set (f := fx (Zdigits2 (Zpos q) + F)) in *.
  assert (e ≤ f) as Hef by (unfold e, f; rewrite !fx_eq; lia). clearbody e f.
  apply ovf_mono. destruct (Z.eq_dec e f) as [->|Hne].
  - apply Z.mul_le_mono_nonneg_r; [pose proof (pow_pos (f + 400)); lia|].
    apply rne_mono; [lia|lia|].
    apply Z.mul_le_mono_pos_r with (2 ^ (E + K) * 2 ^ (F + K)).
    { pose proof (pow_pos (E + K)). pose proof (pow_pos (F + K)). nia. }
    replace (Zpos p * 2 ^ (f - F) * (2 ^ (E + K) * 2 ^ (F + K)))
      with (Zpos p * 2 ^ (E + K) * (2 ^ (f - F) * 2 ^ (F + K))) by ring.
    replace (Zpos q * 2 ^ (f - E) * (2 ^ (E + K) * 2 ^ (F + K)))
      with (Zpos q * 2 ^ (F + K) * (2 ^ (f - E) * 2 ^ (E + K))) by ring.
    rewrite <-!(Z.pow_add_r 2 (f - _)) by lia.
    replace (f - F + (F + K)) with (f + K) by lia.
    replace (f - E + (E + K)) with (f + K) by lia.
    apply Z.mul_le_mono_nonneg_r; [pose proof (pow_pos (f + K)); lia|done].
  - assert (2 ^ 24 * 2 ^ (e + 400) ≤ 2 ^ 23 * 2 ^ (f + 400)).
    { rewrite <-!Z.pow_add_r by lia. apply Z.pow_le_mono_r; lia. }
    pose proof (pow_pos (e + 400)). pose proof (pow_pos (f + 400)). specialize (Hn ltac:(lia)). nia.
Qed.

(** ** Multiplication by a constant *)

Lemma mul_finite m e n f :
  f32_mul (S754_finite false m e) (S754_finite false n f) = rounded (m * n) (e + f).
Proof. done. Qed.

Lemma mul_comm x y : f32_mul x y = f32_mul y x.
Proof.
  destruct x as [[]|[]| |s m e], y as [[]|[]| |t n f]; try done;
    try (by destruct s); try (by destruct t).
  unfold f32_mul, SFmul. rewrite xorb_comm, Pos.mul_comm, Z.add_comm. done.
Qed.

Lemma full_mul m n f : full (S754_finite false n f) → 2 ^ 23 ≤ Zpos (m * n).
Proof. simpl. rewrite Pos2Z.inj_mul. nia. Qed.

Lemma scaled_product m n e f :
  -400 ≤ e → -400 ≤ f → -400 ≤ e + f →
  Zpos (m * n) * 2 ^ (e + f + 400) * 2 ^ 400 =
  (Zpos m * 2 ^ (e + 400)) * (Zpos n * 2 ^ (f + 400)).
Proof.
  intros. rewrite Pos2Z.inj_mul.
  replace (Zpos m * 2 ^ (e + 400) * (Zpos n * 2 ^ (f + 400)))
    with (Zpos m * Zpos n * (2 ^ (e + 400) * 2 ^ (f + 400))) by ring.
  rewrite <-Z.mul_assoc, <-!Z.pow_add_r by lia. do 2 f_equal. lia.
Qed.

Lemma mul_negative m e n f :
  canonical (f32_mul (S754_finite true m e) (S754_finite false n f)) ∧
  val (f32_mul (S754_finite true m e) (S754_finite false n f)) = 0.
Proof.
  unfold f32_mul, SFmul. cbn [xorb]. unfold binary_round_aux.
  destruct (shr_fexp _ _ _ _ loc_Exact) as [mrs e1]. destruct (shr_fexp _ _ _ e1 _) as [mrs2 e2].
  destruct (shr_m mrs2); [done| |done]. by destruct (_ <=? _).
Qed.

(** The product with a full constant is canonical, whatever the other factor is. *)
Lemma mul_canonical x c : full c → canonical (f32_mul x c).
Proof.
  destruct c as [| | |[] n f]; try done.
  destruct x as [[]|[]| |[] m e]; intros Hc; try done; [apply mul_negative|].
  rewrite mul_finite. by eapply rounded_canonical, full_mul.
Qed.

(** A larger constant gives a larger product, whatever the other factor is. *)
Lemma mul_mono_const x c d :
  full c → full d → val c ≤ val d → val (f32_mul x c) ≤ val (f32_mul x d).
Proof.
  intros Hc Hd Hcd. destruct c as [| | |[] n f]; try done. destruct d as [| | |[] n' f']; try done.
  destruct x as [[]|[]| |[] m e]; try done; [by rewrite !(proj2 (mul_negative _ _ _ _))|].
  rewrite !mul_finite.
  apply (rounded_mono (400 + Z.abs e)); [by eapply full_mul..| | |]; [simpl in Hc; lia|simpl in Hd; lia|].
  simpl in Hc, Hd. unfold val in Hcd. rewrite !Pos2Z.inj_mul, <-!Z.mul_assoc.
  apply Z.mul_le_mono_nonneg_l; [lia|].
  replace (e + f + (400 + Z.abs e)) with (f + 400 + (e + Z.abs e)) by lia.
  replace (e + f' + (400 + Z.abs e)) with (f' + 400 + (e + Z.abs e)) by lia.
  rewrite !(Z.pow_add_r 2 (_ + 400)), !Z.mul_assoc by lia.
  apply Z.mul_le_mono_nonneg_r; [lia|done].
Qed.

(** A larger canonical factor gives a larger product with the same constant. *)
Lemma mul_mono x y c :
  canonical x → canonical y → full c → val x ≤ val y →
  val (f32_mul x c) ≤ val (f32_mul y c).
Proof.
  intros Hx Hy Hc Hxy. pose proof (mul_canonical x c Hc) as Hxc.
  destruct c as [| | |[] n f]; try done.
  destruct x as [[]|[]| |[] m e]; try (by apply val_nonneg);
    [|rewrite (proj2 (mul_negative m e n f)); by apply val_nonneg|].
  - destruct y as [|[]| |[] m' e']; try done. exfalso.
    pose proof (val_finite_lt m' e' Hy). assert (2 ^ 528 < val (S754_infinity false)) by by vm_compute. lia.
  - pose proof (val_finite_pos m e Hx) as Hpos.
    destruct y as [|[]| |[] m' e']; try (cbn [val] in Hxy; simpl in Hxy, Hpos; lia);
      [by apply val_le_inf|].
    rewrite !mul_finite. apply (rounded_mono 400); [by eapply full_mul..| | |];
      destruct Hx as (_ & ? & _), Hy as (_ & ? & _), Hc as [? ?]; [lia|lia|].
    apply Z.mul_le_mono_pos_r with (2 ^ 400); [by vm_compute|].
    rewrite !scaled_product by lia. unfold val in Hxy.
    apply Z.mul_le_mono_nonneg_r; [|done]. pose proof (pow_pos (f + 400)). lia.
Qed.

(** ** Clamping to [0, 1] *)

Lemma one_val : val f32_one = 2 ^ 400.
Proof. by vm_compute. Qed.

Lemma full_one : full f32_one.
Proof. by vm_compute. Qed.

Lemma gt_one m e :
  canonical (S754_finite false m e) →
  f32_gt (S754_finite false m e) f32_one = (2 ^ 400 <? val (S754_finite false m e)).
Proof.
  intros (Hm & He & Hn). change f32_one with (S754_finite false 8388608 (-23)).
  unfold f32_gt, SFltb, SFcompare. unfold val.
  destruct (Z.compare_spec (-23) e) as [<-|Hlt|Hgt].
  1: assert (2 ^ 400 = 8388608 * 2 ^ (-23 + 400)) as -> by (by vm_compute);
    pose proof (pow_pos (-23 + 400) ltac:(lia)); set (K := 2 ^ (-23 + 400)) in *; clearbody K.
  - change (Pos.compare_cont Eq 8388608 m) with (Zpos 8388608 ?= Zpos m).
    destruct (Z.compare_spec 8388608 (Zpos m)) as [[= <-]|Hc|Hc].
    + symmetry. by apply Z.ltb_irrefl.
    + symmetry. apply Z.ltb_lt. apply Z.mul_lt_mono_pos_r; lia.
    + symmetry. apply Z.ltb_ge. apply Z.mul_le_mono_nonneg_r; lia.
  - symmetry. apply Z.ltb_lt. specialize (Hn ltac:(lia)).
    assert (2 ^ 378 ≤ 2 ^ (e + 400)) by (apply Z.pow_le_mono_r; lia).
    assert (2 ^ 400 < 2 ^ 23 * 2 ^ 378) by by vm_compute. nia.
  - symmetry. apply Z.ltb_ge. assert (2 ^ (e + 400) ≤ 2 ^ 376) by (apply Z.pow_le_mono_r; lia).
    assert (2 ^ 400 = 2 ^ 24 * 2 ^ 376) by by vm_compute. pose proof (pow_pos (e + 400)). nia.
Qed.

Lemma clamp_val x :
  canonical x → canonical (f32_clamp x f32_zero f32_one) ∧
  val (f32_clamp x f32_zero f32_one) = Z.min (val x) (2 ^ 400).
Proof.
  intros Hx. unfold f32_clamp.
  destruct x as [[]|[]| |[] m e]; [by vm_compute..| |by vm_compute|].
  - done.
  - replace (f32_lt (S754_finite false m e) f32_zero) with false by done.
    rewrite gt_one by done. destruct (Z.ltb_spec (2 ^ 400) (val (S754_finite false m e))).
    + rewrite one_val. split; [apply full_canonical, full_one|lia].
    + split; [done|lia].
Qed.

(** ** [x.round() as u8] *)

Lemma round_as_u8_val x :
  canonical x → f32_round_as_u8 x = Z.min 255 ((2 * val x + 2 ^ 400) / 2 ^ 401).
Proof.
  intros Hx. destruct x as [|[]| |[] m e]; [by vm_compute..|].
  destruct Hx as (_ & He & _). cbn [f32_round_as_u8 val]. f_equal. unfold f32_round_abs.
  assert (2 * (Zpos m * 2 ^ (e + 400)) = Zpos m * 2 ^ (e + 401)) as ->.
  { replace (e + 401) with (1 + (e + 400)) by lia. rewrite (Z.pow_add_r 2 1), Z.pow_1_r by lia. ring. }
  destruct (Z.leb_spec 0 e) as [Hs|Hs].
  - rewrite Z.pow_add_r, Z.mul_assoc by lia. rewrite Z.div_add_l by by vm_compute.
    replace (2 ^ 400 / 2 ^ 401) with 0 by by vm_compute. lia.
  - replace (2 ^ 401) with (2 ^ (- e) * 2 ^ (e + 401)) by (rewrite <-Z.pow_add_r by lia; f_equal; lia).
    replace (2 ^ 400) with (2 ^ (- e - 1) * 2 ^ (e + 401)) by (rewrite <-Z.pow_add_r by lia; f_equal; lia).
    rewrite <-Z.mul_add_distr_r. rewrite Z.div_mul_cancel_r; [done|..].
    + pose proof (pow_pos (- e)). lia.
    + pose proof (pow_pos (e + 401)). lia.
Qed.

Lemma round_as_u8_mono x y :
  canonical x → canonical y → val x ≤ val y → f32_round_as_u8 x ≤ f32_round_as_u8 y.
Proof.
  intros Hx Hy Hle. rewrite !round_as_u8_val by done. apply Z.min_le_compat_l.
  apply Z.div_le_mono; [by vm_compute|lia].
Qed.
