(* ===== verification/Action.v ===== *)
(** * Remediation actions and their audit trail

    [server/remediation/src/action.rs] and [audit.rs]: the user-authored action,
    its lifecycle states, and the audit events.  The sink is an interface; the
    in-memory sink is its reference instance. *)

From stdpp Require Import base tactics gmap strings list.
From Stdlib Require Import ZArith.
From S2P Require Import Prelude Float32.

(** ** Data (action.rs) *)

Module Method.
Inductive Method := Shell | PackageMgr | Ansible | CustomTool | Webhook.
End Method.
Abbreviation Method := Method.Method.

Record AssetSelector := mkAssetSelector { asset_ids : list string }.

(** True only if the selector names at least one explicit asset. *)
Definition is_scoped (sel : AssetSelector) : bool :=
  negb (match asset_ids sel with [] => true | _ :: _ => false end).

Record CanarySpec := mkCanarySpec {
  cohort_size : nat;
  failure_threshold : f32;
}.

Record VerifySpec := mkVerifySpec { finding_ids : list string }.

Record RemediationAction := mkRemediationAction {
  action_id : string;
  action_name : string;
  action_method : Method;
  action_payload : string;
  action_targets : AssetSelector;
  requires_approval : bool;
  dry_run_supported : bool;
  action_rollback : option string;
  action_verify : VerifySpec;
  action_canary : CanarySpec;
}.

#[export] Instance Method_eq_dec : EqDecision Method.
Proof. solve_decision. Defined.
#[export] Instance AssetSelector_eq_dec : EqDecision AssetSelector.
Proof. solve_decision. Defined.
#[export] Instance CanarySpec_eq_dec : EqDecision CanarySpec.
Proof. solve_decision. Defined.
#[export] Instance VerifySpec_eq_dec : EqDecision VerifySpec.
Proof. solve_decision. Defined.
#[export] Instance RemediationAction_eq_dec : EqDecision RemediationAction.
Proof. solve_decision. Defined.

Definition targets_of (a : RemediationAction) : list string :=
  asset_ids (action_targets a).

Module ActionState.
Inductive ActionState :=
  | Drafted | Mapped | DryRun | PendingApproval | Approved | Canary
  | CanaryVerify | Rollout | Verify | Closed | Aborted | RolledBack
  | RollbackIncomplete.

#[export] Instance ActionState_eq_dec : EqDecision ActionState.
Proof. solve_decision. Defined.

(** The derived Debug rendering. *)
Definition debug (s : ActionState) : string :=
  match s with
  | Drafted => "Drafted" | Mapped => "Mapped" | DryRun => "DryRun"
  | PendingApproval => "PendingApproval" | Approved => "Approved"
  | Canary => "Canary" | CanaryVerify => "CanaryVerify" | Rollout => "Rollout"
  | Verify => "Verify" | Closed => "Closed" | Aborted => "Aborted"
  | RolledBack => "RolledBack" | RollbackIncomplete => "RollbackIncomplete"
  end.
End ActionState.
Abbreviation ActionState := ActionState.ActionState.
Export (hints) ActionState.

(** ** Audit trail (audit.rs) *)

Module Outcome.
Inductive Outcome := Ok | Rejected | Failed.

#[export] Instance Outcome_eq_dec : EqDecision Outcome.
Proof. solve_decision. Defined.
End Outcome.
Abbreviation Outcome := Outcome.Outcome.
Export (hints) Outcome.

Record AuditEvent := mkAuditEvent {
  ev_seq : Z;
  ev_action_id : string;
  ev_from : option ActionState;
  ev_to : ActionState;
  ev_actor : string;
  ev_outcome : Outcome;
  ev_detail : string;
}.

(** The audit destination: [trait AuditSink]. *)
Class AuditSink (A : Type) := record : A → AuditEvent → A.

(** What the bridge's clients rely on of a sink: it keeps every event, in the
    order recorded. *)
Class AuditLog (A : Type) `{AuditSink A} := {
  events : A → list AuditEvent;
  events_record : ∀ a e, events (record a e) = events a ++ [e];
}.

Record VecAuditSink := mkVecAuditSink { vec_events : list AuditEvent }.

#[export] Instance VecAuditSink_record : AuditSink VecAuditSink :=
  λ sink event, mkVecAuditSink (vec_events sink ++ [event]).

#[export] Program Instance VecAuditSink_log : AuditLog VecAuditSink := {|
  events := vec_events;
|}.
Next Obligation. done. Qed.

#[export] Hint Rewrite @events_record : torda.
