(* ===== verification/Bridge.v ===== *)
(** * The Remediation Bridge

    [server/remediation/src/bridge.rs]: the action state machine with its gates,
    the execution stages and the audit of every attempt.  [Bridge] is the
    struct, each method is a computation in the state-and-error monad over it
    (over the bridge and the executor for the stages that apply a fix). *)

From stdpp Require Import base tactics gmap strings list.
From Stdlib Require Import ZArith.
From S2P Require Import Prelude Float32 Action.

(** ** Seams *)

(** [trait Executor]: [None] is [Ok(())], [Some e] is [Err(e)] with its text.
    [&mut self] is the executor value threaded through. *)
Class Executor (E : Type) := {
  exec_preview : E → RemediationAction → string;
  exec_apply : E → RemediationAction → string → E * option string;
  exec_rollback : E → RemediationAction → string → E * option string;
}.

Module VerifyOutcome.
Inductive VerifyOutcome := Fixed | NotFixed.
#[export] Instance VerifyOutcome_eq_dec : EqDecision VerifyOutcome.
Proof. solve_decision. Defined.
End VerifyOutcome.
Abbreviation VerifyOutcome := VerifyOutcome.VerifyOutcome.
Export (hints) VerifyOutcome.

(** [trait Verifier]. *)
Class Verifier (V : Type) :=
  verify : V → RemediationAction → list string → VerifyOutcome.

Module StageOutcome.
Inductive StageOutcome :=
  | Promoted | Closed | RolledBack | AppliedUnverified | RolledBackByOperator.
#[export] Instance StageOutcome_eq_dec : EqDecision StageOutcome.
Proof. solve_decision. Defined.

(** The derived Debug rendering. *)
Definition debug (s : StageOutcome) : string :=
  match s with
  | Promoted => "Promoted" | Closed => "Closed" | RolledBack => "RolledBack"
  | AppliedUnverified => "AppliedUnverified"
  | RolledBackByOperator => "RolledBackByOperator"
  end.
End StageOutcome.
Abbreviation StageOutcome := StageOutcome.StageOutcome.
Export (hints) StageOutcome.

Record DryRunPreview := mkDryRunPreview {
  preview_action_id : string;
  preview_targets : list string;
  preview_text : string;
}.

(** [struct Record]. *)
Record BridgeRecord := mkRecord {
  rec_action : RemediationAction;
  rec_state : ActionState;
  rec_applied : list string;
}.

Record Bridge (A : Type) := mkBridge {
  actions : gmap string BridgeRecord;
  audit : A;
  seq : Z;
}.
Arguments mkBridge {A} actions audit seq.
Arguments actions {A} b : rename.
Arguments audit {A} b : rename.
Arguments seq {A} b : rename.

Definition set_rec_state (to : ActionState) (r : BridgeRecord) : BridgeRecord :=
  mkRecord (rec_action r) to (rec_applied r).
Definition set_rec_applied (l : list string) (r : BridgeRecord) : BridgeRecord :=
  mkRecord (rec_action r) (rec_state r) l.
Definition push_rec_applied (t : string) (r : BridgeRecord) : BridgeRecord :=
  set_rec_applied (rec_applied r ++ [t]) r.

Section bridge.
Context {A : Type} `{!AuditSink A}.
Implicit Types (b : Bridge A) (id actor detail : string).

Definition bridge_new (sink : A) : Bridge A := mkBridge ∅ sink 0.

Definition state (b : Bridge A) (id : string) : option ActionState :=
  rec_state <$> actions b !! id.

(** Record one event: take the sequence number, advance it, hand the event to
    the sink. *)
Definition log_event (b : Bridge A) (id : string) (from : option ActionState)
    (to : ActionState) (actor : string) (outcome : Outcome) (detail : string) :
    Bridge A :=
  mkBridge (actions b)
    (record (audit b) (mkAuditEvent (seq b) id from to actor outcome detail))
    (wrap_u64 (seq b + 1)).

Definition log (id : string) (from : option ActionState) (to : ActionState)
    (actor : string) (outcome : Outcome) (detail : string) : M (Bridge A) unit :=
  modify (λ b, log_event b id from to actor outcome detail).

Definition with_actions (f : gmap string BridgeRecord → gmap string BridgeRecord)
    (b : Bridge A) : Bridge A :=
  mkBridge (f (actions b)) (audit b) (seq b).

(** [self.actions.get(id).unwrap()]. *)
Definition get_rec (id : string) : M (Bridge A) BridgeRecord :=
  o ← gets (λ b, actions b !! id); unwrap o.

(** [f(self.actions.get_mut(id).unwrap())]. *)
Definition modify_rec (id : string) (f : BridgeRecord → BridgeRecord) :
    M (Bridge A) unit :=
  get_rec id;; modify (with_actions (alter f id)).

Definition audit_rejected_command (id actor detail : string) : M (Bridge A) unit :=
  modify (λ b, log_event b id None ActionState.Aborted actor Outcome.Rejected detail).

Definition audit_execution_failure (id actor detail : string) : M (Bridge A) unit :=
  modify (λ b, log_event b id None (default ActionState.Aborted (state b id))
                 actor Outcome.Failed detail).

(** Gate 2 (scope): an unscoped selector is refused and not stored. *)
Definition draft (action : RemediationAction) (actor : string) : M (Bridge A) unit :=
  if negb (is_scoped (action_targets action)) then
    log (action_id action) None ActionState.Drafted actor Outcome.Rejected
      "unscoped selector";;
    bail ("action " +:+ action_id action +:+ " has no explicit targets")
  else
    modify (with_actions (insert (action_id action)
              (mkRecord action ActionState.Drafted [])));;
    log (action_id action) None ActionState.Drafted actor Outcome.Ok "drafted".

(** A transition taken only from an allowed state; audited either way. *)
Definition guarded (id : string) (allowed : list ActionState) (to : ActionState)
    (actor detail : string) : M (Bridge A) unit :=
  from ← gets (λ b, state b id);
  match from with
  | Some s =>
      if decide (s ∈ allowed) then
        modify_rec id (set_rec_state to);;
        log id (Some s) to actor Outcome.Ok detail
      else
        log id (Some s) to actor Outcome.Rejected "illegal transition";;
        bail ("action " +:+ id +:+ " cannot move " +:+ ActionState.debug s
                +:+ " -> " +:+ ActionState.debug to)
  | None => bail ("no action " +:+ id)
  end.

Definition map_to_item (id item_key actor : string) : M (Bridge A) unit :=
  guarded id [ActionState.Drafted] ActionState.Mapped actor
    ("mapped to " +:+ item_key).

(** Gate 3 (dry run): the executor is only read. *)
Definition dry_run {E} `{!Executor E} (x : E) (id actor : string) :
    M (Bridge A) DryRunPreview :=
  o ← gets (λ b, actions b !! id);
  rec ← ok_or o ("no action " +:+ id);
  if negb (bool_decide (rec_state rec ∈ [ActionState.Drafted; ActionState.Mapped]))
  then
    log id (Some (rec_state rec)) ActionState.DryRun actor Outcome.Rejected
      "not draftable state for dry-run";;
    bail ("action " +:+ id +:+ " cannot dry-run from "
            +:+ ActionState.debug (rec_state rec))
  else
    modify_rec id (set_rec_state ActionState.DryRun);;
    log id (Some (rec_state rec)) ActionState.DryRun actor Outcome.Ok
      "dry-run preview (no side effects)";;
    mret (mkDryRunPreview id (targets_of (rec_action rec))
            (exec_preview x (rec_action rec))).

Definition submit_for_approval (id actor : string) : M (Bridge A) unit :=
  guarded id [ActionState.DryRun] ActionState.PendingApproval actor
    "submitted for approval".

(** Gate 4 (approval). *)
Definition approve (id approver : string) : M (Bridge A) unit :=
  guarded id [ActionState.PendingApproval] ActionState.Approved approver "approved".

Definition reject (id approver reason : string) : M (Bridge A) unit :=
  guarded id [ActionState.PendingApproval] ActionState.Aborted approver
    ("rejected: " +:+ reason).

(** The kill switch. *)
Definition abort (id actor reason : string) : M (Bridge A) unit :=
  guarded id
    [ActionState.Approved; ActionState.Canary; ActionState.CanaryVerify;
     ActionState.Rollout; ActionState.Verify]
    ActionState.Aborted actor ("kill switch: " +:+ reason).

(** Unguarded state set, used inside a stage after its entry guard. *)
Definition set_state (id : string) (to : ActionState) (actor detail : string) :
    M (Bridge A) unit :=
  from ← gets (λ b, state b id);
  modify (with_actions (alter (set_rec_state to) id));;
  log id from to actor Outcome.Ok detail.

(** ** Execution stages *)

Section stages.
Context {E V : Type} `{!Executor E} `{!Verifier V}.

Definition call_apply (action : RemediationAction) (t : string) :
    M (Bridge A * E) (option string) :=
  λ s, let '(x', r) := exec_apply s.2 action t in ((s.1, x'), Ok r).

Definition call_rollback (action : RemediationAction) (t : string) :
    M (Bridge A * E) (option string) :=
  λ s, let '(x', r) := exec_rollback s.2 action t in ((s.1, x'), Ok r).

(** The [for t in targets] loop of [apply_targets]; [failures] counts. *)
Fixpoint apply_loop (id : string) (action : RemediationAction)
    (stage : ActionState) (actor : string) (targets : list string)
    (failures : nat) : M (Bridge A * E) nat :=
  match targets with
  | [] => mret failures
  | t :: ts =>
      r ← call_apply action t;
      match r with
      | None =>
          on_fst (modify_rec id (push_rec_applied t));;
          on_fst (log id (Some stage) stage actor Outcome.Ok ("applied to " +:+ t));;
          apply_loop id action stage actor ts failures
      | Some e =>
          on_fst (log id (Some stage) stage actor Outcome.Failed
                    ("apply failed on " +:+ t +:+ ": " +:+ e));;
          apply_loop id action stage actor ts (S failures)
      end
  end.

(** The share of targets that failed; no targets is no failure. *)
Definition failure_rate (failures total : nat) : f32 :=
  if decide (total = 0) then f32_zero
  else f32_div (f32_of_Z (Z.of_nat failures)) (f32_of_Z (Z.of_nat total)).

Definition apply_targets (id : string) (targets : list string)
    (stage : ActionState) (actor : string) : M (Bridge A * E) f32 :=
  rec ← on_fst (get_rec id);
  failures ← apply_loop id (rec_action rec) stage actor targets 0;
  mret (failure_rate failures (length targets)).

Fixpoint rollback_loop (id : string) (action : RemediationAction)
    (actor : string) (applied failed : list string) :
    M (Bridge A * E) (list string) :=
  match applied with
  | [] => mret failed
  | t :: ts =>
      r ← call_rollback action t;
      match r with
      | None =>
          on_fst (log id None ActionState.RolledBack actor Outcome.Ok
                    ("rolled back " +:+ t));;
          rollback_loop id action actor ts failed
      | Some e =>
          on_fst (log id None ActionState.RolledBack actor Outcome.Failed
                    ("rollback error on " +:+ t +:+ ": " +:+ e));;
          rollback_loop id action actor ts (failed ++ [t])
      end
  end.

(** Roll back every applied target, keep the ones that failed. *)
Definition rollback_applied (id actor : string) : M (Bridge A * E) (list string) :=
  rec ← on_fst (get_rec id);
  failed ← rollback_loop id (rec_action rec) actor (rec_applied rec) [];
  on_fst (modify_rec id (set_rec_applied failed));;
  mret failed.

(** [asset_ids[..n].to_vec()]: a slice past the end panics. *)
Definition slice_to {S} (l : list string) (n : nat) : M S (list string) :=
  if decide (n ≤ length l) then mret (take n l) else panic.

(** [cohort_size.max(1).min(targets.len())]. *)
Definition canary_cohort_len (action : RemediationAction) : nat :=
  Nat.min (Nat.max (cohort_size (action_canary action)) 1)
          (length (targets_of action)).

Definition run_canary (v : V) (id actor : string) :
    M (Bridge A * E) StageOutcome :=
  on_fst (guarded id [ActionState.Approved] ActionState.Canary actor
            "canary started");;
  rec ← on_fst (get_rec id);
  cohort ← slice_to (targets_of (rec_action rec))
             (canary_cohort_len (rec_action rec));
  rate ← apply_targets id cohort ActionState.Canary actor;
  on_fst (set_state id ActionState.CanaryVerify actor "canary applied");;
  if f32_gt rate (failure_threshold (action_canary (rec_action rec))) then
    rollback_applied id actor;;
    on_fst (set_state id ActionState.RolledBack actor
              "canary failure exceeded threshold");;
    mret StageOutcome.RolledBack
  else
    rec' ← on_fst (get_rec id);
    match verify v (rec_action rec') (rec_applied rec') with
    | VerifyOutcome.Fixed =>
        on_fst (set_state id ActionState.Rollout actor
                  "canary verified; promoting to rollout");;
        mret StageOutcome.Promoted
    | VerifyOutcome.NotFixed =>
        rollback_applied id actor;;
        on_fst (set_state id ActionState.RolledBack actor
                  "canary verification failed");;
        mret StageOutcome.RolledBack
    end.

Definition run_rollout (v : V) (id actor : string) :
    M (Bridge A * E) StageOutcome :=
  o ← on_fst (gets (λ b, actions b !! id));
  rec ← ok_or o ("no action " +:+ id);
  if negb (bool_decide (rec_state rec = ActionState.Rollout)) then
    on_fst (log id (Some (rec_state rec)) ActionState.Rollout actor
              Outcome.Rejected "rollout requires a promoted canary");;
    bail ("action " +:+ id +:+ " not in Rollout")
  else
    rate ← apply_targets id
             (filter (λ t, t ∉ rec_applied rec) (targets_of (rec_action rec)))
             ActionState.Rollout actor;
    on_fst (set_state id ActionState.Verify actor "rollout applied");;
    if f32_gt rate (failure_threshold (action_canary (rec_action rec))) then
      rollback_applied id actor;;
      on_fst (set_state id ActionState.RolledBack actor
                "rollout failure exceeded threshold");;
      mret StageOutcome.RolledBack
    else
      rec' ← on_fst (get_rec id);
      match verify v (rec_action rec') (rec_applied rec') with
      | VerifyOutcome.Fixed =>
          on_fst (set_state id ActionState.Closed actor
                    "rollout verified; closed");;
          mret StageOutcome.Closed
      | VerifyOutcome.NotFixed =>
          on_fst (log id (Some ActionState.Verify) ActionState.Verify actor
                    Outcome.Rejected
                    "rollout applied but verification failed (applied-but-unverified)");;
          mret StageOutcome.AppliedUnverified
      end.

(** The states an operator rollback is accepted from. *)
Definition rollbackable (s : ActionState) : bool :=
  match s with
  | ActionState.Closed | ActionState.Verify | ActionState.Rollout
  | ActionState.RollbackIncomplete => true
  | _ => false
  end.

Definition run_rollback (id actor : string) : M (Bridge A * E) StageOutcome :=
  o ← on_fst (gets (λ b, actions b !! id));
  rec ← ok_or o ("no action " +:+ id);
  if negb (rollbackable (rec_state rec)) then
    on_fst (log id (Some (rec_state rec)) ActionState.RolledBack actor
              Outcome.Rejected "rollback requires an applied action");;
    bail ("action " +:+ id +:+ " not in an applied state")
  else
    (if bool_decide (rec_applied rec = [])
     then on_fst (modify_rec id (set_rec_applied (targets_of (rec_action rec))))
     else mret tt);;
    failed ← rollback_applied id actor;
    match failed with
    | _ :: _ =>
        from ← on_fst (gets (λ b, state b id));
        on_fst (modify (with_actions
                  (alter (set_rec_state ActionState.RollbackIncomplete) id)));;
        on_fst (log id from ActionState.RollbackIncomplete actor Outcome.Failed
                  ("operator-commanded rollback failed on "
                     +:+ show_nat (length failed)
                     +:+ " target(s); change still present"));;
        bail ("rollback failed on " +:+ show_nat (length failed) +:+ " target(s)")
    | [] =>
        on_fst (set_state id ActionState.RolledBack actor
                  "operator-commanded rollback");;
        mret StageOutcome.RolledBackByOperator
    end.

End stages.
End bridge.
