(* ===== verification/BridgeSpec.v ===== *)
(** * What the bridge promises: the lifecycle automaton

    The abstract specification of the Remediation Bridge, independent of how
    [bridge.rs] is written: the action lifecycle as a transition table, and an
    automaton that reads an audit trail and either rejects it or says in which
    state every action is.  [BridgeFacts] proves that every trail the bridge can
    produce is accepted, and that the automaton's states are the bridge's. *)

From stdpp Require Import base tactics gmap strings list.
From Stdlib Require Import ZArith.
From S2P Require Import Prelude Action Bridge.

Import ActionState.

(** The documented lifecycle. *)
Definition lifecycle (s t : ActionState) : bool :=
  match s, t with
  | Drafted, Mapped => true
  | (Drafted | Mapped), DryRun => true
  | DryRun, PendingApproval => true
  | PendingApproval, (Approved | Aborted) => true
  | Approved, Canary => true
  | Canary, CanaryVerify => true
  | CanaryVerify, (Rollout | RolledBack) => true
  | Rollout, Verify => true
  | Verify, Closed => true
  | (Closed | Verify | Rollout | RollbackIncomplete), RolledBack => true
  | (Approved | Canary | CanaryVerify | Rollout | Verify), Aborted => true
  | _, _ => false
  end.

(** The states in which the fix may be on some target, so that a target may be
    rolled back. *)
Definition revertible (s : ActionState) : bool :=
  match s with
  | CanaryVerify | Verify | Closed | Rollout | RollbackIncomplete => true
  | _ => false
  end.

(** The two stages that apply the fix. *)
Definition applies (s : ActionState) : bool :=
  match s with Canary | Rollout => true | _ => false end.

Definition is_target_apply (e : AuditEvent) (s : ActionState) : bool :=
  bool_decide (ev_to e = s) && applies s.

(** Read one event. *)
Definition spec_step (m : gmap string ActionState) (e : AuditEvent) :
    option (gmap string ActionState) :=
  let id := ev_action_id e in
  match ev_outcome e, ev_from e with
  | Outcome.Rejected, None => Some m
  | Outcome.Rejected, Some s =>
      if bool_decide (m !! id = Some s) then Some m else None
  | Outcome.Ok, None =>
      match ev_to e with
      | Drafted => Some (<[id := Drafted]> m)
      | RolledBack =>
          match m !! id with
          | Some s => if revertible s then Some m else None
          | None => None
          end
      | _ => None
      end
  | Outcome.Ok, Some s =>
      if bool_decide (m !! id = Some s) then
        if is_target_apply e s then Some m
        else if lifecycle s (ev_to e) then Some (<[id := ev_to e]> m) else None
      else None
  | Outcome.Failed, None =>
      if bool_decide (ev_to e = default Aborted (m !! id)) then Some m
      else if bool_decide (ev_to e = RolledBack) then
        match m !! id with
        | Some s => if revertible s then Some m else None
        | None => None
        end
      else None
  | Outcome.Failed, Some s =>
      if bool_decide (m !! id = Some s) then
        if is_target_apply e s then Some m
        else if bool_decide (ev_to e = RollbackIncomplete) && rollbackable s
        then Some (<[id := RollbackIncomplete]> m) else None
      else None
  end.

(** Read a trail. *)
Definition spec_run (m : gmap string ActionState) (l : list AuditEvent) :
    option (gmap string ActionState) :=
  foldl (λ o e, o ≫= λ m, spec_step m e) (Some m) l.

(** ** The gates an action has passed, as its trail shows them *)

(** Is [e] a state change of [id] that was carried out? *)
Definition is_transition (id : string) (e : AuditEvent) : bool :=
  bool_decide (ev_action_id e = id) &&
  match ev_outcome e, ev_from e with
  | Outcome.Ok, Some s => negb (is_target_apply e s)
  | _, _ => false
  end.

Definition is_draft (id : string) (e : AuditEvent) : bool :=
  bool_decide (ev_action_id e = id ∧ ev_outcome e = Outcome.Ok ∧
               ev_from e = None ∧ ev_to e = Drafted).

(** The state changes of [id] since it was last drafted, oldest first, with the
    actor of each. *)
Definition milestones_step (id : string) (acc : list (ActionState * string))
    (e : AuditEvent) : list (ActionState * string) :=
  if is_draft id e then [(Drafted, ev_actor e)]
  else if is_transition id e then acc ++ [(ev_to e, ev_actor e)]
  else acc.

Definition milestones (id : string) (l : list AuditEvent) :
    list (ActionState * string) :=
  foldl (milestones_step id) [] l.

(** The gates that lie behind an action in state [s]. *)
Definition gates_before (s : ActionState) : list ActionState :=
  match s with
  | Drafted | Mapped => [Drafted]
  | DryRun => [Drafted; DryRun]
  | PendingApproval | Aborted => [Drafted; DryRun; PendingApproval]
  | _ => [Drafted; DryRun; PendingApproval; Approved]
  end.

(** ** Facts about the automaton *)

Lemma spec_run_nil m : spec_run m [] = Some m.
Proof. done. Qed.

Lemma spec_run_None l : foldl (λ o e, o ≫= λ m, spec_step m e) None l = None.
Proof. by induction l. Qed.

Lemma spec_run_app m l1 l2 :
  spec_run m (l1 ++ l2) = spec_run m l1 ≫= λ m', spec_run m' l2.
Proof.
  unfold spec_run. rewrite foldl_app.
  destruct (foldl _ (Some m) l1); simpl; [done|]. apply spec_run_None.
Qed.

Lemma spec_run_one m e : spec_run m [e] = spec_step m e.
Proof. done. Qed.

(** Events that leave the automaton where it is. *)
Lemma spec_run_noop m l :
  Forall (λ e, spec_step m e = Some m) l → spec_run m l = Some m.
Proof.
  induction 1 as [|e l He _ IH]; [done|].
  unfold spec_run in *. simpl. by rewrite He.
Qed.

Lemma milestones_snoc id l e :
  milestones id (l ++ [e]) = milestones_step id (milestones id l) e.
Proof. unfold milestones. by rewrite foldl_app. Qed.

Lemma gates_before_step s t :
  lifecycle s t = true →
  gates_before t `sublist_of` gates_before s ++ [t].
Proof.
  intros H. destruct s, t; try discriminate H; simpl;
    repeat first [apply sublist_nil_l | apply sublist_skip | apply sublist_cons].
Qed.

Lemma milestones_other id l e :
  ev_action_id e ≠ id → milestones id (l ++ [e]) = milestones id l.
Proof.
  intros Hne. rewrite milestones_snoc. unfold milestones_step, is_draft, is_transition.
  rewrite !bool_decide_eq_false_2 by naive_solver. done.
Qed.

Lemma spec_step_other m m' e id :
  spec_step m e = Some m' → ev_action_id e ≠ id → m' !! id = m !! id.
Proof.
  intros H Hne. unfold spec_step in H.
  repeat (case_match; simplify_eq/=; try done); by rewrite lookup_insert_ne.
Qed.

(** One event keeps "the gates of the current state were passed, in order". *)
Lemma gates_step m m' e l :
  let id := ev_action_id e in
  spec_step m e = Some m' →
  (∀ s, m !! id = Some s → gates_before s `sublist_of` (milestones id l).*1) →
  ∀ s, m' !! id = Some s → gates_before s `sublist_of` (milestones id (l ++ [e])).*1.
Proof.
  intros id Hstep IH s Hs. rewrite milestones_snoc.
  unfold milestones_step, is_draft, is_transition. fold id.
  rewrite (bool_decide_eq_true_2 (id = id)) by done. simpl.
  unfold spec_step in Hstep. fold id in Hstep.
  destruct (ev_outcome e) eqn:Ho, (ev_from e) as [f|] eqn:Hf;
    repeat first [rewrite bool_decide_eq_false_2 by naive_solver].
  - (* a transition or a target applied *)
    case_bool_decide; [|done]. destruct (is_target_apply e f) eqn:Ha; simplify_eq/=.
    { by apply IH. }
    destruct (lifecycle f (ev_to e)) eqn:Hl; simplify_eq.
    rewrite lookup_insert_eq in Hs. simplify_eq.
    rewrite fmap_app. simpl. etrans; [by apply gates_before_step|].
    apply sublist_app; [by apply IH|done].
  - (* a draft, or a target rolled back *)
    destruct (ev_to e) eqn:Ht; try done.
    + rewrite bool_decide_eq_true_2 by done. simplify_eq.
      rewrite lookup_insert_eq in Hs. by simplify_eq/=.
    + rewrite bool_decide_eq_false_2 by naive_solver.
      enough (m' = m) as -> by (by apply IH). split_matches.
  - enough (m' = m) as -> by (by apply IH). split_matches.
  - enough (m' = m) as -> by (by apply IH). split_matches.
  - case_bool_decide; [|done]. destruct (is_target_apply e f) eqn:Ha; simplify_eq/=.
    { by apply IH. }
    case_bool_decide; simplify_eq/=. destruct (rollbackable f) eqn:Hr; simplify_eq/=.
    rewrite lookup_insert_eq in Hs. simplify_eq/=.
    destruct f; try discriminate; by apply (IH _ H).
  - enough (m' = m) as -> by (by apply IH). split_matches.
Qed.

(** Every action of an accepted trail has passed the gates of its state, in
    order, since it was last drafted. *)
Lemma gates_passed l m id s :
  spec_run ∅ l = Some m → m !! id = Some s →
  gates_before s `sublist_of` (milestones id l).*1.
Proof.
  revert m s. induction l as [|e l IH] using rev_ind; intros m s Hrun Hs.
  { rewrite spec_run_nil in Hrun. simplify_eq. }
  rewrite spec_run_app in Hrun. destruct (spec_run ∅ l) as [m0|] eqn:H0; [|done].
  simpl in Hrun. rewrite spec_run_one in Hrun.
  destruct (decide (ev_action_id e = id)) as [<-|Hne].
  - eapply gates_step; eauto.
  - rewrite milestones_other by done. erewrite spec_step_other in Hs by done. eauto.
Qed.

(** A target application is only ever recorded while its stage is current. *)
Lemma apply_event_current m m' e s :
  spec_step m e = Some m' → ev_outcome e ≠ Outcome.Rejected →
  ev_from e = Some s → is_target_apply e s = true →
  m !! ev_action_id e = Some s.
Proof.
  unfold spec_step. intros H Ho Hf Ha. rewrite Hf, Ha in H.
  destruct (ev_outcome e); [|done|]; by case_bool_decide.
Qed.
