(* ===== verification/BridgeFacts.v ===== *)
(** * The bridge implements its specification

    Reference functions for the two target loops, the relation "the audit trail
    was extended by an accepted run" and, for every method of the bridge, that it
    moves the bridge along that relation; then the functional behaviour of the
    execution stages. *)

From stdpp Require Import base tactics gmap strings list.
From Stdlib Require Import ZArith.
From S2P Require Import Prelude Float32 Action Bridge BridgeSpec.

(** ** Reference functions for the target loops *)

Section reference.
Context {E : Type} `{!Executor E}.

(** Apply to each target in order: the executor afterwards, the targets that
    took the fix, how many did not. *)
Fixpoint apply_ref (x : E) (action : RemediationAction) (ts : list string) :
    E * list string * nat :=
  match ts with
  | [] => (x, [], 0)
  | t :: ts =>
      let '(x1, r) := exec_apply x action t in
      let '(x2, ok, n) := apply_ref x1 action ts in
      match r with
      | None => (x2, t :: ok, n)
      | Some _ => (x2, ok, S n)
      end
  end.

(** Roll back each target in order: the executor afterwards and the targets
    whose rollback failed. *)
Fixpoint rollback_ref (x : E) (action : RemediationAction) (ts : list string) :
    E * list string :=
  match ts with
  | [] => (x, [])
  | t :: ts =>
      let '(x1, r) := exec_rollback x action t in
      let '(x2, failed) := rollback_ref x1 action ts in
      match r with
      | None => (x2, failed)
      | Some _ => (x2, t :: failed)
      end
  end.

(** What a stage makes of one record: the executor, the record and the outcome. *)
Definition canary_ref {V} `{!Verifier V} (v : V) (x : E) (r : BridgeRecord) :
    E * BridgeRecord * StageOutcome :=
  let a := rec_action r in
  let cohort := take (canary_cohort_len a) (targets_of a) in
  let '(x1, ok, n) := apply_ref x a cohort in
  let applied := rec_applied r ++ ok in
  if f32_gt (failure_rate n (length cohort)) (failure_threshold (action_canary a))
     || bool_decide (verify v a applied = VerifyOutcome.NotFixed)
  then
    let '(x2, failed) := rollback_ref x1 a applied in
    (x2, mkRecord a ActionState.RolledBack failed, StageOutcome.RolledBack)
  else (x1, mkRecord a ActionState.Rollout applied, StageOutcome.Promoted).

Definition rollout_ref {V} `{!Verifier V} (v : V) (x : E) (r : BridgeRecord) :
    E * BridgeRecord * StageOutcome :=
  let a := rec_action r in
  let remaining := filter (λ t, t ∉ rec_applied r) (targets_of a) in
  let '(x1, ok, n) := apply_ref x a remaining in
  let applied := rec_applied r ++ ok in
  if f32_gt (failure_rate n (length remaining)) (failure_threshold (action_canary a))
  then
    let '(x2, failed) := rollback_ref x1 a applied in
    (x2, mkRecord a ActionState.RolledBack failed, StageOutcome.RolledBack)
  else if bool_decide (verify v a applied = VerifyOutcome.Fixed)
  then (x1, mkRecord a ActionState.Closed applied, StageOutcome.Closed)
  else (x1, mkRecord a ActionState.Verify applied, StageOutcome.AppliedUnverified).

(** The targets an operator rollback visits. *)
Definition rollback_set (r : BridgeRecord) : list string :=
  if bool_decide (rec_applied r = []) then targets_of (rec_action r)
  else rec_applied r.

Definition operator_rollback_ref (x : E) (r : BridgeRecord) :
    E * BridgeRecord * Result StageOutcome :=
  let a := rec_action r in
  let '(x', failed) := rollback_ref x a (rollback_set r) in
  match failed with
  | [] => (x', mkRecord a ActionState.RolledBack [],
           Ok StageOutcome.RolledBackByOperator)
  | _ :: _ => (x', mkRecord a ActionState.RollbackIncomplete failed,
               Err ("rollback failed on " +:+ show_nat (length failed)
                      +:+ " target(s)"))
  end.

Lemma apply_ref_length x action ts x' ok n :
  apply_ref x action ts = (x', ok, n) → length ok + n = length ts.
Proof.
  revert x x' ok n. induction ts as [|t ts IH]; simpl; intros x x' ok n H.
  { by simplify_eq. }
  destruct (exec_apply x action t) as [x1 r].
  destruct (apply_ref x1 action ts) as [[x2 ok'] n'] eqn:Hr.
  specialize (IH _ _ _ _ Hr). destruct r; simplify_eq/=; lia.
Qed.

Lemma apply_ref_sublist x action ts x' ok n :
  apply_ref x action ts = (x', ok, n) → ok `sublist_of` ts.
Proof.
  revert x x' ok n. induction ts as [|t ts IH]; simpl; intros x x' ok n H.
  { by simplify_eq. }
  destruct (exec_apply x action t) as [x1 r].
  destruct (apply_ref x1 action ts) as [[x2 ok'] n'] eqn:Hr.
  specialize (IH _ _ _ _ Hr). destruct r; simplify_eq/=; by constructor.
Qed.

Lemma rollback_ref_sublist x action ts x' failed :
  rollback_ref x action ts = (x', failed) → failed `sublist_of` ts.
Proof.
  revert x x' failed. induction ts as [|t ts IH]; simpl; intros x x' failed H.
  { by simplify_eq. }
  destruct (exec_rollback x action t) as [x1 r].
  destruct (rollback_ref x1 action ts) as [x2 f'] eqn:Hr.
  specialize (IH _ _ _ Hr). destruct r; simplify_eq/=; by constructor.
Qed.
End reference.

Definition states {A} (b : Bridge A) : gmap string ActionState :=
  rec_state <$> actions b.

Lemma states_lookup {A} (b : Bridge A) id : states b !! id = state b id.
Proof. unfold states, state. by rewrite lookup_fmap. Qed.

Section trail.
Context {A : Type} `{!AuditSink A} `{!AuditLog A}.
Implicit Types (b : Bridge A) (id actor detail : string).

(** [b'] is [b] with the events [evs] appended, an accepted run from the states
    of [b] to those of [b'], numbered consecutively. *)
Record trail (b : Bridge A) (evs : list AuditEvent) (b' : Bridge A) : Prop := {
  trail_events : events (audit b') = events (audit b) ++ evs;
  trail_run : spec_run (states b) evs = Some (states b');
  trail_numbered : is_u64 (seq b) → ∀ i e,
    evs !! i = Some e → ev_seq e = wrap_u64 (seq b + Z.of_nat i);
  trail_seq : is_u64 (seq b) →
    seq b' = wrap_u64 (seq b + Z.of_nat (length evs));
}.

Definition extends (b b' : Bridge A) : Prop := ∃ evs, trail b evs b'.

Lemma trail_nil b : trail b [] b.
Proof.
  split; simpl; try done; [by rewrite app_nil_r|].
  intros. by rewrite Z.add_0_r, wrap_u64_id.
Qed.

Lemma trail_app b1 l1 b2 l2 b3 :
  trail b1 l1 b2 → trail b2 l2 b3 → trail b1 (l1 ++ l2) b3.
Proof.
  intros H1 H2. split.
  - by rewrite (trail_events _ _ _ H2), (trail_events _ _ _ H1), app_assoc.
  - rewrite spec_run_app, (trail_run _ _ _ H1). apply H2.
  - intros Hu i e Hi. pose proof (trail_seq _ _ _ H1 Hu) as Hs.
    apply lookup_app_Some in Hi as [Hi|[Hle Hi]]; [by eapply trail_numbered|].
    eapply trail_numbered in Hi; [|done|rewrite Hs; apply wrap_u64_is_u64].
    rewrite Hi, Hs. unfold wrap_u64. rewrite Zplus_mod_idemp_l. f_equal. lia.
  - intros Hu. pose proof (trail_seq _ _ _ H1 Hu) as Hs.
    rewrite (trail_seq _ _ _ H2), Hs by (rewrite Hs; apply wrap_u64_is_u64).
    unfold wrap_u64. rewrite Zplus_mod_idemp_l, length_app. f_equal. lia.
Qed.

#[export] Instance extends_preorder : PreOrder extends.
Proof.
  split.
  - intros b. exists []. apply trail_nil.
  - intros b1 b2 b3 [l1 H1] [l2 H2]. exists (l1 ++ l2). by eapply trail_app.
Qed.

(** One logged event, with the record map changed to [m] first. *)
Lemma extends_log b f id from to actor o detail :
  let b1 := with_actions f b in
  spec_step (states b) (mkAuditEvent (seq b) id from to actor o detail)
    = Some (states b1) →
  extends b (log_event b1 id from to actor o detail).
Proof.
  intros b1 Hstep. eexists [_]. split; simpl.
  - apply events_record.
  - done.
  - intros Hu [|i] e He; simplify_eq/=. by rewrite Z.add_0_r, wrap_u64_id.
  - done.
Qed.

Lemma with_actions_id b : with_actions id b = b.
Proof. by destruct b. Qed.

Lemma extends_log_only b id from to actor o detail :
  spec_step (states b) (mkAuditEvent (seq b) id from to actor o detail)
    = Some (states b) →
  extends b (log_event b id from to actor o detail).
Proof.
  intros H. pose proof (extends_log b Datatypes.id id from to actor o detail) as He.
  simpl in He. rewrite with_actions_id in He. by apply He.
Qed.

Lemma states_alter_state b id to :
  is_Some (actions b !! id) →
  states (with_actions (alter (set_rec_state to) id) b) = <[id := to]> (states b).
Proof.
  intros [r Hr]. unfold states. apply map_eq. intros j. simpl.
  rewrite lookup_fmap. destruct (decide (id = j)) as [<-|Hne].
  - by rewrite lookup_alter_eq, Hr, lookup_insert_eq.
  - by rewrite lookup_alter_ne, lookup_insert_ne, lookup_fmap by done.
Qed.

Lemma states_alter_same b f id :
  (∀ r, rec_state (f r) = rec_state r) →
  states (with_actions (alter f id) b) = states b.
Proof.
  intros Hf. unfold states. apply map_eq. intros j. simpl. rewrite !lookup_fmap.
  destruct (decide (id = j)) as [<-|Hne].
  - rewrite lookup_alter_eq. destruct (actions b !! id); simpl; [by rewrite Hf|done].
  - by rewrite lookup_alter_ne.
Qed.

Lemma state_is_Some b id s : state b id = Some s → is_Some (actions b !! id).
Proof. unfold state. intros H. destruct (actions b !! id); [by eexists|done]. Qed.

Lemma lifecycle_not_apply e s :
  lifecycle s (ev_to e) = true → is_target_apply e s = false.
Proof.
  unfold is_target_apply. intros H. case_bool_decide as He; [|done].
  rewrite He in H. by destruct s.
Qed.

(** A lawful transition carried out and logged. *)
Lemma extends_transition b id s to actor detail :
  state b id = Some s → lifecycle s to = true →
  extends b (log_event (with_actions (alter (set_rec_state to) id) b)
               id (Some s) to actor Outcome.Ok detail).
Proof.
  intros Hs Hl. apply extends_log. unfold spec_step. simpl.
  rewrite bool_decide_eq_true_2 by by rewrite states_lookup.
  rewrite lifecycle_not_apply, Hl by done.
  rewrite states_alter_state; [done|by eapply state_is_Some].
Qed.

(** A refusal logged against the current state. *)
Lemma extends_rejected b id s to actor detail :
  state b id = Some s →
  extends b (log_event b id (Some s) to actor Outcome.Rejected detail).
Proof.
  intros Hs. apply extends_log_only. unfold spec_step. simpl.
  by rewrite bool_decide_eq_true_2 by by rewrite states_lookup.
Qed.

(** A field of the record other than the state changed without an event. *)
Lemma extends_silent b f id :
  (∀ r, rec_state (f r) = rec_state r) →
  extends b (with_actions (alter f id) b).
Proof.
  intros Hf. exists []. split; simpl; try done.
  - by rewrite app_nil_r.
  - by rewrite states_alter_same.
  - intros. by rewrite Z.add_0_r, wrap_u64_id.
Qed.
End trail.

(** ** The lifecycle methods *)

Section methods.
Context {A : Type} `{!AuditSink A}.
Implicit Types (b : Bridge A) (id actor detail : string).

(** [guarded] in one equation. *)
Lemma guarded_eq id allowed to actor detail b :
  guarded id allowed to actor detail b =
  match state b id with
  | Some s =>
      if decide (s ∈ allowed) then
        (log_event (with_actions (alter (set_rec_state to) id) b)
           id (Some s) to actor Outcome.Ok detail, Ok tt)
      else
        (log_event b id (Some s) to actor Outcome.Rejected "illegal transition",
         Err ("action " +:+ id +:+ " cannot move " +:+ ActionState.debug s
                +:+ " -> " +:+ ActionState.debug to))
  | None => (b, Err ("no action " +:+ id))
  end.
Proof.
  unfold guarded, mbind, M_bind, m_bind, gets. simpl.
  destruct (state b id) as [s|] eqn:Hs; [|done].
  case_decide; [|done]. unfold modify_rec, get_rec, mbind, M_bind, m_bind, gets. simpl.
  apply state_is_Some in Hs as [r ->]. done.
Qed.

Lemma draft_eq action actor b :
  draft action actor b =
  if is_scoped (action_targets action) then
    (log_event (with_actions (insert (action_id action)
                 (mkRecord action ActionState.Drafted [])) b)
       (action_id action) None ActionState.Drafted actor Outcome.Ok "drafted", Ok tt)
  else
    (log_event b (action_id action) None ActionState.Drafted actor Outcome.Rejected
       "unscoped selector",
     Err ("action " +:+ action_id action +:+ " has no explicit targets")).
Proof. unfold draft. by destruct (is_scoped _). Qed.

Lemma dry_run_eq {E} `{!Executor E} (x : E) id actor b :
  dry_run x id actor b =
  match actions b !! id with
  | Some rec =>
      if bool_decide (rec_state rec ∈ [ActionState.Drafted; ActionState.Mapped]) then
        (log_event (with_actions (alter (set_rec_state ActionState.DryRun) id) b)
           id (Some (rec_state rec)) ActionState.DryRun actor Outcome.Ok
           "dry-run preview (no side effects)",
         Ok (mkDryRunPreview id (targets_of (rec_action rec))
               (exec_preview x (rec_action rec))))
      else
        (log_event b id (Some (rec_state rec)) ActionState.DryRun actor
           Outcome.Rejected "not draftable state for dry-run",
         Err ("action " +:+ id +:+ " cannot dry-run from "
                +:+ ActionState.debug (rec_state rec)))
  | None => (b, Err ("no action " +:+ id))
  end.
Proof.
  unfold dry_run, mbind, M_bind, m_bind, gets, ok_or. simpl.
  destruct (actions b !! id) as [rec|] eqn:Hr; [|done]. simpl.
  case_bool_decide; [|done]. simpl.
  unfold modify_rec, get_rec, mbind, M_bind, m_bind, gets. simpl. by rewrite Hr.
Qed.

Lemma set_state_eq id to actor detail b :
  set_state id to actor detail b =
  (log_event (with_actions (alter (set_rec_state to) id) b)
     id (state b id) to actor Outcome.Ok detail, Ok tt).
Proof. done. Qed.

Context `{!AuditLog A}.

Lemma extends_guarded id allowed to actor detail :
  (∀ s, s ∈ allowed → lifecycle s to = true) →
  rel_m extends (guarded (A:=A) id allowed to actor detail).
Proof.
  intros Hall b. rewrite guarded_eq. destruct (state b id) as [s|] eqn:Hs; [|done].
  case_decide; simpl; [apply extends_transition; auto|by apply extends_rejected].
Qed.

Lemma extends_draft action actor : rel_m extends (draft (A:=A) action actor).
Proof.
  intros b. rewrite draft_eq. destruct (is_scoped _); simpl.
  - apply extends_log. unfold spec_step, states. simpl. by rewrite fmap_insert.
  - by apply extends_log_only.
Qed.

Lemma extends_dry_run {E} `{!Executor E} (x : E) id actor :
  rel_m extends (dry_run (A:=A) x id actor).
Proof.
  intros b. rewrite dry_run_eq. destruct (actions b !! id) as [rec|] eqn:Hr; [|done].
  assert (state b id = Some (rec_state rec)) as Hs by (unfold state; by rewrite Hr).
  case_bool_decide as Hin; simpl; [|by apply extends_rejected].
  apply extends_transition; [done|].
  apply elem_of_cons in Hin as [->|Hin]; [done|].
  apply list_elem_of_singleton in Hin as ->. done.
Qed.

Lemma extends_audit_rejected id actor detail :
  rel_m extends (audit_rejected_command (A:=A) id actor detail).
Proof. intros b. by apply extends_log_only. Qed.

Lemma extends_audit_failure id actor detail :
  rel_m extends (audit_execution_failure (A:=A) id actor detail).
Proof.
  intros b. apply extends_log_only. unfold spec_step. simpl.
  by rewrite bool_decide_eq_true_2 by by rewrite states_lookup.
Qed.

Lemma extends_map_to_item id k actor : rel_m extends (map_to_item (A:=A) id k actor).
Proof. apply extends_guarded. by intros s ->%list_elem_of_singleton. Qed.

Lemma extends_submit id actor : rel_m extends (submit_for_approval (A:=A) id actor).
Proof. apply extends_guarded. by intros s ->%list_elem_of_singleton. Qed.

Lemma extends_approve id actor : rel_m extends (approve (A:=A) id actor).
Proof. apply extends_guarded. by intros s ->%list_elem_of_singleton. Qed.

Lemma extends_reject id actor r : rel_m extends (reject (A:=A) id actor r).
Proof. apply extends_guarded. by intros s ->%list_elem_of_singleton. Qed.

Lemma extends_abort id actor r : rel_m extends (abort (A:=A) id actor r).
Proof. apply extends_guarded. intros s Hs. set_unfold. naive_solver. Qed.

End methods.

#[export] Hint Resolve extends_draft extends_dry_run extends_audit_rejected
  extends_audit_failure extends_map_to_item extends_submit extends_approve
  extends_reject extends_abort : torda.

(** ** The execution stages against their reference functions *)

Section stages.
Context {A : Type} `{!AuditSink A} `{!AuditLog A}.
Context {E V : Type} `{!Executor E} `{!Verifier V}.
Implicit Types (b : Bridge A) (x : E) (v : V) (id actor detail : string).
Implicit Types (r : BridgeRecord).

Lemma get_rec_run id b r : actions b !! id = Some r → get_rec id b = (b, Ok r).
Proof. intros H. unfold get_rec, mbind, M_bind, m_bind, gets. simpl. by rewrite H. Qed.

Lemma modify_rec_run id f b r :
  actions b !! id = Some r →
  modify_rec id f b = (with_actions (insert id (f r)) b, Ok tt).
Proof.
  intros H. unfold modify_rec. erewrite bind_ok by by apply get_rec_run.
  unfold modify, with_actions. do 2 f_equal. by apply alter_as_insert.
Qed.

Lemma extends_insert_silent id f b r :
  actions b !! id = Some r → (∀ r, rec_state (f r) = rec_state r) →
  extends b (with_actions (insert id (f r)) b).
Proof.
  intros Hr Hf. replace (with_actions _ b) with (with_actions (alter f id) b)
    by (unfold with_actions; f_equal; by apply alter_as_insert).
  by apply extends_silent.
Qed.

Lemma state_lookup b id r : actions b !! id = Some r → state b id = Some (rec_state r).
Proof. unfold state. by intros ->. Qed.

(** A carried-out transition inside a stage. *)
Lemma set_state_run id to actor detail b r :
  actions b !! id = Some r → lifecycle (rec_state r) to = true →
  ∃ b', set_state id to actor detail b = (b', Ok tt) ∧
    actions b' = <[id := set_rec_state to r]> (actions b) ∧ extends b b'.
Proof.
  intros Hr Hl. rewrite set_state_eq, (state_lookup b id r) by done.
  eexists. split; [done|]. split; [by apply alter_as_insert|].
  apply extends_transition; [by apply state_lookup|done].
Qed.

(** One per-target event of a stage: logged, no state moves. *)
Lemma log_apply_run id stage actor o detail b r :
  actions b !! id = Some r → rec_state r = stage → applies stage = true →
  o ≠ Outcome.Rejected →
  ∃ b', log id (Some stage) stage actor o detail b = (b', Ok tt) ∧
    actions b' = actions b ∧ extends b b'.
Proof.
  intros Hr Hs Ha Ho. eexists. split; [done|]. split; [done|].
  apply extends_log_only. unfold spec_step. simpl.
  rewrite (bool_decide_eq_true_2 (states b !! id = Some stage))
    by (rewrite states_lookup, (state_lookup b id r) by done; by rewrite Hs).
  unfold is_target_apply. simpl. rewrite bool_decide_eq_true_2, Ha by done.
  by destruct o.
Qed.

Lemma log_rollback_run id actor o detail b r :
  actions b !! id = Some r → revertible (rec_state r) = true →
  o ≠ Outcome.Rejected →
  ∃ b', log id None ActionState.RolledBack actor o detail b = (b', Ok tt) ∧
    actions b' = actions b ∧ extends b b'.
Proof.
  intros Hr Hs Ho. eexists. split; [done|]. split; [done|].
  apply extends_log_only. unfold spec_step. simpl.
  rewrite states_lookup, (state_lookup b id r) by done. simpl. rewrite Hs.
  destruct o; try done. by case_bool_decide.
Qed.

Lemma apply_loop_run id action stage actor ts n b x r x' ok k :
  actions b !! id = Some r → rec_state r = stage → applies stage = true →
  apply_ref x action ts = (x', ok, k) →
  ∃ b', apply_loop id action stage actor ts n (b, x) = ((b', x'), Ok (n + k)) ∧
    actions b' = <[id := set_rec_applied (rec_applied r ++ ok) r]> (actions b) ∧
    extends b b'.
Proof.
  revert n b x r x' ok k. induction ts as [|t ts IH]; simpl;
    intros n b x r x' ok k Hr Hs Ha Href.
  { simplify_eq. exists b. rewrite Nat.add_0_r, app_nil_r. split; [done|].
    split; [|done]. symmetry. apply insert_id. by destruct r. }
  destruct (exec_apply x action t) as [x1 res] eqn:Hx.
  destruct (apply_ref x1 action ts) as [[x2 ok'] k'] eqn:Hrest.
  assert (call_apply action t (b, x) = ((b, x1), Ok res)) as Hcall
    by (unfold call_apply; simpl; by rewrite Hx).
  go Hcall. destruct res as [e|]; simplify_eq.
  - destruct (log_apply_run id (rec_state r) actor Outcome.Failed
      ("apply failed on " +:+ t +:+ ": " +:+ e) b r) as (b1 & Hb1 & Ha1 & He1); try done.
    go_fst Hb1. edestruct (IH (S n) b1 x1 r) as (b2 & Hb2 & Ha2 & He2);
      [by rewrite Ha1|done|done|exact Hrest|].
    exists b2. rewrite Hb2, Ha2, Ha1. split; [do 2 f_equal; lia|].
    split; [done|by etrans].
  - go_fst (modify_rec_run id (push_rec_applied t) b r Hr).
    set (b1 := with_actions _ b).
    destruct (log_apply_run id (rec_state r) actor Outcome.Ok ("applied to " +:+ t)
      b1 (push_rec_applied t r)) as (b2 & Hb2 & Ha2 & He2); try done.
    { apply lookup_insert_eq. }
    go_fst Hb2. edestruct (IH n b2 x1 (push_rec_applied t r)) as (b3 & Hb3 & Ha3 & He3);
      [rewrite Ha2; apply lookup_insert_eq|done|done|exact Hrest|].
    exists b3. rewrite Hb3. split; [done|]. split.
    + rewrite Ha3, Ha2. unfold b1. simpl. rewrite insert_insert_eq. simpl.
      by rewrite <-app_assoc.
    + transitivity b1; [|by transitivity b2]. by apply extends_insert_silent.
Qed.

Lemma apply_targets_run id stage actor ts b x r x' ok k :
  actions b !! id = Some r → rec_state r = stage → applies stage = true →
  apply_ref x (rec_action r) ts = (x', ok, k) →
  ∃ b', apply_targets id ts stage actor (b, x)
      = ((b', x'), Ok (failure_rate k (length ts))) ∧
    actions b' = <[id := set_rec_applied (rec_applied r ++ ok) r]> (actions b) ∧
    extends b b'.
Proof.
  intros Hr Hs Ha Href. unfold apply_targets.
  go_fst (get_rec_run id b r Hr).
  destruct (apply_loop_run id (rec_action r) stage actor ts 0 b x r x' ok k)
    as (b' & Hb' & Hrest); try done.
  go Hb'. by exists b'.
Qed.

Lemma rollback_loop_run id action actor ts failed b x r x' f :
  actions b !! id = Some r → revertible (rec_state r) = true →
  rollback_ref x action ts = (x', f) →
  ∃ b', rollback_loop id action actor ts failed (b, x)
      = ((b', x'), Ok (failed ++ f)) ∧
    actions b' = actions b ∧ extends b b'.
Proof.
  revert failed b x x' f. induction ts as [|t ts IH]; simpl;
    intros failed b x x' f Hr Hs Href.
  { simplify_eq. exists b. by rewrite app_nil_r. }
  destruct (exec_rollback x action t) as [x1 res] eqn:Hx.
  destruct (rollback_ref x1 action ts) as [x2 f'] eqn:Hrest.
  assert (call_rollback action t (b, x) = ((b, x1), Ok res)) as Hcall
    by (unfold call_rollback; simpl; by rewrite Hx).
  go Hcall. destruct res as [e|]; simplify_eq.
  - destruct (log_rollback_run id actor Outcome.Failed
      ("rollback error on " +:+ t +:+ ": " +:+ e) b r) as (b1 & Hb1 & Ha1 & He1); try done.
    go_fst Hb1. edestruct (IH (failed ++ [t]) b1 x1) as (b2 & Hb2 & Ha2 & He2);
      [by rewrite Ha1|done|exact Hrest|].
    exists b2. rewrite Hb2, Ha2, Ha1, <-app_assoc. split; [done|].
    split; [done|by etrans].
  - destruct (log_rollback_run id actor Outcome.Ok ("rolled back " +:+ t) b r)
      as (b1 & Hb1 & Ha1 & He1); try done.
    go_fst Hb1. edestruct (IH failed b1 x1) as (b2 & Hb2 & Ha2 & He2);
      [by rewrite Ha1|done|exact Hrest|].
    exists b2. rewrite Hb2, Ha2, Ha1. split; [done|]. split; [done|by etrans].
Qed.

Lemma rollback_applied_run id actor b x r x' f :
  actions b !! id = Some r → revertible (rec_state r) = true →
  rollback_ref x (rec_action r) (rec_applied r) = (x', f) →
  ∃ b', rollback_applied id actor (b, x) = ((b', x'), Ok f) ∧
    actions b' = <[id := set_rec_applied f r]> (actions b) ∧ extends b b'.
Proof.
  intros Hr Hs Href. unfold rollback_applied. go_fst (get_rec_run id b r Hr).
  destruct (rollback_loop_run id (rec_action r) actor (rec_applied r) [] b x r x' f)
    as (b1 & Hb1 & Ha1 & He1); try done.
  go Hb1. assert (actions b1 !! id = Some r) as Hr1 by by rewrite Ha1.
  go_fst (modify_rec_run id (set_rec_applied f) b1 r Hr1).
  eexists. split; [done|]. split; [simpl; by rewrite Ha1|].
  etrans; [done|]. by apply extends_insert_silent.
Qed.

(** Roll the applied targets back and settle in [RolledBack]. *)
Lemma rollback_and_settle id actor detail b x r x' f :
  actions b !! id = Some r → revertible (rec_state r) = true →
  lifecycle (rec_state r) ActionState.RolledBack = true →
  rollback_ref x (rec_action r) (rec_applied r) = (x', f) →
  ∃ b', (rollback_applied id actor;;
         on_fst (set_state id ActionState.RolledBack actor detail);;
         mret StageOutcome.RolledBack) (b, x)
        = ((b', x'), Ok StageOutcome.RolledBack) ∧
    actions b' = <[id := mkRecord (rec_action r) ActionState.RolledBack f]> (actions b) ∧
    extends b b'.
Proof.
  intros Hr Hs Hl Href.
  destruct (rollback_applied_run id actor b x r x' f) as (b1 & Hb1 & Ha1 & He1); try done.
  go Hb1.
  destruct (set_state_run id ActionState.RolledBack actor detail b1 (set_rec_applied f r))
    as (b2 & Hb2 & Ha2 & He2); [rewrite Ha1; apply lookup_insert_eq|done|].
  go_fst Hb2. exists b2. split; [done|]. split; [|by etrans].
  by rewrite Ha2, Ha1, insert_insert_eq.
Qed.

Lemma canary_slice_run {S} (a : RemediationAction) (s : S) :
  slice_to (targets_of a) (canary_cohort_len a) s
    = (s, Ok (take (canary_cohort_len a) (targets_of a))).
Proof. unfold slice_to, canary_cohort_len. case_decide; [done|lia]. Qed.

Lemma guarded_run id allowed to actor detail b r :
  actions b !! id = Some r → rec_state r ∈ allowed →
  lifecycle (rec_state r) to = true →
  ∃ b', guarded id allowed to actor detail b = (b', Ok tt) ∧
    actions b' = <[id := set_rec_state to r]> (actions b) ∧ extends b b'.
Proof.
  intros Hr Hin Hl. rewrite guarded_eq, (state_lookup b id r) by done.
  rewrite decide_True by done. eexists. split; [done|].
  split; [by apply alter_as_insert|].
  apply extends_transition; [by apply state_lookup|done].
Qed.

(** [run_canary] on an approved action is [canary_ref]. *)
Lemma run_canary_run v id actor b x r x' r' out :
  actions b !! id = Some r → rec_state r = ActionState.Approved →
  canary_ref v x r = (x', r', out) →
  ∃ b', run_canary v id actor (b, x) = ((b', x'), Ok out) ∧
    actions b' = <[id := r']> (actions b) ∧ extends b b'.
Proof.
  intros Hr Hs Href. unfold canary_ref in Href.
  destruct (apply_ref x (rec_action r) _) as [[x1 ok] n] eqn:Happ.
  unfold run_canary.
  destruct (guarded_run id [ActionState.Approved] ActionState.Canary actor
    "canary started" b r) as (b1 & Hb1 & Ha1 & He1);
    [done|rewrite Hs; by left|by rewrite Hs|].
  go_fst Hb1. set (r1 := set_rec_state ActionState.Canary r) in *.
  assert (actions b1 !! id = Some r1) as Hr1 by (rewrite Ha1; apply lookup_insert_eq).
  go_fst (get_rec_run id b1 r1 Hr1).
  go (canary_slice_run (S:=Bridge A * E) (rec_action r) (b1, x)).
  destruct (apply_targets_run id ActionState.Canary actor
    (take (canary_cohort_len (rec_action r)) (targets_of (rec_action r))) b1 x r1 x1 ok n)
    as (b2 & Hb2 & Ha2 & He2); try done.
  go Hb2. set (r2 := set_rec_applied (rec_applied r1 ++ ok) r1) in *.
  assert (actions b2 !! id = Some r2) as Hr2 by (rewrite Ha2; apply lookup_insert_eq).
  destruct (set_state_run id ActionState.CanaryVerify actor "canary applied" b2 r2)
    as (b3 & Hb3 & Ha3 & He3); [done|done|].
  go_fst Hb3. set (r3 := set_rec_state ActionState.CanaryVerify r2) in *.
  assert (actions b3 !! id = Some r3) as Hr3 by (rewrite Ha3; apply lookup_insert_eq).
  assert (extends b b3) as He by (transitivity b1; [done|by transitivity b2]).
  assert (∀ r'', <[id := r'']> (actions b3) = <[id := r'']> (actions b)) as Hins
    by (intros r''; by rewrite Ha3, Ha2, Ha1, !insert_insert_eq).
  destruct (f32_gt (failure_rate n _) _); simpl in Href.
  { destruct (rollback_ref x1 _ _) as [x2 f] eqn:Hrb. simplify_eq.
    destruct (rollback_and_settle id actor "canary failure exceeded threshold"
      b3 x1 r3 x' f) as (b4 & Hb4 & Ha4 & He4); [done..|].
    exists b4. rewrite <-Hins. split; [exact Hb4|]. split; [done|by transitivity b3]. }
  go_fst (get_rec_run id b3 r3 Hr3).
  destruct (verify v (rec_action r) (rec_applied r ++ ok)); simpl in Href.
  - simplify_eq.
    destruct (set_state_run id ActionState.Rollout actor
      "canary verified; promoting to rollout" b3 r3) as (b4 & Hb4 & Ha4 & He4); [done..|].
    go_fst Hb4. exists b4. rewrite <-Hins. split; [done|]. split; [done|by transitivity b3].
  - destruct (rollback_ref x1 _ _) as [x2 f] eqn:Hrb. simplify_eq.
    destruct (rollback_and_settle id actor "canary verification failed"
      b3 x1 r3 x' f) as (b4 & Hb4 & Ha4 & He4); [done..|].
    exists b4. rewrite <-Hins. split; [exact Hb4|]. split; [done|by transitivity b3].
Qed.

(** A guard that does not hold: refused, no record touched. *)
Lemma guarded_refused id allowed to actor detail b :
  (∀ s, state b id = Some s → s ∉ allowed) →
  ∃ b' e, guarded id allowed to actor detail b = (b', Err e) ∧
    actions b' = actions b ∧ extends b b'.
Proof.
  intros Hs. rewrite guarded_eq. destruct (state b id) as [s|] eqn:E0.
  - rewrite decide_False by by apply Hs. do 2 eexists. split; [done|].
    split; [done|]. by apply extends_rejected.
  - by do 2 eexists.
Qed.

Lemma run_canary_refused v id actor b x :
  state b id ≠ Some ActionState.Approved →
  ∃ b' e, run_canary v id actor (b, x) = ((b', x), Err e) ∧
    actions b' = actions b ∧ extends b b'.
Proof.
  intros Hs. unfold run_canary.
  destruct (guarded_refused id [ActionState.Approved] ActionState.Canary actor
    "canary started" b) as (b' & e & Hb' & Hrest).
  { intros s Hs'. set_unfold. naive_solver. }
  exists b', e. split; [|done]. erewrite bind_err; [done|]. by apply on_fst_run.
Qed.

(** The first steps of [run_rollout] and [run_rollback]: the record, or an error. *)
Lemma lookup_rec_run {B} id b x r (k : BridgeRecord → M (Bridge A * E) B) e :
  actions b !! id = Some r →
  (o ← on_fst (gets (λ b, actions b !! id)); rec ← ok_or o e; k rec) (b, x) = k r (b, x).
Proof.
  intros Hr. unfold mbind, M_bind, m_bind, on_fst, gets. simpl. by rewrite Hr.
Qed.

Lemma lookup_rec_none {B} id b x (k : BridgeRecord → M (Bridge A * E) B) e :
  actions b !! id = None →
  (o ← on_fst (gets (λ b, actions b !! id)); rec ← ok_or o e; k rec) (b, x)
    = ((b, x), Err e).
Proof.
  intros Hr. unfold mbind, M_bind, m_bind, on_fst, gets. simpl. by rewrite Hr.
Qed.

(** [run_rollout] on a promoted action is [rollout_ref]. *)
Lemma run_rollout_run v id actor b x r x' r' out :
  actions b !! id = Some r → rec_state r = ActionState.Rollout →
  rollout_ref v x r = (x', r', out) →
  ∃ b', run_rollout v id actor (b, x) = ((b', x'), Ok out) ∧
    actions b' = <[id := r']> (actions b) ∧ extends b b'.
Proof.
  intros Hr Hs Href. unfold rollout_ref in Href.
  destruct (apply_ref x (rec_action r) _) as [[x1 ok] n] eqn:Happ.
  unfold run_rollout. rewrite (lookup_rec_run id b x r) by done.
  rewrite bool_decide_eq_true_2 by done. simpl.
  destruct (apply_targets_run id ActionState.Rollout actor _ b x r x1 ok n Hr Hs eq_refl Happ)
    as (b2 & Hb2 & Ha2 & He2).
  go Hb2. set (r2 := set_rec_applied (rec_applied r ++ ok) r) in *.
  assert (actions b2 !! id = Some r2) as Hr2 by (rewrite Ha2; apply lookup_insert_eq).
  destruct (set_state_run id ActionState.Verify actor "rollout applied" b2 r2)
    as (b3 & Hb3 & Ha3 & He3); [done|subst r2; simpl; by rewrite Hs|].
  go_fst Hb3. set (r3 := set_rec_state ActionState.Verify r2) in *.
  assert (actions b3 !! id = Some r3) as Hr3 by (rewrite Ha3; apply lookup_insert_eq).
  assert (extends b b3) as He by by transitivity b2.
  assert (∀ r'', <[id := r'']> (actions b3) = <[id := r'']> (actions b)) as Hins
    by (intros r''; by rewrite Ha3, Ha2, !insert_insert_eq).
  destruct (f32_gt (failure_rate n _) _); simpl in Href.
  { destruct (rollback_ref x1 _ _) as [x2 f] eqn:Hrb. simplify_eq.
    destruct (rollback_and_settle id actor "rollout failure exceeded threshold"
      b3 x1 r3 x' f) as (b4 & Hb4 & Ha4 & He4); [done..|].
    exists b4. rewrite <-Hins. split; [exact Hb4|]. split; [done|by transitivity b3]. }
  go_fst (get_rec_run id b3 r3 Hr3).
  destruct (verify v (rec_action r) (rec_applied r ++ ok)); simpl in Href; simplify_eq.
  - destruct (set_state_run id ActionState.Closed actor
      "rollout verified; closed" b3 r3) as (b4 & Hb4 & Ha4 & He4); [done..|].
    go_fst Hb4. exists b4. rewrite <-Hins. split; [done|]. split; [done|by transitivity b3].
  - eexists. split; [done|]. split; [simpl; by rewrite Ha3, Ha2, insert_insert_eq|].
    transitivity b3; [done|]. apply extends_rejected. by apply (state_lookup b3 id r3).
Qed.

Lemma run_rollout_refused v id actor b x :
  state b id ≠ Some ActionState.Rollout →
  ∃ b' e, run_rollout v id actor (b, x) = ((b', x), Err e) ∧
    actions b' = actions b ∧ extends b b'.
Proof.
  intros Hs. unfold run_rollout. destruct (actions b !! id) as [r|] eqn:Hr.
  - rewrite (lookup_rec_run id b x r) by done.
    rewrite (state_lookup b id r) in Hs by done.
    rewrite bool_decide_eq_false_2 by congruence. simpl.
    do 2 eexists. split; [done|]. split; [done|].
    apply extends_rejected. by apply state_lookup.
  - rewrite lookup_rec_none by done. by do 2 eexists.
Qed.

Lemma rollbackable_revertible s : rollbackable s = true → revertible s = true.
Proof. by destruct s. Qed.

Lemma rollbackable_lifecycle s :
  rollbackable s = true → lifecycle s ActionState.RolledBack = true.
Proof. by destruct s. Qed.

(** A rollback that left targets behind is recorded as incomplete. *)
Lemma extends_incomplete b id s actor detail :
  state b id = Some s → rollbackable s = true →
  extends b (log_event (with_actions
    (alter (set_rec_state ActionState.RollbackIncomplete) id) b)
    id (Some s) ActionState.RollbackIncomplete actor Outcome.Failed detail).
Proof.
  intros Hs Hl. apply extends_log. unfold spec_step. simpl.
  rewrite bool_decide_eq_true_2 by by rewrite states_lookup.
  rewrite states_alter_state by by eapply state_is_Some.
  by destruct s.
Qed.

(** [run_rollback] on an applied action is [operator_rollback_ref]. *)
Lemma run_rollback_run id actor b x r x' r' out :
  actions b !! id = Some r → rollbackable (rec_state r) = true →
  operator_rollback_ref x r = (x', r', out) →
  ∃ b', run_rollback id actor (b, x) = ((b', x'), out) ∧
    actions b' = <[id := r']> (actions b) ∧ extends b b'.
Proof.
  intros Hr Hs Href. unfold operator_rollback_ref in Href.
  destruct (rollback_ref x _ _) as [x1 f] eqn:Hrb.
  unfold run_rollback. rewrite (lookup_rec_run id b x r), Hs by done. simpl.
  set (r1 := set_rec_applied (rollback_set r) r).
  assert (∃ b1, (if bool_decide (rec_applied r = [])
     then on_fst (modify_rec id (set_rec_applied (targets_of (rec_action r))))
     else mret tt) (b, x) = ((b1, x), Ok tt) ∧ actions b1 = <[id := r1]> (actions b) ∧
     extends b b1) as (b1 & Hb1 & Ha1 & He1).
  { unfold r1, rollback_set. case_bool_decide as Hnil.
    - eexists. split; [apply on_fst_run; by apply modify_rec_run|].
      split; [done|]. by apply extends_insert_silent.
    - exists b. split; [done|]. split; [|done]. symmetry. apply insert_id. by destruct r. }
  go Hb1. assert (actions b1 !! id = Some r1) as Hr1 by (rewrite Ha1; apply lookup_insert_eq).
  destruct (rollback_applied_run id actor b1 x r1 x1 f) as (b2 & Hb2 & Ha2 & He2);
    [done|by apply rollbackable_revertible|done|].
  go Hb2. set (r2 := set_rec_applied f r1) in *.
  assert (actions b2 !! id = Some r2) as Hr2 by (rewrite Ha2; apply lookup_insert_eq).
  assert (extends b b2) as He by by transitivity b1.
  assert (∀ r'', <[id := r'']> (actions b2) = <[id := r'']> (actions b)) as Hins
    by (intros r''; by rewrite Ha2, Ha1, !insert_insert_eq).
  destruct f as [|t f]; simplify_eq.
  - destruct (set_state_run id ActionState.RolledBack actor
      "operator-commanded rollback" b2 r2) as (b3 & Hb3 & Ha3 & He3);
      [done|by apply rollbackable_lifecycle|].
    go_fst Hb3. exists b3. rewrite <-Hins. split; [done|]. split; [done|by transitivity b2].
  - pose proof (state_lookup b2 id r2 Hr2) as Hs2. eexists. split.
    { unfold mbind, M_bind, m_bind, on_fst, gets. simpl. rewrite Hs2. done. }
    rewrite <-Hins. split; [simpl; by rewrite (alter_as_insert _ _ _ r2)|].
    transitivity b2; [done|]. by apply extends_incomplete.
Qed.

Lemma run_rollback_refused id actor b x :
  (∀ s, state b id = Some s → rollbackable s = false) →
  ∃ b' e, run_rollback id actor (b, x) = ((b', x), Err e) ∧
    actions b' = actions b ∧ extends b b'.
Proof.
  intros Hs. unfold run_rollback. destruct (actions b !! id) as [r|] eqn:Hr.
  - rewrite (lookup_rec_run id b x r), Hs by (done || by apply state_lookup). simpl.
    do 2 eexists. split; [done|]. split; [done|].
    apply extends_rejected. by apply state_lookup.
  - rewrite lookup_rec_none by done. by do 2 eexists.
Qed.

End stages.
