(* ===== verification/BridgeProps.v ===== *)
(** * Properties of the Remediation Bridge

    The public API as a type of operations, the bridges it can reach, and the
    theorems about all of them. *)

From stdpp Require Import base tactics gmap strings list.
From Stdlib Require Import ZArith.
From S2P Require Import Prelude Float32 Action Bridge BridgeSpec BridgeFacts.

(** ** The public API *)

Inductive BridgeOp (V : Type) :=
  | OpDraft (action : RemediationAction) (actor : string)
  | OpMapToItem (id item_key actor : string)
  | OpDryRun (id actor : string)
  | OpSubmit (id actor : string)
  | OpApprove (id approver : string)
  | OpReject (id approver reason : string)
  | OpAbort (id actor reason : string)
  | OpCanary (v : V) (id actor : string)
  | OpRollout (v : V) (id actor : string)
  | OpRollback (id actor : string)
  | OpAuditRejected (id actor detail : string)
  | OpAuditFailure (id actor detail : string).
Arguments OpDraft {V}.
Arguments OpMapToItem {V}.
Arguments OpDryRun {V}.
Arguments OpSubmit {V}.
Arguments OpApprove {V}.
Arguments OpReject {V}.
Arguments OpAbort {V}.
Arguments OpCanary {V}.
Arguments OpRollout {V}.
Arguments OpRollback {V}.
Arguments OpAuditRejected {V}.
Arguments OpAuditFailure {V}.

(** The action an operation is about. *)
Definition op_id {V} (op : BridgeOp V) : string :=
  match op with
  | OpDraft action _ => action_id action
  | OpMapToItem id _ _ | OpDryRun id _ | OpSubmit id _ | OpApprove id _
  | OpReject id _ _ | OpAbort id _ _ | OpCanary _ id _ | OpRollout _ id _
  | OpRollback id _ | OpAuditRejected id _ _ | OpAuditFailure id _ _ => id
  end.

(** A stage call made on a record in the state that admits it. *)
Definition stage_enabled {V} (op : BridgeOp V) (s : ActionState) : bool :=
  match op with
  | OpCanary _ _ _ => bool_decide (s = ActionState.Approved)
  | OpRollout _ _ _ => bool_decide (s = ActionState.Rollout)
  | OpRollback _ _ => rollbackable s
  | _ => false
  end.

Definition ignore {S T} (m : M S T) : M S unit := m ≫= λ _, mret tt.

Section props.
Context {A : Type} `{!AuditSink A}.
Context {E V : Type} `{!Executor E} `{!Verifier V}.
Implicit Types (b : Bridge A) (x : E) (v : V) (id actor detail : string).
Implicit Types (op : BridgeOp V).

Definition run_op (op : BridgeOp V) : M (Bridge A * E) unit :=
  match op with
  | OpDraft action actor => on_fst (draft action actor)
  | OpMapToItem id k actor => on_fst (map_to_item id k actor)
  | OpDryRun id actor => λ s, ignore (on_fst (dry_run s.2 id actor)) s
  | OpSubmit id actor => on_fst (submit_for_approval id actor)
  | OpApprove id actor => on_fst (approve id actor)
  | OpReject id actor r => on_fst (reject id actor r)
  | OpAbort id actor r => on_fst (abort id actor r)
  | OpCanary v id actor => ignore (run_canary v id actor)
  | OpRollout v id actor => ignore (run_rollout v id actor)
  | OpRollback id actor => ignore (run_rollback id actor)
  | OpAuditRejected id actor d => on_fst (audit_rejected_command id actor d)
  | OpAuditFailure id actor d => on_fst (audit_execution_failure id actor d)
  end.

Context `{!AuditLog A}.

(** Every bridge a client can bring about, with whatever executors. *)
Inductive reachable : Bridge A → Prop :=
  | reachable_new sink : events sink = [] → reachable (bridge_new sink)
  | reachable_op b x op : reachable b → reachable (run_op op (b, x)).1.1.

(** The states in which no target has been given the fix yet. *)
Definition untouched (s : ActionState) : bool :=
  match s with
  | ActionState.Drafted | ActionState.Mapped | ActionState.DryRun
  | ActionState.PendingApproval | ActionState.Approved => true
  | _ => false
  end.

(** What every record of a bridge satisfies. *)
Record record_ok (id : string) (r : BridgeRecord) : Prop := {
  rok_key : action_id (rec_action r) = id;
  rok_scoped : is_scoped (action_targets (rec_action r)) = true;
  rok_applied : rec_applied r ⊆ targets_of (rec_action r);
  rok_untouched : untouched (rec_state r) = true → rec_applied r = [];
}.

Definition records_ok (b : Bridge A) : Prop :=
  ∀ id r, actions b !! id = Some r → record_ok id r.

(** ** How one call changes a bridge *)

Lemma ignore_fst {S T} (m : M S T) s : (ignore m s).1 = (m s).1.
Proof.
  unfold ignore, mbind, M_bind, m_bind. by destruct (m s) as [s' [a|e|]].
Qed.

Lemma ignore_bind {S T U} (m : M S T) (k : T → M S U) s :
  ignore (m ≫= k) s = (m ≫= λ a, ignore (k a)) s.
Proof. unfold ignore, mbind, M_bind, m_bind. by destruct (m s) as [s' [a|e|]]. Qed.

Lemma ignore_panic {S T} (m : M S T) s :
  (m s).2 ≠ Panicked → (ignore m s).2 ≠ Panicked.
Proof.
  unfold ignore, mbind, M_bind, m_bind. by destruct (m s) as [s' [a|e|]].
Qed.

Lemma on_fst_bridge {T} (m : M (Bridge A) T) b x : (on_fst m (b, x)).1.1 = (m b).1.
Proof. unfold on_fst. simpl. by destruct (m b). Qed.

Lemma on_fst_exec {T} (m : M (Bridge A) T) b x : (on_fst m (b, x)).1.2 = x.
Proof. unfold on_fst. simpl. by destruct (m b). Qed.

Lemma on_fst_result {T} (m : M (Bridge A) T) b x : (on_fst m (b, x)).2 = (m b).2.
Proof. unfold on_fst. simpl. by destruct (m b). Qed.

(** What a stage call does, as one statement: refused with no record and no
    target touched, or the stage's reference function on the record. *)
Inductive stage_effect (op : BridgeOp V) (b : Bridge A) (x : E) :
    Bridge A → E → Result StageOutcome → Prop :=
  | stage_refused b' e :
      (∀ s, state b (op_id op) = Some s → stage_enabled op s = false) →
      actions b' = actions b → extends b b' →
      stage_effect op b x b' x (Err e)
  | stage_canary v id actor r x' r' out b' :
      op = OpCanary v id actor → actions b !! id = Some r →
      rec_state r = ActionState.Approved → canary_ref v x r = (x', r', out) →
      actions b' = <[id := r']> (actions b) → extends b b' →
      stage_effect op b x b' x' (Ok out)
  | stage_rollout v id actor r x' r' out b' :
      op = OpRollout v id actor → actions b !! id = Some r →
      rec_state r = ActionState.Rollout → rollout_ref v x r = (x', r', out) →
      actions b' = <[id := r']> (actions b) → extends b b' →
      stage_effect op b x b' x' (Ok out)
  | stage_rollback id actor r x' r' out b' :
      op = OpRollback id actor → actions b !! id = Some r →
      rollbackable (rec_state r) = true → operator_rollback_ref x r = (x', r', out) →
      actions b' = <[id := r']> (actions b) → extends b b' →
      stage_effect op b x b' x' out.

Lemma run_canary_effect v id actor b x :
  let res := run_canary v id actor (b, x) in
  stage_effect (OpCanary v id actor) b x res.1.1 res.1.2 res.2.
Proof.
  destruct (decide (state b id = Some ActionState.Approved)) as [Hs|Hs].
  - destruct (actions b !! id) as [r|] eqn:Hr; [|unfold state in Hs; by rewrite Hr in Hs].
    rewrite (state_lookup b id r Hr) in Hs. injection Hs as Hs.
    destruct (canary_ref v x r) as [[x' r'] out] eqn:Href.
    destruct (run_canary_run v id actor b x r x' r' out) as (b' & -> & ? & ?); [done..|].
    by eapply stage_canary.
  - destruct (run_canary_refused v id actor b x Hs) as (b' & e & -> & ? & ?).
    apply stage_refused; [|done..]. intros s Hs'. simpl in *.
    apply bool_decide_eq_false_2. congruence.
Qed.

Lemma run_rollout_effect v id actor b x :
  let res := run_rollout v id actor (b, x) in
  stage_effect (OpRollout v id actor) b x res.1.1 res.1.2 res.2.
Proof.
  destruct (decide (state b id = Some ActionState.Rollout)) as [Hs|Hs].
  - destruct (actions b !! id) as [r|] eqn:Hr; [|unfold state in Hs; by rewrite Hr in Hs].
    rewrite (state_lookup b id r Hr) in Hs. injection Hs as Hs.
    destruct (rollout_ref v x r) as [[x' r'] out] eqn:Href.
    destruct (run_rollout_run v id actor b x r x' r' out) as (b' & -> & ? & ?); [done..|].
    by eapply stage_rollout.
  - destruct (run_rollout_refused v id actor b x Hs) as (b' & e & -> & ? & ?).
    apply stage_refused; [|done..]. intros s Hs'. simpl in *.
    apply bool_decide_eq_false_2. congruence.
Qed.

Lemma run_rollback_effect id actor b x :
  let res := run_rollback id actor (b, x) in
  stage_effect (OpRollback id actor) b x res.1.1 res.1.2 res.2.
Proof.
  destruct (actions b !! id) as [r|] eqn:Hr.
  - destruct (rollbackable (rec_state r)) eqn:Hs.
    + destruct (operator_rollback_ref x r) as [[x' r'] out] eqn:Href.
      destruct (run_rollback_run id actor b x r x' r' out) as (b' & -> & ? & ?); [done..|].
      by eapply stage_rollback.
    + destruct (run_rollback_refused id actor b x) as (b' & e & -> & ? & ?).
      { intros s. rewrite (state_lookup b id r) by done. congruence. }
      apply stage_refused; [|done..]. intros s. simpl.
      rewrite (state_lookup b id r) by done. congruence.
  - destruct (run_rollback_refused id actor b x) as (b' & e & -> & ? & ?).
    { unfold state. by rewrite Hr. }
    apply stage_refused; [|done..]. intros s. unfold state. simpl. by rewrite Hr.
Qed.

Lemma stage_effect_extends op b x b' x' out :
  stage_effect op b x b' x' out → extends b b'.
Proof. by destruct 1. Qed.

Lemma run_op_extends op b x : extends b (run_op op (b, x)).1.1.
Proof.
  destruct op; unfold run_op; rewrite ?ignore_fst, ?on_fst_bridge.
  8: exact (stage_effect_extends _ _ _ _ _ _ (run_canary_effect v id actor b x)).
  8: exact (stage_effect_extends _ _ _ _ _ _ (run_rollout_effect v id actor b x)).
  8: exact (stage_effect_extends _ _ _ _ _ _ (run_rollback_effect id actor b x)).
  all: match goal with |- extends ?b (?m ?b).1 =>
         assert (rel_m extends m) as Hm by auto with torda; apply Hm end.
Qed.

Lemma reachable_trail b :
  reachable b → ∃ sink, events sink = [] ∧ extends (bridge_new sink) b.
Proof.
  induction 1 as [sink Hs|b x op _ (sink & Hs & IH)].
  - by exists sink.
  - exists sink. split; [done|]. etrans; [done|]. apply run_op_extends.
Qed.
(** ** What one call does to the records *)

(** The record an operation leaves behind, from the one it found. *)
Inductive rec_step (op : BridgeOp V) (x : E) : option BridgeRecord → BridgeRecord → Prop :=
  | step_draft action actor o :
      op = OpDraft action actor → is_scoped (action_targets action) = true →
      rec_step op x o (mkRecord action ActionState.Drafted [])
  | step_move r to :
      lifecycle (rec_state r) to = true → rec_step op x (Some r) (set_rec_state to r)
  | step_canary v x' r r' out :
      rec_state r = ActionState.Approved → canary_ref v x r = (x', r', out) →
      rec_step op x (Some r) r'
  | step_rollout v x' r r' out :
      rec_state r = ActionState.Rollout → rollout_ref v x r = (x', r', out) →
      rec_step op x (Some r) r'
  | step_rollback x' r r' out :
      rollbackable (rec_state r) = true → operator_rollback_ref x r = (x', r', out) →
      rec_step op x (Some r) r'.

Definition moves_records (op : BridgeOp V) (b : Bridge A) (x : E) (b' : Bridge A) : Prop :=
  actions b' = actions b ∨
  ∃ r', actions b' = <[op_id op := r']> (actions b) ∧
        rec_step op x (actions b !! op_id op) r'.

Lemma guarded_moves op allowed to actor detail b x :
  (∀ s, s ∈ allowed → lifecycle s to = true) →
  moves_records op b x (guarded (op_id op) allowed to actor detail b).1.
Proof.
  intros Hall. destruct (actions b !! op_id op) as [r|] eqn:Hr.
  - destruct (decide (rec_state r ∈ allowed)) as [Hin|Hin].
    + destruct (guarded_run (op_id op) allowed to actor detail b r) as (b' & -> & Ha & _);
        [auto..|]. right. eexists. split; [done|]. rewrite Hr. apply step_move. auto.
    + destruct (guarded_refused (op_id op) allowed to actor detail b) as (b' & e & -> & Ha & _).
      { intros s. rewrite (state_lookup b _ r) by done. congruence. }
      by left.
  - left. rewrite guarded_eq. unfold state. by rewrite Hr.
Qed.

Lemma stage_effect_moves op b x b' x' out :
  stage_effect op b x b' x' out → moves_records op b x b'.
Proof.
  destruct 1 as [|v id actor r ???? ->|v id actor r ???? ->|id actor r ???? ->];
    [by left|..]; right; eexists; (split; [done|]); simpl;
    match goal with H : actions b !! _ = _ |- _ => rewrite H end.
  - by eapply step_canary.
  - by eapply step_rollout.
  - by eapply step_rollback.
Qed.

Lemma run_op_moves op b x : moves_records op b x (run_op op (b, x)).1.1.
Proof.
  destruct op as [action actor|id k actor|id actor|id actor|id actor|id actor re
    |id actor re|v id actor|v id actor|id actor|id actor d|id actor d];
    unfold run_op; rewrite ?ignore_fst, ?on_fst_bridge.
  - rewrite draft_eq. destruct (is_scoped _) eqn:Hs; [right|by left].
    eexists. split; [done|]. by eapply step_draft.
  - apply (guarded_moves (OpMapToItem id k actor)). by intros s ->%list_elem_of_singleton.
  - simpl. rewrite dry_run_eq. destruct (actions b !! id) as [r|] eqn:Hr; [|by left].
    case_bool_decide as Hin; [right|by left]. eexists. simpl.
    split; [by apply alter_as_insert|]. rewrite Hr. apply step_move.
    set_unfold. by destruct Hin as [->|[->|?]].
  - apply (guarded_moves (OpSubmit id actor)). by intros s ->%list_elem_of_singleton.
  - apply (guarded_moves (OpApprove id actor)). by intros s ->%list_elem_of_singleton.
  - apply (guarded_moves (OpReject id actor re)). by intros s ->%list_elem_of_singleton.
  - apply (guarded_moves (OpAbort id actor re)). intros s Hs. set_unfold. naive_solver.
  - exact (stage_effect_moves _ _ _ _ _ _ (run_canary_effect v id actor b x)).
  - exact (stage_effect_moves _ _ _ _ _ _ (run_rollout_effect v id actor b x)).
  - exact (stage_effect_moves _ _ _ _ _ _ (run_rollback_effect id actor b x)).
  - by left.
  - by left.
Qed.

Lemma lifecycle_untouched s t : lifecycle s t = true → untouched t = true → untouched s = true.
Proof. by destruct s, t. Qed.

Lemma sublist_subseteq (l k : list string) : l `sublist_of` k → l ⊆ k.
Proof. intros H t Ht. by eapply elem_of_submseteq, sublist_submseteq. Qed.

(** A stage keeps the record well formed. *)
Lemma canary_ref_ok v x id r x' r' out :
  record_ok id r → canary_ref v x r = (x', r', out) → record_ok id r'.
Proof.
  intros [Hk Hsc Hap Hu] H. unfold canary_ref in H.
  destruct (apply_ref _ _ _) as [[x1 ok] n] eqn:Happ.
  assert (rec_applied r ++ ok ⊆ targets_of (rec_action r)) as Hall.
  { apply list_subseteq_app_iff_l. split; [done|].
    apply apply_ref_sublist, sublist_subseteq in Happ. etrans; [done|].
    apply sublist_subseteq, sublist_take. }
  case_match; simplify_eq/=; [|by split].
  destruct (rollback_ref _ _ _) as [x2 f] eqn:Hrb. simplify_eq/=.
  apply rollback_ref_sublist, sublist_subseteq in Hrb. split; try done. by etrans.
Qed.
Lemma rollout_ref_ok v x id r x' r' out :
  record_ok id r → rollout_ref v x r = (x', r', out) → record_ok id r'.
Proof.
  intros [Hk Hsc Hap Hu] H. unfold rollout_ref in H.
  destruct (apply_ref _ _ _) as [[x1 ok] n] eqn:Happ.
  assert (rec_applied r ++ ok ⊆ targets_of (rec_action r)) as Hall.
  { apply list_subseteq_app_iff_l. split; [done|].
    apply apply_ref_sublist, sublist_subseteq in Happ. etrans; [done|].
    apply sublist_subseteq, sublist_filter. }
  case_match; [|case_match; simplify_eq/=; by split].
  destruct (rollback_ref _ _ _) as [x2 f] eqn:Hrb. simplify_eq/=.
  apply rollback_ref_sublist, sublist_subseteq in Hrb. split; try done. by etrans.
Qed.

Lemma operator_rollback_ref_ok x id r x' r' out :
  record_ok id r → operator_rollback_ref x r = (x', r', out) → record_ok id r'.
Proof.
  intros [Hk Hsc Hap Hu] H. unfold operator_rollback_ref in H.
  destruct (rollback_ref _ _ _) as [x2 f] eqn:Hrb.
  apply rollback_ref_sublist, sublist_subseteq in Hrb.
  assert (rollback_set r ⊆ targets_of (rec_action r)) as Hall
    by (unfold rollback_set; by case_bool_decide).
  destruct f as [|t f]; simplify_eq/=; split; simpl; try done; [|by etrans].
  apply list_subseteq_nil.
Qed.

Lemma rec_step_ok op x o r' :
  (∀ r, o = Some r → record_ok (op_id op) r) →
  rec_step op x o r' → record_ok (op_id op) r'.
Proof.
  intros Ho. destruct 1 as [action actor ? -> ?|r to Hl|????? _ H|????? _ H|???? _ H].
  - split; simpl; try done. apply list_subseteq_nil.
  - destruct (Ho r eq_refl) as [? ? ? Hu]. split; try done.
    simpl. eauto using lifecycle_untouched.
  - eapply canary_ref_ok; eauto.
  - eapply rollout_ref_ok; eauto.
  - eapply operator_rollback_ref_ok; eauto.
Qed.

Lemma run_op_records_ok op b x : records_ok b → records_ok (run_op op (b, x)).1.1.
Proof.
  intros Hb id r. destruct (run_op_moves op b x) as [->|(r' & -> & Hstep)]; [apply Hb|].
  destruct (decide (op_id op = id)) as [<-|Hne].
  - rewrite lookup_insert_eq. intros [= <-]. eapply rec_step_ok; eauto.
  - rewrite lookup_insert_ne by done. apply Hb.
Qed.

Lemma reachable_run op b x b' x' out :
  reachable b → run_op op (b, x) = ((b', x'), out) → reachable b'.
Proof. intros Hb H. pose proof (reachable_op b x op Hb) as H'. by rewrite H in H'. Qed.

Lemma reachable_records_ok b : reachable b → records_ok b.
Proof.
  induction 1; [|by apply run_op_records_ok].
  intros id r. simpl. by rewrite lookup_empty.
Qed.

Lemma reachable_accepted b :
  reachable b → spec_run ∅ (events (audit b)) = Some (states b).
Proof.
  intros (sink & Hs & evs & Ht)%reachable_trail.
  rewrite (trail_events _ _ _ Ht). simpl. rewrite Hs. simpl.
  rewrite <-(trail_run _ _ _ Ht). unfold states. simpl. by rewrite fmap_empty.
Qed.
(** ** Who touches the executor, and how calls end *)

Lemma stage_effect_exec op b x b' x' out :
  stage_effect op b x b' x' out →
  x' = x ∨ ∃ s, state b (op_id op) = Some s ∧ stage_enabled op s = true.
Proof.
  destruct 1 as [|v id actor r ???? ->|v id actor r ???? ->|id actor r ???? ->];
    [by left|..]; right; exists (rec_state r); simpl;
    (split; [by apply state_lookup|]); try done; by apply bool_decide_eq_true_2.
Qed.

Lemma run_op_exec op b x :
  (run_op op (b, x)).1.2 = x ∨
  ∃ s, state b (op_id op) = Some s ∧ stage_enabled op s = true.
Proof.
  destruct op as [| | | | | | |v id actor|v id actor|id actor| |];
    unfold run_op; rewrite ?ignore_fst; try (left; by rewrite on_fst_exec).
  - exact (stage_effect_exec _ _ _ _ _ _ (run_canary_effect v id actor b x)).
  - exact (stage_effect_exec _ _ _ _ _ _ (run_rollout_effect v id actor b x)).
  - exact (stage_effect_exec _ _ _ _ _ _ (run_rollback_effect id actor b x)).
Qed.

Lemma stage_effect_no_panic op b x b' x' out :
  stage_effect op b x b' x' out → out ≠ Panicked.
Proof.
  destruct 1 as [| | |?????????? H]; [done..|]. unfold operator_rollback_ref in H.
  destruct (rollback_ref _ _ _) as [? [|]]; by simplify_eq.
Qed.

Lemma guarded_no_panic id allowed to actor detail b :
  (guarded (A:=A) id allowed to actor detail b).2 ≠ Panicked.
Proof. rewrite guarded_eq. by repeat case_match. Qed.

Lemma run_op_no_panic op b x : (run_op op (b, x)).2 ≠ Panicked.
Proof.
  destruct op as [| | | | | | |v id actor|v id actor|id actor| |]; unfold run_op;
    rewrite ?on_fst_result; try apply guarded_no_panic; try done.
  - rewrite draft_eq. by case_match.
  - apply ignore_panic. rewrite on_fst_result, dry_run_eq. by repeat case_match.
  - apply ignore_panic.
    exact (stage_effect_no_panic _ _ _ _ _ _ (run_canary_effect v id actor b x)).
  - apply ignore_panic.
    exact (stage_effect_no_panic _ _ _ _ _ _ (run_rollout_effect v id actor b x)).
  - apply ignore_panic.
    exact (stage_effect_no_panic _ _ _ _ _ _ (run_rollback_effect id actor b x)).
Qed.

Lemma stage_enabled_gates op s :
  stage_enabled op s = true →
  gates_before s = gates_before ActionState.Approved.
Proof. destruct op; simpl; try done; [by intros ->%bool_decide_eq_true..|]. by destruct s. Qed.

Lemma reachable_gates b id s :
  reachable b → state b id = Some s →
  gates_before s `sublist_of` (milestones id (events (audit b))).*1.
Proof.
  intros Hb Hs. eapply gates_passed; [by apply reachable_accepted|].
  by rewrite states_lookup.
Qed.

(** ** The theorems *)

(** C3: every audit trail the bridge can write is accepted by the lifecycle
    automaton, and the automaton ends in exactly the states the bridge holds: the
    record of every action can be rebuilt from the trail alone. *)
Theorem audit_trail_accepted b :
  reachable b → spec_run ∅ (events (audit b)) = Some (states b).
Proof. apply reachable_accepted. Qed.

(** C1: whatever is called, the executor is only touched by a stage call on an
    action whose state admits that stage, and then the trail shows the action
    drafted, dry-run, submitted and approved, in that order, since its last
    draft. *)
Theorem executor_only_after_approval op b x :
  reachable b → (run_op op (b, x)).1.2 ≠ x →
  ∃ s, state b (op_id op) = Some s ∧ stage_enabled op s = true ∧
    [ActionState.Drafted; ActionState.DryRun; ActionState.PendingApproval;
     ActionState.Approved]
      `sublist_of` (milestones (op_id op) (events (audit b))).*1.
Proof.
  intros Hb Hx. destruct (run_op_exec op b x) as [|(s & Hs & He)]; [done|].
  exists s. split; [done|]. split; [done|].
  pose proof (reachable_gates b (op_id op) s Hb Hs) as H.
  by rewrite (stage_enabled_gates op s He) in H.
Qed.

(** In every trail, an event that applies the fix to a target is preceded
    by the draft, dry run, submission and approval of that action, in order,
    since its last draft. *)
Theorem approval_precedes_every_apply b l1 e l2 s :
  reachable b → events (audit b) = l1 ++ e :: l2 →
  ev_from e = Some s → is_target_apply e s = true →
  ev_outcome e ≠ Outcome.Rejected →
  [ActionState.Drafted; ActionState.DryRun; ActionState.PendingApproval;
   ActionState.Approved] `sublist_of` (milestones (ev_action_id e) l1).*1.
Proof.
  intros Hb Hev Hf Ha Ho. pose proof (reachable_accepted b Hb) as Hrun.
  rewrite Hev, spec_run_app in Hrun.
  destruct (spec_run ∅ l1) as [m1|] eqn:H1; [|done]. simpl in Hrun.
  change (e :: l2) with ([e] ++ l2) in Hrun. rewrite spec_run_app, spec_run_one in Hrun.
  destruct (spec_step m1 e) as [m2|] eqn:H2; [|done].
  pose proof (apply_event_current m1 m2 e s H2 Ho Hf Ha) as Hcur.
  pose proof (gates_passed l1 m1 _ s H1 Hcur) as H.
  unfold is_target_apply in Ha. by destruct s; rewrite ?andb_false_r in Ha.
Qed.

(** No call of the bridge's API panics, on any bridge and executor, so the
    unwraps and the slice of [bridge.rs] are safe. *)
Theorem no_method_panics op b x : (run_op op (b, x)).2 ≠ Panicked.
Proof. apply run_op_no_panic. Qed.

(** C7: every record of a reachable bridge is filed under its own id, names
    explicit targets, has recorded only its own targets as applied, and none at
    all until it left [Approved]. *)
Theorem records_well_formed b : reachable b → records_ok b.
Proof. apply reachable_records_ok. Qed.

(** A call about one action leaves every other action's record alone. *)
Theorem other_actions_untouched op b x id :
  id ≠ op_id op → actions (run_op op (b, x)).1.1 !! id = actions b !! id.
Proof.
  intros Hne. destruct (run_op_moves op b x) as [->|(r' & -> & _)]; [done|].
  by rewrite lookup_insert_ne.
Qed.

(** The events of a trail are numbered 0, 1, 2, ... modulo 2^64. *)
Theorem audit_numbering b i e :
  reachable b → events (audit b) !! i = Some e → ev_seq e = wrap_u64 (Z.of_nat i).
Proof.
  intros (sink & Hs & evs & Ht)%reachable_trail Hi.
  rewrite (trail_events _ _ _ Ht) in Hi. simpl in Hi. rewrite Hs in Hi.
  by apply (trail_numbered _ _ _ Ht) in Hi.
Qed.
End props.
