(* ===== verification/BridgeCalls.v ===== *)
(** * What the stages ask of the executor

    An executor wrapped so that it keeps the calls it receives, and the exact
    call sequences of the three execution stages; a concrete walk through the
    API that reaches every stage. *)

From stdpp Require Import base tactics gmap strings list.
From Stdlib Require Import ZArith.
From S2P Require Import Prelude Float32 Action Bridge BridgeSpec BridgeFacts BridgeProps.

(** ** Recording the calls *)

Inductive Call :=
  | CApply (id t : string)
  | CRollback (id t : string).

(** Any executor, together with the calls made to it so far. *)
Record Traced (E : Type) := mkTraced { traced : E; calls : list Call }.
Arguments mkTraced {E} traced calls.
Arguments traced {E} _.
Arguments calls {E} _.

#[export] Instance Traced_executor {E} `{!Executor E} : Executor (Traced E) := {|
  exec_preview x a := exec_preview (traced x) a;
  exec_apply x a t :=
    let '(x', r) := exec_apply (traced x) a t in
    (mkTraced x' (calls x ++ [CApply (action_id a) t]), r);
  exec_rollback x a t :=
    let '(x', r) := exec_rollback (traced x) a t in
    (mkTraced x' (calls x ++ [CRollback (action_id a) t]), r);
|}.

Definition applies_to (a : RemediationAction) (ts : list string) : list Call :=
  CApply (action_id a) <$> ts.
Definition rollbacks_of (a : RemediationAction) (ts : list string) : list Call :=
  CRollback (action_id a) <$> ts.

Section calls.
Context {A : Type} `{!AuditSink A} `{!AuditLog A}.
Context {E V : Type} `{!Executor E} `{!Verifier V}.
Implicit Types (b : Bridge A) (v : V) (id actor : string) (x : Traced E).

Lemma apply_ref_traced x a ts :
  apply_ref x a ts =
  let '(x', ok, n) := apply_ref (traced x) a ts in
  (mkTraced x' (calls x ++ applies_to a ts), ok, n).
Proof.
  revert x. induction ts as [|t ts IH]; intros [x cs]; simpl.
  { by rewrite app_nil_r. }
  destruct (exec_apply x a t) as [x1 r]. rewrite IH. simpl.
  destruct (apply_ref x1 a ts) as [[x2 ok] n]. rewrite <-app_assoc. by destruct r.
Qed.

Lemma rollback_ref_traced x a ts :
  rollback_ref x a ts =
  let '(x', f) := rollback_ref (traced x) a ts in
  (mkTraced x' (calls x ++ rollbacks_of a ts), f).
Proof.
  revert x. induction ts as [|t ts IH]; intros [x cs]; simpl.
  { by rewrite app_nil_r. }
  destruct (exec_rollback x a t) as [x1 r]. rewrite IH. simpl.
  destruct (rollback_ref x1 a ts) as [x2 f]. rewrite <-app_assoc. by destruct r.
Qed.

(** ** The stages *)

Definition cohort_of (a : RemediationAction) : list string :=
  take (canary_cohort_len a) (targets_of a).

(** The targets of [ts] on which [x] applies the fix, and how many it misses. *)
Definition successes (x : Traced E) (a : RemediationAction) (ts : list string) :
    list string := (apply_ref (traced x) a ts).1.2.
Definition misses (x : Traced E) (a : RemediationAction) (ts : list string) : nat :=
  (apply_ref (traced x) a ts).2.

Definition over_threshold (x : Traced E) (a : RemediationAction) (ts : list string) : bool :=
  f32_gt (failure_rate (misses x a ts) (length ts))
         (failure_threshold (action_canary a)).

Lemma cohort_bounds id r :
  record_ok id r →
  let a := rec_action r in
  1 ≤ length (cohort_of a) ∧
  length (cohort_of a) ≤ Nat.max 1 (cohort_size (action_canary a)) ∧
  cohort_of a `prefix_of` targets_of a.
Proof.
  intros [_ Hsc _ _]. unfold cohort_of, canary_cohort_len. simpl.
  rewrite length_take. repeat split; [|lia|].
  - unfold is_scoped in Hsc. unfold targets_of in *. destruct (asset_ids _); simpl in *; [done|lia].
  - exists (drop (canary_cohort_len (rec_action r)) (targets_of (rec_action r))).
    symmetry. apply take_drop.
Qed.

(** The canary of an approved action applies the fix to the first
    [cohort_size] targets (at least one), in order, each once and to no other
    target.  It is promoted exactly when the failure rate is within the threshold
    and the verifier confirms the fix; otherwise exactly the targets that took
    the fix are rolled back and the action ends rolled back. *)
Theorem canary_calls v id actor b x r :
  reachable (E:=Traced E) (V:=V) b → actions b !! id = Some r → rec_state r = ActionState.Approved →
  let a := rec_action r in
  let ok := successes x a (cohort_of a) in
  let rejected := over_threshold x a (cohort_of a)
                  || bool_decide (verify v a ok = VerifyOutcome.NotFixed) in
  let '((b', x'), out) := run_canary v id actor (b, x) in
  1 ≤ length (cohort_of a) ≤ Nat.max 1 (cohort_size (action_canary a)) ∧
  calls x' = calls x ++ applies_to a (cohort_of a)
               ++ (if rejected then rollbacks_of a ok else []) ∧
  out = Ok (if rejected then StageOutcome.RolledBack else StageOutcome.Promoted) ∧
  state b' id = Some (if rejected then ActionState.RolledBack else ActionState.Rollout).
Proof.
  intros Hb Hr Hs a ok rejected.
  pose proof (reachable_records_ok b Hb id r Hr) as Hok.
  assert (rec_applied r = []) as Hap by (apply (rok_untouched _ _ Hok); by rewrite Hs).
  destruct (cohort_bounds id r Hok) as (? & ? & _).
  destruct (canary_ref v x r) as [[x' r'] out] eqn:Href.
  destruct (run_canary_run v id actor b x r x' r' out) as (b' & -> & Ha & _); [done..|].
  rewrite (state_lookup b' id r') by (rewrite Ha; apply lookup_insert_eq).
  split; [done|]. unfold canary_ref in Href. fold a in Href. fold (cohort_of a) in Href.
  rewrite apply_ref_traced, Hap in Href.
  unfold rejected, over_threshold, ok, successes, misses.
  destruct (apply_ref (traced x) a _) as [[x1 ok1] n]. simpl in *.
  destruct (f32_gt _ _ || bool_decide (verify v a ok1 = _)); simpl in Href;
    [|by simplify_eq/=; rewrite app_nil_r].
  rewrite rollback_ref_traced in Href. simpl in Href.
  destruct (rollback_ref x1 a ok1). simplify_eq/=. by rewrite app_assoc.
Qed.

(** A rollout applies the fix to exactly the targets the canary left, in
    order, so never to a target that already has it.  Past the threshold it rolls
    back everything applied so far, canary targets included; otherwise the
    verifier decides between closed and applied-but-unverified. *)
Theorem rollout_calls v id actor b x r :
  reachable (E:=Traced E) (V:=V) b → actions b !! id = Some r → rec_state r = ActionState.Rollout →
  let a := rec_action r in
  let remaining := filter (λ t, t ∉ rec_applied r) (targets_of a) in
  let applied := rec_applied r ++ successes x a remaining in
  let failed := over_threshold x a remaining in
  let fixed := bool_decide (verify v a applied = VerifyOutcome.Fixed) in
  let '((b', x'), out) := run_rollout v id actor (b, x) in
  calls x' = calls x ++ applies_to a remaining
               ++ (if failed then rollbacks_of a applied else []) ∧
  out = Ok (if failed then StageOutcome.RolledBack
            else if fixed then StageOutcome.Closed
            else StageOutcome.AppliedUnverified) ∧
  state b' id = Some (if failed then ActionState.RolledBack
                      else if fixed then ActionState.Closed else ActionState.Verify) ∧
  applied ⊆ targets_of a.
Proof.
  intros Hb Hr Hs a remaining applied failed fixed.
  pose proof (reachable_records_ok b Hb id r Hr) as Hok.
  destruct (rollout_ref v x r) as [[x' r'] out] eqn:Href.
  destruct (run_rollout_run v id actor b x r x' r' out) as (b' & -> & Ha & _); [done..|].
  rewrite (state_lookup b' id r') by (rewrite Ha; apply lookup_insert_eq).
  unfold rollout_ref in Href. fold a remaining in Href. rewrite apply_ref_traced in Href.
  unfold failed, over_threshold, applied, successes, misses in *.
  destruct (apply_ref (traced x) a _) as [[x1 ok1] n] eqn:Happ. simpl in *.
  assert (rec_applied r ++ ok1 ⊆ targets_of a) as Hsub.
  { apply list_subseteq_app_iff_l. split; [apply Hok|].
    apply apply_ref_sublist, sublist_subseteq in Happ. etrans; [done|].
    apply sublist_subseteq, sublist_filter. }
  destruct (f32_gt _ _).
  - rewrite rollback_ref_traced in Href. simpl in Href.
    destruct (rollback_ref x1 a _). simplify_eq/=. by rewrite app_assoc.
  - unfold fixed, applied in *. case_bool_decide; simplify_eq/=; by rewrite app_nil_r.
Qed.
(** An operator rollback of an applied action visits exactly the recorded
    targets (all of them when none is recorded), in order.  It succeeds exactly
    when every target was reverted; otherwise the action becomes
    [RollbackIncomplete], records exactly the targets still carrying the fix, and
    the next attempt visits only those. *)
Theorem rollback_retries_what_is_left id actor b x r :
  actions b !! id = Some r → rollbackable (rec_state r) = true →
  let a := rec_action r in
  let left := (rollback_ref (traced x) a (rollback_set r)).2 in
  let '((b', x'), out) := run_rollback id actor (b, x) in
  calls x' = calls x ++ rollbacks_of a (rollback_set r) ∧
  left `sublist_of` rollback_set r ∧
  ∃ r', actions b' !! id = Some r' ∧ rec_action r' = a ∧ rec_applied r' = left ∧
    (left = [] → out = Ok StageOutcome.RolledBackByOperator ∧
                 rec_state r' = ActionState.RolledBack) ∧
    (left ≠ [] → is_err out = true ∧ rec_state r' = ActionState.RollbackIncomplete ∧
                 rollbackable (rec_state r') = true ∧ rollback_set r' = left).
Proof.
  intros Hr Hs a left.
  destruct (operator_rollback_ref x r) as [[x' r'] out] eqn:Href.
  destruct (run_rollback_run id actor b x r x' r' out) as (b' & -> & Ha & _); [done..|].
  unfold operator_rollback_ref in Href. fold a in Href. rewrite rollback_ref_traced in Href.
  unfold left. destruct (rollback_ref (traced x) a _) as [x1 f] eqn:Hrb. simpl.
  apply rollback_ref_sublist in Hrb.
  destruct f as [|t f]; simplify_eq/=; split; try done; (split; [done|]);
    eexists; (split; [rewrite Ha; apply lookup_insert_eq|]); naive_solver.
Qed.
End calls.

(** * Who an audit event is attributed to

    Every event a call of the bridge writes carries the caller's name and the
    action the call is about; only a draft call writes a draft, only an approve
    call writes an approval. *)

Definition op_actor {V} (op : BridgeOp V) : string :=
  match op with
  | OpDraft _ actor | OpMapToItem _ _ actor | OpDryRun _ actor | OpSubmit _ actor
  | OpApprove _ actor | OpReject _ actor _ | OpAbort _ actor _ | OpCanary _ _ actor
  | OpRollout _ _ actor | OpRollback _ actor | OpAuditRejected _ actor _
  | OpAuditFailure _ actor _ => actor
  end.

(** An approval that was carried out. *)
Definition is_approval (id : string) (e : AuditEvent) : bool :=
  bool_decide (ev_action_id e = id ∧ ev_outcome e = Outcome.Ok ∧
               ev_to e = ActionState.Approved).

(** The events [op] may write. *)
Record op_event {V} (op : BridgeOp V) (e : AuditEvent) : Prop := {
  oe_actor : ev_actor e = op_actor op;
  oe_id : ev_action_id e = op_id op;
  oe_draft : is_draft (ev_action_id e) e = true →
             ∃ action actor, op = OpDraft action actor;
  oe_approval : is_approval (ev_action_id e) e = true →
                ∃ id actor, op = OpApprove id actor;
}.

Section events.
Context {A : Type} `{!AuditSink A} `{!AuditLog A}.
Implicit Types (b : Bridge A) (P : AuditEvent → Prop).

(** [b'] is [b] with events satisfying [P] appended. *)
Definition adds (P : AuditEvent → Prop) (b b' : Bridge A) : Prop :=
  ∃ evs, events (audit b') = events (audit b) ++ evs ∧ Forall P evs.

#[export] Instance adds_preorder P : PreOrder (adds P).
Proof.
  split.
  - intros b. exists []. by rewrite app_nil_r.
  - intros b1 b2 b3 (l1 & H1 & F1) (l2 & H2 & F2). exists (l1 ++ l2).
    rewrite H2, H1, app_assoc. split; [done|by apply Forall_app].
Qed.

Lemma adds_same_audit P b b' : audit b' = audit b → adds P b b'.
Proof. intros H. exists []. by rewrite H, app_nil_r. Qed.

Lemma adds_log_event P f b id from to actor o d :
  (∀ n, P (mkAuditEvent n id from to actor o d)) →
  adds P b (log_event (with_actions f b) id from to actor o d).
Proof. intros HP. exists [mkAuditEvent (seq b) id from to actor o d]. simpl.
  rewrite events_record. split; [done|]. by constructor. Qed.

Lemma adds_log P id from to actor o d :
  (∀ n, P (mkAuditEvent n id from to actor o d)) →
  rel_m (adds P) (log (A:=A) id from to actor o d).
Proof.
  intros HP b. pose proof (adds_log_event P Datatypes.id b id from to actor o d HP) as H.
  by rewrite with_actions_id in H.
Qed.

Lemma adds_with_actions P f : rel_m (adds P) (modify (with_actions (A:=A) f)).
Proof. intros b. by apply adds_same_audit. Qed.

Lemma adds_get_rec P id : rel_m (adds P) (get_rec (A:=A) id).
Proof. unfold get_rec. auto with torda typeclass_instances. Qed.

Lemma adds_modify_rec P id f : rel_m (adds P) (modify_rec (A:=A) id f).
Proof.
  unfold modify_rec. apply rel_m_bind; [apply _|apply adds_get_rec|].
  intros _. apply adds_with_actions.
Qed.

Lemma adds_guarded P id allowed to actor d :
  (∀ n s, s ∈ allowed → P (mkAuditEvent n id (Some s) to actor Outcome.Ok d)) →
  (∀ n s d', P (mkAuditEvent n id (Some s) to actor Outcome.Rejected d')) →
  rel_m (adds P) (guarded (A:=A) id allowed to actor d).
Proof.
  intros HP HR b. rewrite guarded_eq. destruct (state b id) as [s|]; [|done].
  case_decide; simpl.
  - apply adds_log_event. auto.
  - apply (adds_log P id (Some s) to actor Outcome.Rejected "illegal transition"). auto.
Qed.

Section stages.
Context {E V : Type} `{!Executor E} `{!Verifier V}.
Implicit Types (x : E).

(** The same on a bridge paired with an executor. *)
Definition adds_fst (P : AuditEvent → Prop) (s s' : Bridge A * E) : Prop :=
  adds P s.1 s'.1.

#[export] Instance adds_fst_preorder P : PreOrder (adds_fst P).
Proof.
  split; [intros s; unfold adds_fst; reflexivity|].
  intros s1 s2 s3 H1 H2. unfold adds_fst in *. by etrans.
Qed.

Lemma adds_on_fst P {T} (m : M (Bridge A) T) :
  rel_m (adds P) m → rel_m (adds_fst P) (on_fst m).
Proof. intros Hm. by apply (rel_m_on_fst (adds P)). Qed.

Lemma adds_call_apply P a t : rel_m (adds_fst P) (call_apply (A:=A) (E:=E) a t).
Proof. intros s. unfold call_apply, adds_fst. destruct (exec_apply s.2 a t). reflexivity. Qed.

Lemma adds_call_rollback P a t : rel_m (adds_fst P) (call_rollback (A:=A) (E:=E) a t).
Proof. intros s. unfold call_rollback, adds_fst. destruct (exec_rollback s.2 a t). reflexivity. Qed.

Lemma adds_slice P l n : rel_m (adds_fst P) (slice_to l n).
Proof. unfold slice_to. case_decide; auto with torda typeclass_instances. Qed.

Lemma adds_set_state P id to actor d :
  (∀ n from, P (mkAuditEvent n id from to actor Outcome.Ok d)) →
  rel_m (adds P) (set_state (A:=A) id to actor d).
Proof. intros HP b. rewrite set_state_eq. apply adds_log_event. auto. Qed.
End stages.
End events.

#[export] Hint Resolve adds_with_actions adds_get_rec adds_modify_rec adds_guarded
  adds_on_fst adds_call_apply adds_call_rollback adds_slice : torda.

(** Walk through a computation of the bridge, leaving the events it logs. *)
Ltac adds_tac :=
  repeat first
    [ progress intros
    | apply rel_m_bind; [apply _| |]
    | apply adds_on_fst
    | apply adds_log | apply adds_set_state | apply adds_guarded
    | case_match
    | solve [auto with torda typeclass_instances] ].

Ltac op_event_tac :=
  intros; split; simpl; try done; unfold is_draft, is_approval;
  rewrite ?bool_decide_eq_true; naive_solver.

Section stage_events.
Context {A : Type} `{!AuditSink A} `{!AuditLog A}.
Context {E V : Type} `{!Executor E} `{!Verifier V}.
Implicit Types (id actor : string) (v : V).

(** A stage's events: the stage's actor and action, never a draft or approval. *)
Definition stage_event (id actor : string) (e : AuditEvent) : Prop :=
  ev_actor e = actor ∧ ev_action_id e = id ∧
  ev_to e ≠ ActionState.Drafted ∧ ev_to e ≠ ActionState.Approved.

Lemma adds_apply_loop id a stage actor ts n :
  applies stage = true →
  rel_m (adds_fst (stage_event id actor)) (apply_loop (A:=A) (E:=E) id a stage actor ts n).
Proof.
  intros Hs. revert n. induction ts as [|t ts IH]; intros n; simpl; [by adds_tac|].
  adds_tac; try apply IH; by destruct stage.
Qed.

Lemma adds_rollback_loop id a actor ts f :
  rel_m (adds_fst (stage_event id actor)) (rollback_loop (A:=A) (E:=E) id a actor ts f).
Proof.
  revert f. induction ts as [|t ts IH]; intros f; simpl; [by adds_tac|].
  adds_tac; try apply IH; done.
Qed.

Lemma adds_run_canary v id actor :
  rel_m (adds_fst (stage_event id actor)) (run_canary (A:=A) (E:=E) v id actor).
Proof.
  unfold run_canary. adds_tac;
    try (by apply adds_apply_loop || apply adds_rollback_loop); done.
Qed.

Lemma adds_run_rollout v id actor :
  rel_m (adds_fst (stage_event id actor)) (run_rollout (A:=A) (E:=E) v id actor).
Proof.
  unfold run_rollout. adds_tac;
    try (by apply adds_apply_loop || apply adds_rollback_loop); done.
Qed.

Lemma adds_run_rollback id actor :
  rel_m (adds_fst (stage_event id actor)) (run_rollback (A:=A) (E:=E) id actor).
Proof.
  unfold run_rollback. adds_tac; try apply adds_rollback_loop; done.
Qed.
Lemma adds_weaken (P Q : AuditEvent → Prop) (b b' : Bridge A) :
  (∀ e, P e → Q e) → adds P b b' → adds Q b b'.
Proof. intros HPQ (evs & He & HF). exists evs. split; [done|]. by eapply Forall_impl. Qed.

Lemma stage_event_op (op : BridgeOp V) e :
  stage_event (op_id op) (op_actor op) e → op_event op e.
Proof.
  intros (Ha & Hi & Hd & Hap). split; try done.
  - intros H. unfold is_draft in H. apply bool_decide_eq_true in H. naive_solver.
  - intros H. unfold is_approval in H. apply bool_decide_eq_true in H. naive_solver.
Qed.

Lemma adds_draft action actor :
  rel_m (adds (op_event (V:=V) (OpDraft action actor))) (draft (A:=A) action actor).
Proof.
  intros b. rewrite draft_eq. destruct (is_scoped _); simpl.
  - apply adds_log_event. by op_event_tac.
  - by apply (adds_log _ (action_id action) None ActionState.Drafted actor
      Outcome.Rejected "unscoped selector"); op_event_tac.
Qed.

Lemma adds_dry_run x id actor :
  rel_m (adds (op_event (V:=V) (OpDryRun id actor))) (dry_run (A:=A) (E:=E) x id actor).
Proof.
  intros b. rewrite dry_run_eq. destruct (actions b !! id) as [r|]; [|done].
  case_bool_decide; simpl.
  - apply adds_log_event. by op_event_tac.
  - by apply (adds_log _ id (Some (rec_state r)) ActionState.DryRun actor
      Outcome.Rejected "not draftable state for dry-run"); op_event_tac.
Qed.

(** Every event a call writes is one [op_event] allows. *)
Lemma run_op_events (op : BridgeOp V) (b : Bridge A) (x : E) :
  adds (op_event op) b (run_op op (b, x)).1.1.
Proof.
  pose proof (stage_event_op op) as Hstage.
  destruct op as [action actor|id k actor|id actor|id actor|id actor|id actor re
    |id actor re|v id actor|v id actor|id actor|id actor d|id actor d];
    unfold run_op; rewrite ?ignore_fst, ?on_fst_bridge.
  8: eapply adds_weaken; [exact Hstage|apply (adds_run_canary v id actor (b, x))].
  8: eapply adds_weaken; [exact Hstage|apply (adds_run_rollout v id actor (b, x))].
  8: eapply adds_weaken; [exact Hstage|apply (adds_run_rollback id actor (b, x))].
  1: by apply adds_draft.
  2: by apply adds_dry_run.
  6-7: apply adds_log; by op_event_tac.
  all: apply adds_guarded; by op_event_tac.
Qed.
End stage_events.
