(* ===== verification/BridgeDemo.v ===== *)
(** * A concrete walk through the bridge

    A scripted executor, verifier and action, the bridges a client reaches with
    them, and the bridge theorems applied there. *)

From stdpp Require Import base tactics gmap strings list.
From Stdlib Require Import ZArith.
From S2P Require Import Prelude Float32 Action Bridge BridgeSpec BridgeFacts BridgeProps.
From S2P Require Import BridgeCalls.

(** Fails on the listed targets, succeeds elsewhere. *)
Record Scripted := mkScripted {
  apply_fails : list string;
  rollback_fails : list string;
}.

#[export] Instance Scripted_executor : Executor Scripted := {|
  exec_preview x a := "would run " +:+ action_payload a;
  exec_apply x a t :=
    (x, if bool_decide (t ∈ apply_fails x) then Some "unreachable" else None);
  exec_rollback x a t :=
    (x, if bool_decide (t ∈ rollback_fails x) then Some "unreachable" else None);
|}.

#[export] Instance Fixed_verifier : Verifier VerifyOutcome := λ v _ _, v.

Definition demo_action : RemediationAction :=
  mkRemediationAction "act-1" "patch" Method.PackageMgr "apt upgrade openssl"
    (mkAssetSelector ["h1"; "h2"; "h3"]) true true None (mkVerifySpec ["f1"])
    (mkCanarySpec 1 (f32_lit 1 2)).

Definition demo_exec : Traced Scripted := mkTraced (mkScripted [] ["h2"]) [].

Definition run_ops (ops : list (BridgeOp VerifyOutcome))
    (b : Bridge VecAuditSink) (x : Traced Scripted) : Bridge VecAuditSink * Traced Scripted :=
  foldl (λ s op, (run_op op s).1) (b, x) ops.

Definition to_approved : list (BridgeOp VerifyOutcome) :=
  [OpDraft demo_action "alice"; OpMapToItem "act-1" "item-1" "alice";
   OpDryRun "act-1" "alice"; OpSubmit "act-1" "alice"; OpApprove "act-1" "bob"].

Definition to_rollout : list (BridgeOp VerifyOutcome) :=
  to_approved ++ [OpCanary VerifyOutcome.Fixed "act-1" "carol"].

Definition to_closed : list (BridgeOp VerifyOutcome) :=
  to_rollout ++ [OpRollout VerifyOutcome.Fixed "act-1" "carol"].

Definition demo (ops : list (BridgeOp VerifyOutcome)) : Bridge VecAuditSink :=
  (run_ops ops (bridge_new (mkVecAuditSink [])) demo_exec).1.

Definition demo_record (s : ActionState) (applied : list string) : BridgeRecord :=
  mkRecord demo_action s applied.

Lemma run_ops_reachable ops b x : 
  reachable (E:=Traced Scripted) (V:=VerifyOutcome) b →
  reachable (E:=Traced Scripted) (V:=VerifyOutcome) (run_ops ops b x).1.
Proof.
  revert b x. induction ops as [|op ops IH]; intros b x Hb; [done|].
  unfold run_ops in *. simpl. pose proof (reachable_op b x op Hb) as H1.
  destruct (run_op op (b, x)) as [[b1 x1] o]. by apply IH.
Qed.

Lemma demo_reachable ops : reachable (E:=Traced Scripted) (V:=VerifyOutcome) (demo ops).
Proof. apply run_ops_reachable. by apply reachable_new. Qed.

Lemma audit_trail_accepted_witness :
  spec_run ∅ (events (audit (demo to_closed))) = Some (states (demo to_closed)) ∧
  state (demo to_closed) "act-1" = Some ActionState.Closed ∧
  length (events (audit (demo to_closed))) = 13.
Proof.
  split; [apply (audit_trail_accepted (E:=Traced Scripted) (V:=VerifyOutcome)), demo_reachable|].
  split; by vm_compute.
Defined.

Lemma executor_only_after_approval_witness :
  ∃ s, state (demo to_approved) "act-1" = Some s ∧
    stage_enabled (OpCanary VerifyOutcome.Fixed "act-1" "carol") s = true ∧
    [ActionState.Drafted; ActionState.DryRun; ActionState.PendingApproval;
     ActionState.Approved]
      `sublist_of` (milestones "act-1" (events (audit (demo to_approved)))).*1.
Proof.
  apply (executor_only_after_approval (OpCanary VerifyOutcome.Fixed "act-1" "carol")
    (demo to_approved) demo_exec); [apply demo_reachable|by vm_compute].
Defined.

Definition demo_apply_event : AuditEvent :=
  mkAuditEvent 6 "act-1" (Some ActionState.Canary) ActionState.Canary "carol"
    Outcome.Ok "applied to h1".

Lemma approval_precedes_every_apply_witness :
  [ActionState.Drafted; ActionState.DryRun; ActionState.PendingApproval;
   ActionState.Approved]
     `sublist_of` (milestones "act-1" (take 6 (events (audit (demo to_closed))))).*1.
Proof.
  apply (approval_precedes_every_apply (E:=Traced Scripted) (V:=VerifyOutcome)
    (demo to_closed) (take 6 (events (audit (demo to_closed)))) demo_apply_event
    (drop 7 (events (audit (demo to_closed)))) ActionState.Canary);
    [apply demo_reachable|by vm_compute..].
Defined.

Lemma records_well_formed_witness :
  records_ok (demo to_rollout) ∧
  actions (demo to_rollout) !! "act-1" = Some (demo_record ActionState.Rollout ["h1"]).
Proof.
  split; [|by vm_compute].
  apply (records_well_formed (E:=Traced Scripted) (V:=VerifyOutcome)), demo_reachable.
Defined.

Lemma other_actions_untouched_witness :
  actions (run_op (OpAbort "act-2" "dave" "stop") (demo to_rollout, demo_exec)).1.1 !! "act-1"
    = Some (demo_record ActionState.Rollout ["h1"]).
Proof.
  rewrite (other_actions_untouched (E:=Traced Scripted) (V:=VerifyOutcome)) by done.
  by vm_compute.
Defined.

Lemma audit_numbering_witness : ev_seq demo_apply_event = wrap_u64 6.
Proof.
  apply (audit_numbering (E:=Traced Scripted) (V:=VerifyOutcome) (demo to_closed) 6);
    [apply demo_reachable|by vm_compute].
Defined.

Lemma canary_calls_witness :
  let '((b', x'), out) :=
    run_canary VerifyOutcome.NotFixed "act-1" "carol" (demo to_approved, demo_exec) in
  calls x' = [CApply "act-1" "h1"; CRollback "act-1" "h1"] ∧
  out = Ok StageOutcome.RolledBack ∧ state b' "act-1" = Some ActionState.RolledBack.
Proof.
  pose proof (canary_calls VerifyOutcome.NotFixed "act-1" "carol" (demo to_approved)
    demo_exec (demo_record ActionState.Approved []) (demo_reachable to_approved)) as H.
  ospecialize (H _ _); [by vm_compute|done|].
  destruct (run_canary _ _ _ _) as [[b' x'] out]. destruct H as (_ & -> & -> & ->).
  by vm_compute.
Defined.

Lemma rollout_calls_witness :
  let '((b', x'), out) :=
    run_rollout VerifyOutcome.Fixed "act-1" "carol" (demo to_rollout, demo_exec) in
  calls x' = [CApply "act-1" "h2"; CApply "act-1" "h3"] ∧
  out = Ok StageOutcome.Closed ∧ state b' "act-1" = Some ActionState.Closed.
Proof.
  pose proof (rollout_calls VerifyOutcome.Fixed "act-1" "carol" (demo to_rollout)
    demo_exec (demo_record ActionState.Rollout ["h1"]) (demo_reachable to_rollout)) as H.
  ospecialize (H _ _); [by vm_compute|done|].
  destruct (run_rollout _ _ _ _) as [[b' x'] out]. destruct H as (-> & -> & -> & _).
  by vm_compute.
Defined.

Lemma rollback_retries_what_is_left_witness :
  let '((b', x'), out) := run_rollback "act-1" "dave" (demo to_closed, demo_exec) in
  calls x' = [CRollback "act-1" "h1"; CRollback "act-1" "h2"; CRollback "act-1" "h3"] ∧
  is_err out = true ∧
  ∃ r', actions b' !! "act-1" = Some r' ∧ rollback_set r' = ["h2"].
Proof.
  pose proof (rollback_retries_what_is_left "act-1" "dave" (demo to_closed) demo_exec
    (demo_record ActionState.Closed ["h1"; "h2"; "h3"])) as H.
  ospecialize (H _ _); [by vm_compute|done|].
  destruct (run_rollback _ _ _) as [[b' x'] out].
  destruct H as (-> & _ & r' & Hr & _ & _ & _ & Hne).
  destruct Hne as (Herr & _ & _ & Hset); [by vm_compute|].
  split; [by vm_compute|]. split; [exact Herr|].
  exists r'. split; [exact Hr|]. rewrite Hset. by vm_compute.
Defined.
