(* ===== verification/Control.v ===== *)
(** * The signed control-command gate

    [server/remediation/src/control.rs]: commands, roles, the replay guard and
    the gate stack in front of the bridge.  Signature verification and the JSON
    encoder are interfaces: the first is a trait of the source, the second is
    [serde_json]. *)

From stdpp Require Import base tactics gmap strings list.
From Stdlib Require Import ZArith.
From S2P Require Import Prelude Float32 Action Bridge.

(** ** Commands *)

Module CommandKind.
Inductive CommandKind :=
  | Draft (action : RemediationAction)
  | Submit
  | Approve
  | Reject (reason : string)
  | Abort (reason : string)
  | Canary
  | Rollout
  | Rollback.

Definition label (k : CommandKind) : string :=
  match k with
  | Draft _ => "Draft" | Submit => "Submit" | Approve => "Approve"
  | Reject _ => "Reject" | Abort _ => "Abort" | Canary => "Canary"
  | Rollout => "Rollout" | Rollback => "Rollback"
  end.

Definition is_execution (k : CommandKind) : bool :=
  match k with Canary | Rollout | Rollback => true | _ => false end.
End CommandKind.
Abbreviation CommandKind := CommandKind.CommandKind.

Record Schedule := mkSchedule { not_before : Z; not_after : Z }.

#[export] Instance Schedule_eq_dec : EqDecision Schedule.
Proof. solve_decision. Defined.

Record ControlCommand := mkCommand {
  cmd_action_id : string;
  cmd_kind : CommandKind;
  cmd_actor : string;
  cmd_session : string;
  cmd_seq : Z;
  cmd_schedule : option Schedule;
  cmd_signature : string;
}.

#[export] Instance CommandKind_eq_dec : EqDecision CommandKind.
Proof. solve_decision. Defined.
#[export] Instance ControlCommand_eq_dec : EqDecision ControlCommand.
Proof. solve_decision. Defined.

(** The struct a signature is computed over: the command without its signature. *)
Record Unsigned := mkUnsigned {
  u_action_id : string;
  u_kind : CommandKind;
  u_actor : string;
  u_session : string;
  u_seq : Z;
  u_schedule : option Schedule;
}.

Definition unsigned (cmd : ControlCommand) : Unsigned :=
  mkUnsigned (cmd_action_id cmd) (cmd_kind cmd) (cmd_actor cmd) (cmd_session cmd)
    (cmd_seq cmd) (cmd_schedule cmd).

(** [serde_json::to_string] on that struct. *)
Class PayloadEncoder := encode_unsigned : Unsigned → string.

Definition payload `{!PayloadEncoder} (cmd : ControlCommand) : string :=
  encode_unsigned (unsigned cmd).

(** ** Seams *)

(** [trait SignatureVerifier]: payload, signature, actor. *)
Class SignatureVerifier (S : Type) := sig_verify : S → string → string → string → bool.

(** [trait Authorizer]. *)
Class Authorizer (Z : Type) := authorized : Z → string → CommandKind → bool.

(** [trait Clock]. *)
Class Clock (C : Type) := now : C → Z.

Inductive AllowAll := allow_all.
#[export] Instance AllowAll_authorizer : Authorizer AllowAll := λ _ _ _, true.

(** The settable clock. *)
Record FakeClock := mkFakeClock { clock_cell : Z }.
#[export] Instance FakeClock_clock : Clock FakeClock := clock_cell.
Definition clock_set (t : Z) (c : FakeClock) : FakeClock := mkFakeClock t.
Definition clock_advance (d : Z) (c : FakeClock) : FakeClock :=
  mkFakeClock (saturating_add_u64 (clock_cell c) d).

(** ** Roles *)

Module Role.
Inductive Role := Operator | Approver | Responder | Admin.

#[export] Instance Role_eq_dec : EqDecision Role.
Proof. solve_decision. Defined.

Definition permits (r : Role) (kind : CommandKind) : bool :=
  match r with
  | Admin => true
  | Operator =>
      match kind with
      | CommandKind.Draft _ | CommandKind.Submit | CommandKind.Canary
      | CommandKind.Rollout | CommandKind.Rollback => true
      | _ => false
      end
  | Approver =>
      match kind with CommandKind.Approve | CommandKind.Reject _ => true | _ => false end
  | Responder =>
      match kind with CommandKind.Abort _ => true | _ => false end
  end.
End Role.
Abbreviation Role := Role.Role.
Export (hints) Role.

Record RolePolicy := mkRolePolicy { roles : gmap string Role }.

Definition policy_new : RolePolicy := mkRolePolicy ∅.
Definition assign (actor : string) (role : Role) (p : RolePolicy) : RolePolicy :=
  mkRolePolicy (<[actor := role]> (roles p)).

(** An actor with no role is denied everything. *)
#[export] Instance RolePolicy_authorizer : Authorizer RolePolicy := λ p actor kind,
  match roles p !! actor with
  | Some r => Role.permits r kind
  | None => false
  end.

(** ** The replay guard *)

Record ReplayGuard := mkReplayGuard { seen : gmap string Z }.

Definition guard_new : ReplayGuard := mkReplayGuard ∅.

Definition guard_open_session (session : string) (from : Z) (g : ReplayGuard) :
    ReplayGuard :=
  mkReplayGuard (<[session := from]> (seen g)).

(** [ReplayGuard::admit]: the guard afterwards and whether the command is fresh. *)
Definition guard_admit (session : string) (seq : Z) (g : ReplayGuard) :
    ReplayGuard * bool :=
  match seen g !! session with
  | Some hwm =>
      if (hwm <? seq)%Z then (mkReplayGuard (<[session := seq]> (seen g)), true)
      else (g, false)
  | None => (g, false)
  end.

(** ** Dispatch *)

Section dispatch.
Context {A : Type} `{!AuditSink A}.
Context {S Z' : Type} `{!SignatureVerifier S} `{!Authorizer Z'} `{!PayloadEncoder}.
Implicit Types (sig : S) (authz : Z') (cmd : ControlCommand).

Definition signed (sig : S) (cmd : ControlCommand) : bool :=
  sig_verify sig (payload cmd) (cmd_signature cmd) (cmd_actor cmd).

(** The authentication gate: audited and refused when the signature fails. *)
Definition check_signature (sig : S) (cmd : ControlCommand) : M (Bridge A) unit :=
  if negb (signed sig cmd) then
    audit_rejected_command (cmd_action_id cmd) (cmd_actor cmd)
      ("invalid signature for " +:+ CommandKind.label (cmd_kind cmd));;
    bail ("rejected: invalid signature for " +:+ CommandKind.label (cmd_kind cmd)
            +:+ " on " +:+ cmd_action_id cmd)
  else mret tt.

Definition check_authorized (authz : Z') (cmd : ControlCommand) : M (Bridge A) unit :=
  if negb (authorized authz (cmd_actor cmd) (cmd_kind cmd)) then
    audit_rejected_command (cmd_action_id cmd) (cmd_actor cmd)
      ("actor " +:+ cmd_actor cmd +:+ " not authorized for "
         +:+ CommandKind.label (cmd_kind cmd));;
    bail ("rejected: " +:+ cmd_actor cmd +:+ " not authorized for "
            +:+ CommandKind.label (cmd_kind cmd) +:+ " on " +:+ cmd_action_id cmd)
  else mret tt.

Definition authenticate_and_authorize (cmd : ControlCommand) (sig : S) (authz : Z') :
    M (Bridge A) unit :=
  check_signature sig cmd;; check_authorized authz cmd.

(** The lifecycle commands; an execution command is refused here. *)
Definition dispatch (cmd : ControlCommand) (sig : S) (authz : Z') : M (Bridge A) unit :=
  authenticate_and_authorize cmd sig authz;;
  match cmd_kind cmd with
  | CommandKind.Draft action =>
      if negb (bool_decide (action_id action = cmd_action_id cmd)) then
        let why := "draft id mismatch: command " +:+ cmd_action_id cmd
                     +:+ " vs action " +:+ action_id action in
        audit_rejected_command (cmd_action_id cmd) (cmd_actor cmd) why;; bail why
      else
        existing ← gets (λ b, state b (action_id action));
        match existing with
        | Some _ =>
            let why := "action " +:+ action_id action +:+ " already exists" in
            audit_rejected_command (action_id action) (cmd_actor cmd) why;; bail why
        | None => draft action (cmd_actor cmd)
        end
  | CommandKind.Submit => submit_for_approval (cmd_action_id cmd) (cmd_actor cmd)
  | CommandKind.Approve => approve (cmd_action_id cmd) (cmd_actor cmd)
  | CommandKind.Reject reason => reject (cmd_action_id cmd) (cmd_actor cmd) reason
  | CommandKind.Abort reason => abort (cmd_action_id cmd) (cmd_actor cmd) reason
  | CommandKind.Canary | CommandKind.Rollout | CommandKind.Rollback =>
      bail ("execution command " +:+ CommandKind.label (cmd_kind cmd)
              +:+ " requires the orchestrator")
  end.

(** The freshness gate: only an authentic command may advance the mark. *)
Definition check_fresh (cmd : ControlCommand) : M (Bridge A * ReplayGuard) unit :=
  λ s,
  let '(g, fresh) := guard_admit (cmd_session cmd) (cmd_seq cmd) s.2 in
  (if negb fresh then
     on_fst (audit_rejected_command (cmd_action_id cmd) (cmd_actor cmd)
       ("stale or replayed command (session " +:+ cmd_session cmd +:+ ", seq "
          +:+ show_Z (cmd_seq cmd) +:+ ")"));;
     bail ("rejected: stale or replayed command (session " +:+ cmd_session cmd
             +:+ ", seq " +:+ show_Z (cmd_seq cmd) +:+ ") on " +:+ cmd_action_id cmd)
   else mret tt) (s.1, g).

Definition dispatch_fresh (cmd : ControlCommand) (sig : S) (authz : Z') :
    M (Bridge A * ReplayGuard) unit :=
  on_fst (check_signature sig cmd);;
  check_fresh cmd;;
  on_fst (dispatch cmd sig authz).

(** Authentication, freshness, authorization, and that the kind executes. *)
Definition gate_execution (cmd : ControlCommand) (sig : S) (authz : Z') :
    M (Bridge A * ReplayGuard) unit :=
  on_fst (check_signature sig cmd);;
  check_fresh cmd;;
  on_fst (check_authorized authz cmd);;
  if negb (CommandKind.is_execution (cmd_kind cmd)) then
    bail "dispatch_execution_fresh only handles execution commands"
  else mret tt.

Section execution.
Context {E V : Type} `{!Executor E} `{!Verifier V}.

(** A stage method on the bridge and executor of the full state. *)
Definition on_stage {T} (m : M (Bridge A * E) T) : M (Bridge A * ReplayGuard * E) T :=
  λ s, let '((b, x), r) := m (s.1.1, s.2) in ((b, s.1.2, x), r).

Definition run_stage (kind : CommandKind) (v : V) (id actor : string) :
    M (Bridge A * E) StageOutcome :=
  match kind with
  | CommandKind.Canary => run_canary v id actor
  | CommandKind.Rollout => run_rollout v id actor
  | CommandKind.Rollback => run_rollback id actor
  | _ => bail "dispatch_execution_fresh only handles execution commands"
  end.

Definition dispatch_execution_fresh (cmd : ControlCommand) (sig : S) (authz : Z')
    (v : V) : M (Bridge A * ReplayGuard * E) StageOutcome :=
  on_fst (gate_execution cmd sig authz);;
  match cmd_schedule cmd with
  | Some _ =>
      on_fst (on_fst (audit_rejected_command (cmd_action_id cmd) (cmd_actor cmd)
        ("scheduled " +:+ CommandKind.label (cmd_kind cmd)
           +:+ " must be released by the scheduler within its window")));;
      bail ("scheduled command must be released by the scheduler within its window, "
              +:+ "not executed immediately")
  | None => on_stage (run_stage (cmd_kind cmd) v (cmd_action_id cmd) (cmd_actor cmd))
  end.
End execution.
End dispatch.
