(* ===== verification/ControlProps.v ===== *)
(** * The gate stack is sound

    Every way a command can fare at the gates, the streams of commands a
    listener processes, and the properties of the three dispatch functions. *)

From stdpp Require Import base tactics gmap strings list.
From Stdlib Require Import ZArith.
From S2P Require Import Prelude Float32 Action Bridge BridgeSpec BridgeFacts BridgeProps Control.
From S2P Require Import BridgeCalls.

(** ** The replay guard *)

Definition fresh (cmd : ControlCommand) (g : ReplayGuard) : bool :=
  (guard_admit (cmd_session cmd) (cmd_seq cmd) g).2.
Definition advanced (cmd : ControlCommand) (g : ReplayGuard) : ReplayGuard :=
  (guard_admit (cmd_session cmd) (cmd_seq cmd) g).1.

(** The session is shut for [seq]: never opened, or its mark is at least [seq]. *)
Definition spent (session : string) (seq : Z) (g : ReplayGuard) : Prop :=
  ∀ hwm, seen g !! session = Some hwm → (seq ≤ hwm)%Z.

Lemma guard_admit_spent session seq g :
  spent session seq (guard_admit session seq g).1.
Proof.
  unfold guard_admit, spent. destruct (seen g !! session) as [h|] eqn:Hh.
  - destruct (Z.ltb_spec h seq); simpl; intros hwm.
    + rewrite lookup_insert_eq. intros [= <-]. lia.
    + rewrite Hh. intros [= <-]. lia.
  - simpl. by rewrite Hh.
Qed.

(** Marks never move back. *)
Lemma guard_admit_keeps_spent session seq session' seq' g :
  spent session seq g → spent session seq (guard_admit session' seq' g).1.
Proof.
  unfold guard_admit, spent. intros Hs.
  destruct (seen g !! session') as [h|] eqn:Hh; [|done].
  destruct (Z.ltb_spec h seq'); simpl; [|done]. intros hwm.
  destruct (decide (session = session')) as [->|Hne].
  - rewrite lookup_insert_eq. intros [= <-]. specialize (Hs h Hh). lia.
  - rewrite lookup_insert_ne by done. apply Hs.
Qed.

Lemma spent_refuses session seq seq' g :
  spent session seq g → (seq' ≤ seq)%Z → guard_admit session seq' g = (g, false).
Proof.
  intros Hs Hle. unfold guard_admit. destruct (seen g !! session) as [h|] eqn:Hh; [|done].
  specialize (Hs h Hh). by destruct (Z.ltb_spec h seq'); [lia|].
Qed.

Lemma stale_spent cmd g : fresh cmd g = false → spent (cmd_session cmd) (cmd_seq cmd) g.
Proof.
  unfold fresh, guard_admit, spent. intros Hf hwm Hh. rewrite Hh in Hf.
  by destruct (Z.ltb_spec hwm (cmd_seq cmd)).
Qed.

(** ** How a command fares at the gates *)

Section gates.
Context {A : Type} `{!AuditSink A}.
Context {S Z' : Type} `{!SignatureVerifier S} `{!Authorizer Z'} `{!PayloadEncoder}.
Implicit Types (sig : S) (authz : Z') (cmd : ControlCommand) (b : Bridge A).
Implicit Types (g : ReplayGuard).

(** A refusal: one audited rejection, nothing else. *)
Definition refusal (cmd : ControlCommand) (b b' : Bridge A) : Prop :=
  ∃ id detail, b' = log_event b id None ActionState.Aborted (cmd_actor cmd)
                      Outcome.Rejected detail.

Definition permitted (authz : Z') (cmd : ControlCommand) : bool :=
  authorized authz (cmd_actor cmd) (cmd_kind cmd).

Inductive gate_outcome (cmd : ControlCommand) (sig : S) (authz : Z')
    (b : Bridge A) (g : ReplayGuard) : Bridge A → ReplayGuard → Result unit → Prop :=
  | gate_forged b' e :
      signed sig cmd = false → refusal cmd b b' →
      gate_outcome cmd sig authz b g b' g (Err e)
  | gate_stale b' e :
      signed sig cmd = true → fresh cmd g = false → refusal cmd b b' →
      gate_outcome cmd sig authz b g b' g (Err e)
  | gate_unauthorized b' e :
      signed sig cmd = true → fresh cmd g = true → permitted authz cmd = false →
      refusal cmd b b' → gate_outcome cmd sig authz b g b' (advanced cmd g) (Err e)
  | gate_misrouted e :
      signed sig cmd = true → fresh cmd g = true → permitted authz cmd = true →
      CommandKind.is_execution (cmd_kind cmd) = false →
      gate_outcome cmd sig authz b g b (advanced cmd g) (Err e)
  | gate_open :
      signed sig cmd = true → fresh cmd g = true → permitted authz cmd = true →
      CommandKind.is_execution (cmd_kind cmd) = true →
      gate_outcome cmd sig authz b g b (advanced cmd g) (Ok tt).

Lemma check_fresh_eq cmd b g :
  ∃ d e, check_fresh cmd (b, g) =
    if fresh cmd g then ((b, advanced cmd g), Ok tt)
    else ((log_event b (cmd_action_id cmd) None ActionState.Aborted (cmd_actor cmd)
             Outcome.Rejected d, g), Err e).
Proof.
  unfold check_fresh, fresh, advanced. simpl.
  destruct (guard_admit _ _ g) as [g' f] eqn:Hg. simpl. do 2 eexists.
  destruct f; [done|].
  enough (g' = g) as -> by done. unfold guard_admit in Hg. repeat case_match; congruence.
Qed.

Lemma gate_execution_outcome cmd sig authz b g :
  let res := gate_execution cmd sig authz (b, g) in
  gate_outcome cmd sig authz b g res.1.1 res.1.2 res.2.
Proof.
  unfold gate_execution, check_signature. destruct (signed sig cmd) eqn:Hsig; simpl.
  2:{ apply gate_forged; [done|]. by do 2 eexists. }
  unfold mbind, M_bind, m_bind, on_fst at 1. simpl.
  destruct (check_fresh_eq cmd b g) as (d & e & ->).
  destruct (fresh cmd g) eqn:Hf; simpl.
  2:{ apply gate_stale; [done..|]. by do 2 eexists. }
  unfold check_authorized. fold (permitted authz cmd).
  destruct (permitted authz cmd) eqn:Hp; simpl.
  2:{ apply gate_unauthorized; [done..|]. by do 2 eexists. }
  destruct (CommandKind.is_execution _) eqn:He; simpl.
  - by apply gate_open.
  - by apply gate_misrouted.
Qed.

(** [dispatch_fresh]: refused before the bridge, or [dispatch] on an admitted
    command. *)
Lemma dispatch_fresh_cases cmd sig authz b g :
  let res := dispatch_fresh cmd sig authz (b, g) in
  (signed sig cmd = false ∧ refusal cmd b res.1.1 ∧ res.1.2 = g ∧ is_err res.2 = true) ∨
  (signed sig cmd = true ∧ fresh cmd g = false ∧ refusal cmd b res.1.1 ∧
    res.1.2 = g ∧ is_err res.2 = true) ∨
  (signed sig cmd = true ∧ fresh cmd g = true ∧
    res = ((dispatch cmd sig authz b).1, advanced cmd g, (dispatch cmd sig authz b).2)).
Proof.
  unfold dispatch_fresh, check_signature. destruct (signed sig cmd) eqn:Hsig; simpl.
  2:{ left. split; [done|]. split; [|done]. by do 2 eexists. }
  right. unfold mbind, M_bind, m_bind, on_fst at 1. simpl.
  destruct (check_fresh_eq cmd b g) as (d & e & ->).
  destruct (fresh cmd g) eqn:Hf; simpl.
  2:{ left. split; [done|]. split; [done|]. split; [|done]. by do 2 eexists. }
  right. split; [done|]. split; [done|]. unfold on_fst. simpl.
  by destruct (dispatch cmd sig authz b).
Qed.

Lemma refusal_actions cmd b b' : refusal cmd b b' → actions b' = actions b.
Proof. by intros (? & ? & ->). Qed.

(** What an authentic, authorized lifecycle command asks of the bridge, and what
    else can happen to it. *)
Definition command_op {V} (cmd : ControlCommand) : option (BridgeOp V) :=
  match cmd_kind cmd with
  | CommandKind.Draft action => Some (OpDraft action (cmd_actor cmd))
  | CommandKind.Submit => Some (OpSubmit (cmd_action_id cmd) (cmd_actor cmd))
  | CommandKind.Approve => Some (OpApprove (cmd_action_id cmd) (cmd_actor cmd))
  | CommandKind.Reject r => Some (OpReject (cmd_action_id cmd) (cmd_actor cmd) r)
  | CommandKind.Abort r => Some (OpAbort (cmd_action_id cmd) (cmd_actor cmd) r)
  | _ => None
  end.

Lemma dispatch_cases {E V} `{!Executor E, !Verifier V} cmd sig authz b (x : E) :
  let res := dispatch cmd sig authz b in
  (is_err res.2 = true ∧ (refusal cmd b res.1 ∨ res.1 = b)) ∨
  (signed sig cmd = true ∧ permitted authz cmd = true ∧
   ∃ op : BridgeOp V, command_op cmd = Some op ∧
     (∀ action, cmd_kind cmd = CommandKind.Draft action →
        action_id action = cmd_action_id cmd ∧ state b (action_id action) = None) ∧
     run_op op (b, x) = ((res.1, x), res.2)).
Proof.
  unfold dispatch, authenticate_and_authorize, check_signature, check_authorized.
  fold (permitted authz cmd).
  destruct (signed sig cmd) eqn:Hsig; simpl; [|by left; split; [|left; do 2 eexists]].
  destruct (permitted authz cmd) eqn:Hp; simpl;
    [|by left; split; [|left; do 2 eexists]].
  rewrite !mret_bind. unfold command_op. destruct (cmd_kind cmd) as [action| | |reason|reason| | |] eqn:Hk;
    try (left; split; [done|by right]).
  { case_bool_decide as Hid; simpl; [|by left; split; [|left; do 2 eexists]].
    unfold mbind, M_bind, m_bind, gets. simpl.
    destruct (state b (action_id action)) eqn:Hst; [by left; split; [|left; do 2 eexists]|].
    right. split; [done|]. split; [done|]. eexists. split; [done|].
    split; [naive_solver|]. unfold run_op, on_fst. simpl. by destruct (draft _ _ b). }
  all: right; split; [done|]; split; [done|]; eexists; (split; [done|]);
    (split; [done|]); unfold run_op, on_fst, submit_for_approval, approve, reject, abort;
    simpl; by destruct (guarded _ _ _ _ _ b).
Qed.
End gates.

(** * Properties of the control-command gate

    Streams of commands as a listener delivers them, what one delivery does to
    the bridge, the guard and the executor, and the security properties. *)

(** A delivered command, with the entry point it is given to. *)
Inductive Delivery (V : Type) :=
  | ToLifecycle (cmd : ControlCommand)
  | ToExecution (cmd : ControlCommand) (v : V)
  | LocalDryRun (id actor : string).
Arguments ToLifecycle {V} cmd.
Arguments ToExecution {V} cmd v.
Arguments LocalDryRun {V} id actor.

Definition delivered {V} (d : Delivery V) : option ControlCommand :=
  match d with
  | ToLifecycle cmd | ToExecution cmd _ => Some cmd
  | LocalDryRun _ _ => None
  end.

(** The bridge call behind an execution command. *)
Definition execution_op {V} (cmd : ControlCommand) (v : V) : option (BridgeOp V) :=
  match cmd_kind cmd with
  | CommandKind.Canary => Some (OpCanary v (cmd_action_id cmd) (cmd_actor cmd))
  | CommandKind.Rollout => Some (OpRollout v (cmd_action_id cmd) (cmd_actor cmd))
  | CommandKind.Rollback => Some (OpRollback (cmd_action_id cmd) (cmd_actor cmd))
  | _ => None
  end.

Section deliver.
Context {A : Type} `{!AuditSink A}.
Context {S Z' E V : Type} `{!SignatureVerifier S} `{!Authorizer Z'} `{!PayloadEncoder}.
Context `{!Executor E} `{!Verifier V}.
Context (sig : S) (authz : Z').
Implicit Types (cmd : ControlCommand) (b : Bridge A) (g : ReplayGuard) (x : E) (v : V).

Definition deliver (d : Delivery V) : M (Bridge A * ReplayGuard * E) unit :=
  match d with
  | ToLifecycle cmd => on_fst (dispatch_fresh cmd sig authz)
  | ToExecution cmd v => ignore (dispatch_execution_fresh cmd sig authz v)
  | LocalDryRun id actor => λ s, on_fst (on_fst (ignore (dry_run s.2 id actor))) s
  end.

Definition deliver_all (ds : list (Delivery V)) (w : Bridge A * ReplayGuard * E) :
    Bridge A * ReplayGuard * E :=
  foldl (λ w d, (deliver d w).1) w ds.

(** One delivery, as one of the bridge's own calls between two guard states. *)
Inductive delivery_effect (d : Delivery V) (b : Bridge A) (g : ReplayGuard) (x : E) :
    Bridge A → ReplayGuard → E → Result unit → Prop :=
  | effect_forged cmd b' out :
      delivered d = Some cmd → signed sig cmd = false → refusal cmd b b' →
      is_err out = true → delivery_effect d b g x b' g x out
  | effect_stale cmd b' out :
      delivered d = Some cmd → signed sig cmd = true → fresh cmd g = false →
      refusal cmd b b' → is_err out = true → delivery_effect d b g x b' g x out
  | effect_refused cmd b' out :
      delivered d = Some cmd → signed sig cmd = true → fresh cmd g = true →
      refusal cmd b b' ∨ b' = b → is_err out = true →
      delivery_effect d b g x b' (advanced cmd g) x out
  | effect_lifecycle cmd op b' out :
      d = ToLifecycle cmd → signed sig cmd = true → fresh cmd g = true →
      permitted authz cmd = true → command_op cmd = Some op →
      (∀ action, cmd_kind cmd = CommandKind.Draft action → state b (action_id action) = None) →
      run_op op (b, x) = ((b', x), out) →
      delivery_effect d b g x b' (advanced cmd g) x out
  | effect_execution cmd v op b' x' out :
      d = ToExecution cmd v → signed sig cmd = true → fresh cmd g = true →
      permitted authz cmd = true → cmd_schedule cmd = None →
      execution_op cmd v = Some op → run_op op (b, x) = ((b', x'), out) →
      delivery_effect d b g x b' (advanced cmd g) x' out
  | effect_local id actor b' out :
      d = LocalDryRun id actor → run_op (V:=V) (OpDryRun id actor) (b, x) = ((b', x), out) →
      delivery_effect d b g x b' g x out.

Lemma run_stage_op cmd v b g x op :
  execution_op cmd v = Some op →
  ignore (on_stage (run_stage (cmd_kind cmd) v (cmd_action_id cmd) (cmd_actor cmd)))
    (b, g, x) =
  let '((b', x'), out) := run_op op (b, x) in ((b', g, x'), out).
Proof.
  unfold execution_op, run_stage. destruct (cmd_kind cmd); intros; simplify_eq;
    unfold run_op, ignore, mbind, M_bind, m_bind, on_stage; simpl;
    match goal with |- context [?m (b, x)] => destruct (m (b, x)) as [[b' x'] [o|e|]] end; done.
Qed.

Lemma execution_op_Some cmd v :
  CommandKind.is_execution (cmd_kind cmd) = true → ∃ op, execution_op cmd v = Some op.
Proof. unfold execution_op. destruct (cmd_kind cmd); by eauto. Qed.

Lemma dispatch_execution_effect cmd v b g x :
  let res := deliver (ToExecution cmd v) (b, g, x) in
  delivery_effect (ToExecution cmd v) b g x res.1.1.1 res.1.1.2 res.1.2 res.2.
Proof.
  pose proof (gate_execution_outcome cmd sig authz b g) as Hgate.
  unfold deliver, dispatch_execution_fresh. rewrite ignore_bind.
  destruct (gate_execution cmd sig authz (b, g)) as [[b1 g1] r] eqn:Hg. simpl in Hgate.
  pose proof (on_fst_run _ _ x _ _ Hg) as Hrun.
  destruct Hgate; [by erewrite bind_err by done; eapply effect_forged
    |by erewrite bind_err by done; eapply effect_stale
    |by erewrite bind_err by done; eapply effect_refused; eauto
    |by erewrite bind_err by done; eapply effect_refused; eauto|].
  erewrite bind_ok by done. destruct (cmd_schedule cmd) as [w|] eqn:Hw.
  { eapply effect_refused; eauto. left. by do 2 eexists. }
  destruct (execution_op_Some cmd v) as [op Hop]; [done|].
  rewrite (run_stage_op cmd v b (advanced cmd g) x op Hop).
  destruct (run_op op (b, x)) as [[b' x'] out] eqn:Hop'. by eapply effect_execution.
Qed.

Lemma dispatch_lifecycle_effect cmd b g x :
  let res := deliver (ToLifecycle cmd) (b, g, x) in
  delivery_effect (ToLifecycle cmd) b g x res.1.1.1 res.1.1.2 res.1.2 res.2.
Proof.
  unfold deliver, on_fst. pose proof (dispatch_fresh_cases cmd sig authz b g) as Hd.
  simpl in *. destruct (dispatch_fresh cmd sig authz (b, g)) as [[b1 g1] r]. simpl in *.
  destruct Hd as [(Hs & Hr & -> & He)|[(Hs & Hf & Hr & -> & He)|(Hs & Hf & Hres)]].
  - by eapply effect_forged.
  - by eapply effect_stale.
  - simplify_eq. destruct (dispatch_cases (V:=V) cmd sig authz b x)
      as [(He & Hr)|(_ & Hp & op & Hop & Hd & Hrun)].
    + eapply effect_refused; eauto.
    + eapply effect_lifecycle; eauto. intros action Ha. by apply Hd.
Qed.

Lemma deliver_effect d b g x :
  let res := deliver d (b, g, x) in
  delivery_effect d b g x res.1.1.1 res.1.1.2 res.1.2 res.2.
Proof.
  destruct d as [cmd|cmd v|id actor].
  - apply dispatch_lifecycle_effect.
  - apply dispatch_execution_effect.
  - unfold deliver, ignore, on_fst, mbind, M_bind, m_bind. simpl.
    destruct (dry_run x id actor b) as [b' out] eqn:Hd.
    destruct out; (eapply effect_local; [done|]); unfold run_op, ignore, on_fst, mbind, M_bind, m_bind;
      simpl; by rewrite Hd.
Qed.

(** ** Invariants of a delivery *)

Lemma deliver_keeps_spent d b g x session seq :
  spent session seq g → spent session seq (deliver d (b, g, x)).1.1.2.
Proof.
  intros Hs. destruct (deliver_effect d b g x); try done; by apply guard_admit_keeps_spent.
Qed.

(** What reaches a gate: deliveries, and the host opening sessions. *)
Inductive GateEvent :=
  | Arrives (d : Delivery V)
  | Opens (session : string) (from : Z).

Definition gate_step (e : GateEvent) (w : Bridge A * ReplayGuard * E) :
    Bridge A * ReplayGuard * E :=
  match e with
  | Arrives d => (deliver d w).1
  | Opens session from => (w.1.1, guard_open_session session from w.1.2, w.2)
  end.
Definition gate_run (es : list GateEvent) (w : Bridge A * ReplayGuard * E) :
    Bridge A * ReplayGuard * E :=
  foldl (λ w e, gate_step e w) w es.

Lemma spent_mono session seq seq' g : spent session seq g → (seq' ≤ seq)%Z → spent session seq' g.
Proof. intros Hs Hle hwm Hh. specialize (Hs hwm Hh). lia. Qed.

Lemma gate_run_keeps_spent es w session seq :
  spent session seq w.1.2 → (∀ from, Opens session from ∈ es → (seq ≤ from)%Z) →
  spent session seq (gate_run es w).1.2.
Proof.
  revert w. induction es as [|e es IH]; intros [[b g] x] Hs Hes; [done|].
  apply IH; [|intros from Hin; apply Hes; by right].
  destruct e as [d|s from]; [by apply deliver_keeps_spent|].
  intros hwm. simpl. destruct (decide (s = session)) as [->|Hne].
  - rewrite lookup_insert_eq. intros [= <-]. apply Hes. by left.
  - rewrite lookup_insert_ne by done. apply Hs.
Qed.

Lemma deliver_spends d cmd b g x :
  delivered d = Some cmd → signed sig cmd = true →
  spent (cmd_session cmd) (cmd_seq cmd) (deliver d (b, g, x)).1.1.2.
Proof.
  intros Hd Hs. destruct (deliver_effect d b g x) as [| | |???? ->|?????? ->|???? ->];
    simplify_eq/=; try done; try apply guard_admit_spent.
  all: first [congruence|by apply stale_spent].
Qed.

Context `{!AuditLog A}.

Lemma reachable_audit_rejected b x id actor detail :
  reachable (E:=E) (V:=V) b →
  reachable (E:=E) (V:=V) (log_event b id None ActionState.Aborted actor Outcome.Rejected detail).
Proof.
  intros Hb. by apply (reachable_op b x (OpAuditRejected id actor detail)) in Hb.
Qed.

(** Whatever commands arrive, the bridge stays one its own API can bring about. *)
Lemma deliver_reachable d b g x :
  reachable (E:=E) (V:=V) b → reachable (E:=E) (V:=V) (deliver d (b, g, x)).1.1.1.
Proof.
  intros Hb. destruct (deliver_effect d b g x) as
    [cmd b' out _ _ (? & ? & ->)|cmd b' out _ _ _ (? & ? & ->)|cmd b' out _ _ _ [(? & ? & ->)| ->]
    |cmd op b' out _ _ _ _ _ _ Hr|cmd v op b' x' out _ _ _ _ _ _ Hr|id actor b' out _ Hr];
    try (by apply reachable_audit_rejected); try done;
    by eapply reachable_run.
Qed.

(** ** Attribution *)

(** Drafts and approvals in the trail are by actors authorized to make them. *)
Definition attributed (e : AuditEvent) : Prop :=
  (is_draft (ev_action_id e) e = true →
   ∃ action, authorized authz (ev_actor e) (CommandKind.Draft action) = true) ∧
  (is_approval (ev_action_id e) e = true →
   authorized authz (ev_actor e) CommandKind.Approve = true).

Lemma refusal_attributed cmd b b' : refusal cmd b b' → adds attributed b b'.
Proof.
  intros (id & d & ->). apply (adds_log attributed id None ActionState.Aborted (cmd_actor cmd)
    Outcome.Rejected d). intros n. unfold attributed, is_draft, is_approval. simpl.
  rewrite !bool_decide_eq_true. naive_solver.
Qed.

Lemma command_event_attributed cmd (op : BridgeOp V) e :
  permitted authz cmd = true → command_op cmd = Some op → op_event op e → attributed e.
Proof.
  unfold permitted, command_op. intros Hp Hop [Ha _ Hd Hap]. split.
  - intros (action & actor & ->)%Hd. rewrite Ha.
    destruct (cmd_kind cmd) as [action'| | | | | | |]; simplify_eq/=.
    exists action. congruence.
  - intros (id & actor & ->)%Hap. rewrite Ha. destruct (cmd_kind cmd); simplify_eq/=.
    congruence.
Qed.

Lemma other_event_attributed (op : BridgeOp V) e :
  (∀ action actor, op ≠ OpDraft action actor) → (∀ id actor, op ≠ OpApprove id actor) →
  op_event op e → attributed e.
Proof.
  intros H1 H2 [_ _ Hd Hap]. split.
  - intros (action & actor & Heq)%Hd. by destruct (H1 action actor).
  - intros (id & actor & Heq)%Hap. by destruct (H2 id actor).
Qed.

Lemma run_op_adds (P : AuditEvent → Prop) (op : BridgeOp V) b x b' x' out :
  (∀ e, op_event op e → P e) → run_op op (b, x) = ((b', x'), out) → adds P b b'.
Proof.
  intros HP Hrun. pose proof (run_op_events op b x) as He. rewrite Hrun in He.
  by eapply adds_weaken.
Qed.

Lemma deliver_attributed d b g x : adds attributed b (deliver d (b, g, x)).1.1.1.
Proof.
  destruct (deliver_effect d b g x) as
    [cmd b' out _ _ Hr|cmd b' out _ _ _ Hr|cmd b' out _ _ _ [Hr| ->]
    |cmd op b' out _ _ _ Hp Hop _ Hr|cmd v op b' x' out _ _ _ _ _ Hop Hr|id actor b' out _ Hr];
    try (by eapply refusal_attributed); try reflexivity;
    (eapply run_op_adds; [|exact Hr]); intros e.
  - by eapply command_event_attributed.
  - apply other_event_attributed; unfold execution_op in Hop;
      by destruct (cmd_kind cmd); simplify_eq/=.
  - by apply other_event_attributed.
Qed.

Lemma deliver_all_attributed ds w : adds attributed w.1.1 (deliver_all ds w).1.1.
Proof.
  revert w. induction ds as [|d ds IH]; intros [[b g] x]; [reflexivity|].
  etrans; [apply deliver_attributed|]. apply (IH (deliver d (b, g, x)).1).
Qed.

(** ** The theorems *)

(** C2: an execution command reaches the executor only through every gate: it
    is signed, fresh, authorized, of an executing kind, carries no window, its
    action is in the state that admits the stage, and the trail shows that action
    drafted, dry-run, submitted and approved, in that order. *)
Theorem execution_passes_every_gate cmd v b g x :
  reachable (E:=E) (V:=V) b →
  (deliver (ToExecution cmd v) (b, g, x)).1.2 ≠ x →
  signed sig cmd = true ∧ fresh cmd g = true ∧ permitted authz cmd = true ∧
  cmd_schedule cmd = None ∧
  ∃ op s, execution_op cmd v = Some op ∧ state b (cmd_action_id cmd) = Some s ∧
    stage_enabled op s = true ∧
    [ActionState.Drafted; ActionState.DryRun; ActionState.PendingApproval;
     ActionState.Approved]
      `sublist_of` (milestones (cmd_action_id cmd) (events (audit b))).*1.
Proof.
  intros Hb Hx. destruct (deliver_effect (ToExecution cmd v) b g x)
    as [| | | |cmd' v' op b' x' out [= <- <-] Hs Hf Hp Hw Hop Hrun|]; try done.
  split; [done|]. split; [done|]. split; [done|]. split; [done|].
  assert (op_id op = cmd_action_id cmd) as Hid
    by (unfold execution_op in Hop; by destruct (cmd_kind cmd); simplify_eq).
  destruct (run_op_exec op b x) as [Hsame|(s & Hst & He)].
  { rewrite Hrun in Hsame. done. }
  exists op, s. rewrite <-Hid. split; [done|]. split; [done|]. split; [done|].
  pose proof (reachable_gates b (op_id op) s Hb Hst) as H'.
  by rewrite (stage_enabled_gates op s He) in H'.
Qed.

(** A command whose signature does not verify, at either entry point, is
    answered with an error and changes nothing but the audit trail, which grows
    by one rejection: no record, no freshness mark, no target. *)
Theorem forged_command_is_inert d cmd b g x :
  delivered d = Some cmd → signed sig cmd = false →
  let '((b', g', x'), out) := deliver d (b, g, x) in
  is_err out = true ∧ g' = g ∧ x' = x ∧ actions b' = actions b ∧
  ∃ e, events (audit b') = events (audit b) ++ [e] ∧ ev_outcome e = Outcome.Rejected.
Proof.
  intros Hd Hs. pose proof (deliver_effect d b g x) as He. simpl in He.
  destruct (deliver d (b, g, x)) as [[[b' g'] x'] out]. simpl in He.
  destruct He as [cmd' ???? (? & ? & ->)| | |???? ->|?????? ->|???? ->]; simplify_eq/=;
    try congruence.
  repeat (split; [done|]). eexists. by rewrite events_record.
Qed.

(** C5: once an authentic command has been delivered, no command of its session
    with the same or a smaller sequence number is acted on again, at either entry
    point: it is answered with an error and leaves records, marks and targets alone.
    This holds whatever arrives in between, sessions opened included, except for
    one thing: the host re-opening that very session below the sequence number,
    which is the documented way to reset its mark. *)
Theorem replay_is_refused d cmd es d' cmd' w :
  delivered d = Some cmd → signed sig cmd = true → delivered d' = Some cmd' →
  cmd_session cmd' = cmd_session cmd → (cmd_seq cmd' ≤ cmd_seq cmd)%Z →
  (∀ from, Opens (cmd_session cmd) from ∈ es → (cmd_seq cmd' ≤ from)%Z) →
  let '(b, g, x) := gate_run es (deliver d w).1 in
  let '((b', g', x'), out) := deliver d' (b, g, x) in
  is_err out = true ∧ g' = g ∧ x' = x ∧ actions b' = actions b.
Proof.
  intros Hd Hs Hd' Hsess Hseq Hes. destruct w as [[b0 g0] x0].
  pose proof (deliver_spends d cmd b0 g0 x0 Hd Hs) as Hsp.
  apply (spent_mono _ _ (cmd_seq cmd')) in Hsp; [|done].
  apply (gate_run_keeps_spent es) in Hsp; [|done].
  destruct (gate_run es _) as [[b g] x]. simpl in Hsp.
  pose proof (spent_refuses _ _ (cmd_seq cmd') _ Hsp ltac:(lia)) as Hno. rewrite <-Hsess in Hno.
  assert (fresh cmd' g = false) as Hst by (unfold fresh; by rewrite Hno).
  pose proof (deliver_effect d' b g x) as He. simpl in He.
  destruct (deliver d' (b, g, x)) as [[[b' g'] x'] out]. simpl in He.
  destruct He as [???? ? (? & ? & ->)|????? ? (? & ? & ->)| |???? ->|?????? ->|???? ->];
    simplify_eq/=; done || congruence.
Qed.

(** An execution command never runs a stage before its window: with a
    window in it, the immediate entry point refuses it without touching a target. *)
Theorem windowed_command_not_immediate cmd v w s :
  cmd_schedule cmd = Some s →
  let '((b', g', x'), out) := deliver (ToExecution cmd v) w in
  is_err out = true ∧ x' = w.2 ∧ actions b' = actions w.1.1.
Proof.
  intros Hw. destruct w as [[b g] x]. pose proof (deliver_effect (ToExecution cmd v) b g x) as He.
  destruct (deliver _ _) as [[[b' g'] x'] out]. simpl in He.
  destruct He as [???? ? (? & ? & ->)|????? ? (? & ? & ->)|????? ? [(? & ? & ->)| ->]| | |];
    simplify_eq/=; done || congruence.
Qed.
End deliver.

Section roles.
Context {A : Type} `{!AuditSink A} `{!AuditLog A}.
Context {S E V : Type} `{!SignatureVerifier S} `{!PayloadEncoder}.
Context `{!Executor E} `{!Verifier V}.

(** No single non-admin role may both draft and approve. *)
Lemma permits_draft_or_approve r action :
  Role.permits r (CommandKind.Draft action) = true →
  Role.permits r CommandKind.Approve = true → r = Role.Admin.
Proof. by destruct r. Qed.

(** C6: four eyes.  Under a role policy without administrators, in the trail
    of any stream of commands, no one who drafted an action approved it. *)
Theorem four_eyes (sig : S) (policy : RolePolicy) (ds : list (Delivery V)) sink
    (g : ReplayGuard) (x : E) id e1 e2 :
  (∀ actor, roles policy !! actor ≠ Some Role.Admin) → events sink = [] →
  let trail := events (audit (deliver_all sig policy ds (bridge_new sink, g, x)).1.1) in
  e1 ∈ trail → e2 ∈ trail → is_draft id e1 = true → is_approval id e2 = true →
  ev_actor e1 ≠ ev_actor e2.
Proof.
  intros Hadmin Hsink trail H1 H2 Hd Hap Heq. unfold trail in *.
  destruct (deliver_all_attributed sig policy ds (bridge_new (A:=A) sink, g, x))
    as (evs & Hev & HF). simpl in Hev. rewrite Hev, Hsink in H1, H2. simpl in *.
  rewrite Forall_forall in HF.
  destruct (HF e1 H1) as [Hdraft _], (HF e2 H2) as [_ Happ].
  unfold is_draft, is_approval in *.
  apply bool_decide_eq_true in Hd as (Hid1 & Ho1 & Hf1 & Ht1).
  apply bool_decide_eq_true in Hap as (Hid2 & Ho2 & Ht2).
  destruct Hdraft as [action Ha]; [by apply bool_decide_eq_true_2|].
  specialize (Happ (bool_decide_eq_true_2 _ (conj eq_refl (conj Ho2 Ht2)))).
  unfold authorized, RolePolicy_authorizer in *. rewrite Heq in Ha.
  destruct (roles policy !! ev_actor e2) as [r|] eqn:Hr; [|done].
  apply (Hadmin (ev_actor e2)). rewrite Hr. f_equal. by eapply permits_draft_or_approve.
Qed.
End roles.
