(* ===== verification/Scheduler.v ===== *)
(** * Deferred release of execution commands

    [server/remediation/src/scheduler.rs]: commands that passed the gates are
    held until the clock enters their signed window, released once, dropped when
    the window has passed or the action is aborted. *)

From stdpp Require Import base tactics gmap strings list.
From Stdlib Require Import ZArith.
From S2P Require Import Prelude Float32 Action Bridge BridgeSpec BridgeFacts BridgeProps.
From S2P Require Import Control ControlProps.

Record Pending := mkPending { pend_cmd : ControlCommand; pend_schedule : Schedule }.

Record Scheduler := mkScheduler { pending : list Pending }.

Definition scheduler_new : Scheduler := mkScheduler [].
Definition pending_len (sch : Scheduler) : nat := length (pending sch).

Definition show_window (w : Schedule) : string :=
  "[" +:+ show_Z (not_before w) +:+ "," +:+ show_Z (not_after w) +:+ "]".

(** Run a call whose error the caller inspects instead of propagating. *)
Definition inspect {S T} (m : M S T) : M S (T + string) := λ s,
  match m s with
  | (s', Ok a) => (s', Ok (inl a))
  | (s', Err e) => (s', Ok (inr e))
  | (s', Panicked) => (s', Panicked)
  end.

Section scheduler.
Context {A : Type} `{!AuditSink A}.
Context {S Z' C E V : Type} `{!SignatureVerifier S} `{!Authorizer Z'} `{!PayloadEncoder}.
Context `{!Clock C} `{!Executor E} `{!Verifier V}.

(** Validate and hold a scheduled command. *)
Definition enqueue (cmd : ControlCommand) (sig : S) (authz : Z') (clock : C) :
    M (Bridge A * ReplayGuard * Scheduler) Schedule :=
  on_fst (gate_execution cmd sig authz);;
  match cmd_schedule cmd with
  | None =>
      on_fst (on_fst (audit_rejected_command (cmd_action_id cmd) (cmd_actor cmd)
        ("scheduled enqueue of " +:+ CommandKind.label (cmd_kind cmd)
           +:+ " requires a schedule window")));;
      bail ("rejected: scheduled " +:+ CommandKind.label (cmd_kind cmd) +:+ " on "
              +:+ cmd_action_id cmd +:+ " has no window")
  | Some schedule =>
      if (not_after schedule <? now clock)%Z then
        on_fst (on_fst (audit_rejected_command (cmd_action_id cmd) (cmd_actor cmd)
          ("expired: window " +:+ show_window schedule +:+ " already passed at enqueue (now "
             +:+ show_Z (now clock) +:+ ")")));;
        bail ("rejected: " +:+ CommandKind.label (cmd_kind cmd) +:+ " on "
                +:+ cmd_action_id cmd +:+ " already expired (window "
                +:+ show_window schedule +:+ ", now " +:+ show_Z (now clock) +:+ ")")
      else
        modify (λ s, (s.1, mkScheduler (pending s.2 ++ [mkPending cmd schedule])));;
        mret schedule
  end.

(** The stage a held command releases. *)
Definition release_stage (kind : CommandKind) (v : V) (id actor : string) :
    M (Bridge A * E) StageOutcome :=
  match kind with
  | CommandKind.Canary => run_canary v id actor
  | CommandKind.Rollout => run_rollout v id actor
  | CommandKind.Rollback => run_rollback id actor
  | _ => bail "not an execution kind"
  end.

(** One command whose window is open: run it, audit a failure. *)
Definition release (v : V) (p : Pending) :
    M (Bridge A * E) (list (string * StageOutcome)) :=
  let id := cmd_action_id (pend_cmd p) in
  let actor := cmd_actor (pend_cmd p) in
  let label := CommandKind.label (cmd_kind (pend_cmd p)) in
  before ← on_fst (gets (λ b, state b id));
  result ← inspect (release_stage (cmd_kind (pend_cmd p)) v id actor);
  after ← on_fst (gets (λ b, state b id));
  match result with
  | inl outcome => mret [(id, outcome)]
  | inr e =>
      if negb (bool_decide (after = before)) then
        on_fst (audit_execution_failure id actor
          ("scheduled " +:+ label +:+ " executed but failed: " +:+ e));;
        mret []
      else
        on_fst (audit_rejected_command id actor
          ("scheduled command dropped: action not in a valid state to run " +:+ label));;
        mret []
  end.

(** The [for p in pending] loop of [tick]. *)
Fixpoint tick_loop (v : V) (t : Z) (ps : list Pending)
    (fired : list (string * StageOutcome)) (still_pending : list Pending) :
    M (Bridge A * E) (list (string * StageOutcome) * list Pending) :=
  match ps with
  | [] => mret (fired, still_pending)
  | p :: ps =>
      if (not_after (pend_schedule p) <? t)%Z then
        on_fst (audit_rejected_command (cmd_action_id (pend_cmd p)) (cmd_actor (pend_cmd p))
          ("expired: window " +:+ show_window (pend_schedule p) +:+ " missed (now "
             +:+ show_Z t +:+ ")"));;
        tick_loop v t ps fired still_pending
      else if (t <? not_before (pend_schedule p))%Z then
        tick_loop v t ps fired (still_pending ++ [p])
      else
        out ← release v p;
        tick_loop v t ps (fired ++ out) still_pending
  end.

Definition tick (clock : C) (v : V) :
    M (Bridge A * E * Scheduler) (list (string * StageOutcome)) :=
  ps ← gets (λ s, pending s.2);
  res ← on_fst (tick_loop v (now clock) ps [] []);
  modify (λ s, (s.1, mkScheduler res.2));;
  mret res.1.

(** Drop the held commands of an aborted action. *)
Fixpoint audit_cancelled (ps : list Pending) : M (Bridge A) unit :=
  match ps with
  | [] => mret tt
  | p :: ps =>
      audit_rejected_command (cmd_action_id (pend_cmd p)) (cmd_actor (pend_cmd p))
        ("scheduled command cancelled by abort ("
           +:+ CommandKind.label (cmd_kind (pend_cmd p)) +:+ ")");;
      audit_cancelled ps
  end.

Definition cancel (id : string) : M (Bridge A * Scheduler) unit :=
  ps ← gets (λ s, pending s.2);
  on_fst (audit_cancelled (filter (λ p, cmd_action_id (pend_cmd p) = id) ps));;
  modify (λ s, (s.1, mkScheduler (filter (λ p, cmd_action_id (pend_cmd p) ≠ id) ps))).
End scheduler.

(** ** The windows *)

Definition window_open (t : Z) (p : Pending) : bool :=
  (not_before (pend_schedule p) <=? t)%Z && (t <=? not_after (pend_schedule p))%Z.
Definition window_ahead (t : Z) (p : Pending) : bool :=
  (t <? not_before (pend_schedule p))%Z && (t <=? not_after (pend_schedule p))%Z.

Section facts.
Context {A : Type} `{!AuditSink A} `{!AuditLog A}.
Context {E V : Type} `{!Executor E} `{!Verifier V}.
Implicit Types (b : Bridge A) (x : E) (v : V) (p : Pending).

(** A sequence of bridge calls, and the stage calls among them. *)
Definition run_all (ops : list (BridgeOp V)) (s : Bridge A * E) : Bridge A * E :=
  foldl (λ s op, (run_op op s).1) s ops.

#[local] Arguments run_all : simpl never.

Definition is_stage (op : BridgeOp V) : bool :=
  match op with OpCanary _ _ _ | OpRollout _ _ _ | OpRollback _ _ => true | _ => false end.

Definition stage_calls (ops : list (BridgeOp V)) : list (BridgeOp V) := filter is_stage ops.

(** A call that only writes to the audit log. *)
Definition is_note (op : BridgeOp V) : bool :=
  match op with OpAuditRejected _ _ _ | OpAuditFailure _ _ _ => true | _ => false end.

(** Nothing but stages and audit notes. *)
Definition staged (ops : list (BridgeOp V)) : Prop :=
  Forall (λ op, is_stage op = true ∨ is_note op = true) ops.

(** The stage call of a held command. *)
Definition pending_op (v : V) (p : Pending) : option (BridgeOp V) :=
  execution_op (pend_cmd p) v.

Lemma run_all_app ops1 ops2 s : run_all (ops1 ++ ops2) s = run_all ops2 (run_all ops1 s).
Proof. unfold run_all. by rewrite foldl_app. Qed.

Lemma release_stage_op v p op s :
  pending_op v p = Some op →
  ∃ r, inspect (release_stage (A:=A) (E:=E) (cmd_kind (pend_cmd p)) v
         (cmd_action_id (pend_cmd p)) (cmd_actor (pend_cmd p))) s = ((run_op op s).1, Ok r).
Proof.
  intros Hop. pose proof (run_op_no_panic (A:=A) op s.1 s.2) as Hnp. destruct s as [b x].
  unfold pending_op, execution_op in Hop. simpl in Hnp.
  destruct (cmd_kind (pend_cmd p)); simplify_eq; simpl in *; rewrite ignore_fst;
    unfold inspect; unfold ignore, mbind, M_bind, m_bind in Hnp;
    match goal with |- context [?m (b, x)] => destruct (m (b, x)) as [s' [o|e|]] end;
    by eauto.
Qed.

(** Releasing a command is its stage call, then at most one audit entry. *)
Lemma release_run v p op s :
  pending_op v p = Some op →
  ∃ ops fired, release v p s = (run_all (op :: ops) s, Ok fired) ∧ stage_calls ops = [] ∧
    staged ops.
Proof.
  intros Hop. destruct (release_stage_op v p op s Hop) as [r Hr].
  unfold release. destruct s as [b x]. erewrite bind_ok by reflexivity. go Hr.
  destruct (run_op op (b, x)).1 as [b1 x1] eqn:Hb1.
  erewrite bind_ok by reflexivity. simpl.
  assert (∀ ops, run_all (op :: ops) (b, x) = run_all ops (b1, x1)) as Hall
    by (intros ops; unfold run_all; cbn [foldl]; by rewrite Hb1).
  destruct r as [o|e].
  - exists [], [(cmd_action_id (pend_cmd p), o)]. rewrite Hall. split_and!; [done..|constructor].
  - case_bool_decide; simpl.
    + eexists [OpAuditRejected _ _ _], []. rewrite Hall.
      split_and!; [done..|apply Forall_singleton; by right].
    + eexists [OpAuditFailure _ _ _], []. rewrite Hall.
      split_and!; [done..|apply Forall_singleton; by right].
Qed.

(** The stage calls of the commands whose window is open, in queue order. *)
Definition due (v : V) (t : Z) (ps : list Pending) : list (BridgeOp V) :=
  omap (pending_op v) (filter (window_open t) ps).

Lemma window_cases t p :
  ((not_after (pend_schedule p) <? t)%Z = true ∧ window_open t p = false ∧
     window_ahead t p = false) ∨
  ((not_after (pend_schedule p) <? t)%Z = false ∧
   ((t <? not_before (pend_schedule p))%Z = true ∧ window_open t p = false ∧
      window_ahead t p = true ∨
    (t <? not_before (pend_schedule p))%Z = false ∧ window_open t p = true ∧
      window_ahead t p = false)).
Proof. unfold window_open, window_ahead. lia. Qed.

Lemma tick_loop_run v t ps fired still s :
  Forall (λ p, CommandKind.is_execution (cmd_kind (pend_cmd p)) = true) ps →
  ∃ ops fired', tick_loop v t ps fired still s =
    (run_all ops s, Ok (fired', still ++ filter (window_ahead t) ps)) ∧
    stage_calls ops = due v t ps ∧ staged ops.
Proof.
  intros Hps. revert fired still s. induction Hps as [|p ps Hp _ IH]; intros fired still s.
  { exists [], fired. simpl. rewrite app_nil_r. split_and!; [done..|constructor]. }
  cbn [tick_loop]. unfold due. rewrite !filter_cons_bool.
  destruct (window_cases t p) as [(-> & -> & ->)|(-> & [(-> & -> & ->)|(-> & -> & ->)])].
  - set (op := OpAuditRejected (V:=V) (cmd_action_id (pend_cmd p)) (cmd_actor (pend_cmd p))
      ("expired: window " +:+ show_window (pend_schedule p) +:+ " missed (now "
         +:+ show_Z t +:+ ")")).
    destruct (IH fired still (run_op op s).1) as (ops & fired' & Hrun & Hst & Hsn).
    exists (op :: ops), fired'. split; [|split; [done|constructor; [by right|done]]].
    erewrite bind_ok; [exact Hrun|by destruct s].
  - destruct (IH fired (still ++ [p]) s) as (ops & fired' & Hrun & Hst & Hsn).
    exists ops, fired'. split; [|done]. by rewrite Hrun, <-app_assoc.
  - destruct (execution_op_Some (pend_cmd p) v Hp) as [op Hop].
    destruct (release_run v p op s Hop) as (ops1 & out & Hrel & Hst1 & Hsn1). go Hrel.
    destruct (IH (fired ++ out) still (run_all (op :: ops1) s)) as (ops & fired' & Hrun & Hst & Hsn).
    exists ((op :: ops1) ++ ops), fired'. rewrite run_all_app. split; [done|].
    assert (is_stage op = true) as Hop' by
      (unfold execution_op in Hop; by destruct (cmd_kind (pend_cmd p)); simplify_eq).
    split; [|by apply Forall_app; split; [constructor; [by left|]|]].
    unfold stage_calls in *. simpl. unfold pending_op at 1. rewrite Hop.
    by rewrite filter_cons_bool, filter_app, Hst1, Hst, Hop'.
Qed.
End facts.
