(* ===== verification/SchedulerProps.v ===== *)
(** * Properties of the scheduler

    What one call does, the histories of a scheduler that shares its bridge and
    guard with the immediate dispatch path, and what is released in them. *)

From stdpp Require Import base tactics gmap strings list.
From Stdlib Require Import ZArith.
From S2P Require Import Prelude Float32 Action Bridge BridgeSpec BridgeFacts BridgeProps.
From S2P Require Import BridgeCalls BridgeDemo Control ControlProps Scheduler.

Section calls.
Context {A : Type} `{!AuditSink A} `{!AuditLog A}.
Context {S Z' C E V : Type} `{!SignatureVerifier S} `{!Authorizer Z'} `{!PayloadEncoder}.
Context `{!Clock C} `{!Executor E} `{!Verifier V}.
Implicit Types (b : Bridge A) (g : ReplayGuard) (x : E) (v : V) (sch : Scheduler).
Implicit Types (cmd : ControlCommand) (clock : C).

(** A held command can only be one the gates let through. *)
Definition executable (p : Pending) : Prop :=
  CommandKind.is_execution (cmd_kind (pend_cmd p)) = true.

Lemma tick_run clock v b x sch :
  Forall executable (pending sch) →
  ∃ ops fired, tick clock v (b, x, sch) =
    ((run_all ops (b, x), mkScheduler (filter (window_ahead (now clock)) (pending sch))),
     Ok fired) ∧
    stage_calls ops = due v (now clock) (pending sch) ∧ staged ops.
Proof.
  intros Hex. destruct (tick_loop_run v (now clock) (pending sch) [] [] (b, x) Hex)
    as (ops & fired & Hrun & Hst).
  exists ops, fired. split; [|done]. unfold tick. erewrite bind_ok by reflexivity.
  simpl. go_fst Hrun. by erewrite bind_ok by reflexivity.
Qed.

(** How [enqueue] fares: refused without holding the command, or held. *)
Lemma enqueue_cases cmd sig authz clock b g sch :
  let res := enqueue (A:=A) cmd sig authz clock (b, g, sch) in
  let g' := res.1.1.2 in
  (is_err res.2 = true ∧ res.1.2 = sch ∧ actions res.1.1.1 = actions b ∧
     (g' = g ∨ g' = advanced cmd g)) ∨
  (∃ w, res = ((b, advanced cmd g, mkScheduler (pending sch ++ [mkPending cmd w])), Ok w) ∧
     cmd_schedule cmd = Some w ∧ (now clock ≤ not_after w)%Z ∧
     signed sig cmd = true ∧ fresh cmd g = true ∧ permitted authz cmd = true ∧
     CommandKind.is_execution (cmd_kind cmd) = true).
Proof.
  pose proof (gate_execution_outcome cmd sig authz b g) as Hgate. simpl in Hgate.
  unfold enqueue. destruct (gate_execution cmd sig authz (b, g)) as [[b1 g1] r] eqn:Hg.
  pose proof (on_fst_run _ _ sch _ _ Hg) as Hrun. simpl in Hgate.
  destruct Hgate as [b' e ? Hr|b' e ?? Hr|b' e ??? Hr|e ????|????];
    [erewrite bind_err by done; left; simpl; rewrite ?(refusal_actions _ _ _ Hr); by eauto..|].
  erewrite bind_ok by done. destruct (cmd_schedule cmd) as [w|] eqn:Hw.
  - destruct (Z.ltb_spec (not_after w) (now clock)).
    + left. simpl. by eauto.
    + right. exists w. split_and!; done.
  - left. simpl. by eauto.
Qed.

Lemma audit_cancelled_run ps b :
  ∃ b', audit_cancelled ps b = (b', Ok tt) ∧ actions b' = actions b ∧
    ∃ evs, events (audit b') = events (audit b) ++ evs ∧ length evs = length ps ∧
      Forall (λ e, ev_outcome e = Outcome.Rejected) evs.
Proof.
  revert b. induction ps as [|p ps IH]; intros b.
  { exists b. split; [done|]. split; [done|]. exists []. by rewrite app_nil_r. }
  cbn [audit_cancelled]. erewrite bind_ok by reflexivity.
  destruct (IH (log_event b (cmd_action_id (pend_cmd p)) None ActionState.Aborted
    (cmd_actor (pend_cmd p)) Outcome.Rejected
    ("scheduled command cancelled by abort ("
       +:+ CommandKind.label (cmd_kind (pend_cmd p)) +:+ ")")))
    as (b' & Hb' & Ha & evs & Hev & Hlen & HF).
  exists b'. split; [done|]. split; [done|]. eexists (_ :: evs).
  simpl in Hev. rewrite events_record, <-app_assoc in Hev. split; [done|].
  split; [simpl; lia|]. by constructor.
Qed.

(** A tick runs exactly the stage calls of the held commands whose window
    is open, in queue order and each once; it keeps exactly the commands whose
    window is still ahead; expired commands are dropped without a stage call. *)
Theorem tick_releases_exactly_the_open clock v b x sch :
  Forall executable (pending sch) →
  ∃ ops fired, tick clock v (b, x, sch) =
    ((run_all ops (b, x), mkScheduler (filter (window_ahead (now clock)) (pending sch))),
     Ok fired) ∧
    stage_calls ops = omap (pending_op v) (filter (window_open (now clock)) (pending sch)) ∧
    staged ops.
Proof. apply tick_run. Qed.

(** Cancelling an action drops every held command of it and no other,
    keeps the order of the rest, touches no record and audits one rejection per
    command dropped. *)
Theorem cancel_drops_exactly_the_action id b sch :
  ∃ b', cancel id (b, sch) =
    ((b', mkScheduler (filter (λ p, cmd_action_id (pend_cmd p) ≠ id) (pending sch))), Ok tt) ∧
    actions b' = actions b ∧
    ∃ evs, events (audit b') = events (audit b) ++ evs ∧
      length evs = length (filter (λ p, cmd_action_id (pend_cmd p) = id) (pending sch)) ∧
      Forall (λ e, ev_outcome e = Outcome.Rejected) evs.
Proof.
  destruct (audit_cancelled_run (filter (λ p, cmd_action_id (pend_cmd p) = id) (pending sch)) b)
    as (b' & Hb' & Ha & Hev).
  exists b'. split; [|done]. unfold cancel. erewrite bind_ok by reflexivity.
  simpl. go_fst Hb'. done.
Qed.
End calls.

(** ** Histories *)

(** The freshness token a command spends. *)
Definition token (p : Pending) : string * Z :=
  (cmd_session (pend_cmd p), cmd_seq (pend_cmd p)).

Inductive SchedStep (V : Type) :=
  | SEnqueue (cmd : ControlCommand) (t : Z)
  | STick (t : Z) (v : V)
  | SCancel (id : string)
  | SDeliver (d : Delivery V).
Arguments SEnqueue {V} cmd t.
Arguments STick {V} t v.
Arguments SCancel {V} id.
Arguments SDeliver {V} d.

Record SchedWorld (A E : Type) := mkSchedWorld {
  sw_bridge : Bridge A;
  sw_guard : ReplayGuard;
  sw_exec : E;
  sw_sched : Scheduler;
}.
Arguments mkSchedWorld {A E}.
Arguments sw_bridge {A E}.
Arguments sw_guard {A E}.
Arguments sw_exec {A E}.
Arguments sw_sched {A E}.

Section history.
Context {A : Type} `{!AuditSink A} `{!AuditLog A}.
Context {S Z' E V : Type} `{!SignatureVerifier S} `{!Authorizer Z'} `{!PayloadEncoder}.
Context `{!Executor E} `{!Verifier V}.
Context (sig : S) (authz : Z').
Implicit Types (w : SchedWorld A E) (step : SchedStep V) (p : Pending) (g : ReplayGuard).

(** One call on the shared state; the clock reads [t]. *)
Definition sched_step (step : SchedStep V) (w : SchedWorld A E) : SchedWorld A E :=
  match step with
  | SEnqueue cmd t =>
      let '(b, g, sch) := (enqueue cmd sig authz (mkFakeClock t)
                            (sw_bridge w, sw_guard w, sw_sched w)).1 in
      mkSchedWorld b g (sw_exec w) sch
  | STick t v =>
      let '(b, x, sch) := (tick (mkFakeClock t) v (sw_bridge w, sw_exec w, sw_sched w)).1 in
      mkSchedWorld b (sw_guard w) x sch
  | SCancel id =>
      let '(b, sch) := (cancel id (sw_bridge w, sw_sched w)).1 in
      mkSchedWorld b (sw_guard w) (sw_exec w) sch
  | SDeliver d =>
      let '(b, g, x) := (deliver sig authz d (sw_bridge w, sw_guard w, sw_exec w)).1 in
      mkSchedWorld b g x (sw_sched w)
  end.

(** The commands [rel] of the queue are what a step ran: over the step, bridge and
    executor go through the stage calls of [rel], in queue order, and through audit
    notes, and through nothing else.  Only a tick runs commands of the queue. *)
Definition step_ran (step : SchedStep V) (w : SchedWorld A E) (rel : list Pending) : Prop :=
  match step with
  | STick _ v =>
      rel `sublist_of` pending (sw_sched w) ∧
      ∃ ops, (sw_bridge (sched_step step w), sw_exec (sched_step step w)) =
               run_all ops (sw_bridge w, sw_exec w) ∧
        staged ops ∧ stage_calls ops = omap (pending_op v) rel
  | _ => rel = []
  end.

(** What a history ran of the queue, with the times of the ticks. *)
Inductive ran : list (SchedStep V) → SchedWorld A E → list (Z * Pending) → Prop :=
  | ran_nil w : ran [] w []
  | ran_tick t v steps w rel log :
      step_ran (STick t v) w rel → ran steps (sched_step (STick t v) w) log →
      ran (STick t v :: steps) w (((λ p, (t, p)) <$> rel) ++ log)
  | ran_other step steps w log :
      step_ran step w [] → ran steps (sched_step step w) log → ran (step :: steps) w log.

(** The times at which a command of the queue may run. *)
Definition in_window (t : Z) (p : Pending) : Prop :=
  (not_before (pend_schedule p) ≤ t ≤ not_after (pend_schedule p))%Z.

(** What holds of every held command. *)
Record held_ok (g : ReplayGuard) (p : Pending) : Prop := {
  held_signed : signed sig (pend_cmd p) = true;
  held_permitted : permitted authz (pend_cmd p) = true;
  held_executes : executable p;
  held_window : cmd_schedule (pend_cmd p) = Some (pend_schedule p);
  held_spent : spent (token p).1 (token p).2 g;
}.

(** The invariant: what is held passed the gates, and no token is both released
    and held, or twice in either. *)
Record sched_inv (released : list Pending) (w : SchedWorld A E) : Prop := {
  inv_held : Forall (held_ok (sw_guard w)) (pending (sw_sched w));
  inv_released : Forall (λ p, spent (token p).1 (token p).2 (sw_guard w)) released;
  inv_once : NoDup (token <$> released ++ pending (sw_sched w));
}.

Lemma held_ok_mono g g' p :
  (∀ s q, spent s q g → spent s q g') → held_ok g p → held_ok g' p.
Proof. intros Hg [? ? ? ? ?]. split; auto. Qed.

Lemma sched_inv_guard released w b g' x :
  (∀ s q, spent s q (sw_guard w) → spent s q g') → sched_inv released w →
  sched_inv released (mkSchedWorld b g' x (sw_sched w)).
Proof.
  intros Hg [Hh Hr Ho]. split; simpl; [|by eapply Forall_impl; [done|]; auto|done].
  eapply Forall_impl; [done|]. intros p. by apply held_ok_mono.
Qed.

Lemma fresh_not_spent cmd g p :
  fresh cmd g = true → spent (token p).1 (token p).2 g →
  (cmd_session cmd, cmd_seq cmd) ≠ token p.
Proof.
  intros Hf Hs Heq. assert ((token p).1 = cmd_session cmd) as H1 by by rewrite <-Heq.
  assert ((token p).2 = cmd_seq cmd) as H2 by by rewrite <-Heq.
  rewrite H1, H2 in Hs. unfold fresh in Hf. by rewrite (spent_refuses _ _ _ _ Hs) in Hf.
Qed.

Lemma enqueue_inv released cmd t w :
  sched_inv released w → sched_inv released (sched_step (SEnqueue cmd t) w).
Proof.
  intros Hinv. simpl.
  pose proof (enqueue_cases cmd sig authz (mkFakeClock t) (sw_bridge w) (sw_guard w)
    (sw_sched w)) as Hcases. simpl in Hcases.
  destruct (enqueue _ _ _ _ _) as [[[b g] sch] out]. simpl in *.
  assert (∀ s q, spent s q (sw_guard w) → spent s q (advanced cmd (sw_guard w))) as Hadv
    by (intros; by apply guard_admit_keeps_spent).
  destruct Hcases as [(_ & -> & _ & [->| ->])|(wi & [= -> -> ->] & Hw & _ & Hs & Hf & Hp & He)].
  - by apply sched_inv_guard.
  - by apply sched_inv_guard.
  - destruct Hinv as [Hh Hr Ho]. split; simpl.
    + apply Forall_app. split.
      * eapply Forall_impl; [done|]. intros p. by apply held_ok_mono.
      * apply Forall_singleton. split; try done. apply guard_admit_spent.
    + eapply Forall_impl; [done|]. simpl. auto.
    + rewrite app_assoc, fmap_app. apply NoDup_app. split; [done|]. split; [|apply NoDup_singleton].
      intros tk (p & -> & Hin)%list_elem_of_fmap Heq%list_elem_of_singleton.
      apply (fresh_not_spent cmd (sw_guard w) p Hf); [|by rewrite Heq].
      apply elem_of_app in Hin as [Hin|Hin]; rewrite Forall_forall in *; [by apply Hr|].
      by apply (held_spent _ _ (Hh p Hin)).
Qed.

(** Splitting the queue at a tick. *)
Lemma windows_disjoint t ps :
  filter (window_open t) ps ++ filter (window_ahead t) ps ⊆+ ps.
Proof.
  induction ps as [|p ps IH]; [done|]. rewrite !filter_cons_bool.
  destruct (window_cases t p) as [(_ & -> & ->)|(_ & [(_ & -> & ->)|(_ & -> & ->)])].
  - by apply submseteq_cons.
  - rewrite <-Permutation_middle. by apply submseteq_skip.
  - by apply submseteq_skip.
Qed.

Lemma tick_inv released t v w :
  sched_inv released w →
  sched_inv (released ++ filter (window_open t) (pending (sw_sched w)))
    (sched_step (STick t v) w).
Proof.
  intros [Hh Hr Ho]. simpl.
  destruct (tick_run (mkFakeClock t) v (sw_bridge w) (sw_exec w) (sw_sched w))
    as (ops & fired & -> & _).
  { eapply Forall_impl; [exact Hh|]. by intros p []. }
  simpl. destruct (run_all ops _) as [b x]. change (now (mkFakeClock t)) with t. split; simpl.
  - rewrite Forall_forall in *. intros p [_ Hin]%list_elem_of_filter. by apply Hh.
  - apply Forall_app. split; [done|]. rewrite Forall_forall in *.
    intros p [_ Hin]%list_elem_of_filter. by apply (held_spent _ _ (Hh p Hin)).
  - rewrite <-app_assoc. eapply submseteq_NoDup; [|exact Ho].
    apply fmap_submseteq. apply submseteq_app; [done|]. apply windows_disjoint.
Qed.
Lemma cancel_inv released id w :
  sched_inv released w → sched_inv released (sched_step (SCancel id) w).
Proof.
  intros [Hh Hr Ho]. cbn [sched_step].
  set (keep := filter (λ p, cmd_action_id (pend_cmd p) ≠ id) (pending (sw_sched w))).
  assert (∃ b, (cancel id (sw_bridge w, sw_sched w)).1 = (b, mkScheduler keep)) as [b ->].
  { unfold cancel. erewrite bind_ok by reflexivity. simpl.
    destruct (audit_cancelled_run (filter (λ p, cmd_action_id (pend_cmd p) = id)
      (pending (sw_sched w))) (sw_bridge w)) as (b' & Hb' & _).
    go_fst Hb'. by exists b'. }
  split; simpl; [|done|].
  - rewrite Forall_forall in *. intros p [_ Hin]%list_elem_of_filter. by apply Hh.
  - eapply submseteq_NoDup; [|exact Ho]. apply fmap_submseteq, submseteq_app; [done|].
    apply sublist_submseteq, sublist_filter.
Qed.

Lemma deliver_inv released d w :
  sched_inv released w → sched_inv released (sched_step (SDeliver d) w).
Proof.
  intros Hinv. cbn [sched_step].
  pose proof (λ s q, deliver_keeps_spent sig authz d (sw_bridge w) (sw_guard w) (sw_exec w) s q)
    as Hsp.
  destruct (deliver sig authz d _) as [[[b g] x] out]. simpl in *. by apply sched_inv_guard.
Qed.

(** A tick runs the commands whose window is open. *)
Lemma tick_ran t v w :
  Forall executable (pending (sw_sched w)) →
  step_ran (STick t v) w (filter (window_open t) (pending (sw_sched w))).
Proof.
  intros Hex. split; [apply sublist_filter|].
  destruct (tick_run (mkFakeClock t) v (sw_bridge w) (sw_exec w) (sw_sched w) Hex)
    as (ops & fired & Hrun & Hst & Hsn).
  exists ops. cbn [sched_step]. rewrite Hrun. cbn [fst].
  split; [by destruct (run_all ops _)|]. split; [done|exact Hst].
Qed.

Lemma window_open_in t p : window_open t p = true ↔ in_window t p.
Proof. unfold window_open, in_window. lia. Qed.

Definition due_by (log : list (Z * Pending)) (steps : list (SchedStep V)) w : Prop :=
  ∀ before t v after p, steps = before ++ STick t v :: after →
    p ∈ pending (sw_sched (foldl (λ w s, sched_step s w) w before)) → in_window t p → (t, p) ∈ log.

Lemma history_ran steps released w :
  sched_inv released w →
  ∃ log, ran steps w log ∧ NoDup (token <$> released ++ log.*2) ∧
    Forall (λ tp, in_window tp.1 tp.2 ∧ signed sig (pend_cmd tp.2) = true ∧
      permitted authz (pend_cmd tp.2) = true ∧ executable tp.2 ∧
      cmd_schedule (pend_cmd tp.2) = Some (pend_schedule tp.2)) log ∧
    due_by log steps w.
Proof.
  revert released w. induction steps as [|step steps IH]; intros released w Hinv.
  { exists []. split_and!; [constructor| |constructor|by intros [|??]].
    rewrite app_nil_r. destruct Hinv as [_ _ Ho]. rewrite fmap_app in Ho. by apply NoDup_app in Ho as [? _]. }
  assert (∀ log, (∀ t v, step ≠ STick t v) → due_by log steps (sched_step step w) →
    due_by log (step :: steps) w) as Hother.
  { intros log Hne Hlog [|s before] t v after p Heq Hp Hw; injection Heq as Hs ->;
      [by destruct (Hne t v)|]. subst s. by eapply Hlog. }
  destruct step as [cmd t|t v|id|d].
  2:{ destruct (IH _ _ (tick_inv released t v w Hinv)) as (log & Hran & Hnd & Hall & Hdue).
    pose proof (inv_held _ _ Hinv) as Hh.
    assert (step_ran (STick t v) w (filter (window_open t) (pending (sw_sched w)))) as Hstep.
    { apply tick_ran. eapply Forall_impl; [exact Hh|]. by intros p []. }
    exists (((λ p, (t, p)) <$> filter (window_open t) (pending (sw_sched w))) ++ log).
    split; [by constructor|]. split.
    { rewrite (fmap_app snd), <-list_fmap_compose, list_fmap_id, (app_assoc released). exact Hnd. }
    rewrite Forall_forall in Hh. split.
    - apply Forall_app. split; [|done]. apply Forall_fmap, Forall_forall.
      intros p [Hopen Hin]%list_elem_of_filter. destruct (Hh p Hin). simpl.
      split; [|done]. by apply window_open_in, Is_true_true.
    - intros [|s before] t' v' after p Heq Hp Hw; [injection Heq as <- <- ->|injection Heq as <- ->].
      + apply elem_of_app. left. apply (list_elem_of_fmap_2 (λ p, (t, p))), list_elem_of_filter.
        split; [|done]. by apply Is_true_true, window_open_in.
      + apply elem_of_app. right. by eapply Hdue. }
  all: match goal with |- context [ran (?st :: _) _ _] => set (step := st) in * end.
  all: assert (sched_inv released (sched_step step w)) as Hinv'
    by (by first [apply enqueue_inv|apply cancel_inv|apply deliver_inv]).
  all: destruct (IH _ _ Hinv') as (log & Hran & Hnd & Hall & Hdue); exists log.
  all: (split; [by apply ran_other|]); (split; [done|]); (split; [done|]); by apply Hother.
Qed.

(** C8: in any history of enqueues, ticks, cancellations and immediate
    deliveries, on any clock, what the ticks run of the queue (every stage call
    they make, and nothing else touches bridge or executor but audit notes) runs
    inside the signed window of a command that was authenticated, authorized and
    of an executing kind; no freshness token is run twice; and a command held at a
    tick inside its window is run by that tick. *)
Theorem released_in_window_at_most_once steps b g x :
  let w := mkSchedWorld b g x scheduler_new in
  ∃ log, ran steps w log ∧
    NoDup ((λ tp, token tp.2) <$> log) ∧
    Forall (λ tp, in_window tp.1 tp.2 ∧
      cmd_schedule (pend_cmd tp.2) = Some (pend_schedule tp.2) ∧
      signed sig (pend_cmd tp.2) = true ∧ permitted authz (pend_cmd tp.2) = true ∧
      executable tp.2) log ∧
    ∀ before t v after p, steps = before ++ STick t v :: after →
      p ∈ pending (sw_sched (foldl (λ w s, sched_step s w) w before)) →
      in_window t p → (t, p) ∈ log.
Proof.
  intros w. destruct (history_ran steps [] w) as (log & Hran & Hnd & Hall & Hdue).
  { split; [done..|constructor]. }
  exists log. split; [done|]. rewrite app_nil_l, <-list_fmap_compose in Hnd. split; [done|].
  split; [|done]. eapply Forall_impl; [exact Hall|]. intros [t p]. simpl. tauto.
Qed.
End history.
