(* ===== verification/ControlDemo.v ===== *)
(** * Concrete commands

    A signature scheme, a role policy and command streams, the gate and scheduler
    theorems applied to them, and a concrete run of the scheduler that reports an
    executed rollback as one that never ran. *)

From stdpp Require Import base tactics gmap strings list.
From Stdlib Require Import ZArith.
From S2P Require Import Prelude Float32 Action Bridge BridgeSpec BridgeFacts BridgeProps.
From S2P Require Import BridgeCalls BridgeDemo Control ControlProps.
From S2P Require Import Scheduler SchedulerProps.

#[export] Instance demo_encoder : PayloadEncoder := λ u,
  u_action_id u +:+ "/" +:+ CommandKind.label (u_kind u) +:+ "/" +:+ u_actor u +:+ "/"
    +:+ u_session u +:+ "/" +:+ show_Z (u_seq u).

(** A signature is the payload with a per-actor secret in front. *)
Record Secrets := mkSecrets { secret_of : gmap string string }.
#[export] Instance demo_signatures : SignatureVerifier Secrets := λ s payload signature actor,
  match secret_of s !! actor with
  | Some k => bool_decide (signature = k +:+ payload)
  | None => false
  end.

Definition demo_secrets : Secrets :=
  mkSecrets {["alice" := "ka:"; "bob" := "kb:"; "carol" := "kc:"]}.

Definition demo_policy : RolePolicy :=
  assign "carol" Role.Operator (assign "bob" Role.Approver
    (assign "alice" Role.Operator policy_new)).

Definition demo_guard : ReplayGuard := guard_open_session "s1" 0 guard_new.

Definition demo_cmd (id : string) (kind : CommandKind) (actor key : string) (n : Z)
    (w : option Schedule) : ControlCommand :=
  let u := mkUnsigned id kind actor "s1" n w in
  mkCommand id kind actor "s1" n w (key +:+ encode_unsigned u).

Definition canary_cmd : ControlCommand :=
  demo_cmd "act-1" CommandKind.Canary "carol" "kc:" 7 None.
Definition forged_cmd : ControlCommand :=
  demo_cmd "act-1" CommandKind.Canary "carol" "kx:" 999 None.
Definition windowed_cmd (kind : CommandKind) (n : Z) : ControlCommand :=
  demo_cmd "act-1" kind "carol" "kc:" n (Some (mkSchedule 100 200)).

Lemma execution_passes_every_gate_witness :
  signed demo_secrets canary_cmd = true ∧ fresh canary_cmd demo_guard = true ∧
  permitted demo_policy canary_cmd = true.
Proof.
  destruct (execution_passes_every_gate demo_secrets demo_policy canary_cmd VerifyOutcome.Fixed
    (demo to_approved) demo_guard demo_exec) as (H1 & H2 & H3 & _);
    [apply demo_reachable|by vm_compute|done].
Defined.

Lemma forged_command_is_inert_witness :
  let '((b', g', x'), out) := deliver demo_secrets demo_policy
    (ToExecution forged_cmd VerifyOutcome.Fixed) (demo to_approved, demo_guard, demo_exec) in
  is_err out = true ∧ g' = demo_guard ∧ x' = demo_exec ∧
  actions b' = actions (demo to_approved).
Proof.
  pose proof (forged_command_is_inert demo_secrets demo_policy
    (ToExecution forged_cmd VerifyOutcome.Fixed) forged_cmd (demo to_approved) demo_guard
    demo_exec eq_refl) as H.
  ospecialize (H _); [by vm_compute|].
  destruct (deliver _ _ _ _) as [[[b' g'] x'] out]. by destruct H as (? & ? & ? & ? & _).
Defined.

(** Carol's canary, delivered, then a forgery and two sessions opened, her own at
    the mark it has, then the same canary again. *)
Definition between : list (GateEvent (V := VerifyOutcome)) :=
  [Arrives (ToLifecycle forged_cmd); Opens "s2" 0; Opens (cmd_session canary_cmd) 7].

Lemma replay_is_refused_witness :
  let '(b, g, x) := gate_run demo_secrets demo_policy between
    (deliver demo_secrets demo_policy (ToExecution canary_cmd VerifyOutcome.Fixed)
      (demo to_approved, demo_guard, demo_exec)).1 in
  let '((b', g', x'), out) :=
    deliver demo_secrets demo_policy (ToExecution canary_cmd VerifyOutcome.Fixed) (b, g, x) in
  is_err out = true ∧ g' = g ∧ x' = x ∧ actions b' = actions b.
Proof.
  apply (replay_is_refused demo_secrets demo_policy
    (ToExecution canary_cmd VerifyOutcome.Fixed) canary_cmd between
    (ToExecution canary_cmd VerifyOutcome.Fixed) canary_cmd
    (demo to_approved, demo_guard, demo_exec) eq_refl);
    [vm_compute; reflexivity|reflexivity|reflexivity|vm_compute; discriminate|].
  intros from Hin. unfold between in Hin.
  repeat (apply elem_of_cons in Hin as [Hin|Hin]; [try discriminate; injection Hin; intros; subst; by vm_compute|]).
  by apply not_elem_of_nil in Hin.
Defined.

(** What the exception is about: re-opening her session at 0 admits the canary again. *)
Example reopened_session_admits_again :
  let g := (gate_run demo_secrets demo_policy [Arrives (ToExecution canary_cmd VerifyOutcome.Fixed)]
    (demo to_approved, demo_guard, demo_exec)).1.2 in
  fresh canary_cmd demo_guard = true ∧ fresh canary_cmd g = false ∧
  fresh canary_cmd (guard_open_session (cmd_session canary_cmd) 0 g) = true.
Proof. by vm_compute. Qed.

Lemma windowed_command_not_immediate_witness :
  let '((b', g', x'), out) := deliver demo_secrets demo_policy
    (ToExecution (windowed_cmd CommandKind.Canary 7) VerifyOutcome.Fixed)
    (demo to_approved, demo_guard, demo_exec) in
  is_err out = true ∧ x' = demo_exec.
Proof.
  pose proof (windowed_command_not_immediate demo_secrets demo_policy
    (windowed_cmd CommandKind.Canary 7) VerifyOutcome.Fixed
    (demo to_approved, demo_guard, demo_exec) (mkSchedule 100 200) eq_refl) as H.
  destruct (deliver _ _ _ _) as [[[b' g'] x'] out]. by destruct H as (? & ? & _).
Defined.

(** Alice drafts and submits, Bob approves. *)
Definition demo_stream : list (Delivery VerifyOutcome) :=
  [ToLifecycle (demo_cmd "act-1" (CommandKind.Draft demo_action) "alice" "ka:" 1 None);
   LocalDryRun "act-1" "alice";
   ToLifecycle (demo_cmd "act-1" CommandKind.Submit "alice" "ka:" 2 None);
   ToLifecycle (demo_cmd "act-1" CommandKind.Approve "bob" "kb:" 3 None)].

Definition demo_trail : list AuditEvent :=
  events (audit (deliver_all demo_secrets demo_policy demo_stream
    (bridge_new (mkVecAuditSink []), demo_guard, demo_exec)).1.1).

Definition drafted_event : AuditEvent :=
  mkAuditEvent 0 "act-1" None ActionState.Drafted "alice" Outcome.Ok "drafted".
Definition approved_event : AuditEvent :=
  mkAuditEvent 3 "act-1" (Some ActionState.PendingApproval) ActionState.Approved "bob"
    Outcome.Ok "approved".

Lemma demo_trail_events : demo_trail !! 0 = Some drafted_event ∧ demo_trail !! 3 = Some approved_event.
Proof. by vm_compute. Qed.

Lemma demo_policy_no_admin actor : roles demo_policy !! actor ≠ Some Role.Admin.
Proof.
  unfold demo_policy, assign. simpl. rewrite !lookup_insert_Some, lookup_empty. naive_solver.
Qed.

Lemma four_eyes_witness : ev_actor drafted_event ≠ ev_actor approved_event.
Proof.
  destruct demo_trail_events as [H1 H2].
  apply (four_eyes demo_secrets demo_policy demo_stream (mkVecAuditSink []) demo_guard
    demo_exec "act-1" drafted_event approved_event demo_policy_no_admin);
    [done|by eapply list_elem_of_lookup_2|by eapply list_elem_of_lookup_2|done|done].
Defined.

(** ** The scheduler *)

Definition demo_queue : Scheduler :=
  mkScheduler [mkPending (windowed_cmd CommandKind.Canary 8) (mkSchedule 100 200);
               mkPending (windowed_cmd CommandKind.Rollout 9) (mkSchedule 300 400)].

Lemma tick_releases_exactly_the_open_witness :
  ∃ ops fired, tick (mkFakeClock 150) VerifyOutcome.Fixed (demo to_approved, demo_exec, demo_queue)
    = ((run_all ops (demo to_approved, demo_exec),
        mkScheduler [mkPending (windowed_cmd CommandKind.Rollout 9) (mkSchedule 300 400)]),
       Ok fired) ∧
    stage_calls ops = [OpCanary VerifyOutcome.Fixed "act-1" "carol"].
Proof.
  destruct (tick_releases_exactly_the_open (mkFakeClock 150) VerifyOutcome.Fixed
    (demo to_approved) demo_exec demo_queue) as (ops & fired & Hrun & Hst & _).
  { repeat constructor. }
  exists ops, fired. split; [exact Hrun|exact Hst].
Defined.

(** ** A rollback that ran, reported as one that did not *)

(** The action after a rollback that could not revert [h2]. *)
Definition demo_incomplete : Bridge VecAuditSink :=
  demo (to_closed ++ [OpRollback "act-1" "carol"]).

Definition rollback_queue : Scheduler :=
  mkScheduler [mkPending (windowed_cmd CommandKind.Rollback 9) (mkSchedule 100 200)].

(** A scheduled rollback that retries an incomplete one, calls the
    executor on the remaining target and fails again, is audited as dropped for
    not being in a valid state, not as an execution failure: [tick] tells the two
    apart by whether the state changed, and here it does not. *)
Theorem failed_rollback_retry_reported_as_dropped :
  let '((b', x', sch'), out) :=
    tick (mkFakeClock 150) VerifyOutcome.Fixed (demo_incomplete, demo_exec, rollback_queue) in
  state demo_incomplete "act-1" = Some ActionState.RollbackIncomplete ∧
  calls x' = [CRollback "act-1" "h2"] ∧ out = Ok [] ∧
  last (events (audit b')) = Some (mkAuditEvent (seq b' - 1) "act-1" None ActionState.Aborted
    "carol" Outcome.Rejected
    "scheduled command dropped: action not in a valid state to run Rollback").
Proof. by vm_compute. Qed.
