(* ===== verification/Transport.v ===== *)
(** * Message-framed transport

    [server/transport/src/lib.rs]: the length-delimited framing, the [Transport]
    interface and the in-memory pair of endpoints.  A byte is a [Z] in [0, 256). *)

From stdpp Require Import base tactics gmap strings list.
From Stdlib Require Import ZArith.
From S2P Require Import Prelude.

Definition bytes : Type := list Z.
Definition is_byte (z : Z) : Prop := (0 ≤ z < 256)%Z.

(** ** The interface *)

(** [trait Transport]. *)
Class Transport (T : Type) := {
  send : bytes → M T unit;
  recv : M T (option bytes);
}.

(** ** Framing *)

Definition LEN_PREFIX : nat := 4.
Definition MAX_FRAME_LEN : Z := 16 * 1024 * 1024.

(** [u32::to_be_bytes], [u32::from_be_bytes]. *)
Definition to_be_bytes (n : Z) : bytes :=
  [((n / 2 ^ 24) mod 256)%Z; ((n / 2 ^ 16) mod 256)%Z; ((n / 2 ^ 8) mod 256)%Z;
   (n mod 256)%Z].
Definition from_be_bytes (b0 b1 b2 b3 : Z) : Z :=
  b0 * 2 ^ 24 + b1 * 2 ^ 16 + b2 * 2 ^ 8 + b3.

(** [usize::checked_add] on a 64-bit target. *)
Definition checked_add_usize (a b : Z) : option Z :=
  if (a + b <=? u64_max)%Z then Some (a + b)%Z else None.

Definition encode_frame (payload : bytes) : Result bytes :=
  if (MAX_FRAME_LEN <? Z.of_nat (length payload))%Z
  then Err "frame payload exceeds MAX_FRAME_LEN"
  else
    let len := wrap_u32 (Z.of_nat (length payload)) in
    Ok (to_be_bytes len ++ payload).

(** [buf[i]]: out of range panics. *)
Definition index (buf : bytes) (i : nat) : M bytes Z := unwrap (buf !! i).

Definition decode_frame : M bytes (option bytes) :=
  buf ← gets id;
  if decide (length buf < LEN_PREFIX) then mret None
  else
    b0 ← index buf 0; b1 ← index buf 1; b2 ← index buf 2; b3 ← index buf 3;
    let len := from_be_bytes b0 b1 b2 b3 in
    if (MAX_FRAME_LEN <? len)%Z
    then bail "frame length prefix exceeds MAX_FRAME_LEN"
    else
      match checked_add_usize (Z.of_nat LEN_PREFIX) len with
      | None => bail "frame length overflow"
      | Some need =>
          if (Z.of_nat (length buf) <? need)%Z then mret None
          else
            let need := Z.to_nat need in
            modify (drop need);;
            mret (Some (drop LEN_PREFIX (take need buf)))
      end.

(** ** The in-memory pair *)

Record Channel := mkChannel { chunks : list bytes; chan_open : bool }.
Definition channel_new : Channel := mkChannel [] true.

(** Both endpoints of a link: the two shared channels, each endpoint's
    reassembly buffer, and which endpoints are still alive. *)
Record Duplex := mkDuplex {
  a_to_b : Channel;
  b_to_a : Channel;
  rx_a : bytes;
  rx_b : bytes;
  alive_a : bool;
  alive_b : bool;
}.

Inductive Side := A_end | B_end.

Definition duplex_pair : Duplex := mkDuplex channel_new channel_new [] [] true true.

Definition inbound (s : Side) (d : Duplex) : Channel :=
  match s with A_end => b_to_a d | B_end => a_to_b d end.
Definition outbound (s : Side) (d : Duplex) : Channel :=
  match s with A_end => a_to_b d | B_end => b_to_a d end.
Definition rx (s : Side) (d : Duplex) : bytes :=
  match s with A_end => rx_a d | B_end => rx_b d end.
(** [Rc::strong_count(&self.outbound) == 1] seen from [s]: the peer is gone. *)
Definition peer_alive (s : Side) (d : Duplex) : bool :=
  match s with A_end => alive_b d | B_end => alive_a d end.

Definition set_inbound (s : Side) (c : Channel) (d : Duplex) : Duplex :=
  match s with
  | A_end => mkDuplex (a_to_b d) c (rx_a d) (rx_b d) (alive_a d) (alive_b d)
  | B_end => mkDuplex c (b_to_a d) (rx_a d) (rx_b d) (alive_a d) (alive_b d)
  end.
Definition set_outbound (s : Side) (c : Channel) (d : Duplex) : Duplex :=
  match s with
  | A_end => mkDuplex c (b_to_a d) (rx_a d) (rx_b d) (alive_a d) (alive_b d)
  | B_end => mkDuplex (a_to_b d) c (rx_a d) (rx_b d) (alive_a d) (alive_b d)
  end.
Definition set_rx (s : Side) (r : bytes) (d : Duplex) : Duplex :=
  match s with
  | A_end => mkDuplex (a_to_b d) (b_to_a d) r (rx_b d) (alive_a d) (alive_b d)
  | B_end => mkDuplex (a_to_b d) (b_to_a d) (rx_a d) r (alive_a d) (alive_b d)
  end.

Definition peer_closed (s : Side) (d : Duplex) : bool := negb (chan_open (inbound s d)).

Definition lift {S T} (r : Result T) : M S T := λ s, (s, r).

Definition duplex_send (s : Side) (frame : bytes) : M Duplex unit :=
  encoded ← lift (encode_frame frame);
  alive ← gets (peer_alive s);
  if negb alive then bail "peer receiver has closed"
  else modify (λ d,
    set_outbound s (mkChannel (chunks (outbound s d) ++ [encoded])
                      (chan_open (outbound s d))) d).

(** Drain the queued chunks into the buffer, then pop one frame. *)
Definition pull_frame (s : Side) : M Duplex (option bytes) :=
  modify (λ d, set_rx s (rx s d ++ concat (chunks (inbound s d)))
                 (set_inbound s (mkChannel [] (chan_open (inbound s d))) d));;
  zoom (rx s) (set_rx s) decode_frame.

Definition duplex_recv (s : Side) : M Duplex (option bytes) := pull_frame s.

(** [Drop]: the channel this end writes into is marked closed. *)
Definition duplex_drop (s : Side) (d : Duplex) : Duplex :=
  let d := set_outbound s (mkChannel (chunks (outbound s d)) false) d in
  match s with
  | A_end => mkDuplex (a_to_b d) (b_to_a d) (rx_a d) (rx_b d) false (alive_b d)
  | B_end => mkDuplex (a_to_b d) (b_to_a d) (rx_a d) (rx_b d) (alive_a d) false
  end.

(** One endpoint as a transport. *)
Record EndA := mkEndA { link_a : Duplex }.
Record EndB := mkEndB { link_b : Duplex }.
#[export] Instance EndA_transport : Transport EndA := {|
  send f := zoom link_a (λ d _, mkEndA d) (duplex_send A_end f);
  recv := zoom link_a (λ d _, mkEndA d) (duplex_recv A_end);
|}.
#[export] Instance EndB_transport : Transport EndB := {|
  send f := zoom link_b (λ d _, mkEndB d) (duplex_send B_end f);
  recv := zoom link_b (λ d _, mkEndB d) (duplex_recv B_end);
|}.

(** ** Facts about framing *)

Definition frame_ok (p : bytes) : Prop := (Z.of_nat (length p) ≤ MAX_FRAME_LEN)%Z.
(** What goes over the wire for a payload. *)
Definition frame (p : bytes) : bytes := to_be_bytes (Z.of_nat (length p)) ++ p.

Lemma be_bytes_round n :
  (0 ≤ n < 2 ^ 32)%Z →
  match to_be_bytes n with
  | [b0; b1; b2; b3] => from_be_bytes b0 b1 b2 b3 = n
  | _ => False
  end.
Proof.
  intros Hn. unfold to_be_bytes, from_be_bytes. change (2 ^ 24)%Z with 16777216%Z.
  change (2 ^ 16)%Z with 65536%Z. change (2 ^ 8)%Z with 256%Z.
  change (2 ^ 32)%Z with 4294967296%Z in Hn. Z.to_euclidean_division_equations. lia.
Qed.

Lemma be_bytes_are_bytes n : Forall is_byte (to_be_bytes n).
Proof. repeat constructor; try apply Z.mod_pos_bound; done. Qed.

Lemma encode_frame_ok p : frame_ok p → encode_frame p = Ok (frame p).
Proof.
  unfold frame_ok, encode_frame, frame, MAX_FRAME_LEN. intros Hp.
  destruct (Z.ltb_spec (16 * 1024 * 1024) (Z.of_nat (length p))); [lia|].
  do 3 f_equal. unfold wrap_u32, u32_modulus. apply Z.mod_small. lia.
Qed.

Lemma encode_frame_too_long p :
  ¬ frame_ok p → encode_frame p = Err "frame payload exceeds MAX_FRAME_LEN".
Proof.
  unfold frame_ok, encode_frame. intros Hp.
  by destruct (Z.ltb_spec MAX_FRAME_LEN (Z.of_nat (length p))); [|lia].
Qed.

(** [decode_frame] on a buffer of at least four bytes, in one equation. *)
Lemma decode_frame_eq b0 b1 b2 b3 rest :
  let len := from_be_bytes b0 b1 b2 b3 in
  let buf := b0 :: b1 :: b2 :: b3 :: rest in
  Forall is_byte [b0; b1; b2; b3] →
  decode_frame buf =
  if (MAX_FRAME_LEN <? len)%Z then
    (buf, Err "frame length prefix exceeds MAX_FRAME_LEN")
  else if (Z.of_nat (length rest) <? len)%Z then (buf, Ok None)
  else (drop (Z.to_nat len) rest, Ok (Some (take (Z.to_nat len) rest))).
Proof.
  intros len buf Hb. unfold decode_frame. erewrite bind_ok by reflexivity.
  unfold id. rewrite decide_False by (simpl; unfold LEN_PREFIX; lia).
  do 4 (erewrite bind_ok by reflexivity). fold len.
  destruct (Z.ltb_spec MAX_FRAME_LEN len) as [|Hlen]; [done|].
  assert (0 ≤ len)%Z as Hpos.
  { rewrite !Forall_cons in Hb. unfold is_byte in Hb. unfold len, from_be_bytes. lia. }
  unfold checked_add_usize, MAX_FRAME_LEN, u64_max, u64_modulus in *.
  destruct (Z.leb_spec (Z.of_nat LEN_PREFIX + len) (2 ^ 64 - 1)); [|unfold LEN_PREFIX in *; lia].
  assert (Z.to_nat (Z.of_nat LEN_PREFIX + len) = S (S (S (S (Z.to_nat len))))) as ->
    by (unfold LEN_PREFIX; lia).
  assert (length buf = 4 + length rest) as Hl by done. unfold LEN_PREFIX.
  destruct (Z.ltb_spec (Z.of_nat (length rest)) len),
    (Z.ltb_spec (Z.of_nat (length buf)) (Z.of_nat 4 + len)); try lia; done.
Qed.

Lemma frame_cons p :
  ∃ b0 b1 b2 b3, frame p = b0 :: b1 :: b2 :: b3 :: p ∧ Forall is_byte [b0; b1; b2; b3] ∧
    (frame_ok p → from_be_bytes b0 b1 b2 b3 = Z.of_nat (length p)).
Proof.
  unfold frame, to_be_bytes. do 4 eexists. split; [reflexivity|].
  split; [apply be_bytes_are_bytes|]. unfold frame_ok, MAX_FRAME_LEN. intros Hp.
  apply (be_bytes_round (Z.of_nat (length p))). lia.
Qed.

(** A whole frame at the front is popped, what follows stays. *)
Lemma decode_frame_whole p rest :
  frame_ok p → decode_frame (frame p ++ rest) = (rest, Ok (Some p)).
Proof.
  intros Hp. destruct (frame_cons p) as (b0 & b1 & b2 & b3 & -> & Hb & Hlen).
  simpl. rewrite decode_frame_eq, (Hlen Hp) by done.
  unfold frame_ok in Hp. rewrite length_app.
  destruct (Z.ltb_spec MAX_FRAME_LEN (Z.of_nat (length p))); [lia|].
  destruct (Z.ltb_spec (Z.of_nat (length p + length rest)) (Z.of_nat (length p))); [lia|].
  by rewrite Nat2Z.id, drop_app_length, take_app_length.
Qed.

Lemma decode_frame_empty : decode_frame [] = ([], Ok None).
Proof. done. Qed.

(** A proper prefix of a frame is left alone. *)
Lemma decode_frame_partial p part rest :
  frame_ok p → frame p = part ++ rest → rest ≠ [] → decode_frame part = (part, Ok None).
Proof.
  intros Hp Heq Hne. destruct (frame_cons p) as (b0 & b1 & b2 & b3 & Hf & Hb & Hlen).
  destruct (decide (length part < 4)) as [Hs|Hl].
  { unfold decode_frame. erewrite bind_ok by reflexivity. unfold id.
    by rewrite decide_True by done. }
  rewrite Hf in Heq.
  destruct part as [|c0 [|c1 [|c2 [|c3 part]]]]; simpl in *; try lia.
  injection Heq as <- <- <- <- Hpart. rewrite decode_frame_eq, (Hlen Hp) by done.
  unfold frame_ok in Hp. destruct (Z.ltb_spec MAX_FRAME_LEN (Z.of_nat (length p))); [lia|].
  assert (length p = length part + length rest) as Hl' by by rewrite Hpart, length_app.
  destruct rest; [done|]. simpl in Hl'.
  by destruct (Z.ltb_spec (Z.of_nat (length part)) (Z.of_nat (length p))); [|lia].
Qed.

(** ** The pair refines two FIFO queues of frames *)

(** What has been sent towards [s] and not yet received there. *)
Definition in_flight (s : Side) (d : Duplex) (fs : list bytes) : Prop :=
  Forall frame_ok fs ∧ rx s d ++ concat (chunks (inbound s d)) = concat (frame <$> fs).

Definition other (s : Side) : Side := match s with A_end => B_end | B_end => A_end end.

(** Sending and receiving on a link with known frames in flight. *)
Lemma duplex_send_run s p d fs back :
  in_flight (other s) d fs → in_flight s d back → frame_ok p → peer_alive s d = true →
  ∃ d1, duplex_send s p d = (d1, Ok tt) ∧ in_flight (other s) d1 (fs ++ [p]) ∧
    in_flight s d1 back ∧ alive_a d1 = alive_a d ∧ alive_b d1 = alive_b d.
Proof.
  intros [Hfs Hf] [Hbk Hb] Hp Ha. unfold duplex_send.
  erewrite bind_ok by (unfold lift; by rewrite encode_frame_ok).
  erewrite bind_ok by reflexivity. rewrite Ha. eexists. split; [done|].
  split; [|split; [by destruct s|by destruct s]].
  split; [apply Forall_app; by split; [|apply Forall_singleton]|].
  rewrite fmap_app, concat_app, <-Hf. destruct s; simpl in *;
    rewrite concat_app, <-app_assoc; simpl; done.
Qed.

Lemma duplex_recv_run s d fs back :
  in_flight s d fs → in_flight (other s) d back →
  ∃ d2, duplex_recv s d = (d2, Ok (head fs)) ∧ in_flight s d2 (tail fs) ∧
    in_flight (other s) d2 back ∧ alive_a d2 = alive_a d ∧ alive_b d2 = alive_b d.
Proof.
  intros [Hfs Hf] [Hbk Hb]. unfold duplex_recv, pull_frame.
  erewrite bind_ok by reflexivity. unfold zoom.
  replace (rx s _) with (concat (frame <$> fs)) by (by destruct s).
  destruct fs as [|f fs].
  - change (concat (frame <$> [])) with ([] : bytes). rewrite decode_frame_empty.
    eexists. split; [done|]. unfold in_flight. by destruct s.
  - rewrite Forall_cons in Hfs. rewrite fmap_cons. cbn [concat].
    rewrite decode_frame_whole by apply Hfs. eexists. split; [done|].
    unfold in_flight. destruct s; simpl in *; rewrite app_nil_r; naive_solver.
Qed.

(** Framing round trip on a stream.  A payload up to 16 MiB encodes, and
    from any stream that starts with its encoding, decoding returns exactly that
    payload and leaves exactly the rest; a longer payload is refused. *)
Theorem frame_round_trip p rest :
  match encode_frame p with
  | Ok f => decode_frame (f ++ rest) = (rest, Ok (Some p))
  | Err _ => (MAX_FRAME_LEN < Z.of_nat (length p))%Z
  | Panicked => False
  end.
Proof.
  destruct (decide (Z.of_nat (length p) ≤ MAX_FRAME_LEN)%Z) as [Hp|Hp].
  - rewrite encode_frame_ok by done. by apply decode_frame_whole.
  - rewrite encode_frame_too_long by done. lia.
Qed.

(** Decoding is total and conservative on any bytes: it never panics; it
    leaves the buffer untouched unless it returns a frame; a returned frame is at
    most 16 MiB and is, with its prefix, exactly what was removed; an error is
    only ever a length prefix above the cap. *)
Theorem decode_frame_conservative buf :
  Forall is_byte buf →
  match decode_frame buf with
  | (buf', Ok (Some p)) => frame_ok p ∧ ∃ b0 b1 b2 b3,
      buf = [b0; b1; b2; b3] ++ p ++ buf' ∧ from_be_bytes b0 b1 b2 b3 = Z.of_nat (length p)
  | (buf', Ok None) => buf' = buf
  | (buf', Err _) => buf' = buf ∧ ∃ b0 b1 b2 b3 rest,
      buf = b0 :: b1 :: b2 :: b3 :: rest ∧ (MAX_FRAME_LEN < from_be_bytes b0 b1 b2 b3)%Z
  | (_, Panicked) => False
  end.
Proof.
  intros Hb. destruct (decide (length buf < 4)) as [Hs|Hl].
  { unfold decode_frame. erewrite bind_ok by reflexivity. unfold id.
    by rewrite decide_True by done. }
  destruct buf as [|b0 [|b1 [|b2 [|b3 rest]]]]; simpl in *; try lia.
  assert (Forall is_byte [b0; b1; b2; b3]) as Hb4 by (rewrite !Forall_cons in Hb; naive_solver).
  rewrite decode_frame_eq by done. set (len := from_be_bytes b0 b1 b2 b3).
  destruct (Z.ltb_spec MAX_FRAME_LEN len); [naive_solver|].
  destruct (Z.ltb_spec (Z.of_nat (length rest)) len); [done|].
  assert (0 ≤ len)%Z by (rewrite !Forall_cons in Hb4; unfold is_byte in Hb4;
    unfold len, from_be_bytes; lia).
  unfold frame_ok. rewrite length_take_le by lia. split; [lia|].
  exists b0, b1, b2, b3. simpl. rewrite take_drop. split; [done|]. fold len. lia.
Qed.

(** The in-memory link is two FIFO queues.  A send by one end appends its
    frame to what is in flight to the other (or is refused, changing nothing); a
    receive returns the oldest frame in flight, whole, and removes it, or [None]
    when there is none; neither disturbs the other direction. *)
Theorem duplex_is_fifo s p d fs back :
  in_flight (other s) d fs → in_flight s d back →
  let '(d1, sent) := duplex_send s p d in
  (if is_ok sent then in_flight (other s) d1 (fs ++ [p]) else d1 = d) ∧
  in_flight s d1 back ∧
  (is_ok sent = true ↔ frame_ok p ∧ peer_alive s d = true) ∧
  let '(d2, got) := duplex_recv (other s) d in
  got = Ok (head fs) ∧ in_flight (other s) d2 (tail fs) ∧ in_flight s d2 back.
Proof.
  intros Hf Hb.
  assert (let '(d2, got) := duplex_recv (other s) d in
    got = Ok (head fs) ∧ in_flight (other s) d2 (tail fs) ∧ in_flight s d2 back) as Hrecv.
  { destruct (duplex_recv_run (other s) d fs back) as (d2 & -> & ? & ? & _);
      [done|by destruct s|]. split; [done|]. split; [done|by destruct s]. }
  destruct (decide (Z.of_nat (length p) ≤ MAX_FRAME_LEN)%Z) as [Hp|Hp].
  - destruct (peer_alive s d) eqn:Ha.
    + destruct (duplex_send_run s p d fs back) as (d1 & -> & ? & ? & _); [done..|].
      split; [done|]. split; [done|]. split; [done|exact Hrecv].
    + unfold duplex_send. erewrite bind_ok by (unfold lift; by rewrite encode_frame_ok).
      erewrite bind_ok by reflexivity. rewrite Ha. simpl.
      split; [done|]. split; [done|]. split; [naive_solver|exact Hrecv].
  - unfold duplex_send. erewrite bind_err by (unfold lift; by rewrite encode_frame_too_long).
    split; [done|]. split; [done|]. split; [simpl; naive_solver|exact Hrecv].
Qed.

Lemma decode_frame_conservative_witness :
  Forall is_byte [0; 0; 0; 2; 7; 8; 9]%Z ∧
  ∃ b0 b1 b2 b3, [0; 0; 0; 2; 7; 8; 9]%Z = [b0; b1; b2; b3] ++ [7; 8]%Z ++ [9]%Z ∧
    from_be_bytes b0 b1 b2 b3 = 2%Z.
Proof.
  assert (Forall is_byte [0; 0; 0; 2; 7; 8; 9]%Z) as Hb
    by (repeat constructor; unfold is_byte; lia).
  split; [exact Hb|]. exact (proj2 (decode_frame_conservative [0; 0; 0; 2; 7; 8; 9]%Z Hb)).
Defined.

Definition busy_link : Duplex :=
  mkDuplex (mkChannel [frame [5]%Z; frame [6; 7]%Z] true) channel_new [] [] true true.

Lemma duplex_is_fifo_witness :
  let '(d2, got) := duplex_recv B_end busy_link in got = Ok (Some [5]%Z).
Proof.
  pose proof (duplex_is_fifo A_end [8]%Z busy_link [[5]; [6; 7]]%Z []) as H.
  ospecialize (H _ _).
  { split; [repeat constructor; unfold frame_ok, MAX_FRAME_LEN; simpl; lia|reflexivity]. }
  { split; [constructor|reflexivity]. }
  destruct (duplex_send _ _ _) as [d1 sent]. destruct H as (_ & _ & _ & H).
  simpl other in H. destruct (duplex_recv _ _) as [d2 got]. exact (proj1 H).
Defined.
