(* ===== verification/Keys.v ===== *)
(** * Trusted keys

    [server/control-plane/src/lib.rs], first half: key files, the set of trusted
    keys per actor, hot reload and the command signer.  The signature scheme
    ([ed25519-dalek]) and the hex codec ([hex]) are interfaces; UTF-8, line
    splitting and trimming are the standard library's, written out on bytes. *)

From Stdlib Require Import ZArith Strings.Ascii Strings.String.
From stdpp Require Import base tactics gmap strings list.
From S2P Require Import Prelude Action Bridge Control Transport.

(** ** Third-party interfaces *)

(** The bytes of a string. *)
Definition as_bytes (s : string) : bytes :=
  (λ a, Z.of_N (Ascii.N_of_ascii a)) <$> list_ascii_of_string s.

(** The string of some bytes. *)
Fixpoint string_of_bytes (b : bytes) : string :=
  match b with
  | [] => EmptyString
  | z :: b => String (Ascii.ascii_of_N (Z.to_N z)) (string_of_bytes b)
  end.

Lemma as_bytes_cons a s : as_bytes (String a s) = Z.of_N (Ascii.N_of_ascii a) :: as_bytes s.
Proof. done. Qed.

Lemma string_of_as_bytes s : string_of_bytes (as_bytes s) = s.
Proof.
  induction s as [|a s IH]; [done|]. rewrite as_bytes_cons. simpl.
  by rewrite N2Z.id, Ascii.ascii_N_embedding, IH.
Qed.

Lemma as_bytes_of_string b : Forall is_byte b → as_bytes (string_of_bytes b) = b.
Proof.
  induction 1 as [|z b Hz _ IH]; [done|]. simpl. rewrite as_bytes_cons, IH. f_equal.
  unfold is_byte in Hz. rewrite Ascii.N_ascii_embedding by lia. lia.
Qed.

Lemma as_bytes_bytes s : Forall is_byte (as_bytes s).
Proof.
  induction s as [|a s IH]; [constructor|]. rewrite as_bytes_cons. constructor; [|done].
  pose proof (Ascii.N_ascii_bounded a). unfold is_byte. lia.
Qed.

Lemma as_bytes_app a b : as_bytes (a +:+ b) = as_bytes a ++ as_bytes b.
Proof.
  induction a as [|x a IH]; [done|].
  change (String x a +:+ b) with (String x (a +:+ b)). by rewrite !as_bytes_cons, IH.
Qed.

(** [ed25519_dalek]. *)
Class Ed25519 := {
  VerifyingKey : Type;
  SigningKey : Type;
  Signature : Type;
  vk_to_bytes : VerifyingKey → bytes;
  vk_from_bytes : bytes → VerifyingKey + string;
  sk_from_bytes : bytes → SigningKey;
  sk_verifying_key : SigningKey → VerifyingKey;
  sk_sign : SigningKey → bytes → Signature;
  sig_to_bytes : Signature → bytes;
  sig_from_slice : bytes → option Signature;
  verify_strict : VerifyingKey → bytes → Signature → bool;
}.

(** [hex]. *)
Class Hex := {
  hex_encode : bytes → string;
  hex_decode : bytes → bytes + string;
}.

(** What the code relies on: keys are told apart by their encoding, an encoding
    reads back, and an honest signature verifies. *)
Class Ed25519Laws `{Ed25519} := {
  vk_to_bytes_inj : ∀ k1 k2, vk_to_bytes k1 = vk_to_bytes k2 → k1 = k2;
  vk_from_to_bytes : ∀ k, vk_from_bytes (vk_to_bytes k) = inl k;
  vk_to_from_bytes : ∀ b k, vk_from_bytes b = inl k → vk_to_bytes k = b;
  sig_to_bytes_bytes : ∀ s, Forall is_byte (sig_to_bytes s);
  sig_from_to_bytes : ∀ s, sig_from_slice (sig_to_bytes s) = Some s;
  sign_verifies : ∀ k m, verify_strict (sk_verifying_key k) m (sk_sign k m) = true;
}.

Class HexLaws `{Hex} := {
  hex_round_trip : ∀ b, Forall is_byte b → hex_decode (as_bytes (hex_encode b)) = inl b;
}.

(** ** Text, as the standard library treats it *)

Definition in_range (lo hi b : Z) : bool := (lo <=? b)%Z && (b <=? hi)%Z.
Definition continuation (b : Z) : bool := in_range 128 191 b.

(** [std::str::from_utf8]: is the input well-formed UTF-8? *)
Fixpoint utf8_valid_fuel (fuel : nat) (l : bytes) : bool :=
  match fuel, l with
  | _, [] => true
  | 0, _ => false
  | S fuel, b0 :: l0 =>
      if in_range 0 127 b0 then utf8_valid_fuel fuel l0
      else if in_range 194 223 b0 then
        match l0 with
        | b1 :: l1 => continuation b1 && utf8_valid_fuel fuel l1
        | _ => false
        end
      else if in_range 224 239 b0 then
        match l0 with
        | b1 :: b2 :: l2 =>
            (if (b0 =? 224)%Z then in_range 160 191 b1
             else if (b0 =? 237)%Z then in_range 128 159 b1
             else continuation b1)
            && continuation b2 && utf8_valid_fuel fuel l2
        | _ => false
        end
      else if in_range 240 244 b0 then
        match l0 with
        | b1 :: b2 :: b3 :: l3 =>
            (if (b0 =? 240)%Z then in_range 144 191 b1
             else if (b0 =? 244)%Z then in_range 128 143 b1
             else continuation b1)
            && continuation b2 && continuation b3 && utf8_valid_fuel fuel l3
        | _ => false
        end
      else false
  end.
Definition utf8_valid (l : bytes) : bool := utf8_valid_fuel (length l) l.

(** [str::lines]: split after each newline, the final empty piece is no line, a
    carriage return before the newline goes too. *)
Fixpoint split_newline (l : bytes) : list bytes :=
  match l with
  | [] => [[]]
  | b :: l =>
      match split_newline l with
      | piece :: rest => if (b =? 10)%Z then [] :: piece :: rest else (b :: piece) :: rest
      | [] => []
      end
  end.
Definition strip_cr (l : bytes) : bytes :=
  if bool_decide (last l = Some 13%Z) then take (length l - 1) l else l.
Definition text_lines (l : bytes) : list bytes :=
  let pieces := split_newline l in
  match last pieces with
  | Some [] => strip_cr <$> take (length pieces - 1) pieces
  | Some piece => (strip_cr <$> take (length pieces - 1) pieces) ++ [piece]
  | None => []
  end.

(** The UTF-8 encodings of the characters [char::is_whitespace] holds of. *)
Definition whitespace : list bytes :=
  [[9]; [10]; [11]; [12]; [13]; [32]; [194; 133]; [194; 160]; [225; 154; 128];
   [226; 128; 128]; [226; 128; 129]; [226; 128; 130]; [226; 128; 131]; [226; 128; 132];
   [226; 128; 133]; [226; 128; 134]; [226; 128; 135]; [226; 128; 136]; [226; 128; 137];
   [226; 128; 138]; [226; 128; 168]; [226; 128; 169]; [226; 128; 175]; [226; 129; 159];
   [227; 128; 128]]%Z.

Definition strip_prefix (p l : bytes) : option bytes :=
  if bool_decide (take (length p) l = p) then Some (drop (length p) l) else None.

Definition first_stripped (l : bytes) (ps : list bytes) : option bytes :=
  head (omap (λ p, strip_prefix p l) ps).

Fixpoint trim_start_fuel (ps : list bytes) (fuel : nat) (l : bytes) : bytes :=
  match fuel with
  | 0 => l
  | S fuel =>
      match first_stripped l ps with
      | Some l' => trim_start_fuel ps fuel l'
      | None => l
      end
  end.
Definition trim_start (l : bytes) : bytes := trim_start_fuel whitespace (length l) l.
Definition trim_end (l : bytes) : bytes :=
  reverse (trim_start_fuel (reverse <$> whitespace) (length l) (reverse l)).
Definition trim (l : bytes) : bytes := trim_end (trim_start l).

(** ** Key files *)

Definition MAX_KEY_FILE_BYTES : Z := 64 * 1024.

Section keys.
Context `{!Ed25519} `{!Hex}.

(** One line of a key file: nothing, a key, or an error. *)
Definition parse_key_line (raw : bytes) : Result (option bytes) :=
  let line := trim raw in
  if bool_decide (line = []) || bool_decide (head line = Some 35%Z) then Ok None
  else
    match hex_decode line with
    | inr e => Err ("invalid hex key line: " +:+ e)
    | inl decoded =>
        if bool_decide (length decoded = 32) then Ok (Some decoded)
        else Err ("ed25519 key must be 32 bytes, got " +:+ show_nat (length decoded))
    end.

Fixpoint parse_key_lines (lines : list bytes) : Result (list bytes) :=
  match lines with
  | [] => Ok []
  | raw :: lines =>
      match parse_key_line raw with
      | Err e => Err e
      | Panicked => Panicked
      | Ok o =>
          match parse_key_lines lines with
          | Ok keys => Ok (match o with Some k => k :: keys | None => keys end)
          | r => r
          end
      end
  end.

Definition parse_hex_key_lines (input : bytes) : Result (list bytes) :=
  if (MAX_KEY_FILE_BYTES <? Z.of_nat (length input))%Z then
    Err ("key file too large: " +:+ show_nat (length input) +:+ " bytes exceeds the "
           +:+ show_Z MAX_KEY_FILE_BYTES +:+ "-byte cap")
  else if negb (utf8_valid input) then Err "invalid utf-8"
  else parse_key_lines (text_lines input).

(** ** The verifier *)

Record Ed25519Verifier := mkVerifier {
  trusted : gmap string (gmap bytes VerifyingKey);
}.

Definition verifier_new : Ed25519Verifier := mkVerifier ∅.

Definition keys_of (v : Ed25519Verifier) (actor : string) : gmap bytes VerifyingKey :=
  default ∅ (trusted v !! actor).

(** Additive and idempotent. *)
Definition trust (actor : string) (key : VerifyingKey) (v : Ed25519Verifier) :
    Ed25519Verifier :=
  mkVerifier (<[actor := <[vk_to_bytes key := key]> (keys_of v actor)]> (trusted v)).

Definition revoke (actor : string) (key : VerifyingKey) (v : Ed25519Verifier) :
    Ed25519Verifier :=
  mkVerifier (alter (delete (vk_to_bytes key)) actor (trusted v)).

Definition revoke_actor (actor : string) (v : Ed25519Verifier) : Ed25519Verifier :=
  mkVerifier (delete actor (trusted v)).

Fixpoint parse_verifying_keys (raw : list bytes) : Result (list VerifyingKey) :=
  match raw with
  | [] => Ok []
  | key :: raw =>
      match vk_from_bytes key with
      | inr e => Err ("non-canonical ed25519 public key: " +:+ e)
      | inl vk =>
          match parse_verifying_keys raw with
          | Ok parsed => Ok (vk :: parsed)
          | r => r
          end
      end
  end.

(** Every line is validated before any key is trusted. *)
Definition trust_from_bytes (actor : string) (input : bytes) : M Ed25519Verifier unit :=
  raw ← lift (parse_hex_key_lines input);
  parsed ← lift (parse_verifying_keys raw);
  modify (λ v, foldl (λ v vk, trust actor vk v) v parsed).

(** What [std::fs] reports of a directory entry. *)
Record DirEntry := mkDirEntry {
  entry_display : string;
  entry_is_file : bool;
  entry_stem : option string;
  entry_len : Result Z;
  entry_bytes : Result bytes;
}.

(** The size is checked before the content is read. *)
Definition read_capped_key_file (f : DirEntry) : Result bytes :=
  match entry_len f with
  | Ok len =>
      if (MAX_KEY_FILE_BYTES <? len)%Z then
        Err ("key file " +:+ entry_display f +:+ " too large: " +:+ show_Z len
               +:+ " bytes exceeds the " +:+ show_Z MAX_KEY_FILE_BYTES +:+ "-byte cap")
      else entry_bytes f
  | Err e => Err e
  | Panicked => Panicked
  end.

Fixpoint load_entries (entries : list (Result DirEntry)) : M Ed25519Verifier unit :=
  match entries with
  | [] => mret tt
  | entry :: entries =>
      f ← lift entry;
      if negb (entry_is_file f) then load_entries entries
      else
        stem ← ok_or (entry_stem f)
          ("trust file has no valid actor stem: " +:+ entry_display f);
        content ← lift (read_capped_key_file f);
        trust_from_bytes stem content;;
        load_entries entries
  end.

(** [dir] is what [std::fs::read_dir] returns. *)
Definition load_trust_dir (dir : Result (list (Result DirEntry))) : Result Ed25519Verifier :=
  match dir with
  | Err e => Err e
  | Panicked => Panicked
  | Ok entries =>
      match load_entries entries verifier_new with
      | (v, Ok _) => Ok v
      | (_, Err e) => Err e
      | (_, Panicked) => Panicked
      end
  end.

#[export] Instance Ed25519Verifier_verify : SignatureVerifier Ed25519Verifier :=
  λ v payload signature actor,
  match trusted v !! actor with
  | None => false
  | Some keys =>
      match hex_decode (as_bytes signature) with
      | inr _ => false
      | inl decoded =>
          match sig_from_slice decoded with
          | None => false
          | Some sig =>
              existsb (λ k, verify_strict k.2 (as_bytes payload) sig) (map_to_list keys)
          end
      end
  end.

(** ** Hot reload *)

(** The store behind its lock. *)
Record ReloadableVerifier := mkReloadable { inner : Ed25519Verifier; poisoned : bool }.

Definition reloadable_new (initial : Ed25519Verifier) : ReloadableVerifier :=
  mkReloadable initial false.

(** Build the new store first, swap it in only when complete. *)
Definition reload_from_dir (dir : Result (list (Result DirEntry))) :
    M ReloadableVerifier unit :=
  fresh ← lift (load_trust_dir dir);
  modify (λ r, mkReloadable fresh (poisoned r)).

#[export] Instance ReloadableVerifier_verify : SignatureVerifier ReloadableVerifier :=
  λ r payload signature actor,
  if poisoned r then false else sig_verify (inner r) payload signature actor.

(** ** The signer *)

Record CommandSigner := mkSigner { signer_key : SigningKey; signer_actor : string }.

Definition from_seed (actor : string) (seed : bytes) : CommandSigner :=
  mkSigner (sk_from_bytes seed) actor.

Definition from_key_bytes (actor : string) (input : bytes) : Result CommandSigner :=
  match parse_hex_key_lines input with
  | Ok [seed] => Ok (mkSigner (sk_from_bytes seed) actor)
  | Ok keys => Err ("a private-key file must hold exactly one seed line, found "
                      +:+ show_nat (length keys))
  | Err e => Err e
  | Panicked => Panicked
  end.

Definition from_key_file (actor : string) (f : DirEntry) : Result CommandSigner :=
  match read_capped_key_file f with
  | Ok content => from_key_bytes actor content
  | Err e => Err e
  | Panicked => Panicked
  end.

Definition verifying_key (s : CommandSigner) : VerifyingKey := sk_verifying_key (signer_key s).

Definition sign_payload (s : CommandSigner) (payload : string) : string :=
  hex_encode (sig_to_bytes (sk_sign (signer_key s) (as_bytes payload))).

Definition sign `{!PayloadEncoder} (s : CommandSigner) (cmd : ControlCommand) :
    ControlCommand :=
  mkCommand (cmd_action_id cmd) (cmd_kind cmd) (cmd_actor cmd) (cmd_session cmd)
    (cmd_seq cmd) (cmd_schedule cmd) (sign_payload s (payload cmd)).
End keys.
