(* ===== verification/KeysProps.v ===== *)
(** * Properties of the trust store *)

From stdpp Require Import base tactics gmap strings list.
From Stdlib Require Import ZArith.
From S2P Require Import Prelude Action Bridge Control Transport Keys.

Section props.
Context `{!Ed25519} `{!Hex} `{!Ed25519Laws}.
Implicit Types (v : Ed25519Verifier) (k : VerifyingKey) (actor : string).

(** Every key is filed under its own encoding. *)
Definition store_ok (v : Ed25519Verifier) : Prop :=
  ∀ actor b k, keys_of v actor !! b = Some k → vk_to_bytes k = b.

(** [k] is currently trusted for [actor]. *)
Definition trusts (v : Ed25519Verifier) (actor : string) (k : VerifyingKey) : Prop :=
  keys_of v actor !! vk_to_bytes k = Some k.

(** ** The calls that change the store *)

Inductive TrustOp :=
  | TTrust (actor : string) (k : VerifyingKey)
  | TRevoke (actor : string) (k : VerifyingKey)
  | TRevokeActor (actor : string)
  | TTrustFile (actor : string) (input : bytes).

Definition run_trust_op (v : Ed25519Verifier) (op : TrustOp) : Ed25519Verifier :=
  match op with
  | TTrust actor k => trust actor k v
  | TRevoke actor k => revoke actor k v
  | TRevokeActor actor => revoke_actor actor v
  | TTrustFile actor input => (trust_from_bytes actor input v).1
  end.

(** The keys of a file: all of them, or none when any line is bad. *)
Definition file_keys (input : bytes) : Result (list VerifyingKey) :=
  match parse_hex_key_lines input with
  | Ok raw => parse_verifying_keys raw
  | Err e => Err e
  | Panicked => Panicked
  end.

(** The reference: who is trusted after the calls [ops], newest first. *)
Fixpoint is_trusted (ops : list TrustOp) (actor : string) (k : VerifyingKey) : Prop :=
  match ops with
  | [] => False
  | TTrust a k' :: ops => (actor = a ∧ k = k') ∨ is_trusted ops actor k
  | TRevoke a k' :: ops => ¬ (actor = a ∧ k = k') ∧ is_trusted ops actor k
  | TRevokeActor a :: ops => actor ≠ a ∧ is_trusted ops actor k
  | TTrustFile a input :: ops =>
      (actor = a ∧ ∃ ks, file_keys input = Ok ks ∧ k ∈ ks) ∨ is_trusted ops actor k
  end.

(** ** Lemmas *)

Lemma keys_of_trust v actor k a :
  keys_of (trust actor k v) a =
  if decide (a = actor) then <[vk_to_bytes k := k]> (keys_of v a) else keys_of v a.
Proof.
  unfold keys_of, trust. simpl. case_decide as Ha.
  - subst. by rewrite lookup_insert_eq.
  - by rewrite lookup_insert_ne.
Qed.

Lemma keys_of_revoke v actor k a :
  keys_of (revoke actor k v) a =
  if decide (a = actor) then delete (vk_to_bytes k) (keys_of v a) else keys_of v a.
Proof.
  unfold keys_of, revoke. simpl. case_decide as Ha.
  - subst. rewrite lookup_alter_eq. destruct (trusted v !! actor); simpl; [done|].
    by rewrite delete_empty.
  - by rewrite lookup_alter_ne.
Qed.

Lemma keys_of_revoke_actor v actor a :
  keys_of (revoke_actor actor v) a = if decide (a = actor) then ∅ else keys_of v a.
Proof.
  unfold keys_of, revoke_actor. simpl. case_decide as Ha.
  - subst. by rewrite lookup_delete_eq.
  - by rewrite lookup_delete_ne.
Qed.

Lemma trusts_trust v actor k a k' :
  trusts (trust actor k v) a k' ↔ (a = actor ∧ k' = k) ∨ trusts v a k'.
Proof.
  unfold trusts. rewrite keys_of_trust. case_decide as Ha; [|naive_solver].
  destruct (decide (vk_to_bytes k = vk_to_bytes k')) as [Heq|Hne].
  - apply vk_to_bytes_inj in Heq as ->. rewrite lookup_insert_eq. naive_solver.
  - rewrite lookup_insert_ne by done. naive_solver.
Qed.

Lemma trusts_revoke v actor k a k' :
  trusts (revoke actor k v) a k' ↔ ¬ (a = actor ∧ k' = k) ∧ trusts v a k'.
Proof.
  unfold trusts. rewrite keys_of_revoke. case_decide as Ha; [|naive_solver].
  destruct (decide (vk_to_bytes k = vk_to_bytes k')) as [Heq|Hne].
  - apply vk_to_bytes_inj in Heq as ->. rewrite lookup_delete_eq. naive_solver.
  - rewrite lookup_delete_ne by done. naive_solver.
Qed.

Lemma trusts_revoke_actor v actor a k' :
  trusts (revoke_actor actor v) a k' ↔ a ≠ actor ∧ trusts v a k'.
Proof.
  unfold trusts. rewrite keys_of_revoke_actor. case_decide as Ha; [|naive_solver].
  rewrite lookup_empty. naive_solver.
Qed.

Lemma trusts_trust_all ks v actor a k' :
  trusts (foldl (λ v vk, trust actor vk v) v ks) a k' ↔
  (a = actor ∧ k' ∈ ks) ∨ trusts v a k'.
Proof.
  revert v. induction ks as [|k ks IH]; intros v; simpl.
  { rewrite elem_of_nil. naive_solver. }
  rewrite IH, trusts_trust, elem_of_cons. naive_solver.
Qed.

Lemma trust_from_bytes_eq actor input v :
  trust_from_bytes actor input v =
  match file_keys input with
  | Ok ks => (foldl (λ v vk, trust actor vk v) v ks, Ok tt)
  | Err e => (v, Err e)
  | Panicked => (v, Panicked)
  end.
Proof.
  unfold trust_from_bytes, file_keys, lift, mbind, M_bind, m_bind.
  destruct (parse_hex_key_lines input) as [raw|e|]; [|done..].
  by destruct (parse_verifying_keys raw).
Qed.

Lemma store_ok_trust v actor k : store_ok v → store_ok (trust actor k v).
Proof.
  intros Hv a b k'. rewrite keys_of_trust. case_decide; [|apply Hv].
  rewrite lookup_insert_Some. intros [[<- ->]|[_ H']]; [done|]. by apply (Hv a).
Qed.

Lemma store_ok_run v op : store_ok v → store_ok (run_trust_op v op).
Proof.
  intros Hv. destruct op as [actor k|actor k|actor|actor input]; simpl.
  - by apply store_ok_trust.
  - intros a b k'. rewrite keys_of_revoke. case_decide; [|apply Hv].
    rewrite lookup_delete_Some. intros [_ H']. by apply (Hv a).
  - intros a b k'. rewrite keys_of_revoke_actor. case_decide; [|apply Hv].
    by rewrite lookup_empty.
  - rewrite trust_from_bytes_eq. destruct (file_keys input) as [ks| |]; [|done..].
    revert v Hv. induction ks as [|k ks IH]; intros v Hv; simpl; [done|].
    by apply IH, store_ok_trust.
Qed.

Lemma store_ok_new : store_ok verifier_new.
Proof. intros a b k. unfold keys_of. simpl. by rewrite !lookup_empty. Qed.

Lemma run_trust_ops_spec ops actor k :
  let v := foldl run_trust_op verifier_new ops in
  store_ok v ∧ (trusts v actor k ↔ is_trusted (reverse ops) actor k).
Proof.
  induction ops as [|op ops IH] using rev_ind; simpl.
  { split; [apply store_ok_new|]. unfold trusts, keys_of. simpl. by rewrite !lookup_empty. }
  rewrite foldl_app, reverse_app. destruct IH as [Hok IH].
  split; [by apply store_ok_run|]. destruct op as [a k'|a k'|a|a input]; simpl.
  - by rewrite trusts_trust, IH.
  - by rewrite trusts_revoke, IH.
  - by rewrite trusts_revoke_actor, IH.
  - rewrite trust_from_bytes_eq.
    destruct (file_keys input) as [ks|e|]; simpl;
      [rewrite trusts_trust_all, IH|rewrite IH|rewrite IH]; naive_solver.
Qed.

(** Acceptance, in terms of the store. *)
Lemma verify_trusted v payload signature actor :
  store_ok v →
  sig_verify v payload signature actor = true ↔
  ∃ raw sig k, hex_decode (as_bytes signature) = inl raw ∧ sig_from_slice raw = Some sig ∧
    trusts v actor k ∧ verify_strict k (as_bytes payload) sig = true.
Proof.
  intros Hok. unfold sig_verify, Ed25519Verifier_verify, trusts, keys_of.
  unfold store_ok, keys_of in Hok. specialize (Hok actor).
  destruct (trusted v !! actor) as [keys|]; simpl in *.
  2:{ split; [done|]. intros (? & ? & ? & _ & _ & Hl & _). by rewrite lookup_empty in Hl. }
  destruct (hex_decode _) as [raw|e]; [|naive_solver].
  destruct (sig_from_slice raw) as [sig|] eqn:Hsig; [|naive_solver].
  rewrite existsb_exists. split.
  - intros ([b k] & Hin & Hv). apply list_elem_of_In, elem_of_map_to_list in Hin.
    pose proof (Hok b k Hin) as <-. naive_solver.
  - intros (raw' & sig' & k & [= <-] & Hs & Hk & Hv). simplify_eq.
    exists (vk_to_bytes k, k). split; [|done]. by apply list_elem_of_In, elem_of_map_to_list.
Qed.

(** ** The theorems *)

(** After any history of trusting keys, loading key files, revoking a key
    and offboarding an actor, a signature is accepted for an actor exactly when
    it decodes and verifies under a key whose trust has not been revoked since:
    overlap during rotation works, and a revoked key never verifies again. *)
Theorem verifier_follows_trust_history ops payload signature actor :
  sig_verify (foldl run_trust_op verifier_new ops) payload signature actor = true ↔
  ∃ raw sig k, hex_decode (as_bytes signature) = inl raw ∧ sig_from_slice raw = Some sig ∧
    is_trusted (reverse ops) actor k ∧ verify_strict k (as_bytes payload) sig = true.
Proof.
  rewrite verify_trusted.
  2:{ induction ops as [|op ops IH] using rev_ind; [apply store_ok_new|].
      rewrite foldl_app. by apply store_ok_run. }
  split; intros (raw & sig & k & ? & ? & ? & ?); exists raw, sig, k;
    (split; [done|]); (split; [done|]); (split; [|done]); by apply (run_trust_ops_spec ops actor k).
Qed.

(** A line that must hold a key. *)
Definition is_key_line (raw : bytes) : bool :=
  negb (bool_decide (trim raw = []) || bool_decide (head (trim raw) = Some 35%Z)).

Lemma parse_key_line_some raw o :
  parse_key_line raw = Ok o →
  if is_key_line raw then ∃ k : bytes, o = Some k ∧ length k = 32 else o = None.
Proof.
  unfold parse_key_line, is_key_line. destruct (_ || _); simpl; [by intros [= <-]|].
  destruct (hex_decode _) as [k|e]; [|done]. case_bool_decide; [|done].
  intros [= <-]. eauto.
Qed.

Lemma parse_key_lines_sound lines (keys : list bytes) :
  parse_key_lines lines = Ok keys →
  length keys = length (filter is_key_line lines) ∧ Forall (λ k : bytes, length k = 32) keys.
Proof.
  revert keys. induction lines as [|raw lines IH]; simpl; intros keys Hk; [by simplify_eq|].
  destruct (parse_key_line raw) as [o|e|] eqn:Hl; [|done..].
  destruct (parse_key_lines lines) as [ks|e|]; [|done..]. simplify_eq.
  destruct (IH ks eq_refl) as [Hlen HF]. apply parse_key_line_some in Hl.
  rewrite filter_cons_bool. destruct (is_key_line raw).
  - destruct Hl as (k & -> & Hk). split; [simpl; by f_equal|by constructor].
  - by subst.
Qed.

Lemma parse_verifying_keys_length raw ks :
  parse_verifying_keys raw = Ok ks → length ks = length raw.
Proof.
  revert ks. induction raw as [|b raw IH]; simpl; intros ks Hk; [by simplify_eq|].
  destruct (vk_from_bytes b); [|done]. destruct (parse_verifying_keys raw); [|done..].
  simplify_eq/=. f_equal. by apply IH.
Qed.

(** A key file is trusted as a whole or not at all.  On success every line
    that is neither blank nor a comment gave one key, and exactly those keys were
    added for that actor; on any error the store is what it was. *)
Theorem key_file_all_or_nothing actor input v :
  match trust_from_bytes actor input v with
  | (v', Ok _) =>
      ∃ ks, length ks = length (filter is_key_line (text_lines input)) ∧
        (Z.of_nat (length input) ≤ MAX_KEY_FILE_BYTES)%Z ∧
        ∀ a k, trusts v' a k ↔ (a = actor ∧ k ∈ ks) ∨ trusts v a k
  | (v', _) => v' = v
  end.
Proof.
  rewrite trust_from_bytes_eq. unfold file_keys, parse_hex_key_lines.
  destruct (Z.ltb_spec MAX_KEY_FILE_BYTES (Z.of_nat (length input))); [done|].
  destruct (utf8_valid input); [|done]. simpl.
  destruct (parse_key_lines (text_lines input)) as [raw|e|] eqn:Hraw; [|done..].
  apply parse_key_lines_sound in Hraw as [Hlen _].
  destruct (parse_verifying_keys raw) as [ks|e|] eqn:Hks; [|done..].
  apply parse_verifying_keys_length in Hks. exists ks. split; [congruence|].
  split; [lia|]. intros a k. apply trusts_trust_all.
Qed.

(** The keys an entry of the directory contributes. *)
Definition entry_contributes (entry : Result DirEntry) (actor : string)
    (k : VerifyingKey) : Prop :=
  ∃ f content ks, entry = Ok f ∧ entry_is_file f = true ∧ entry_stem f = Some actor ∧
    read_capped_key_file f = Ok content ∧ file_keys content = Ok ks ∧ k ∈ ks.

Lemma load_entries_spec entries v v' :
  load_entries entries v = (v', Ok tt) →
  ∀ actor k, trusts v' actor k ↔
    (∃ entry, entry ∈ entries ∧ entry_contributes entry actor k) ∨ trusts v actor k.
Proof.
  revert v. induction entries as [|entry entries IH]; intros v Hload actor k; simpl in Hload.
  { injection Hload as <-. split; [by right|]. intros [(e & He & _)|Hv]; [by apply elem_of_nil in He|done]. }
  apply bind_ok_inv in Hload as (s1 & f & Hf & Hload). unfold lift in Hf. simplify_eq.
  destruct (entry_is_file f) eqn:Hfile; simpl in Hload.
  - apply bind_ok_inv in Hload as (s2 & stem & Hstem & Hload).
    destruct (entry_stem f) as [stem'|] eqn:Hst; [|done]. injection Hstem as <- <-.
    apply bind_ok_inv in Hload as (s3 & content & Hc & Hload). unfold lift in Hc. simplify_eq.
    apply bind_ok_inv in Hload as (s4 & u & Ht & Hload). rewrite trust_from_bytes_eq in Ht.
    destruct (file_keys content) as [ks|e|] eqn:Hks; simplify_eq.
    rewrite (IH _ Hload), trusts_trust_all. split.
    + intros [(e & He & Hc)|[[-> Hk]|Hv]]; [left; exists e; by split; [right|]| |by right].
      left. exists (Ok f). split; [by left|]. unfold entry_contributes. naive_solver.
    + intros [(e & He & Hc)|Hv]; [|by right; right].
      apply elem_of_cons in He as [->|He]; [|by left; eauto].
      destruct Hc as (f' & c' & ks' & [= <-] & _ & Hs' & Hr & Hk' & Hin). simplify_eq.
      right; left. split; congruence.
  - rewrite (IH _ Hload). split.
    { intros [(e & He & Hc)|Hv]; [left; exists e; by split; [right|]|by right]. }
    intros [(e & He & Hc)|Hv]; [|by right]. apply elem_of_cons in He as [->|He]; [|by left; eauto].
    destruct Hc as (f' & ? & ? & [= <-] & Hf' & _). congruence.
Qed.

(** A reload is all or nothing.  When loading the directory fails anywhere
    the live store is untouched; when it succeeds the live store trusts exactly
    the keys listed in the directory's files, and nothing of the old store. *)
Theorem reload_is_atomic dir r :
  match reload_from_dir dir r with
  | (r', Ok _) => ∃ entries, dir = Ok entries ∧ poisoned r' = poisoned r ∧
      ∀ actor k, trusts (inner r') actor k ↔
        ∃ entry, entry ∈ entries ∧ entry_contributes entry actor k
  | (r', _) => r' = r
  end.
Proof.
  unfold reload_from_dir, mbind, M_bind, m_bind, lift. unfold load_trust_dir.
  destruct dir as [entries|e|]; [|done..].
  destruct (load_entries entries verifier_new) as [v [[]|e|]] eqn:Hload; [|done..].
  simpl. exists entries. split; [done|]. split; [done|]. intros actor k.
  rewrite (load_entries_spec _ _ _ Hload). unfold trusts at 1, keys_of. simpl.
  rewrite !lookup_empty. naive_solver.
Qed.
End props.
