(* ===== verification/ControlPlane.v ===== *)
(** * The agent's end of the control channel, and the operator's

    [server/control-plane/src/lib.rs], second half: signed results, the command
    handler and the agent loop; [server/control-server/src/issuer.rs]: the result
    correlator and the operator's client.  The JSON codec of the wire frames
    ([serde_json]) is an interface. *)

From stdpp Require Import base tactics gmap strings list.
From Stdlib Require Import ZArith.
From S2P Require Import Prelude Float32 Action Bridge Control Scheduler Transport Keys.

(** ** Results *)

Module CommandOutcome.
Inductive CommandOutcome := Applied | Rejected.
#[export] Instance CommandOutcome_eq_dec : EqDecision CommandOutcome.
Proof. solve_decision. Defined.
End CommandOutcome.
Abbreviation CommandOutcome := CommandOutcome.CommandOutcome.
Export (hints) CommandOutcome.

Record CommandResult := mkResult {
  res_action_id : string;
  res_outcome : CommandOutcome;
  res_detail : string;
  res_agent : string;
  res_session : string;
  res_seq : Z;
  res_stage : option StageOutcome;
  res_signature : string;
}.

(** The struct a result's signature is computed over. *)
Record UnsignedResult := mkUnsignedResult {
  ur_action_id : string;
  ur_outcome : CommandOutcome;
  ur_detail : string;
  ur_agent : string;
  ur_session : string;
  ur_seq : Z;
  ur_stage : option StageOutcome;
}.

(** [serde_json::to_string] on that struct. *)
Class ResultEncoder := encode_unsigned_result : UnsignedResult → string.

Definition result_payload `{!ResultEncoder} (r : CommandResult) : string :=
  encode_unsigned_result (mkUnsignedResult (res_action_id r) (res_outcome r) (res_detail r)
    (res_agent r) (res_session r) (res_seq r) (res_stage r)).

Inductive ControlFrame :=
  | FCommand (cmd : ControlCommand)
  | FResult (r : CommandResult).

#[export] Instance CommandResult_eq_dec : EqDecision CommandResult.
Proof. solve_decision. Defined.
#[export] Instance ControlFrame_eq_dec : EqDecision ControlFrame.
Proof. solve_decision. Defined.

(** [serde_json::to_vec] and [from_slice] on frames. *)
Class FrameCodec := {
  frame_to_vec : ControlFrame → Result bytes;
  frame_from_slice : bytes → option ControlFrame;
}.

(** A frame that was written reads back; writing a frame does not panic. *)
Class FrameCodecLaws `{FrameCodec} := {
  frame_round : ∀ f b, frame_to_vec f = Ok b → frame_from_slice b = Some f;
  frame_no_panic : ∀ f, frame_to_vec f ≠ Panicked;
}.

(** ** The handler *)

Section handler.
Context {A S Z' C E V T : Type} `{!AuditSink A} `{!SignatureVerifier S} `{!Authorizer Z'}.
Context `{!Clock C} `{!Executor E} `{!Verifier V} `{!Transport T}.
Context `{!PayloadEncoder} `{!ResultEncoder} `{!FrameCodec} `{!Ed25519} `{!Hex}.

Record AgentControlHandler := mkHandler {
  handler_verifier : S;
  handler_authz : Z';
  handler_signer : CommandSigner;
}.

(** The shared tail: echo the command's identity, sign. *)
Definition sign_outcome (h : AgentControlHandler) (action_id session : string) (seq : Z)
    (outcome : CommandOutcome) (detail : string) (stage : option StageOutcome) :
    CommandResult :=
  let unsigned := mkResult action_id outcome detail (signer_actor (handler_signer h))
                    session seq stage "" in
  mkResult action_id outcome detail (signer_actor (handler_signer h)) session seq stage
    (sign_payload (handler_signer h) (result_payload unsigned)).

Definition classify (r : unit + string) : CommandOutcome * string :=
  match r with
  | inl _ => (CommandOutcome.Applied, "applied")
  | inr e => (CommandOutcome.Rejected, e)
  end.

Definition handle (h : AgentControlHandler) (cmd : ControlCommand) :
    M (Bridge A) CommandResult :=
  r ← inspect (dispatch cmd (handler_verifier h) (handler_authz h));
  let '(outcome, detail) := classify r in
  mret (sign_outcome h (cmd_action_id cmd) (cmd_session cmd) (cmd_seq cmd)
          outcome detail None).

Definition handle_fresh (h : AgentControlHandler) (cmd : ControlCommand) :
    M (Bridge A * ReplayGuard) CommandResult :=
  r ← inspect (dispatch_fresh cmd (handler_verifier h) (handler_authz h));
  let '(outcome, detail) := classify r in
  mret (sign_outcome h (cmd_action_id cmd) (cmd_session cmd) (cmd_seq cmd)
          outcome detail None).

Definition execute_fresh (h : AgentControlHandler) (v : V) (cmd : ControlCommand) :
    M (Bridge A * ReplayGuard * E) CommandResult :=
  r ← inspect (dispatch_execution_fresh cmd (handler_verifier h) (handler_authz h) v);
  let '(outcome, detail, stage) :=
    match r with
    | inl stage => (CommandOutcome.Applied, StageOutcome.debug stage, Some stage)
    | inr e => (CommandOutcome.Rejected, e, None)
    end in
  mret (sign_outcome h (cmd_action_id cmd) (cmd_session cmd) (cmd_seq cmd)
          outcome detail stage).

(** Draft, then the dry run that makes the action approval-ready. *)
Definition handle_draft_fresh (h : AgentControlHandler) (x : E) (cmd : ControlCommand) :
    M (Bridge A * ReplayGuard) CommandResult :=
  r ← inspect (dispatch_fresh cmd (handler_verifier h) (handler_authz h);;
               on_fst (dry_run x (cmd_action_id cmd) (cmd_actor cmd)));
  let '(outcome, detail) :=
    match r with
    | inl _ => (CommandOutcome.Applied, "dry-run preview")
    | inr e => (CommandOutcome.Rejected, e)
    end in
  mret (sign_outcome h (cmd_action_id cmd) (cmd_session cmd) (cmd_seq cmd)
          outcome detail None).

(** ** The loop *)

(** [AgentControlLoop] without its fixed parts (the handler and the engine
    verifier), which are arguments of its methods. *)
Record AgentControlLoop := mkLoop {
  loop_guard : ReplayGuard;
  loop_executor : E;
  loop_scheduler : Scheduler;
}.

Definition loop_new (x : E) : AgentControlLoop := mkLoop guard_new x scheduler_new.
Definition loop_open_session (session : string) (from : Z) (l : AgentControlLoop) :
    AgentControlLoop :=
  mkLoop (guard_open_session session from (loop_guard l)) (loop_executor l)
    (loop_scheduler l).
Definition loop_with_session (session : string) (from : Z) (x : E) : AgentControlLoop :=
  loop_open_session session from (loop_new x).

(** The disjoint field borrows of [serve_one]. *)
Definition with_guard {R} (m : M (Bridge A * ReplayGuard) R) :
    M (Bridge A * AgentControlLoop) R :=
  zoom (λ s, (s.1, loop_guard s.2))
    (λ t s, (t.1, mkLoop t.2 (loop_executor s.2) (loop_scheduler s.2))) m.
Definition with_executor {R} (m : M (Bridge A * ReplayGuard * E) R) :
    M (Bridge A * AgentControlLoop) R :=
  zoom (λ s, (s.1, loop_guard s.2, loop_executor s.2))
    (λ t s, (t.1.1, mkLoop t.1.2 t.2 (loop_scheduler s.2))) m.
Definition with_scheduler {R} (m : M (Bridge A * ReplayGuard * Scheduler) R) :
    M (Bridge A * AgentControlLoop) R :=
  zoom (λ s, (s.1, loop_guard s.2, loop_scheduler s.2))
    (λ t s, (t.1.1, mkLoop t.1.2 (loop_executor s.2) t.2)) m.
Definition with_queue {R} (m : M (Bridge A * Scheduler) R) :
    M (Bridge A * AgentControlLoop) R :=
  zoom (λ s, (s.1, loop_scheduler s.2))
    (λ t s, (t.1, mkLoop (loop_guard s.2) (loop_executor s.2) t.2)) m.

(** The command arm of [serve_one]: route on the kind. *)
Definition serve_command (h : AgentControlHandler) (v : V) (clock : C)
    (cmd : ControlCommand) : M (Bridge A * AgentControlLoop) CommandResult :=
  if CommandKind.is_execution (cmd_kind cmd) then
    match cmd_schedule cmd with
    | Some _ =>
        r ← inspect (with_scheduler
              (enqueue cmd (handler_verifier h) (handler_authz h) clock));
        let '(outcome, detail) :=
          match r with
          | inl schedule => (CommandOutcome.Applied, "scheduled " +:+ show_window schedule)
          | inr e => (CommandOutcome.Rejected, e)
          end in
        mret (sign_outcome h (cmd_action_id cmd) (cmd_session cmd) (cmd_seq cmd)
                outcome detail None)
    | None => with_executor (execute_fresh h v cmd)
    end
  else
    match cmd_kind cmd with
    | CommandKind.Draft _ =>
        x ← gets (λ s, loop_executor s.2);
        with_guard (handle_draft_fresh h x cmd)
    | kind =>
        result ← with_guard (handle_fresh h cmd);
        match kind with
        | CommandKind.Abort _ =>
            if bool_decide (res_outcome result = CommandOutcome.Applied)
            then with_queue (cancel (cmd_action_id cmd));; mret result
            else mret result
        | _ => mret result
        end
    end.

(** At most one inbound frame. *)
Definition serve_one (h : AgentControlHandler) (v : V) (clock : C) :
    M (T * (Bridge A * AgentControlLoop)) bool :=
  received ← on_fst recv;
  match received with
  | None => mret false
  | Some input =>
      match frame_from_slice input with
      | None => mret true
      | Some (FCommand cmd) =>
          result ← zoom snd (λ s t, (t.1, s)) (serve_command h v clock cmd);
          out ← lift (frame_to_vec (FResult result));
          on_fst (send out);;
          mret true
      | Some (FResult _) => mret true
      end
  end.

Definition loop_tick (v : V) (clock : C) :
    M (Bridge A * AgentControlLoop) (list (string * StageOutcome)) :=
  zoom (λ s, (s.1, loop_executor s.2, loop_scheduler s.2))
    (λ t s, (t.1.1, mkLoop (loop_guard s.2) t.1.2 t.2)) (tick clock v).

(** ** The operator *)

Record ResultCorrelator := mkCorrelator { outstanding : gset (string * Z) }.

Definition correlator_new : ResultCorrelator := mkCorrelator ∅.

Definition issue (session : string) (seq : Z) (c : ResultCorrelator) : ResultCorrelator :=
  mkCorrelator ({[ (session, seq) ]} ∪ outstanding c).

Definition accept (r : CommandResult) (ver : Ed25519Verifier) (c : ResultCorrelator) :
    ResultCorrelator * bool :=
  let key := (res_session r, res_seq r) in
  if negb (bool_decide (key ∈ outstanding c)) then (c, false)
  else if negb (sig_verify ver (result_payload r) (res_signature r) (res_agent r))
  then (c, false)
  else (mkCorrelator (outstanding c ∖ {[ key ]}), true).

(** [ControlPlaneClient]; its signer and verifier never change. *)
Record ControlPlaneClient := mkClient {
  client_signer : CommandSigner;
  client_corr : ResultCorrelator;
  client_verifier : Ed25519Verifier;
}.

Definition client_new (s : CommandSigner) (ver : Ed25519Verifier) : ControlPlaneClient :=
  mkClient s correlator_new ver.

Definition client_sign (c : ControlPlaneClient) (cmd : ControlCommand) : ControlCommand :=
  sign (client_signer c) cmd.

Definition set_corr (corr : ResultCorrelator) (c : ControlPlaneClient) : ControlPlaneClient :=
  mkClient (client_signer c) corr (client_verifier c).

(** Registered as outstanding before it is sent. *)
Definition send_command (cmd : ControlCommand) : M (T * ControlPlaneClient) unit :=
  modify (λ s, (s.1, set_corr (issue (cmd_session cmd) (cmd_seq cmd) (client_corr s.2)) s.2));;
  out ← lift (frame_to_vec (FCommand cmd));
  on_fst (send out).

(** Accept a result through the correlator. *)
Definition client_accept (r : CommandResult) (c : ControlPlaneClient) :
    ControlPlaneClient * Result (option CommandResult) :=
  let res := accept r (client_verifier c) (client_corr c) in
  (set_corr res.1 c, Ok (if res.2 then Some r else None)).

Definition await_result : M (T * ControlPlaneClient) (option CommandResult) :=
  received ← on_fst recv;
  match received with
  | None => mret None
  | Some input =>
      match frame_from_slice input with
      | Some (FResult r) => zoom snd (λ c t, (t.1, c)) (client_accept r)
      | _ => mret None
      end
  end.

Definition establish_session (peer : string) (nonce : Z) : string :=
  "sess-" +:+ peer +:+ "-" +:+ show_Z nonce.
End handler.
Arguments AgentControlHandler S Z' {_}.
Arguments AgentControlLoop E : clear implicits.
