(* ===== verification/ControlPlaneProps.v ===== *)
(** * Properties of the control channel

    The agent loop refines the gate-and-scheduler histories, its answers are
    signed echoes, and a request makes the round trip over the link. *)

From stdpp Require Import base tactics gmap strings list.
From Stdlib Require Import ZArith.
From S2P Require Import Prelude Float32 Action Bridge BridgeSpec BridgeFacts BridgeProps.
From S2P Require Import Control ControlProps Scheduler SchedulerProps Transport.
From S2P Require Import Keys KeysProps ControlPlane.

Lemma inspect_fst {S R} (m : M S R) s : (inspect m s).1 = (m s).1.
Proof. unfold inspect. by destruct (m s) as [s' [a|e|]]. Qed.

Lemma zoom_run {S T R} (get : S → T) put (m : M T R) s :
  zoom get put m s = (put (m (get s)).1 s, (m (get s)).2).
Proof. unfold zoom. by destruct (m (get s)). Qed.

(** A computation that inspects another and then returns. *)
Lemma inspect_ret_run {S R B} (m : M S R) (f : R + string → B) s :
  (m s).2 ≠ Panicked →
  ∃ r, (inspect m ≫= λ r, mret (f r)) s = ((m s).1, Ok (f r)) ∧
    (r = match (m s).2 with Ok a => inl a | Err e => inr e | Panicked => inr "" end).
Proof.
  intros Hp. unfold inspect, mbind, M_bind, m_bind.
  destruct (m s) as [s' [a|e|]]; simpl in *; [by eexists|by eexists|done].
Qed.

Section props.
Context {A S Z' C E V T : Type} `{!AuditSink A} `{!AuditLog A} `{!SignatureVerifier S}.
Context `{!Authorizer Z'} `{!Clock C} `{!Executor E} `{!Verifier V} `{!Transport T}.
Context `{!PayloadEncoder} `{!ResultEncoder} `{!FrameCodec} `{!Ed25519} `{!Hex}.
Context (h : AgentControlHandler S Z') (v : V).
Implicit Types (b : Bridge A) (l : AgentControlLoop E) (cmd : ControlCommand).

Definition world_of (b : Bridge A) (l : AgentControlLoop E) : SchedWorld A E :=
  mkSchedWorld b (loop_guard l) (loop_executor l) (loop_scheduler l).

Definition run_steps (steps : list (SchedStep V)) (w : SchedWorld A E) : SchedWorld A E :=
  foldl (λ w s, sched_step (handler_verifier h) (handler_authz h) s w) w steps.

(** ** No call of the gate panics *)

Lemma deliver_no_panic (d : Delivery V) b g (x : E) :
  (deliver (handler_verifier h) (handler_authz h) d (b, g, x)).2 ≠ Panicked.
Proof.
  destruct (deliver_effect (handler_verifier h) (handler_authz h) d b g x)
    as [???? ? ? He|????? ? ? He|????? ? ? He|????? ? ? ? ? ? Hr|??????? ? ? ? ? ? Hr|???? ? Hr];
    try (by intros ->);
    match goal with Hr : run_op ?op (b, ?x) = _ |- _ =>
      pose proof (run_op_no_panic op b x) as Hnp; by rewrite Hr in Hnp end.
Qed.

Lemma dispatch_fresh_no_panic cmd b g :
  (dispatch_fresh cmd (handler_verifier h) (handler_authz h) (b, g)).2 ≠ Panicked.
Proof.
  destruct (dispatch_fresh_cases cmd (handler_verifier h) (handler_authz h) b g)
    as [(_ & _ & _ & He)|[(_ & _ & _ & _ & He)|(_ & _ & Hres)]].
  - by intros Hp; rewrite Hp in He.
  - by intros Hp; rewrite Hp in He.
  - rewrite Hres. simpl. unfold dispatch, authenticate_and_authorize, check_signature,
      check_authorized.
    destruct (signed _ _); [|done]. destruct (authorized _ _ _); [|done].
    simpl. rewrite !mret_bind. destruct (cmd_kind cmd) as [action| | | | | | |];
      try apply guarded_no_panic; try done.
    case_bool_decide; [|done]. simpl. unfold mbind, M_bind, m_bind, gets. simpl.
    destruct (state b _); [done|]. rewrite draft_eq. by case_match.
Qed.

Lemma ignore_panic_inv {R U} (m : M R U) s : (ignore m s).2 ≠ Panicked → (m s).2 ≠ Panicked.
Proof. unfold ignore, mbind, M_bind, m_bind. by destruct (m s) as [s' [a|e|]]. Qed.

Lemma enqueue_no_panic (clock : C) cmd b g sch :
  (enqueue (A:=A) cmd (handler_verifier h) (handler_authz h) clock (b, g, sch)).2 ≠ Panicked.
Proof.
  destruct (enqueue_cases cmd (handler_verifier h) (handler_authz h) clock b g sch)
    as [(He & _)|(w & Hres & _)]; [by intros Hp; rewrite Hp in He|].
  by rewrite Hres.
Qed.

(** ** What a command asks for, read off the command and the lifecycle *)

(** Authentic, fresh for its session, and allowed to its actor. *)
Definition passes_gates (cmd : ControlCommand) (g : ReplayGuard) : bool :=
  signed (handler_verifier h) cmd && fresh cmd g && permitted (handler_authz h) cmd.

(** The states a lifecycle command is taken from. *)
Definition taken_from (k : CommandKind) : list ActionState :=
  match k with
  | CommandKind.Submit => [ActionState.DryRun]
  | CommandKind.Approve | CommandKind.Reject _ => [ActionState.PendingApproval]
  | CommandKind.Abort _ =>
      [ActionState.Approved; ActionState.Canary; ActionState.CanaryVerify;
       ActionState.Rollout; ActionState.Verify]
  | _ => []
  end.

(** The lifecycle takes the command: a draft of a new, explicitly targeted action
    under the command's own id; otherwise an action in a state it is taken from. *)
Definition takes_effect (cmd : ControlCommand) (b : Bridge A) : bool :=
  match cmd_kind cmd with
  | CommandKind.Draft action =>
      bool_decide (action_id action = cmd_action_id cmd) &&
      bool_decide (state b (cmd_action_id cmd) = None) && is_scoped (action_targets action)
  | k =>
      match state b (cmd_action_id cmd) with
      | Some s => bool_decide (s ∈ taken_from k)
      | None => false
      end
  end.

Definition accepted (cmd : ControlCommand) (b : Bridge A) (g : ReplayGuard) : bool :=
  passes_gates cmd g && takes_effect cmd b.

(** The steps of a history that serving [cmd] must be: an execution is queued or
    delivered by whether it carries a window; any other command is delivered to the
    lifecycle, an accepted draft is dry-run, an accepted kill empties the queue of
    its action. *)
Definition required_steps (t : Z) (cmd : ControlCommand) (b : Bridge A) (g : ReplayGuard) :
    list (SchedStep V) :=
  if CommandKind.is_execution (cmd_kind cmd) then
    match cmd_schedule cmd with
    | Some _ => [SEnqueue cmd t]
    | None => [SDeliver (ToExecution cmd v)]
    end
  else
    SDeliver (ToLifecycle cmd) ::
    if accepted cmd b g then
      match cmd_kind cmd with
      | CommandKind.Draft _ => [SDeliver (LocalDryRun (cmd_action_id cmd) (cmd_actor cmd))]
      | CommandKind.Abort _ => [SCancel (cmd_action_id cmd)]
      | _ => []
      end
    else [].

(** The verdict and the stage the answer must report. *)
Definition due_answer (t : Z) (cmd : ControlCommand) (b : Bridge A) (g : ReplayGuard) (x : E) :
    CommandOutcome * option StageOutcome :=
  if negb (passes_gates cmd g) then (CommandOutcome.Rejected, None)
  else if CommandKind.is_execution (cmd_kind cmd) then
    match cmd_schedule cmd with
    | Some w => (if (t <=? not_after w)%Z then CommandOutcome.Applied else CommandOutcome.Rejected, None)
    | None =>
        match (run_stage (cmd_kind cmd) v (cmd_action_id cmd) (cmd_actor cmd) (b, x)).2 with
        | Ok st => (CommandOutcome.Applied, Some st)
        | _ => (CommandOutcome.Rejected, None)
        end
    end
  else (if takes_effect cmd b then CommandOutcome.Applied else CommandOutcome.Rejected, None).

(** The answer echoes [cmd]'s identity, carries this verdict, and is signed. *)
Definition answers (cmd : ControlCommand) (verdict : CommandOutcome * option StageOutcome)
    (r : CommandResult) : Prop :=
  ∃ detail, r = sign_outcome h (cmd_action_id cmd) (cmd_session cmd) (cmd_seq cmd)
    verdict.1 detail verdict.2.

(** ** One command, on each route *)

(** The lifecycle says yes exactly to what it takes. *)
Lemma dispatch_accepted cmd b :
  signed (handler_verifier h) cmd = true → permitted (handler_authz h) cmd = true →
  is_ok (dispatch cmd (handler_verifier h) (handler_authz h) b).2 = takes_effect cmd b.
Proof.
  intros Hs Hp. unfold dispatch, authenticate_and_authorize, check_signature, check_authorized.
  fold (permitted (handler_authz h) cmd). rewrite Hs, Hp. simpl. rewrite !mret_bind.
  unfold takes_effect, submit_for_approval, approve, reject, abort.
  destruct (cmd_kind cmd) as [action| | |re|re| | |]; rewrite ?guarded_eq;
    try (destruct (state b (cmd_action_id cmd)) as [s|]; [|done]; cbn [taken_from];
         (case_decide; [by rewrite bool_decide_true by done|by rewrite bool_decide_false by done]));
    try by destruct (state b (cmd_action_id cmd)).
  case_bool_decide as Hid; [|done]. cbn [negb]. erewrite bind_ok by reflexivity. rewrite Hid.
  destruct (state b (cmd_action_id cmd)); [done|]. rewrite draft_eq. by destruct (is_scoped _).
Qed.

Lemma dispatch_fresh_accepted cmd b g :
  is_ok (dispatch_fresh cmd (handler_verifier h) (handler_authz h) (b, g)).2 = accepted cmd b g.
Proof.
  unfold accepted, passes_gates.
  destruct (dispatch_fresh_cases cmd (handler_verifier h) (handler_authz h) b g)
    as [(-> & _ & _ & He)|[(-> & -> & _ & _ & He)|(Hs & -> & Hres)]];
    [by destruct (dispatch_fresh _ _ _ _).2..|].
  rewrite Hres, Hs. cbn [snd andb]. destruct (permitted (handler_authz h) cmd) eqn:Hp.
  - by apply dispatch_accepted.
  - unfold dispatch, authenticate_and_authorize, check_signature, check_authorized.
    fold (permitted (handler_authz h) cmd). by rewrite Hs, Hp.
Qed.

(** The agent answers [cmd] as due and moves along [steps]. *)
Definition serves (t : Z) (cmd : ControlCommand) (steps : list (SchedStep V)) b l
    (res : (Bridge A * AgentControlLoop E) * Result CommandResult) : Prop :=
  ∃ b' l' r, res = ((b', l'), Ok r) ∧
    answers cmd (due_answer t cmd b (loop_guard l) (loop_executor l)) r ∧
    world_of b' l' = run_steps steps (world_of b l).

Lemma enqueue_verdict (clock : C) cmd b g sch w :
  CommandKind.is_execution (cmd_kind cmd) = true → cmd_schedule cmd = Some w →
  is_ok (enqueue (A:=A) cmd (handler_verifier h) (handler_authz h) clock (b, g, sch)).2 =
    passes_gates cmd g && (now clock <=? not_after w)%Z.
Proof.
  intros Hex Hw. pose proof (gate_execution_outcome cmd (handler_verifier h) (handler_authz h) b g) as Hg.
  unfold enqueue, passes_gates. destruct (gate_execution cmd _ _ (b, g)) as [[b1 g1] r] eqn:Hgate.
  pose proof (on_fst_run _ _ sch _ _ Hgate) as Hrun. simpl in Hg.
  destruct Hg as [b' e Hs _|b' e Hs Hf _|b' e Hs Hf Hp _|e Hs Hf Hp Hk|Hs Hf Hp Hk];
    [erewrite bind_err by done; rewrite ?Hs, ?Hf, ?Hp..|by rewrite Hex in Hk|]; try done.
  erewrite bind_ok by done. rewrite Hw, Hs, Hf, Hp. simpl.
  rewrite Z.leb_antisym. by destruct (not_after w <? now clock)%Z.
Qed.

Lemma serve_scheduled clock cmd b l w :
  CommandKind.is_execution (cmd_kind cmd) = true → cmd_schedule cmd = Some w →
  serves (now clock) cmd [SEnqueue cmd (now clock)] b l (serve_command h v clock cmd (b, l)).
Proof.
  intros Hex Hw. unfold serve_command. rewrite Hex, Hw.
  set (m := with_scheduler (enqueue cmd (handler_verifier h) (handler_authz h) clock)).
  pose proof (enqueue_no_panic clock cmd b (loop_guard l) (loop_scheduler l)) as Hnp.
  pose proof (enqueue_verdict clock cmd b (loop_guard l) (loop_scheduler l) w Hex Hw) as Hv.
  unfold inspect, mbind, M_bind, m_bind.
  assert (m (b, l) = zoom _ _ _ (b, l)) as Hm by reflexivity. rewrite zoom_run in Hm.
  unfold serves, run_steps, world_of, due_answer.
  cbn [foldl sched_step sw_bridge sw_guard sw_sched sw_exec].
  change (enqueue cmd (handler_verifier h) (handler_authz h) {| clock_cell := now clock |})
    with (enqueue (A:=A) cmd (handler_verifier h) (handler_authz h) clock).
  rewrite Hm, Hex, Hw. simpl. destruct (enqueue _ _ _ _ _) as [[[b1 g1] sch1] [wi|e|]]; simpl in *;
    [..|done]; (eexists _, _, _; split; [done|]); split; try done; eexists;
    destruct (passes_gates cmd (loop_guard l)), (now clock <=? not_after w)%Z; done.
Qed.

(** An immediate execution reports the stage it ran. *)
Lemma execution_verdict cmd b g x :
  CommandKind.is_execution (cmd_kind cmd) = true → cmd_schedule cmd = None →
  (dispatch_execution_fresh cmd (handler_verifier h) (handler_authz h) v (b, g, x)).2 =
    (run_stage (cmd_kind cmd) v (cmd_action_id cmd) (cmd_actor cmd) (b, x)).2 ∧
    passes_gates cmd g = true ∨
  is_err (dispatch_execution_fresh cmd (handler_verifier h) (handler_authz h) v (b, g, x)).2 = true ∧
    passes_gates cmd g = false.
Proof.
  intros Hex Hw. pose proof (gate_execution_outcome cmd (handler_verifier h) (handler_authz h) b g) as Hg.
  unfold dispatch_execution_fresh, passes_gates.
  destruct (gate_execution cmd _ _ (b, g)) as [[b1 g1] r] eqn:Hgate.
  pose proof (on_fst_run _ _ x _ _ Hgate) as Hrun. simpl in Hg.
  destruct Hg as [b' e Hs _|b' e Hs Hf _|b' e Hs Hf Hp _|e Hs Hf Hp Hk|Hs Hf Hp Hk];
    [right; erewrite bind_err by done; rewrite ?Hs, ?Hf, ?Hp..|by rewrite Hex in Hk|]; try done.
  left. erewrite bind_ok by done. rewrite Hw, Hs, Hf, Hp. unfold on_stage. cbn [fst snd].
  by destruct (run_stage _ _ _ _ (b, x)) as [[b2 x2] o].
Qed.

Lemma serve_immediate t clock cmd b l :
  CommandKind.is_execution (cmd_kind cmd) = true → cmd_schedule cmd = None →
  serves t cmd [SDeliver (ToExecution cmd v)] b l (serve_command h v clock cmd (b, l)).
Proof.
  intros Hex Hw. unfold serve_command. rewrite Hex, Hw.
  unfold with_executor. rewrite zoom_run. unfold execute_fresh. simpl.
  pose proof (deliver_no_panic (ToExecution cmd v) b (loop_guard l) (loop_executor l)) as Hnp.
  apply ignore_panic_inv in Hnp.
  pose proof (execution_verdict cmd b (loop_guard l) (loop_executor l) Hex Hw) as Hv.
  unfold serves, run_steps, world_of, due_answer.
  cbn [foldl sched_step sw_bridge sw_guard sw_sched sw_exec].
  unfold deliver. rewrite ignore_fst, Hex, Hw. unfold inspect, mbind, M_bind, m_bind.
  destruct (dispatch_execution_fresh _ _ _ _ _) as [[[b1 g1] x1] [st|e|]]; simpl in *;
    [..|done]; (eexists _, _, _; split; [done|]); split; try done; eexists;
    destruct Hv as [[<- ->]|[? ->]]; done.
Qed.

(** A draft that was just accepted can be dry-run. *)
Lemma drafted_dry_runs cmd action b g b1 g1 x :
  cmd_kind cmd = CommandKind.Draft action →
  dispatch_fresh cmd (handler_verifier h) (handler_authz h) (b, g) = ((b1, g1), Ok tt) →
  is_ok (dry_run (E := E) x (cmd_action_id cmd) (cmd_actor cmd) b1).2 = true.
Proof.
  intros Hk Hd. pose proof (dispatch_fresh_accepted cmd b g) as Hacc. rewrite Hd in Hacc.
  symmetry in Hacc. apply andb_true_iff in Hacc as [[[Hs Hf]%andb_true_iff Hp]%andb_true_iff Ht].
  unfold takes_effect in Ht. rewrite Hk in Ht.
  apply andb_true_iff in Ht as [[Hid%bool_decide_eq_true Hn%bool_decide_eq_true]%andb_true_iff Hsc].
  destruct (dispatch_fresh_cases cmd (handler_verifier h) (handler_authz h) b g)
    as [(? & _)|[(_ & ? & _)|(_ & _ & Hres)]]; [congruence..|].
  rewrite Hd in Hres. injection Hres as Hb1 _ _. subst b1.
  unfold dispatch, authenticate_and_authorize, check_signature, check_authorized.
  fold (permitted (handler_authz h) cmd). rewrite Hs, Hp, Hk. simpl. rewrite !mret_bind.
  rewrite bool_decide_true by done. cbn [negb]. erewrite bind_ok by reflexivity.
  rewrite Hid, Hn, draft_eq, Hsc, dry_run_eq. simpl. rewrite Hid, lookup_insert_eq. done.
Qed.

Lemma serve_draft t clock cmd b l action :
  cmd_kind cmd = CommandKind.Draft action →
  serves t cmd (SDeliver (ToLifecycle cmd) ::
      if accepted cmd b (loop_guard l)
      then [SDeliver (LocalDryRun (cmd_action_id cmd) (cmd_actor cmd))] else [])
    b l (serve_command h v clock cmd (b, l)).
Proof.
  intros Hk. unfold serve_command. rewrite Hk. simpl.
  erewrite bind_ok by reflexivity. unfold with_guard. rewrite zoom_run.
  unfold handle_draft_fresh. simpl.
  pose proof (dispatch_fresh_no_panic cmd b (loop_guard l)) as Hnp.
  pose proof (dispatch_fresh_accepted cmd b (loop_guard l)) as Hacc.
  unfold inspect, mbind, M_bind, m_bind, serves, due_answer. rewrite Hk. cbn [CommandKind.is_execution].
  unfold accepted in *.
  destruct (dispatch_fresh _ _ _ _) as [[b1 g1] [[]|e|]] eqn:Hd; simpl in *; [| |done]; rewrite <-Hacc.
  - unfold run_steps, world_of.
    cbn [foldl sched_step sw_bridge sw_guard sw_sched sw_exec]. unfold deliver, on_fst. simpl.
    rewrite Hd. simpl. pose proof (drafted_dry_runs cmd action b _ b1 g1 (loop_executor l) Hk Hd) as Hdr.
    unfold ignore, mbind, M_bind, m_bind.
    destruct (dry_run (loop_executor l) _ _ b1) as [b2 [pr|e|]]; simpl in *; [|done..].
    (eexists _, _, _; split; [done|]); split; [|done]. eexists.
    by destruct (passes_gates cmd (loop_guard l)), (takes_effect cmd b).
  - unfold run_steps, world_of.
    cbn [foldl sched_step sw_bridge sw_guard sw_sched sw_exec]. unfold deliver, on_fst. simpl.
    rewrite Hd. simpl. (eexists _, _, _; split; [done|]); split; [|done]. eexists.
    by destruct (passes_gates cmd (loop_guard l)), (takes_effect cmd b).
Qed.

(** The plain lifecycle route, before a possible cancellation. *)
Lemma handle_fresh_run t cmd b l :
  CommandKind.is_execution (cmd_kind cmd) = false →
  ∃ b1 l1 r,
    with_guard (handle_fresh h cmd) (b, l) = ((b1, l1), Ok r) ∧
    answers cmd (due_answer t cmd b (loop_guard l) (loop_executor l)) r ∧
    bool_decide (res_outcome r = CommandOutcome.Applied) = accepted cmd b (loop_guard l) ∧
    world_of b1 l1 = run_steps [SDeliver (ToLifecycle cmd)] (world_of b l).
Proof.
  intros Hex. unfold with_guard. rewrite zoom_run. unfold handle_fresh. simpl.
  pose proof (dispatch_fresh_no_panic cmd b (loop_guard l)) as Hnp.
  pose proof (dispatch_fresh_accepted cmd b (loop_guard l)) as Hacc.
  unfold inspect, mbind, M_bind, m_bind, due_answer, accepted in *. rewrite Hex.
  unfold run_steps, world_of. cbn [foldl sched_step sw_bridge sw_guard sw_sched sw_exec].
  unfold deliver, on_fst. simpl.
  destruct (dispatch_fresh _ _ _ _) as [[b1 g1] [[]|e|]]; simpl in *; [| |done];
    (eexists _, _, _; split; [done|]); rewrite <-Hacc; split_and!; try done; eexists;
    by destruct (passes_gates cmd (loop_guard l)), (takes_effect cmd b).
Qed.

Lemma cancel_no_panic id b sch : (cancel (A:=A) id (b, sch)).2 = Ok tt.
Proof.
  unfold cancel. erewrite bind_ok by reflexivity. simpl.
  destruct (audit_cancelled_run (filter (λ p, cmd_action_id (pend_cmd p) = id) (pending sch)) b)
    as (b' & Hb' & _). by go_fst Hb'.
Qed.

Lemma serve_command_run clock cmd b l :
  serves (now clock) cmd (required_steps (now clock) cmd b (loop_guard l)) b l
    (serve_command h v clock cmd (b, l)).
Proof.
  unfold required_steps. destruct (CommandKind.is_execution (cmd_kind cmd)) eqn:Hex.
  { destruct (cmd_schedule cmd) as [w|] eqn:Hw; [by eapply serve_scheduled|by apply serve_immediate]. }
  destruct (cmd_kind cmd) as [action| | |re|re| | |] eqn:Hk; try done.
  { by eapply serve_draft. }
  all: assert (CommandKind.is_execution (cmd_kind cmd) = false) as Hne by (by rewrite Hk).
  all: destruct (handle_fresh_run (now clock) cmd b l Hne) as (b1 & l1 & r & Hrun & Hans & Hout & Hst).
  all: unfold serve_command; rewrite Hk; cbn [CommandKind.is_execution]; erewrite bind_ok by exact Hrun.
  all: try (destruct (accepted _ _ _); by exists b1, l1, r).
  rewrite Hout. destruct (accepted cmd b (loop_guard l)); [|by exists b1, l1, r].
  pose proof (cancel_no_panic (cmd_action_id cmd) b1 (loop_scheduler l1)) as Hc.
  unfold with_queue, mbind, M_bind, m_bind. rewrite zoom_run. simpl.
  unfold serves, run_steps in *. cbn [foldl] in *. rewrite <-Hst. cbn [sched_step]. unfold world_of.
  cbn [sw_bridge sw_sched sw_guard sw_exec].
  destruct (cancel (cmd_action_id cmd) (b1, loop_scheduler l1)) as [[b2 sch2] o].
  simpl in *. subst o. simpl. by eexists _, _, _.
Qed.

(** ** The theorems *)

(** C4: the agent loop refines the gate-and-scheduler histories.  Serving any
    command never panics or fails.  Bridge, guard, executor and queue move by
    exactly the steps the command requires: an execution with a window is
    enqueued, one without is delivered to its stage, anything else is delivered to
    the lifecycle; a draft that passes the gates and that the lifecycle takes is
    dry-run as well, and a kill that does so cancels the queued commands of its
    action.  The signed answer echoes the command, says Applied exactly when the
    gates pass and the queue, the stage or the lifecycle took the command, and
    names the stage outcome of an immediate execution. *)
Theorem agent_loop_refines_history clock cmd b l :
  ∃ b' l' r, serve_command h v clock cmd (b, l) = ((b', l'), Ok r) ∧
    answers cmd (due_answer (now clock) cmd b (loop_guard l) (loop_executor l)) r ∧
    world_of b' l' =
      run_steps (required_steps (now clock) cmd b (loop_guard l)) (world_of b l).
Proof. apply serve_command_run. Qed.

(** Bytes that are not a command are inert.  A frame that does not decode,
    or a result sent the wrong way, is consumed with no change to the bridge, the
    guard, the executor or the queue, and nothing is sent back. *)
Theorem hostile_frame_is_inert clock (t t' : T) input b l :
  recv t = (t', Ok (Some input)) →
  (∀ cmd, frame_from_slice input ≠ Some (FCommand cmd)) →
  serve_one h v clock (t, (b, l)) = ((t', (b, l)), Ok true).
Proof.
  intros Hr Hf. unfold serve_one. go_fst Hr.
  destruct (frame_from_slice input) as [[cmd|r]|]; [by destruct (Hf cmd)|done|done].
Qed.

Context `{!Ed25519Laws} `{!HexLaws}.

Lemma sign_payload_verifies (ver : Ed25519Verifier) (s : CommandSigner) p :
  store_ok ver → trusts ver (signer_actor s) (verifying_key s) →
  sig_verify ver p (sign_payload s p) (signer_actor s) = true.
Proof.
  intros Hok Ht. apply verify_trusted; [done..|]. unfold sign_payload.
  eexists _, _, (verifying_key s). rewrite hex_round_trip, sig_from_to_bytes by apply sig_to_bytes_bytes.
  split; [done|]. split; [done|]. split; [done|]. apply sign_verifies.
Qed.

Lemma answers_verify (ver : Ed25519Verifier) cmd vd r :
  answers cmd vd r → store_ok ver →
  trusts ver (signer_actor (handler_signer h)) (verifying_key (handler_signer h)) →
  sig_verify ver (result_payload r) (res_signature r) (res_agent r) = true.
Proof.
  intros (d & ->) Hok Ht. simpl. unfold result_payload. simpl.
  by apply sign_payload_verifies.
Qed.
End props.

(** ** The correlator *)

Section correlator.
Context `{!ResultEncoder} `{!Ed25519} `{!Hex}.
Implicit Types (c : ResultCorrelator) (r : CommandResult) (ver : Ed25519Verifier).

Inductive CorrOp :=
  | CIssue (session : string) (seq : Z)
  | CAccept (r : CommandResult) (ver : Ed25519Verifier).

Definition run_corr (c : ResultCorrelator) (op : CorrOp) : ResultCorrelator :=
  match op with
  | CIssue session seq => issue session seq c
  | CAccept r ver => (accept r ver c).1
  end.

Lemma accept_cases r ver c :
  let key := (res_session r, res_seq r) in
  (accept r ver c = (mkCorrelator (outstanding c ∖ {[ key ]}), true) ∧ key ∈ outstanding c ∧
     sig_verify ver (result_payload r) (res_signature r) (res_agent r) = true) ∨
  (accept r ver c = (c, false) ∧ (key ∉ outstanding c ∨
     sig_verify ver (result_payload r) (res_signature r) (res_agent r) = false)).
Proof.
  unfold accept. simpl. case_bool_decide; simpl; [|by right; auto].
  destruct (sig_verify _ _ _ _); simpl; [left|right]; auto.
Qed.

Definition key_of (r : CommandResult) : string * Z := (res_session r, res_seq r).
Definition verifies (ver : Ed25519Verifier) (r : CommandResult) : bool :=
  sig_verify ver (result_payload r) (res_signature r) (res_agent r).

(** The request of [key] was issued, and no result that verifies came for it since. *)
Definition waiting (key : string * Z) (ops : list CorrOp) : Prop :=
  ∃ before since, ops = before ++ CIssue key.1 key.2 :: since ∧
    ∀ r ver, CAccept r ver ∈ since → key_of r = key → verifies ver r = false.

Definition issue_of (key : string * Z) (op : CorrOp) : bool :=
  match op with CIssue s n => bool_decide ((s, n) = key) | CAccept _ _ => false end.
Definition issues (key : string * Z) (ops : list CorrOp) : nat :=
  length (filter (λ op, issue_of key op) ops).

(** The results for [key] that are accepted along a history. *)
Fixpoint acceptances (key : string * Z) (c : ResultCorrelator) (ops : list CorrOp) : nat :=
  match ops with
  | [] => 0
  | op :: ops =>
      match op with
      | CAccept r ver => if bool_decide (key_of r = key) && (accept r ver c).2 then 1 else 0
      | CIssue _ _ => 0
      end + acceptances key (run_corr c op) ops
  end.

Lemma waiting_issue key ops s n :
  waiting key (ops ++ [CIssue s n]) ↔ (s, n) = key ∨ waiting key ops.
Proof.
  split.
  - intros (l1 & l2 & Heq & Hl2). destruct l2 as [|op l2 _] using rev_ind.
    + apply app_inj_tail in Heq as [_ [= -> ->]]. left. by destruct key.
    + rewrite app_comm_cons, app_assoc in Heq. apply app_inj_tail in Heq as [-> <-].
      right. exists l1, l2. split; [done|]. intros r ver Hin. apply Hl2. set_solver.
  - intros [<-|(l1 & l2 & -> & Hl2)].
    + exists ops, []. split; [done|]. by intros r ver ?%not_elem_of_nil.
    + exists l1, (l2 ++ [CIssue s n]). split; [by rewrite <-app_assoc|].
      intros r ver Hin. apply Hl2. set_solver.
Qed.

Lemma waiting_accept key ops r ver :
  waiting key (ops ++ [CAccept r ver]) ↔
  waiting key ops ∧ (key_of r = key → verifies ver r = false).
Proof.
  split.
  - intros (l1 & l2 & Heq & Hl2). destruct l2 as [|op l2 _] using rev_ind.
    { by apply app_inj_tail in Heq as [_ [=]]. }
    rewrite app_comm_cons, app_assoc in Heq. apply app_inj_tail in Heq as [-> <-].
    split; [|apply Hl2; set_solver]. exists l1, l2. split; [done|].
    intros r' ver' Hin. apply Hl2. set_solver.
  - intros [(l1 & l2 & -> & Hl2) Hr]. exists l1, (l2 ++ [CAccept r ver]).
    split; [by rewrite <-app_assoc|]. intros r' ver' [Hin|Hin]%elem_of_app; [by apply Hl2|].
    by apply list_elem_of_singleton in Hin as [= -> ->].
Qed.

(** Outstanding is exactly waiting. *)
Lemma outstanding_waiting key ops :
  key ∈ outstanding (foldl run_corr correlator_new ops) ↔ waiting key ops.
Proof.
  induction ops as [|op ops IH] using rev_ind.
  { simpl. split; [set_solver|]. intros (l1 & l2 & Heq & _). by destruct l1. }
  rewrite foldl_snoc. set (c := foldl _ _ _) in *. destruct op as [s n|r ver]; simpl.
  - rewrite waiting_issue, <-IH. set_solver.
  - rewrite waiting_accept, <-IH. unfold verifies, key_of.
    destruct (accept_cases r ver c) as [(-> & Hin & Hv)|(-> & Hno)]; simpl.
    + rewrite Hv. set_solver.
    + split; [|by intros [? _]]. intros Hk. split; [done|]. intros <-. by destruct Hno.
Qed.

Lemma acceptances_bounded key ops c :
  acceptances key c ops ≤ issues key ops + (if decide (key ∈ outstanding c) then 1 else 0).
Proof.
  revert c. induction ops as [|op ops IH]; intros c; [simpl; lia|].
  cbn [acceptances]. specialize (IH (run_corr c op)). unfold issues in *.
  rewrite filter_cons_bool. destruct op as [s n|r ver]; cbn [run_corr issue_of] in IH |- *.
  - destruct (bool_decide_reflect ((s, n) = key)); cbn [length]; repeat case_decide; simpl in *;
      try lia; set_solver.
  - destruct (accept_cases r ver c) as [(Heq & Hin & _)|(Heq & _)]; rewrite Heq in IH |- *;
      cbn [fst snd] in *; [|rewrite andb_false_r; lia].
    case_bool_decide as Hk; cbn [andb]; [|repeat case_decide; simpl in *; try lia; set_solver].
    unfold key_of in Hk. rewrite Hk in *. rewrite (decide_True (P := key ∈ outstanding c)) by done.
    rewrite decide_False in IH by (simpl; set_solver). lia.
Qed.

(** C27: a result is accepted once per request at most.  After any history of
    requests issued and results received, forged and repeated ones included, a
    result is accepted exactly when its request was issued, no verifying result
    came for it since, and its own signature verifies under the agent's key; a
    refused one changes nothing, so the genuine one can still come.  So a request
    that was never issued is never answered, and one issued [n] times has at most
    [n] accepted results along the history. *)
Theorem result_accepted_at_most_once ops r ver :
  let c := foldl run_corr correlator_new ops in
  ((accept r ver c).2 = true ↔ waiting (key_of r) ops ∧ verifies ver r = true) ∧
  ((accept r ver c).2 = false → (accept r ver c).1 = c) ∧
  ∀ key, acceptances key correlator_new ops ≤ issues key ops.
Proof.
  intros c. split_and!.
  - rewrite <-outstanding_waiting. unfold key_of, verifies.
    destruct (accept_cases r ver c) as [(-> & Hin & Hv)|(-> & Hno)]; [done|].
    split; [done|]. intros [Hin Hv]. destruct Hno as [?|Hf]; [done|congruence].
  - by destruct (accept_cases r ver c) as [(-> & _)|(-> & _)].
  - intros key. pose proof (acceptances_bounded key ops correlator_new) as Hb.
    rewrite decide_False in Hb by (simpl; set_solver). lia.
Qed.
End correlator.

(** ** A request and its answer over the in-memory link *)

Section round_trip.
Context {A S Z' C E V : Type} `{!AuditSink A} `{!AuditLog A} `{!SignatureVerifier S}.
Context `{!Authorizer Z'} `{!Clock C} `{!Executor E} `{!Verifier V}.
Context `{!PayloadEncoder} `{!ResultEncoder} `{!FrameCodec} `{!Ed25519} `{!Hex}.
Context `{!FrameCodecLaws} `{!Ed25519Laws} `{!HexLaws}.
Context (h : AgentControlHandler S Z') (v : V) (clock : C).
Implicit Types (d : Duplex) (c : ControlPlaneClient) (b : Bridge A) (l : AgentControlLoop E).

Definition idle (d : Duplex) : Prop :=
  in_flight A_end d [] ∧ in_flight B_end d [] ∧ alive_a d = true ∧ alive_b d = true.

(** The frame of [f] fits the transport. *)
Definition sendable (f : ControlFrame) : Prop :=
  ∃ out, frame_to_vec f = Ok out ∧ frame_ok out.

Lemma send_command_run cmd d c :
  idle d → sendable (FCommand cmd) →
  ∃ d1 out, send_command cmd (mkEndA d, c) =
      ((mkEndA d1, set_corr (issue (cmd_session cmd) (cmd_seq cmd) (client_corr c)) c), Ok tt) ∧
    in_flight B_end d1 [out] ∧ in_flight A_end d1 [] ∧
    alive_a d1 = true ∧ alive_b d1 = true ∧ frame_from_slice out = Some (FCommand cmd).
Proof.
  intros (Ha & Hb & Hla & Hlb) (out & Hout & Hok).
  destruct (duplex_send_run A_end out d [] []) as (d1 & Hs & Hq1 & Hq2 & Hq3 & Hq4); [done..|].
  exists d1, out. split.
  - unfold send_command. erewrite bind_ok by reflexivity. unfold lift. simpl.
    unfold mbind, M_bind, m_bind, on_fst. simpl. rewrite Hout. unfold zoom. simpl. by rewrite Hs.
  - split; [done|]. split; [done|]. rewrite Hq3, Hq4. split; [done|]. split; [done|].
    by apply frame_round.
Qed.

Lemma serve_one_run cmd d1 out b l b' l' r :
  in_flight B_end d1 [out] → in_flight A_end d1 [] → alive_a d1 = true → alive_b d1 = true →
  frame_from_slice out = Some (FCommand cmd) →
  serve_command h v clock cmd (b, l) = ((b', l'), Ok r) → sendable (FResult r) →
  ∃ d2 ans, serve_one h v clock (mkEndB d1, (b, l)) = ((mkEndB d2, (b', l')), Ok true) ∧
    in_flight A_end d2 [ans] ∧ in_flight B_end d2 [] ∧ alive_a d2 = true ∧ alive_b d2 = true ∧
    frame_from_slice ans = Some (FResult r).
Proof.
  intros Hin Hback Hla Hlb Hdec Hserve (ans & Hans & Hok).
  destruct (duplex_recv_run B_end d1 [out] []) as (dr & Hr & Hq1 & Hq2 & Hq3 & Hq4); [done..|].
  destruct (duplex_send_run B_end ans dr [] []) as (d2 & Hs & Hq5 & Hq6 & Hq7 & Hq8);
    [done|done|done|simpl; congruence|].
  exists d2, ans. split.
  - unfold serve_one. erewrite bind_ok.
    2:{ apply on_fst_run. unfold recv, EndB_transport. rewrite zoom_run. simpl. rewrite Hr. done. }
    simpl. rewrite Hdec. erewrite bind_ok.
    2:{ rewrite zoom_run. simpl. rewrite Hserve. done. }
    simpl. erewrite bind_ok; [|unfold lift; rewrite Hans; done].
    erewrite bind_ok; [|apply on_fst_run; unfold send, EndB_transport; rewrite zoom_run; simpl;
      rewrite Hs; done]. done.
  - split; [done|]. split; [done|]. rewrite Hq7, Hq8, Hq3, Hq4. split; [done|]. split; [done|].
    by apply frame_round.
Qed.

Lemma await_result_run d2 ans r c :
  in_flight A_end d2 [ans] → in_flight B_end d2 [] → frame_from_slice ans = Some (FResult r) →
  (accept r (client_verifier c) (client_corr c)).2 = true →
  ∃ d3, await_result (mkEndA d2, c) =
    ((mkEndA d3, set_corr (accept r (client_verifier c) (client_corr c)).1 c), Ok (Some r)) ∧
    in_flight A_end d3 [] ∧ in_flight B_end d3 [] ∧
    alive_a d3 = alive_a d2 ∧ alive_b d3 = alive_b d2.
Proof.
  intros Hin Hback Hdec Hacc.
  destruct (duplex_recv_run A_end d2 [ans] []) as (d3 & Hr & Hq1 & Hq2 & Hq3 & Hq4); [done..|].
  exists d3. split; [|done]. unfold await_result. erewrite bind_ok.
  2:{ apply on_fst_run. unfold recv, EndA_transport. rewrite zoom_run. simpl. rewrite Hr. done. }
  simpl. rewrite Hdec, zoom_run. unfold client_accept. simpl. by rewrite Hacc.
Qed.

(** The round trip.  On an idle link, with an operator that trusts the
    agent's key, sending a command, letting the agent serve one frame and
    awaiting one result gives back exactly the agent's signed answer to that
    command: same action, session and sequence number.  The request is consumed
    and the link is idle again. *)
Theorem command_round_trip cmd d c b l :
  idle d → sendable (FCommand cmd) →
  (∀ s r, serve_command h v clock cmd (b, l) = (s, Ok r) → sendable (FResult r)) →
  store_ok (client_verifier c) →
  trusts (client_verifier c) (signer_actor (handler_signer h)) (verifying_key (handler_signer h)) →
  (cmd_session cmd, cmd_seq cmd) ∉ outstanding (client_corr c) →
  ∃ d1 c1 d2 b' l' d3 c2 r,
    send_command cmd (mkEndA d, c) = ((mkEndA d1, c1), Ok tt) ∧
    serve_one h v clock (mkEndB d1, (b, l)) = ((mkEndB d2, (b', l')), Ok true) ∧
    await_result (mkEndA d2, c1) = ((mkEndA d3, c2), Ok (Some r)) ∧
    serve_command h v clock cmd (b, l) = ((b', l'), Ok r) ∧
    answers h cmd (due_answer h v (now clock) cmd b (loop_guard l) (loop_executor l)) r ∧
    res_session r = cmd_session cmd ∧ res_seq r = cmd_seq cmd ∧
    outstanding (client_corr c2) = outstanding (client_corr c) ∧ idle d3.
Proof.
  intros Hidle Hsc Hsr Hok Htr Hnew.
  destruct (send_command_run cmd d c Hidle Hsc) as (d1 & out & Hsend & Hi1 & Hi2 & Ha & Hb & Hdec).
  destruct (serve_command_run h v clock cmd b l) as (b' & l' & r & Hserve & Hans & _).
  destruct (serve_one_run cmd d1 out b l b' l' r) as (d2 & ans & Hone & Hi3 & Hi4 & Ha2 & Hb2 & Hdec2);
    [done..|by eapply Hsr|].
  set (c1 := set_corr (issue (cmd_session cmd) (cmd_seq cmd) (client_corr c)) c) in *.
  assert (res_session r = cmd_session cmd ∧ res_seq r = cmd_seq cmd) as [Hrs Hrq]
    by (by destruct Hans as (? & ->)).
  assert (accept r (client_verifier c1) (client_corr c1) =
    (mkCorrelator (outstanding (client_corr c1) ∖ {[ (res_session r, res_seq r) ]}), true)) as Hacc.
  { destruct (accept_cases r (client_verifier c1) (client_corr c1)) as [(-> & _)|[_ Hno]]; [done|].
    exfalso. destruct Hno as [Hno|Hno].
    - apply Hno. simpl. rewrite Hrs, Hrq. set_solver.
    - by rewrite (answers_verify h (client_verifier c1) cmd _ r Hans Hok Htr) in Hno. }
  destruct (await_result_run d2 ans r c1) as (d3 & Hawait & Hi5 & Hi6 & Ha3 & Hb3);
    [done|done|done|by rewrite Hacc|].
  exists d1, c1, d2, b', l', d3, (set_corr (accept r (client_verifier c1) (client_corr c1)).1 c1), r.
  split_and!; try done.
  - rewrite Hacc. simpl. rewrite Hrs, Hrq. set_solver.
  - unfold idle. by rewrite Ha3, Hb3.
Qed.
End round_trip.
