(* ===== verification/ControlPlaneDemo.v ===== *)
(** * A concrete control channel

    A toy signature scheme and frame codec that satisfy the laws, hexadecimal
    written out, and the theorems of the channel applied to them. *)

From Stdlib Require Import ZArith Strings.Ascii Strings.String.
From stdpp Require Import base tactics gmap strings list.
From S2P Require Import Prelude Float32 Action Bridge BridgeSpec BridgeFacts BridgeProps.
From S2P Require Import BridgeCalls BridgeDemo Control ControlProps Scheduler.
From S2P Require Import SchedulerProps ControlDemo Transport Keys KeysProps ControlPlane.
From S2P Require Import ControlPlaneProps.

(** ** Hexadecimal *)

Definition hex_digit (n : Z) : Z := (if n <? 10 then 48 + n else 87 + n)%Z.
Definition hex_value (c : Z) : option Z :=
  if in_range 48 57 c then Some (c - 48)%Z
  else if in_range 97 102 c then Some (c - 87)%Z
  else if in_range 65 70 c then Some (c - 55)%Z
  else None.

Fixpoint hex_bytes (b : bytes) : bytes :=
  match b with
  | [] => []
  | z :: b => hex_digit (z / 16) :: hex_digit (z mod 16) :: hex_bytes b
  end.

Fixpoint unhex (b : bytes) : option bytes :=
  match b with
  | [] => Some []
  | hi :: lo :: b =>
      x ← hex_value hi; y ← hex_value lo; rest ← unhex b; Some ((16 * x + y)%Z :: rest)
  | _ => None
  end.

#[export] Instance real_hex : Hex := {|
  hex_encode b := string_of_bytes (hex_bytes b);
  hex_decode b := match unhex b with Some r => inl r | None => inr "invalid hex" end;
|}.

Lemma hex_value_digit n : (0 ≤ n < 16)%Z → hex_value (hex_digit n) = Some n.
Proof.
  intros Hn. unfold hex_value, hex_digit, in_range.
  destruct (Z.ltb_spec n 10); repeat case_match; try (f_equal; lia); lia.
Qed.

Lemma hex_bytes_bytes b : Forall is_byte b → Forall is_byte (hex_bytes b).
Proof.
  induction 1 as [|z b Hz _ IH]; [constructor|]. simpl. unfold is_byte in *.
  assert (0 ≤ z / 16 < 16)%Z by (Z.to_euclidean_division_equations; lia).
  assert (0 ≤ z mod 16 < 16)%Z by (apply Z.mod_pos_bound; lia).
  constructor; [|constructor; [|done]]; unfold hex_digit; case_match; lia.
Qed.

Lemma unhex_hex b : Forall is_byte b → unhex (hex_bytes b) = Some b.
Proof.
  induction 1 as [|z b Hz _ IH]; [done|]. simpl. unfold is_byte in Hz.
  assert (0 ≤ z / 16 < 16)%Z by (Z.to_euclidean_division_equations; lia).
  rewrite !hex_value_digit, IH by (done || apply Z.mod_pos_bound; lia). simpl.
  do 2 f_equal. symmetry. apply Z_div_mod_eq_full.
Qed.

#[export] Instance real_hex_laws : HexLaws.
Proof.
  split. intros b Hb. unfold hex_decode, hex_encode, real_hex.
  by rewrite as_bytes_of_string, unhex_hex by (done || by apply hex_bytes_bytes).
Qed.

(** ** A toy signature scheme: a key is a name, a signature names the key and
    the length of the message *)

Definition toy_signature (k : string) (m : bytes) : string := k +:+ ":" +:+ show_nat (length m).

#[export] Instance toy_ed25519 : Ed25519 := {|
  VerifyingKey := string;
  SigningKey := string;
  Signature := string;
  vk_to_bytes := as_bytes;
  vk_from_bytes b := if bool_decide (as_bytes (string_of_bytes b) = b)
                     then inl (string_of_bytes b) else inr "not canonical";
  sk_from_bytes := string_of_bytes;
  sk_verifying_key k := k;
  sk_sign := toy_signature;
  sig_to_bytes := as_bytes;
  sig_from_slice b := Some (string_of_bytes b);
  verify_strict k m s := bool_decide (s = toy_signature k m);
|}.

#[export] Instance toy_ed25519_laws : Ed25519Laws.
Proof.
  split; simpl.
  - intros k1 k2 H. by rewrite <-(string_of_as_bytes k1), H, string_of_as_bytes.
  - intros k. by rewrite bool_decide_eq_true_2, string_of_as_bytes by by rewrite string_of_as_bytes.
  - intros b k. case_bool_decide; intros; by simplify_eq.
  - intros s. apply as_bytes_bytes.
  - intros s. by rewrite string_of_as_bytes.
  - intros k m. by apply bool_decide_eq_true_2.
Qed.

(** ** The trust store *)

Definition rotation : list TrustOp :=
  [TTrust "carol" ("old" : VerifyingKey); TTrust "carol" ("new" : VerifyingKey);
   TRevoke "carol" ("old" : VerifyingKey)].

(** After the rotation, [new] still verifies. *)
Lemma verifier_follows_trust_history_witness :
  sig_verify (foldl run_trust_op verifier_new rotation) "hello"
    (hex_encode (as_bytes "new:5")) "carol" = true.
Proof.
  apply (verifier_follows_trust_history rotation).
  exists (as_bytes "new:5"), "new:5", "new". split; [by vm_compute|].
  split; [by vm_compute|]. split; [|by vm_compute]. split; [naive_solver|]. by left.
Defined.

(** A key file with one comment and one 32-byte key. *)
Definition demo_key : string := "0123456789abcdef0123456789abcdef".
Definition demo_key_file : bytes :=
  as_bytes "# carol" ++ [10]%Z ++ hex_bytes (as_bytes demo_key) ++ [10]%Z.

Lemma key_file_all_or_nothing_witness :
  ∃ ks : list VerifyingKey, length ks = 1 ∧
    (Z.of_nat (length demo_key_file) ≤ MAX_KEY_FILE_BYTES)%Z ∧
    ∀ a (k : VerifyingKey), trusts (trust_from_bytes "carol" demo_key_file verifier_new).1 a k ↔
      (a = "carol" ∧ k ∈ ks) ∨ trusts verifier_new a k.
Proof.
  pose proof (key_file_all_or_nothing "carol" demo_key_file verifier_new) as H.
  assert (is_ok (trust_from_bytes "carol" demo_key_file verifier_new).2 = true) as Hok
    by by vm_compute.
  assert (length (filter is_key_line (text_lines demo_key_file)) = 1) as Hl by by vm_compute.
  destruct (trust_from_bytes _ _ _) as [v' [u|e|]]; [|discriminate Hok..].
  destruct H as (ks & Hlen & Hrest). exists ks. split; [by rewrite Hlen|exact Hrest].
Defined.

Definition demo_dir : Result (list (Result DirEntry)) :=
  Ok [Ok (mkDirEntry "carol.pub" true (Some "carol") (Ok 100%Z) (Ok demo_key_file));
      Ok (mkDirEntry "sub" false (Some "sub") (Ok 0%Z) (Err "is a directory"))].

Definition stale_store : ReloadableVerifier :=
  reloadable_new (trust "mallory" ("old" : VerifyingKey) verifier_new).

Lemma reload_is_atomic_witness :
  ∃ entries, demo_dir = Ok entries ∧
    ∀ actor (k : VerifyingKey), trusts (inner (reload_from_dir demo_dir stale_store).1) actor k ↔
      ∃ entry, entry ∈ entries ∧ entry_contributes entry actor k.
Proof.
  pose proof (reload_is_atomic demo_dir stale_store) as H.
  assert (is_ok (reload_from_dir demo_dir stale_store).2 = true) as Hok by by vm_compute.
  destruct (reload_from_dir _ _) as [r' [u|e|]]; [|discriminate Hok..].
  destruct H as (entries & Hd & _ & Ht). by exists entries.
Defined.

(** ** The channel *)

#[export] Instance demo_result_encoder : ResultEncoder := λ u,
  ur_action_id u +:+ "/" +:+ ur_detail u +:+ "/" +:+ ur_agent u +:+ "/" +:+ ur_session u
    +:+ "/" +:+ show_Z (ur_seq u).

Definition agent_signer : CommandSigner := mkSigner ("agent-key" : SigningKey) "agent-1".
Definition demo_handler : AgentControlHandler Secrets RolePolicy :=
  mkHandler demo_secrets demo_policy agent_signer.
Definition demo_loop : AgentControlLoop (Traced Scripted) :=
  mkLoop demo_guard demo_exec scheduler_new.

(** The answer the agent gives to Carol's canary. *)
Definition canary_answer : CommandResult :=
  sign_outcome demo_handler "act-1" "s1" 7 CommandOutcome.Applied "Promoted"
    (Some StageOutcome.Promoted).

Lemma canary_served :
  (serve_command demo_handler VerifyOutcome.Fixed (mkFakeClock 50) canary_cmd
    (demo to_approved, demo_loop)).2 = Ok canary_answer.
Proof. by vm_compute. Qed.

(** A codec that knows these two frames. *)
#[export] Instance two_frames : FrameCodec := {|
  frame_to_vec f :=
    if bool_decide (f = FCommand canary_cmd) then Ok [1%Z]
    else if bool_decide (f = FResult canary_answer) then Ok [2%Z]
    else Err "unsupported";
  frame_from_slice b :=
    if bool_decide (b = [1%Z]) then Some (FCommand canary_cmd)
    else if bool_decide (b = [2%Z]) then Some (FResult canary_answer)
    else None;
|}.

#[export] Instance two_frames_laws : FrameCodecLaws.
Proof.
  split; unfold frame_to_vec, frame_from_slice; simpl; intros f; repeat case_bool_decide; naive_solver.
Qed.

Definition demo_client : ControlPlaneClient :=
  client_new (mkSigner ("kc" : SigningKey) "carol")
    (trust "agent-1" ("agent-key" : VerifyingKey) verifier_new).

Lemma hostile_frame_is_inert_witness :
  ∃ t', serve_one demo_handler VerifyOutcome.Fixed (mkFakeClock 50)
    (mkEndB busy_link, (demo to_approved, demo_loop)) =
    ((t', (demo to_approved, demo_loop)), Ok true).
Proof.
  exists (recv (mkEndB busy_link)).1.
  apply (hostile_frame_is_inert demo_handler VerifyOutcome.Fixed (mkFakeClock 50)
    (mkEndB busy_link) _ [5]%Z); [by vm_compute|]. intros cmd.
  change (frame_from_slice [5]%Z) with (@None ControlFrame). discriminate.
Defined.

(** One request answered, a replay of the answer, another request: the first
    answer is not accepted again, and it was accepted once. *)
Definition corr_history : list CorrOp :=
  let ver := client_verifier demo_client in
  [CIssue "s1" 7; CAccept canary_answer ver; CAccept canary_answer ver; CIssue "s1" 8].

Lemma result_accepted_at_most_once_witness :
  let ver := client_verifier demo_client in
  let c := foldl run_corr correlator_new corr_history in
  accept canary_answer ver c = (c, false) ∧
  acceptances ("s1", 7%Z) correlator_new corr_history = 1.
Proof.
  intros ver c. split; [|by vm_compute].
  destruct (result_accepted_at_most_once corr_history canary_answer ver) as (_ & Hsame & _).
  fold c in Hsame. assert ((accept canary_answer ver c).2 = false) as Hf by by vm_compute.
  rewrite (surjective_pairing (accept canary_answer ver c)). by rewrite (Hsame Hf), Hf.
Defined.

Lemma command_round_trip_witness :
  ∃ d1 c1 d2 b' l' d3 c2 r,
    send_command canary_cmd (mkEndA duplex_pair, demo_client) = ((mkEndA d1, c1), Ok tt) ∧
    serve_one demo_handler VerifyOutcome.Fixed (mkFakeClock 50)
      (mkEndB d1, (demo to_approved, demo_loop)) = ((mkEndB d2, (b', l')), Ok true) ∧
    await_result (mkEndA d2, c1) = ((mkEndA d3, c2), Ok (Some r)) ∧
    res_session r = "s1" ∧ res_seq r = 7%Z ∧ idle d3.
Proof.
  destruct (command_round_trip demo_handler VerifyOutcome.Fixed (mkFakeClock 50) canary_cmd
    duplex_pair demo_client (demo to_approved) demo_loop)
    as (d1 & c1 & d2 & b' & l' & d3 & c2 & r & H1 & H2 & H3 & _ & _ & H6 & H7 & _ & H9).
  - repeat split; constructor.
  - exists [1%Z]. split; [by vm_compute|]. unfold frame_ok, MAX_FRAME_LEN. simpl. lia.
  - intros s r Hs. assert (r = canary_answer) as ->.
    { pose proof canary_served as Hc. rewrite Hs in Hc. by injection Hc. }
    exists [2%Z]. split; [by vm_compute|]. unfold frame_ok, MAX_FRAME_LEN. simpl. lia.
  - apply store_ok_trust, store_ok_new.
  - by vm_compute.
  - by vm_compute.
  - exists d1, c1, d2, b', l', d3, c2, r. split_and!; [exact H1|exact H2|exact H3|exact H6|exact H7|exact H9].
Defined.

(** ** A rejected command that changed the bridge *)

Definition rollback_cmd : ControlCommand :=
  demo_cmd "act-1" CommandKind.Rollback "carol" "kc:" 7 None.

(** An operator rollback that cannot revert every target is answered
    [Rejected], although it ran: the executor was called on every target, the
    action moved from [Closed] to [RollbackIncomplete], and only the failed target
    remains recorded.  The documented meaning of [Rejected], that the bridge state
    is unchanged, does not hold for it. *)
Theorem rejected_rollback_changed_the_bridge :
  let '((b', l'), out) := serve_command demo_handler VerifyOutcome.Fixed (mkFakeClock 50)
    rollback_cmd (demo to_closed, demo_loop) in
  (∃ r, out = Ok r ∧ res_outcome r = CommandOutcome.Rejected) ∧
  state (demo to_closed) "act-1" = Some ActionState.Closed ∧
  state b' "act-1" = Some ActionState.RollbackIncomplete ∧
  calls (loop_executor l') =
    [CRollback "act-1" "h1"; CRollback "act-1" "h2"; CRollback "act-1" "h3"].
Proof. vm_compute. split; [by eexists|done]. Qed.
