(* ===== verification/Order.v ===== *)
(** * Comparison functions

    [std::cmp::Ordering] as the Standard Library's [comparison], what makes a
    comparison function a total preorder, and the ways the program builds one:
    integers, slices, [then_with], and lists padded with a default element. *)

From Stdlib Require Import ZArith Strings.Ascii Strings.String Sorting.Sorted.
From stdpp Require Import base tactics strings list.
From S2P Require Import Prelude Transport Keys.

(** [Ordering::then_with]. *)
Definition then_with (o : comparison) (o' : comparison) : comparison :=
  match o with Eq => o' | _ => o end.

(** A comparison function that is a total preorder. *)
Class Comparison {T : Type} (cmp : T → T → comparison) : Prop := {
  cmp_refl : ∀ x, cmp x x = Eq;
  cmp_opp : ∀ x y, cmp y x = CompOpp (cmp x y);
  cmp_trans : ∀ x y z, cmp x y ≠ Gt → cmp y z ≠ Gt → cmp x z ≠ Gt;
}.

Arguments cmp_refl {T} cmp {_} x.
Arguments cmp_opp {T} cmp {_} x y.
Arguments cmp_trans {T} cmp {_} x y z.

#[export] Instance Z_comparison : Comparison Z.compare.
Proof.
  split.
  - apply Z.compare_refl.
  - intros x y. apply Z.compare_antisym.
  - intros x y z. rewrite !Z.compare_le_iff. lia.
Qed.

#[export] Instance nat_comparison : Comparison Nat.compare.
Proof.
  split.
  - apply Nat.compare_refl.
  - intros x y. apply Nat.compare_antisym.
  - intros x y z. rewrite !Nat.compare_le_iff. lia.
Qed.

Section laws.
Context {T : Type} (cmp : T → T → comparison) `{!Comparison cmp}.

Lemma cmp_eq_sym x y : cmp x y = Eq → cmp y x = Eq.
Proof. intros H. by rewrite cmp_opp, H. Qed.

Lemma cmp_eq_l x y z : cmp x y = Eq → cmp x z = cmp y z.
Proof.
  intros Hxy. pose proof (cmp_eq_sym x y Hxy) as Hyx.
  pose proof (cmp_trans cmp x y z) as H1. pose proof (cmp_trans cmp y x z) as H2.
  pose proof (cmp_trans cmp z x y) as H3. pose proof (cmp_trans cmp z y x) as H4.
  rewrite (cmp_opp cmp x z) in H3, H4. rewrite (cmp_opp cmp y z) in H3, H4.
  rewrite Hxy in *. rewrite Hyx in *.
  destruct (cmp x z), (cmp y z); simpl in *; try done; exfalso; naive_solver.
Qed.

Lemma cmp_eq_r x y z : cmp y z = Eq → cmp x y = cmp x z.
Proof.
  intros H. rewrite (cmp_opp cmp y x), (cmp_opp cmp z x). f_equal. by apply cmp_eq_l.
Qed.

Lemma cmp_lt_trans x y z : cmp x y = Lt → cmp y z = Lt → cmp x z = Lt.
Proof.
  intros H1 H2. destruct (cmp x z) eqn:H3; [|done|].
  - apply cmp_eq_sym in H3. apply (cmp_eq_r y) in H3. rewrite H2, (cmp_opp cmp x y), H1 in H3. done.
  - exfalso. apply (cmp_trans cmp x y z); congruence.
Qed.
End laws.

(** Comparing through a key. *)
Lemma comparison_of_key {T K : Type} (key : T → K) (cmp : K → K → comparison)
    `{!Comparison cmp} : Comparison (λ x y, cmp (key x) (key y)).
Proof.
  split.
  - intros x. apply (cmp_refl cmp).
  - intros x y. apply (cmp_opp cmp).
  - intros x y z. apply (cmp_trans cmp).
Qed.

Lemma then_with_trans o1 o2 o3 p1 p2 p3 :
  (o1 ≠ Gt → o2 ≠ Gt → o3 ≠ Gt) → (o1 = Eq → o3 = o2) → (o2 = Eq → o3 = o1) →
  (o1 = Lt → o2 = Lt → o3 = Lt) → (p1 ≠ Gt → p2 ≠ Gt → p3 ≠ Gt) →
  then_with o1 p1 ≠ Gt → then_with o2 p2 ≠ Gt → then_with o3 p3 ≠ Gt.
Proof. destruct o1, o2, o3; naive_solver. Qed.

Lemma cmp_then_trans {T} (cmp : T → T → comparison) `{!Comparison cmp} x y z p1 p2 p3 :
  (p1 ≠ Gt → p2 ≠ Gt → p3 ≠ Gt) →
  then_with (cmp x y) p1 ≠ Gt → then_with (cmp y z) p2 ≠ Gt → then_with (cmp x z) p3 ≠ Gt.
Proof.
  apply then_with_trans.
  - apply (cmp_trans cmp).
  - by apply (cmp_eq_l cmp).
  - intros H. symmetry. by apply (cmp_eq_r cmp).
  - by apply (cmp_lt_trans cmp).
Qed.

(** One comparison after another. *)
Lemma comparison_then {T : Type} (c1 c2 : T → T → comparison)
    `{!Comparison c1, !Comparison c2} : Comparison (λ x y, then_with (c1 x y) (c2 x y)).
Proof.
  split.
  - intros x. by rewrite (cmp_refl c1), (cmp_refl c2).
  - intros x y. rewrite (cmp_opp c1 x y), (cmp_opp c2 x y). by destruct (c1 x y).
  - intros x y z. apply (cmp_then_trans c1), (cmp_trans c2).
Qed.

(** Lists compared from the front, the shorter one padded with [d]. *)
Section padded.
Context {T : Type} (cmp : T → T → comparison) (d : T).

Fixpoint pad_cmp_nil (k : list T) : comparison :=
  match k with
  | [] => Eq
  | y :: k => then_with (cmp d y) (pad_cmp_nil k)
  end.

Fixpoint pad_cmp (l k : list T) : comparison :=
  match l, k with
  | [], _ => pad_cmp_nil k
  | x :: l, [] => then_with (cmp x d) (pad_cmp l [])
  | x :: l, y :: k => then_with (cmp x y) (pad_cmp l k)
  end.

Definition hd_pad (l : list T) : T := default d (head l).

Lemma pad_cmp_nil_eq k : pad_cmp [] k = pad_cmp_nil k.
Proof. by destruct k. Qed.

Context `{!Comparison cmp}.

(** One step, whatever the lengths. *)
Lemma pad_cmp_step l k :
  pad_cmp l k = then_with (cmp (hd_pad l) (hd_pad k)) (pad_cmp (tail l) (tail k)).
Proof.
  unfold hd_pad. destruct l as [|x l], k as [|y k]; simpl; try done.
  by rewrite (cmp_refl cmp).
Qed.

Lemma pad_cmp_laws (n : nat) :
  ∀ l k m, length l ≤ n → length k ≤ n → length m ≤ n →
  pad_cmp l l = Eq ∧ pad_cmp k l = CompOpp (pad_cmp l k) ∧
  (pad_cmp l k ≠ Gt → pad_cmp k m ≠ Gt → pad_cmp l m ≠ Gt).
Proof.
  induction n as [|n IH]; intros l k m Hl Hk Hm.
  { apply Nat.le_0_r, length_zero_iff_nil in Hl as ->.
    apply Nat.le_0_r, length_zero_iff_nil in Hk as ->.
    by apply Nat.le_0_r, length_zero_iff_nil in Hm as ->. }
  assert (∀ j : list T, length j ≤ S n → length (tail j) ≤ n) as Ht
    by (intros [|] ?; simpl in *; lia).
  destruct (IH (tail l) (tail k) (tail m)) as (H1 & H2 & H3); [auto..|].
  rewrite (pad_cmp_step l l), (pad_cmp_step l k), (pad_cmp_step k l), (pad_cmp_step k m),
    (pad_cmp_step l m).
  split; [by rewrite (cmp_refl cmp)|]. split.
  - rewrite H2, (cmp_opp cmp (hd_pad l) (hd_pad k)). by destruct (cmp _ _).
  - by apply (cmp_then_trans cmp).
Qed.

#[export] Instance pad_comparison : Comparison pad_cmp.
Proof.
  split.
  - intros l. by destruct (pad_cmp_laws (length l) l l l) as (? & _).
  - intros l k. by destruct (pad_cmp_laws (length l + length k) l k k) as (_ & ? & _); [lia..|].
  - intros l k m. by destruct (pad_cmp_laws (length l + length k + length m) l k m)
      as (_ & _ & ?); [lia..|].
Qed.
End padded.

(** [Ord] on slices: element by element, then the shorter is less. *)
Fixpoint slice_cmp {T} (cmp : T → T → comparison) (l k : list T) : comparison :=
  match l, k with
  | [], [] => Eq
  | [], _ :: _ => Lt
  | _ :: _, [] => Gt
  | x :: l, y :: k => then_with (cmp x y) (slice_cmp cmp l k)
  end.

#[export] Instance slice_comparison {T} (cmp : T → T → comparison) `{!Comparison cmp} :
  Comparison (slice_cmp cmp).
Proof.
  split.
  - intros l. induction l as [|x l IH]; simpl; [done|]. by rewrite (cmp_refl cmp).
  - intros l. induction l as [|x l IH]; intros [|y k]; simpl; try done.
    rewrite (cmp_opp cmp x y), IH. by destruct (cmp x y).
  - intros l. induction l as [|x l IH]; intros [|y k] [|z m]; simpl; try done.
    apply (cmp_then_trans cmp), IH.
Qed.

(** Values that compare equal element by element are equal. *)
Lemma slice_cmp_eq (l k : list Z) : slice_cmp Z.compare l k = Eq → l = k.
Proof.
  revert k. induction l as [|x l IH]; intros [|y k]; simpl; try done.
  destruct (Z.compare_spec x y); simpl; try done. intros H'. f_equal; auto.
Qed.

(** * Ordered maps and stable sorting

    [BTreeMap] as a list of pairs with increasing keys, [slice::sort_by] as a
    stable insertion sort (a stable sort of a total preorder has one result), and
    the facts the engine needs of both. *)

(** A comparison that tells values apart. *)
Class ComparisonEq {T} (cmp : T → T → comparison) : Prop :=
  cmp_eq : ∀ x y, cmp x y = Eq → x = y.

(** [Ord] on strings: by bytes. *)
Definition string_cmp (a b : string) : comparison :=
  slice_cmp Z.compare (as_bytes a) (as_bytes b).

Lemma as_bytes_inj a b : as_bytes a = as_bytes b → a = b.
Proof.
  unfold as_bytes. intros H. apply list_fmap_eq_inj in H.
  - by rewrite <-(string_of_list_ascii_of_string a), H, string_of_list_ascii_of_string.
  - intros x y Hxy%N2Z.inj. by rewrite <-(ascii_N_embedding x), Hxy, ascii_N_embedding.
Qed.

#[export] Instance string_comparison : Comparison string_cmp :=
  comparison_of_key as_bytes (slice_cmp Z.compare).
#[export] Instance string_comparison_eq : ComparisonEq string_cmp.
Proof. intros a b H. by apply as_bytes_inj, slice_cmp_eq. Qed.

(** ** Maps *)

Section map.
Context {K V : Type} (cmp : K → K → comparison).

Fixpoint bt_alter (k : K) (f : option V → V) (m : list (K * V)) : list (K * V) :=
  match m with
  | [] => [(k, f None)]
  | (k', v) :: m' =>
      match cmp k k' with
      | Lt => (k, f None) :: m
      | Eq => (k', f (Some v)) :: m'
      | Gt => (k', v) :: bt_alter k f m'
      end
  end.

Definition bt_insert (k : K) (v : V) : list (K * V) → list (K * V) := bt_alter k (λ _, v).

Fixpoint bt_get (k : K) (m : list (K * V)) : option V :=
  match m with
  | [] => None
  | (k', v) :: m => match cmp k k' with Eq => Some v | _ => bt_get k m end
  end.

Definition key_lt (x y : K * V) : Prop := cmp x.1 y.1 = Lt.
Definition bt_ok (m : list (K * V)) : Prop := StronglySorted key_lt m.

Context `{!Comparison cmp} `{!ComparisonEq cmp}.

Lemma bt_alter_Forall (P : K → Prop) k f m :
  P k → Forall (λ p, P p.1) m → Forall (λ p, P p.1) (bt_alter k f m).
Proof.
  intros Hk. induction 1 as [|[k' v] m Hp Hm IH]; simpl; [by constructor|].
  destruct (cmp k k'); [by constructor|by constructor; [|constructor]|by constructor].
Qed.

Lemma bt_alter_ok k f m : bt_ok m → bt_ok (bt_alter k f m).
Proof.
  unfold bt_ok. induction m as [|[k' v] m IH]; simpl; intros Hm; [by repeat constructor|].
  apply StronglySorted_inv in Hm as [Hm Hall]. destruct (cmp k k') eqn:Hc.
  - by constructor.
  - constructor; [by constructor|]. constructor; [done|].
    eapply Forall_impl; [exact Hall|]. intros [k2 v2]. unfold key_lt. simpl.
    by apply (cmp_lt_trans cmp).
  - constructor; [by apply IH|].
    apply (bt_alter_Forall (λ x, cmp k' x = Lt)); [by rewrite (cmp_opp cmp k k'), Hc|done].
Qed.

Lemma bt_get_alter k f m j :
  bt_ok m → bt_get j (bt_alter k f m) =
  match cmp j k with Eq => Some (f (bt_get k m)) | _ => bt_get j m end.
Proof.
  unfold bt_ok. induction m as [|[k' v] m IH]; simpl; intros Hm.
  { by destruct (cmp j k). }
  apply StronglySorted_inv in Hm as [Hm Hall]. specialize (IH Hm).
  destruct (cmp k k') eqn:Hc.
  - pose proof (cmp_eq k k' Hc) as <-. simpl. by destruct (cmp j k).
  - simpl. destruct (cmp j k) eqn:Hj; try done.
    assert (bt_get k m = None) as Hnone; [|by rewrite Hnone].
    clear IH Hj. induction Hall as [|[k2 v2] m Hlt _ IHm]; [done|]. simpl.
    apply StronglySorted_inv in Hm as [Hm _].
    unfold key_lt in Hlt. simpl in Hlt. rewrite (cmp_lt_trans cmp k k' k2 Hc Hlt). by apply IHm.
  - simpl. rewrite IH. destruct (cmp j k) eqn:Hj; [|done..].
    by rewrite (cmp_eq_l cmp j k k' Hj), Hc.
Qed.

Lemma bt_get_elem k v m : bt_ok m → bt_get k m = Some v ↔ (k, v) ∈ m.
Proof.
  unfold bt_ok. induction m as [|[k' v'] m IH]; simpl; intros Hm.
  { split; [done|]. by intros ?%elem_of_nil. }
  apply StronglySorted_inv in Hm as [Hm Hall]. specialize (IH Hm).
  rewrite elem_of_cons, <-IH. destruct (cmp k k') eqn:Hc.
  - pose proof (cmp_eq k k' Hc) as <-. split; [intros [= ->]; by left|].
    intros [[= ->]|Hg]; [done|]. exfalso. apply IH in Hg. rewrite Forall_forall in Hall.
    specialize (Hall _ Hg). unfold key_lt in Hall. simpl in Hall. by rewrite (cmp_refl cmp) in Hall.
  - split; [by right|]. intros [[= -> ->]|?]; [by rewrite (cmp_refl cmp) in Hc|done].
  - split; [by right|]. intros [[= -> ->]|?]; [by rewrite (cmp_refl cmp) in Hc|done].
Qed.
End map.

(** ** Grouping: [groups.entry(key).or_default().push(x)] *)

Section group.
Context {K T : Type} (cmp : K → K → comparison) `{!Comparison cmp} `{!ComparisonEq cmp}.
Context (key : T → K).

Definition group_push (m : list (K * list T)) (x : T) : list (K * list T) :=
  bt_alter cmp (key x) (λ o, default [] o ++ [x]) m.
Definition group (l : list T) : list (K * list T) := foldl group_push [] l.

(** The members filed under [k], in arrival order. *)
Definition has_key (k : K) (x : T) : bool :=
  match cmp (key x) k with Eq => true | _ => false end.

Lemma group_spec l :
  bt_ok cmp (group l) ∧
  ∀ k, bt_get cmp k (group l) =
    match filter (has_key k) l with [] => None | ds => Some ds end.
Proof.
  induction l as [|x l [IHok IH]] using rev_ind; [split; [constructor|done]|].
  unfold group in *. rewrite foldl_app. cbn [foldl]. unfold group_push.
  split; [by apply (bt_alter_ok cmp)|]. intros k. rewrite (bt_get_alter cmp) by done.
  rewrite filter_app, filter_cons_bool.
  assert (has_key k x = match cmp k (key x) with Eq => true | _ => false end) as ->
    by (unfold has_key; rewrite (cmp_opp cmp k (key x)); by destruct (cmp k (key x))).
  destruct (cmp k (key x)) eqn:Hc; simpl.
  - pose proof (cmp_eq k (key x) Hc) as ->. rewrite IH.
    by destruct (filter (has_key (key x)) l).
  - by rewrite app_nil_r, IH.
  - by rewrite app_nil_r, IH.
Qed.

Lemma group_member k ds l :
  (k, ds) ∈ group l → ds = filter (has_key k) l ∧ ds ≠ [].
Proof.
  destruct (group_spec l) as [Hok Hget]. rewrite <-(bt_get_elem cmp) by done.
  rewrite Hget. by destruct (filter (has_key k) l); intros; simplify_eq.
Qed.

Lemma group_keys k l : k ∈ (group l).*1 ↔ k ∈ key <$> l.
Proof.
  destruct (group_spec l) as [Hok Hget]. split.
  - intros ([k' ds] & -> & Hin)%list_elem_of_fmap. simpl.
    destruct (group_member _ _ _ Hin) as [Hds Hne]. destruct ds as [|x ds]; [done|].
    assert (x ∈ filter (has_key k') l) as Hx by (rewrite <-Hds; by left).
    apply list_elem_of_filter in Hx as [Hk Hx]. apply list_elem_of_fmap. exists x. split; [|done].
    unfold has_key in Hk. destruct (cmp (key x) k') eqn:Hc; try done. by apply cmp_eq in Hc.
  - intros (x & -> & Hx)%list_elem_of_fmap.
    assert (bt_get cmp (key x) (group l) = Some (filter (has_key (key x)) l)) as Hg.
    { rewrite Hget. destruct (filter (has_key (key x)) l) eqn:Hf; [|done]. exfalso.
      assert (x ∈ filter (has_key (key x)) l) as Hin; [|rewrite Hf in Hin; by apply elem_of_nil in Hin].
      apply list_elem_of_filter. unfold has_key. by rewrite (cmp_refl cmp). }
    apply (bt_get_elem cmp) in Hg; [|done]. apply list_elem_of_fmap. by exists (key x, filter (has_key (key x)) l).
Qed.
End group.

(** ** Stable sort *)

Section sort.
Context {T : Type} (cmp : T → T → comparison).

(** Before the first element that is not smaller. *)
Fixpoint sort_insert (x : T) (l : list T) : list T :=
  match l with
  | [] => [x]
  | y :: l' => match cmp x y with Gt => y :: sort_insert x l' | _ => x :: l end
  end.
Definition sort_by (l : list T) : list T := foldr sort_insert [] l.

Lemma sort_insert_perm x l : sort_insert x l ≡ₚ x :: l.
Proof.
  induction l as [|y l IH]; simpl; [done|]. destruct (cmp x y); try done.
  rewrite IH. by rewrite Permutation_swap.
Qed.

Lemma sort_by_perm l : sort_by l ≡ₚ l.
Proof. induction l as [|x l IH]; simpl; [done|]. by rewrite sort_insert_perm, IH. Qed.

Definition sorted_le (x y : T) : Prop := cmp x y ≠ Gt.

Context `{!Comparison cmp}.

Lemma sort_insert_sorted x l :
  StronglySorted sorted_le l → StronglySorted sorted_le (sort_insert x l).
Proof.
  induction l as [|y l IH]; simpl; intros Hl; [by repeat constructor|].
  apply StronglySorted_inv in Hl as [Hl Hall].
  assert (cmp x y ≠ Gt → StronglySorted sorted_le (x :: y :: l)) as Hle.
  { intros Hc. constructor; [by constructor|]. constructor; [done|].
    eapply Forall_impl; [exact Hall|]. intros z. unfold sorted_le.
    by apply (cmp_trans cmp). }
  destruct (cmp x y) eqn:Hc; [by apply Hle|by apply Hle|].
  constructor; [by apply IH|]. rewrite sort_insert_perm. constructor; [|done].
  unfold sorted_le. by rewrite (cmp_opp cmp x y), Hc.
Qed.

Lemma sort_by_sorted l : StronglySorted sorted_le (sort_by l).
Proof. induction l as [|x l IH]; simpl; [constructor|]. by apply sort_insert_sorted. Qed.

(** Stability: the elements of one class keep their order. *)
Definition same_class (x y : T) : bool := match cmp x y with Eq => true | _ => false end.

Lemma sort_insert_stable z x l :
  filter (same_class z) (sort_insert x l) = filter (same_class z) (x :: l).
Proof.
  induction l as [|y l IH]; simpl; [done|]. destruct (cmp x y) eqn:Hc; [done|done|].
  rewrite filter_cons_bool, IH, !filter_cons_bool. unfold same_class.
  destruct (cmp z x) eqn:Hx; [|done..]. by rewrite (cmp_eq_l cmp z x y Hx), Hc.
Qed.

Lemma sort_by_stable z l : filter (same_class z) (sort_by l) = filter (same_class z) l.
Proof.
  induction l as [|x l IH]; simpl; [done|]. rewrite sort_insert_stable, !filter_cons_bool.
  fold (sort_by l). by rewrite IH.
Qed.
End sort.

(** The comparison only matters on the elements compared. *)
Lemma sort_by_ext {T} (c1 c2 : T → T → comparison) l :
  (∀ x y, x ∈ l → y ∈ l → c1 x y = c2 x y) → sort_by c1 l = sort_by c2 l.
Proof.
  induction l as [|x l IH]; intros Hext; [done|]. simpl. fold (sort_by c1 l) (sort_by c2 l).
  rewrite <-IH by (intros; apply Hext; by right).
  assert (∀ k, (∀ y, y ∈ k → c1 x y = c2 x y) → sort_insert c1 x k = sort_insert c2 x k) as Hins.
  { induction k as [|y k IHk]; intros Hk; [done|]. simpl. rewrite <-Hk by (by left).
    rewrite IHk; [done|]. intros; apply Hk; by right. }
  apply Hins. intros y Hy. apply Hext; [by left|]. right. by rewrite (sort_by_perm c1 l) in Hy.
Qed.

Lemma sort_by_fmap {T U} (f : T → U) (c : T → T → comparison) (c' : U → U → comparison) l :
  (∀ x y, c' (f x) (f y) = c x y) → sort_by c' (f <$> l) = f <$> sort_by c l.
Proof.
  intros Hc. induction l as [|x l IH]; [done|]. rewrite fmap_cons. unfold sort_by in *. simpl. rewrite IH. clear IH.
  induction (foldr (sort_insert c) [] l) as [|y k IHk]; [done|].
  rewrite fmap_cons. simpl. rewrite Hc, IHk. by destruct (c x y).
Qed.

(** Whether a comparison is a total order, up to equal keys, on the elements of a
    list: a function of the two that is opposite to itself with the arguments
    swapped, and whose [≤] is transitive. *)
Definition le_by {T} (c : T → T → comparison) (x y : T) : bool :=
  match c x y with Gt => false | _ => true end.
Definition total_on {T} (c : T → T → comparison) (l : list T) : bool :=
  forallb (λ x, forallb (λ y, bool_decide (c y x = CompOpp (c x y)) &&
    forallb (λ z, implb (le_by c x y && le_by c y z) (le_by c x z)) l) l) l.

(** [sort_by] of the standard library: stable and sorted for a total order; for any
    other comparison its documentation leaves the result open and lets it panic,
    which is what is taken here. *)
Definition sort_total {T} (c : T → T → comparison) (l : list T) : option (list T) :=
  if total_on c l then Some (sort_by c l) else None.

Lemma forallb_ext {T} (p q : T → bool) l : (∀ x, x ∈ l → p x = q x) → forallb p l = forallb q l.
Proof.
  induction l as [|x l IH]; intros Hpq; [done|]. simpl. rewrite Hpq by by left. f_equal. apply IH.
  intros y Hy. apply Hpq. by right.
Qed.
Lemma forallb_fmap {T U} (f : T → U) (p : U → bool) l : forallb p (f <$> l) = forallb (p ∘ f) l.
Proof. induction l as [|x l IH]; [done|]. rewrite fmap_cons. simpl. by rewrite IH. Qed.

Lemma total_on_ext {T} (c1 c2 : T → T → comparison) l :
  (∀ x y, x ∈ l → y ∈ l → c1 x y = c2 x y) → total_on c1 l = total_on c2 l.
Proof.
  intros Hext. apply forallb_ext. intros x Hx. apply forallb_ext. intros y Hy.
  rewrite !Hext by done. f_equal. apply forallb_ext. intros z Hz. unfold le_by. by rewrite !Hext by done.
Qed.

Lemma total_on_fmap {T U} (f : T → U) (c : T → T → comparison) (c' : U → U → comparison) l :
  (∀ x y, c' (f x) (f y) = c x y) → total_on c' (f <$> l) = total_on c l.
Proof.
  intros Hc. unfold total_on. rewrite forallb_fmap. apply forallb_ext. intros x _. simpl.
  rewrite forallb_fmap. apply forallb_ext. intros y _. simpl. rewrite forallb_fmap, !Hc. f_equal.
  apply forallb_ext. intros z _. unfold le_by. simpl. by rewrite !Hc.
Qed.

Lemma total_on_comparison {T} (c : T → T → comparison) `{!Comparison c} l : total_on c l = true.
Proof.
  unfold total_on. rewrite !forallb_forall. intros x _. rewrite forallb_forall. intros y _.
  apply andb_true_intro. split.
  - apply bool_decide_eq_true. apply (cmp_opp c).
  - rewrite forallb_forall. intros z _. unfold le_by. apply implb_true_iff. intros [Hxy Hyz]%andb_true_iff.
    pose proof (cmp_trans c x y z) as Ht. destruct (c x z); [done..|]. exfalso.
    apply Ht; [by intros Hg; rewrite Hg in Hxy|by intros Hg; rewrite Hg in Hyz|done].
Qed.

(** Grouping commutes with a map that keeps the key. *)
Lemma group_fmap {K T U} (cmp : K → K → comparison) (key : T → K) (key' : U → K) (f : T → U) l :
  (∀ x, key' (f x) = key x) →
  group cmp key' (f <$> l) = prod_map id (fmap (M := list) f) <$> group cmp key l.
Proof.
  intros Hkey. unfold group. change (@nil (K * list U)) with (prod_map id (fmap (M := list) f) <$> @nil (K * list T)).
  generalize (@nil (K * list T)). induction l as [|x l IH]; intros m; [done|]. simpl. rewrite <-IH.
  f_equal. unfold group_push. rewrite Hkey. clear IH.
  induction m as [|[k v] m IHm]; [done|]. rewrite fmap_cons. simpl. rewrite IHm.
  destruct (cmp (key x) k); [|done|done]. rewrite fmap_cons. unfold prod_map at 2. simpl.
  by rewrite fmap_app.
Qed.

(** ** [sort] then [dedup] on strings *)

Fixpoint dedup (l : list string) : list string :=
  match l with
  | x :: (y :: _) as l' => if bool_decide (x = y) then dedup l' else x :: dedup l'
  | _ => l
  end.
Definition dedup_sorted (l : list string) : list string := dedup (sort_by string_cmp l).

Lemma dedup_cons2 x y l :
  dedup (x :: y :: l) = if bool_decide (x = y) then dedup (y :: l) else x :: dedup (y :: l).
Proof. done. Qed.

Lemma dedup_elem x l : x ∈ dedup l ↔ x ∈ l.
Proof.
  induction l as [|y [|z l] IH]; [done|done|]. rewrite dedup_cons2. case_bool_decide as Hyz.
  - rewrite IH, !elem_of_cons. subst. naive_solver.
  - rewrite elem_of_cons, IH. by rewrite (elem_of_cons (z :: l) x y).
Qed.

Definition string_lt (a b : string) : Prop := string_cmp a b = Lt.

Lemma dedup_strict l :
  StronglySorted (sorted_le string_cmp) l → StronglySorted string_lt (dedup l).
Proof.
  induction l as [|y [|z l] IH]; intros Hl; [constructor|by repeat constructor|].
  apply StronglySorted_inv in Hl as [Hl Hall]. specialize (IH Hl). rewrite dedup_cons2.
  case_bool_decide as Hyz; [done|]. constructor; [done|].
  apply Forall_forall. intros w Hw. apply (proj1 (dedup_elem w (z :: l))) in Hw. rewrite Forall_forall in Hall.
  assert (string_cmp y z = Lt) as Hlt.
  { pose proof (Hall z ltac:(by left)) as Hle. unfold sorted_le in Hle.
    destruct (string_cmp y z) eqn:Hc; [|done|done].
    destruct (Hyz (cmp_eq (cmp := string_cmp) _ _ Hc)). }
  apply elem_of_cons in Hw as [->|Hw]; [done|]. unfold string_lt.
  apply StronglySorted_inv in Hl as [_ Hz]. rewrite Forall_forall in Hz.
  specialize (Hz w Hw). unfold sorted_le in Hz. destruct (string_cmp z w) eqn:Hc; [|by apply (cmp_lt_trans string_cmp y z w)|done].
  by rewrite <-(cmp_eq_r string_cmp y z w Hc).
Qed.

Lemma dedup_sorted_spec l :
  StronglySorted string_lt (dedup_sorted l) ∧ ∀ x, x ∈ dedup_sorted l ↔ x ∈ l.
Proof.
  split; [apply dedup_strict, sort_by_sorted; apply _|].
  intros x. unfold dedup_sorted. rewrite dedup_elem. by rewrite sort_by_perm.
Qed.
