(* ===== verification/Version.v ===== *)
(** * Version comparison

    [server/ingest/src/version.rs]: the dpkg, rpm and semver comparators.  A
    position [i] in a slice is represented by the rest of the slice from [i] on;
    past the end that is the empty list, exactly when [i < len] is false. *)

From stdpp Require Import base tactics strings list.
From Stdlib Require Import ZArith.
From S2P Require Import Prelude Order Transport Keys.

Definition is_digit (c : Z) : bool := in_range 48 57 c.
Definition is_zero (c : Z) : bool := (c =? 48)%Z.
Definition is_alpha (c : Z) : bool := in_range 65 90 c || in_range 97 122 c.
Definition is_alnum (c : Z) : bool := is_digit c || is_alpha c.

(** [i < s.len() && p(s[i])]. *)
Definition on (p : Z → bool) (s : bytes) : bool :=
  match s with c :: _ => p c | [] => false end.

(** Skip while [p] holds of the byte at the position; what was skipped. *)
Fixpoint skip_while (p : Z → bool) (s : bytes) : bytes :=
  match s with
  | c :: s' => if p c then skip_while p s' else s
  | [] => []
  end.
Fixpoint take_while (p : Z → bool) (s : bytes) : bytes :=
  match s with
  | c :: s' => if p c then c :: take_while p s' else []
  | [] => []
  end.

(** ** dpkg *)

Definition dpkg_order (c : Z) : Z :=
  if is_digit c then 0
  else if is_alpha c then c
  else if (c =? 126)%Z then -1
  else if negb (c =? 0)%Z then c + 256
  else 0.

Definition order_at (s : bytes) : Z := dpkg_order (default 0%Z (head s)).

(** The non-digit loop: an ordering that decides, or the positions after it. *)
Fixpoint nondigit_loop (fuel : nat) (a b : bytes) : comparison + bytes * bytes :=
  match fuel with
  | 0 => inr (a, b)
  | S fuel =>
      if negb (on (λ c, negb (is_digit c)) a || on (λ c, negb (is_digit c)) b)
      then inr (a, b)
      else
        let ac := order_at a in
        let bc := order_at b in
        if negb (ac =? bc)%Z then inl (ac ?= bc)%Z
        else nondigit_loop fuel (tail a) (tail b)
  end.

(** The paired digit loop: the first difference and the positions after it. *)
Fixpoint digit_loop (a b : bytes) (first_diff : Z) : Z * (bytes * bytes) :=
  match a, b with
  | x :: a', y :: b' =>
      if is_digit x && is_digit y then
        digit_loop a' b' (if (first_diff =? 0)%Z then (x - y)%Z else first_diff)
      else (first_diff, (a, b))
  | _, _ => (first_diff, (a, b))
  end.

Fixpoint verrevcmp_loop (fuel : nat) (a b : bytes) : comparison :=
  match fuel with
  | 0 => Eq
  | S fuel =>
      match a, b with
      | [], [] => Eq
      | _, _ =>
          match nondigit_loop (length a + length b) a b with
          | inl o => o
          | inr (a, b) =>
              let a := skip_while is_zero a in
              let b := skip_while is_zero b in
              let '(first_diff, (a, b)) := digit_loop a b 0 in
              if on is_digit a then Gt
              else if on is_digit b then Lt
              else if negb (first_diff =? 0)%Z then (first_diff ?= 0)%Z
              else verrevcmp_loop fuel a b
          end
      end
  end.

Definition dpkg_verrevcmp (a b : bytes) : comparison :=
  verrevcmp_loop (S (length a + length b)) a b.

(** [s.find(c)] and [s.rfind(c)], as the parts around the byte. *)
Fixpoint split_first (c : Z) (s : bytes) : option (bytes * bytes) :=
  match s with
  | [] => None
  | x :: s =>
      if (x =? c)%Z then Some ([], s)
      else match split_first c s with Some (l, r) => Some (x :: l, r) | None => None end
  end.
Definition split_last (c : Z) (s : bytes) : option (bytes * bytes) :=
  match split_first c (reverse s) with
  | Some (l, r) => Some (reverse r, reverse l)
  | None => None
  end.

(** The number a digit string denotes, most significant digit first. *)
Definition digits_value (s : bytes) : Z := foldl (λ v c, (10 * v + (c - 48))%Z) 0%Z s.

(** [str::parse::<u64>]: an optional plus sign, then digits that fit. *)
Definition parse_u64 (s : bytes) : option Z :=
  let s := match s with x :: s' => if (x =? 43)%Z then s' else s | [] => s end in
  if bool_decide (s = []) || negb (forallb is_digit s) then None
  else if (digits_value s <=? u64_max)%Z then Some (digits_value s) else None.

(** The numeric run before the first colon is the epoch. *)
Definition split_epoch (v : bytes) : Z * bytes :=
  match split_first 58 v with
  | Some (e, rest) =>
      if negb (bool_decide (e = [])) && forallb is_digit e
      then (default 0%Z (parse_u64 e), rest) else (0%Z, v)
  | None => (0%Z, v)
  end.

Definition dpkg_split (v : bytes) : Z * bytes * bytes :=
  let '(epoch, rest) := split_epoch v in
  match split_last 45 rest with
  | Some (upstream, revision) => (epoch, upstream, revision)
  | None => (epoch, rest, [])
  end.

Definition dpkg_compare (a b : string) : comparison :=
  let '(ea, ua, ra) := dpkg_split (as_bytes a) in
  let '(eb, ub, rb) := dpkg_split (as_bytes b) in
  then_with (then_with (ea ?= eb)%Z (dpkg_verrevcmp ua ub)) (dpkg_verrevcmp ra rb).

(** ** rpm *)

Definition strip_leading_zeros (s : bytes) : bytes := skip_while is_zero s.

Definition is_tilde (c : Z) : bool := (c =? 126)%Z.
Definition is_caret (c : Z) : bool := (c =? 94)%Z.
Definition is_separator (c : Z) : bool :=
  negb (is_alnum c) && negb (is_tilde c) && negb (is_caret c).

(** One numeric or alphabetic segment pair. *)
Definition cmp_segments (isnum : bool) (seg_a seg_b : bytes) : comparison :=
  if isnum then
    let sa := strip_leading_zeros seg_a in
    let sb := strip_leading_zeros seg_b in
    then_with (Nat.compare (length sa) (length sb)) (slice_cmp Z.compare sa sb)
  else slice_cmp Z.compare seg_a seg_b.

Fixpoint rpmvercmp_loop (fuel : nat) (a b : bytes) : comparison :=
  match fuel with
  | 0 => Eq
  | S fuel =>
      let a := skip_while is_separator a in
      let b := skip_while is_separator b in
      let a_tilde := on is_tilde a in
      let b_tilde := on is_tilde b in
      if a_tilde || b_tilde then
        if negb a_tilde then Gt
        else if negb b_tilde then Lt
        else rpmvercmp_loop fuel (tail a) (tail b)
      else
        let a_caret := on is_caret a in
        let b_caret := on is_caret b in
        if a_caret || b_caret then
          if bool_decide (a = []) then Lt
          else if bool_decide (b = []) then Gt
          else if negb a_caret then Gt
          else if negb b_caret then Lt
          else rpmvercmp_loop fuel (tail a) (tail b)
        else if bool_decide (a = []) || bool_decide (b = []) then
          match a, b with
          | [], [] => Eq
          | [], _ :: _ => Lt
          | _ :: _, [] => Gt
          | _ :: _, _ :: _ => Eq
          end
        else
          let isnum := on is_digit a in
          let p := if isnum then is_digit else is_alpha in
          let seg_a := take_while p a in
          let seg_b := take_while p b in
          if bool_decide (seg_b = []) then (if isnum then Gt else Lt)
          else
            match cmp_segments isnum seg_a seg_b with
            | Eq => rpmvercmp_loop fuel (skip_while p a) (skip_while p b)
            | o => o
            end
  end.

Definition rpmvercmp (a b : bytes) : comparison :=
  if bool_decide (a = b) then Eq else rpmvercmp_loop (S (length a + length b)) a b.

Definition rpm_split (v : bytes) : Z * bytes := split_epoch v.

Definition rpm_compare (a b : string) : comparison :=
  let '(ea, ra) := rpm_split (as_bytes a) in
  let '(eb, rb) := rpm_split (as_bytes b) in
  then_with (ea ?= eb)%Z (rpmvercmp ra rb).

(** ** semver *)

Inductive PreId :=
  | Num (n : Z)
  | Text (s : bytes).

Record Semver := mkSemver { core : Z * Z * Z; pre : list PreId }.

(** [s.split(c)]. *)
Fixpoint split_on (c : Z) (s : bytes) : list bytes :=
  match s with
  | [] => [[]]
  | x :: s =>
      match split_on c s with
      | piece :: rest => if (x =? c)%Z then [] :: piece :: rest else (x :: piece) :: rest
      | [] => []
      end
  end.

Definition parse_pre_id (id : bytes) : option PreId :=
  if negb (bool_decide (id = [])) && forallb is_digit id
  then Num <$> parse_u64 id else Some (Text id).

(** At most three parts, each a u64; missing parts are zero. *)
Definition parse_core (parts : list bytes) : option (Z * Z * Z) :=
  ns ← mapM parse_u64 parts;
  match ns with
  | [] => Some (0, 0, 0)%Z
  | [x] => Some (x, 0, 0)%Z
  | [x; y] => Some (x, y, 0)%Z
  | [x; y; z] => Some (x, y, z)
  | _ => None
  end.

Definition parse_semver (v : bytes) : option Semver :=
  let v := default v (strip_prefix [118%Z] v) in
  let v := default v (head (split_on 43 v)) in
  let '(core_str, pre_str) :=
    match split_first 45 v with
    | Some (c, p) => (c, Some p)
    | None => (v, None)
    end in
  core ← parse_core (split_on 46 core_str);
  pre ← match pre_str with
        | None => Some []
        | Some p => mapM parse_pre_id (split_on 46 p)
        end;
  Some (mkSemver core pre).

Definition cmp_pre_id (x y : PreId) : comparison :=
  match x, y with
  | Num m, Num n => (m ?= n)%Z
  | Text m, Text n => slice_cmp Z.compare m n
  | Num _, Text _ => Lt
  | Text _, Num _ => Gt
  end.

(** The zipped loop of [cmp_pre], then the lengths. *)
Fixpoint cmp_zip (a b : list PreId) : comparison :=
  match a, b with
  | x :: a, y :: b => then_with (cmp_pre_id x y) (cmp_zip a b)
  | _, _ => Nat.compare (length a) (length b)
  end.

Definition cmp_pre (a b : list PreId) : comparison :=
  match a, b with
  | [], [] => Eq
  | [], _ :: _ => Gt
  | _ :: _, [] => Lt
  | _, _ => cmp_zip a b
  end.

Definition cmp_core (x y : Z * Z * Z) : comparison :=
  then_with (then_with (x.1.1 ?= y.1.1)%Z (x.1.2 ?= y.1.2)%Z) (x.2 ?= y.2)%Z.

Definition semver_compare (a b : string) : option comparison :=
  sa ← parse_semver (as_bytes a);
  sb ← parse_semver (as_bytes b);
  Some (then_with (cmp_core (core sa) (core sb)) (cmp_pre (pre sa) (pre sb))).

Example dpkg_tilde : dpkg_compare "1.0~rc1" "1.0" = Lt.
Proof. by vm_compute. Qed.
Example dpkg_epoch : dpkg_compare "1:1.0" "2.0-3" = Gt.
Proof. by vm_compute. Qed.
Example dpkg_zeros : dpkg_compare "1.010" "1.10" = Eq.
Proof. by vm_compute. Qed.
Example rpm_mixed : rpm_compare "1.0-1.el8" "1.0-1.el9" = Lt.
Proof. by vm_compute. Qed.
Example rpm_caret : rpm_compare "1.0^git1" "1.0" = Gt.
Proof. by vm_compute. Qed.
Example semver_pre : semver_compare "1.0.0-alpha.1" "1.0.0-alpha.beta" = Some Lt.
Proof. by vm_compute. Qed.
