(* ===== verification/VersionProps.v ===== *)
(** * The version comparators are total preorders

    Each comparator is shown equal to a plain comparison of keys: a version is
    read once, by itself, into a list of weights (dpkg) or tokens (rpm), and the
    lists are compared padded with the weight of the end of the string.  The order
    laws are those of the padded comparison. *)

From stdpp Require Import base tactics strings list.
From Stdlib Require Import ZArith.
From S2P Require Import Prelude Order Transport Keys Version.

(** ** Runs *)

Lemma skip_take p s : take_while p s ++ skip_while p s = s.
Proof. induction s as [|c s IH]; simpl; [done|]. destruct (p c); simpl; by rewrite ?IH. Qed.

Lemma on_skip_while p s : on p (skip_while p s) = false.
Proof. induction s as [|c s IH]; simpl; [done|]. by destruct (p c) eqn:Hc; [|simpl]. Qed.

Lemma take_while_all p s : Forall (λ c, p c = true) (take_while p s).
Proof. induction s as [|c s IH]; simpl; [done|]. destruct (p c) eqn:Hc; by constructor. Qed.

Lemma skip_while_length p s : length (skip_while p s) ≤ length s.
Proof. induction s as [|c s IH]; simpl; [done|]. destruct (p c); simpl; lia. Qed.

Lemma skip_while_Forall P p s : Forall P s → Forall P (skip_while p s).
Proof. induction 1; simpl; [done|]. case_match; [done|by constructor]. Qed.

Lemma skip_while_stop p s : on p s = false → skip_while p s = s.
Proof. destruct s as [|c s]; simpl; [done|]. by intros ->. Qed.

Lemma take_while_stop p s : on p s = false → take_while p s = [].
Proof. destruct s as [|c s]; simpl; [done|]. by intros ->. Qed.

Lemma on_neg p s : on p s = false → s = [] ∨ on (λ c, negb (p c)) s = true.
Proof. destruct s as [|c s]; simpl; [by left|]. intros ->. by right. Qed.

(** ** Digit runs *)

Definition all_digits (s : bytes) : Prop := Forall (λ c, is_digit c = true) s.

Lemma is_digit_range c : is_digit c = true → (48 ≤ c ≤ 57)%Z.
Proof. unfold is_digit, in_range. lia. Qed.

Lemma digits_value_app s t :
  digits_value (s ++ t) = foldl (λ v c, (10 * v + (c - 48))%Z) (digits_value s) t.
Proof. unfold digits_value. by rewrite foldl_app. Qed.

Lemma digits_value_snoc s c : digits_value (s ++ [c]) = (10 * digits_value s + (c - 48))%Z.
Proof. by rewrite digits_value_app. Qed.

Lemma digits_value_bound s :
  all_digits s → (0 ≤ digits_value s < 10 ^ Z.of_nat (length s))%Z.
Proof.
  induction s as [|c s IH] using rev_ind; intros Hs.
  { unfold digits_value. simpl. lia. }
  apply Forall_app in Hs as [Hs Hc]. apply Forall_singleton, is_digit_range in Hc.
  specialize (IH Hs). rewrite digits_value_snoc, length_app, Nat2Z.inj_add. simpl.
  rewrite Z.pow_add_r by lia. change (10 ^ Z.of_nat 1)%Z with 10%Z. lia.
Qed.

(** A run without a leading zero is at least its leading power of ten. *)
Lemma digits_value_lower c s :
  all_digits (c :: s) → c ≠ 48%Z →
  (10 ^ Z.of_nat (length s) ≤ digits_value (c :: s))%Z.
Proof.
  intros Hcs Hc. induction s as [|d s IH] using rev_ind.
  { apply Forall_singleton, is_digit_range in Hcs. unfold digits_value. simpl. lia. }
  rewrite app_comm_cons in *. apply Forall_app in Hcs as [Hcs Hd].
  apply Forall_singleton, is_digit_range in Hd. specialize (IH Hcs).
  rewrite digits_value_snoc, length_app, Nat2Z.inj_add. simpl.
  rewrite Z.pow_add_r by lia. change (10 ^ Z.of_nat 1)%Z with 10%Z. lia.
Qed.

Lemma digits_value_zeros s :
  digits_value (take_while is_digit (skip_while is_zero s)) =
  digits_value (take_while is_digit s).
Proof.
  induction s as [|c s IH]; [done|]. simpl. destruct (is_zero c) eqn:Hc; [|done].
  apply Z.eqb_eq in Hc as ->. by rewrite IH.
Qed.

Lemma skip_zeros_digits s :
  skip_while is_digit (skip_while is_zero s) = skip_while is_digit s.
Proof.
  induction s as [|c s IH]; [done|]. simpl. destruct (is_zero c) eqn:Hc; [|done].
  apply Z.eqb_eq in Hc as ->. by rewrite IH.
Qed.

(** The paired loop over runs of the same length tracks the comparison of the
    two numbers read so far. *)
Lemma digit_loop_pairs x y r s fd vx vy :
  length x = length y → all_digits x → all_digits y →
  on is_digit r && on is_digit s = false → (fd ?= 0)%Z = (vx ?= vy)%Z →
  ∃ fd', digit_loop (x ++ r) (y ++ s) fd = (fd', (r, s)) ∧
    (fd' ?= 0)%Z = (foldl (λ v c, (10 * v + (c - 48))%Z) vx x
                    ?= foldl (λ v c, (10 * v + (c - 48))%Z) vy y)%Z.
Proof.
  revert y fd vx vy. induction x as [|c x IH]; intros [|d y] fd vx vy Hlen Hx Hy Hrs Hfd;
    simpl in *; try lia.
  { exists fd. split; [|done]. destruct r, s; simpl in *; try done. by rewrite Hrs. }
  apply Forall_cons in Hx as [Hc Hx], Hy as [Hd Hy]. rewrite Hc, Hd. simpl.
  apply is_digit_range in Hc, Hd. apply IH; [lia|done..|].
  destruct (Z.eqb_spec fd 0) as [->|Hne].
  - symmetry in Hfd. apply Z.compare_eq in Hfd as ->.
    destruct (Z.compare_spec (c - d) 0), (Z.compare_spec (10 * vy + (c - 48)) (10 * vy + (d - 48)));
      done || lia.
  - rewrite Hfd. destruct (Z.compare_spec vx vy) as [->| |];
      [by apply Z.compare_eq in Hfd|..].
    + symmetry. apply Z.compare_lt_iff. lia.
    + symmetry. apply Z.compare_gt_iff. lia.
Qed.

(** What the digit part of the loop decides: the comparison of the numbers. *)
Definition digit_verdict (a b : bytes) : comparison + bytes * bytes :=
  let '(first_diff, (a, b)) :=
    digit_loop (skip_while is_zero a) (skip_while is_zero b) 0 in
  if on is_digit a then inl Gt
  else if on is_digit b then inl Lt
  else if negb (first_diff =? 0)%Z then inl (first_diff ?= 0)%Z
  else inr (a, b).

Definition digit_num (s : bytes) : Z := digits_value (take_while is_digit s).

Lemma digit_run_split s :
  ∃ x r, skip_while is_zero s = x ++ r ∧ all_digits x ∧ on is_digit r = false ∧
    r = skip_while is_digit s ∧ digits_value x = digit_num s ∧ head x ≠ Some 48%Z.
Proof.
  set (s' := skip_while is_zero s).
  exists (take_while is_digit s'), (skip_while is_digit s').
  rewrite skip_take. split; [done|]. split; [apply take_while_all|].
  split; [apply on_skip_while|]. split; [apply skip_zeros_digits|].
  split; [apply digits_value_zeros|].
  pose proof (on_skip_while is_zero s) as Hon. fold s' in Hon.
  destruct s' as [|c s']; [done|]. simpl in *. apply Z.eqb_neq in Hon.
  destruct (is_digit c); simpl; congruence.
Qed.

(** The longer of two runs without leading zeros is the larger number. *)
Lemma longer_is_larger x y :
  all_digits x → all_digits y → head x ≠ Some 48%Z → length y < length x →
  (digits_value y < digits_value x)%Z.
Proof.
  intros Hx Hy Hh Hlen. destruct x as [|c x]; simpl in *; [lia|].
  pose proof (digits_value_lower c x Hx) as Hlow.
  pose proof (digits_value_bound y Hy) as Hup.
  assert (10 ^ Z.of_nat (length y) ≤ 10 ^ Z.of_nat (length x))%Z
    by (apply Z.pow_le_mono_r; lia).
  assert (c ≠ 48%Z) by congruence. specialize (Hlow H0). lia.
Qed.

Lemma digit_verdict_spec a b :
  digit_verdict a b =
  match (digit_num a ?= digit_num b)%Z with
  | Eq => inr (skip_while is_digit a, skip_while is_digit b)
  | o => inl o
  end.
Proof.
  unfold digit_verdict.
  destruct (digit_run_split a) as (x & r & -> & Hx & Hr & -> & <- & Hhx).
  destruct (digit_run_split b) as (y & s & -> & Hy & Hs & -> & <- & Hhy).
  set (r := skip_while is_digit a) in *. set (s := skip_while is_digit b) in *.
  destruct (lt_eq_lt_dec (length x) (length y)) as [[Hlt|Heq]|Hgt].
  - rewrite <-(take_drop (length x) y), <-app_assoc.
    destruct (digit_loop_pairs x (take (length x) y) r (drop (length x) y ++ s) 0 0 0)
      as (fd & -> & _); [by rewrite length_take_le by lia|done|by apply Forall_take|by rewrite Hr|done|].
    rewrite Hr. destruct (drop (length x) y) as [|d y'] eqn:Hd.
    { apply (f_equal length) in Hd. rewrite length_drop in Hd. simpl in Hd. lia. }
    assert (is_digit d = true) as Hdd.
    { assert (all_digits (d :: y')) as Hy' by (rewrite <-Hd; by apply Forall_drop).
      by apply Forall_cons in Hy' as [? _]. }
    simpl. rewrite Hdd, <-Hd, take_drop.
    pose proof (longer_is_larger y x Hy Hx Hhy Hlt) as Hl. apply Z.compare_lt_iff in Hl. by rewrite Hl.
  - destruct (digit_loop_pairs x y r s 0 0 0) as (fd & -> & Hfd); [done|done|done|by rewrite Hr|done|].
    rewrite Hr, Hs. fold (digits_value x) (digits_value y) in Hfd. rewrite <-Hfd.
    destruct (Z.eqb_spec fd 0) as [->|Hne]; simpl; [done|].
    destruct (Z.compare_spec fd 0); done.
  - rewrite <-(take_drop (length y) x), <-app_assoc.
    destruct (digit_loop_pairs (take (length y) x) y (drop (length y) x ++ r) s 0 0 0)
      as (fd & -> & _); [by rewrite length_take_le by lia|by apply Forall_take|done
        |by rewrite Hs, andb_false_r|done|].
    destruct (drop (length y) x) as [|d x'] eqn:Hd.
    { apply (f_equal length) in Hd. rewrite length_drop in Hd. simpl in Hd. lia. }
    assert (is_digit d = true) as Hdd.
    { assert (all_digits (d :: x')) as Hx' by (rewrite <-Hd; by apply Forall_drop).
      by apply Forall_cons in Hx' as [? _]. }
    simpl. rewrite Hdd, <-Hd, take_drop.
    pose proof (longer_is_larger x y Hx Hy Hhx Hgt) as Hl. apply Z.compare_gt_iff in Hl. by rewrite Hl.
Qed.

(** ** dpkg *)

Definition nondigit (c : Z) : bool := negb (is_digit c).

(** Bytes of a version: no NUL. *)
Definition version_bytes (s : bytes) : Prop := Forall (λ c, (0 < c)%Z) s.

(** The weights of a version: of each non-digit run its characters' weights and
    the weight of the run's end, then the number that follows. *)
Fixpoint dpkg_key_fuel (fuel : nat) (s : bytes) : list Z :=
  match fuel, s with
  | 0, _ | _, [] => []
  | S fuel, _ =>
      let r := skip_while nondigit s in
      (dpkg_order <$> take_while nondigit s) ++
        0%Z :: digit_num r :: dpkg_key_fuel fuel (skip_while is_digit r)
  end.
Definition dpkg_key (s : bytes) : list Z := dpkg_key_fuel (S (length s)) s.

Definition zcmp : list Z → list Z → comparison := pad_cmp Z.compare 0%Z.

Lemma zcmp_cons x y l k : zcmp (x :: l) (y :: k) = then_with (x ?= y)%Z (zcmp l k).
Proof. done. Qed.

Lemma zcmp_app w l k : zcmp (w ++ l) (w ++ k) = zcmp l k.
Proof. induction w as [|x w IH]; [done|]. simpl app. by rewrite zcmp_cons, Z.compare_refl. Qed.

Lemma dpkg_order_digit c : is_digit c = true → dpkg_order c = 0%Z.
Proof. unfold dpkg_order. by intros ->. Qed.

Lemma dpkg_order_nonzero c : nondigit c = true → (0 < c)%Z → dpkg_order c ≠ 0%Z.
Proof.
  unfold nondigit, dpkg_order. intros Hc Hpos. apply negb_true_iff in Hc. rewrite Hc.
  destruct (is_alpha c); [lia|]. destruct (Z.eqb_spec c 126); [lia|].
  destruct (Z.eqb_spec c 0); simpl; lia.
Qed.

(** At a digit or past the end the weight is zero. *)
Lemma order_at_stop s : on nondigit s = false → order_at s = 0%Z.
Proof.
  destruct s as [|c s]; [done|]. simpl. unfold nondigit, order_at. simpl.
  intros Hc%negb_false_iff. by apply dpkg_order_digit.
Qed.

Lemma nondigit_loop_spec fuel a b :
  version_bytes a → version_bytes b → length a + length b ≤ fuel →
  (∃ o, nondigit_loop fuel a b = inl o ∧ o ≠ Eq ∧ ∀ ka kb,
     zcmp ((dpkg_order <$> take_while nondigit a) ++ 0%Z :: ka)
          ((dpkg_order <$> take_while nondigit b) ++ 0%Z :: kb) = o) ∨
  (nondigit_loop fuel a b = inr (skip_while nondigit a, skip_while nondigit b) ∧
   dpkg_order <$> take_while nondigit a = dpkg_order <$> take_while nondigit b).
Proof.
  intros Ha Hb. revert a b Ha Hb. induction fuel as [|fuel IH]; intros a b Ha Hb Hf.
  { destruct a, b; simpl in *; try lia. by right. }
  cbn [nondigit_loop]. fold nondigit.
  destruct (on nondigit a) eqn:Hna, (on nondigit b) eqn:Hnb; simpl.
  - destruct a as [|c a], b as [|d b]; simpl in Hna, Hnb; try done.
    apply Forall_cons in Ha as [Hc Ha], Hb as [Hd Hb].
    assert (order_at (c :: a) = dpkg_order c) as -> by done.
    assert (order_at (d :: b) = dpkg_order d) as -> by done.
    simpl tail. simpl take_while. simpl skip_while. rewrite Hna, Hnb, !fmap_cons.
    destruct (Z.eqb_spec (dpkg_order c) (dpkg_order d)) as [Heq|Hne]; simpl negb.
    + destruct (IH a b Ha Hb) as [(o & Ho & Hne & Hk)|[Hr Hw]]; [simpl in Hf; lia|left|right].
      * exists o. split; [done|]. split; [done|]. intros ka kb. rewrite <-!app_comm_cons, zcmp_cons.
        rewrite Heq, Z.compare_refl. apply Hk.
      * by rewrite Hw, Heq.
    + left. eexists. split; [done|]. split; [by intros Hc'%Z.compare_eq|]. intros ka kb.
      rewrite <-!app_comm_cons, zcmp_cons. by destruct (Z.compare_spec (dpkg_order c) (dpkg_order d)).
  - rewrite (order_at_stop b), (take_while_stop _ b) by done.
    destruct a as [|c a]; simpl in Hna; [done|]. apply Forall_cons in Ha as [Hc Ha].
    pose proof (dpkg_order_nonzero c Hna Hc) as Hnz.
    assert (order_at (c :: a) = dpkg_order c) as -> by done.
    destruct (Z.eqb_spec (dpkg_order c) 0); [done|]. left. eexists. split; [done|].
    split; [by intros Hc'%Z.compare_eq|]. intros ka kb. simpl take_while. rewrite Hna, fmap_cons.
    rewrite <-!app_comm_cons. simpl app. rewrite zcmp_cons. by destruct (Z.compare_spec (dpkg_order c) 0).
  - rewrite (order_at_stop a), (take_while_stop _ a) by done.
    destruct b as [|c b]; simpl in Hnb; [done|]. apply Forall_cons in Hb as [Hc Hb].
    pose proof (dpkg_order_nonzero c Hnb Hc) as Hnz.
    assert (order_at (c :: b) = dpkg_order c) as -> by done.
    destruct (Z.eqb_spec 0 (dpkg_order c)); [done|]. left. eexists. split; [done|].
    split; [by intros Hc'%Z.compare_eq|]. intros ka kb. simpl take_while. rewrite Hnb, fmap_cons.
    rewrite <-!app_comm_cons. simpl app. rewrite zcmp_cons. by destruct (Z.compare_spec 0 (dpkg_order c)).
  - right. by rewrite !skip_while_stop, !take_while_stop by done.
Qed.

(** One round of the outer loop, in terms of the numbers. *)
Lemma verrevcmp_loop_step fuel a b :
  verrevcmp_loop (S fuel) a b =
  if bool_decide (a = [] ∧ b = []) then Eq else
  match nondigit_loop (length a + length b) a b with
  | inl o => o
  | inr (a, b) =>
      then_with (digit_num a ?= digit_num b)%Z
        (verrevcmp_loop fuel (skip_while is_digit a) (skip_while is_digit b))
  end.
Proof.
  assert (∀ a b : bytes, (let '(first_diff, (a, b)) :=
      digit_loop (skip_while is_zero a) (skip_while is_zero b) 0 in
    if on is_digit a then Gt else if on is_digit b then Lt
    else if negb (first_diff =? 0)%Z then (first_diff ?= 0)%Z
    else verrevcmp_loop fuel a b) =
    match digit_verdict a b with inl o => o | inr (a, b) => verrevcmp_loop fuel a b end) as Hd.
  { intros a' b'. unfold digit_verdict.
    destruct (digit_loop _ _ _) as [fd [ra rb]]. by repeat case_match. }
  assert (verrevcmp_loop (S fuel) a b = if bool_decide (a = [] ∧ b = []) then Eq else
    match nondigit_loop (length a + length b) a b with
    | inl o => o
    | inr (a, b) => match digit_verdict a b with inl o => o
                    | inr (a, b) => verrevcmp_loop fuel a b end
    end) as ->.
  { destruct a, b; [done|..]; rewrite bool_decide_eq_false_2 by naive_solver;
      cbn [verrevcmp_loop]; (destruct (nondigit_loop _ _ _) as [o|[a' b']]; [done|apply Hd]). }
  case_bool_decide; [done|]. destruct (nondigit_loop _ _ _) as [o|[a' b']]; [done|].
  rewrite digit_verdict_spec. by destruct (_ ?= _)%Z.
Qed.

(** One round of the key; past the end it reads as zeros. *)
Definition dpkg_round (n : nat) (s : bytes) : list Z :=
  (dpkg_order <$> take_while nondigit s) ++ 0%Z :: digit_num (skip_while nondigit s)
    :: dpkg_key_fuel n (skip_while is_digit (skip_while nondigit s)).

Lemma zcmp_zeros k : zcmp [0%Z; 0%Z] k = zcmp [] k.
Proof.
  unfold zcmp. rewrite (pad_cmp_step _ _ [] k), (pad_cmp_step _ _ [0%Z; 0%Z] k). f_equal.
  by rewrite (pad_cmp_step _ _ [] (tail k)), (pad_cmp_step _ _ (tail [0%Z; 0%Z]) (tail k)).
Qed.

Lemma dpkg_key_step n s :
  length s ≤ n → zcmp (dpkg_key_fuel n s) (dpkg_round (pred n) s) = Eq.
Proof.
  destruct s as [|c s], n as [|n]; simpl; intros Hn; try lia; [done| |apply (cmp_refl zcmp)].
  unfold dpkg_round. by destruct n; vm_compute.
Qed.

Lemma dpkg_rest_shorter s :
  s ≠ [] → length (skip_while is_digit (skip_while nondigit s)) < length s.
Proof.
  intros Hs. pose proof (skip_while_length is_digit (skip_while nondigit s)) as H1.
  pose proof (skip_while_length nondigit s) as H2.
  destruct s as [|c s]; [done|]. simpl in *. destruct (nondigit c) eqn:Hc.
  - pose proof (skip_while_length nondigit s). lia.
  - simpl in *. unfold nondigit in Hc. apply negb_false_iff in Hc. rewrite Hc in *.
    pose proof (skip_while_length is_digit s). lia.
Qed.

Lemma dpkg_rest_le s : length (skip_while is_digit (skip_while nondigit s)) ≤ length s.
Proof. destruct s as [|c s]; [done|]. pose proof (dpkg_rest_shorter (c :: s)). naive_solver lia. Qed.

Lemma dpkg_rest_bound n s :
  length s ≤ n → length (skip_while is_digit (skip_while nondigit s)) ≤ pred n.
Proof.
  intros Hn. destruct s as [|c s]; simpl in *; [lia|].
  pose proof (dpkg_rest_shorter (c :: s)). simpl in *. naive_solver lia.
Qed.

Lemma verrevcmp_key fuel n m a b :
  version_bytes a → version_bytes b → length a + length b < fuel →
  length a ≤ n → length b ≤ m →
  verrevcmp_loop fuel a b = zcmp (dpkg_key_fuel n a) (dpkg_key_fuel m b).
Proof.
  revert n m a b. induction fuel as [|fuel IH]; intros n m a b Ha Hb Hf Hn Hm; [lia|].
  rewrite verrevcmp_loop_step, (cmp_eq_l zcmp _ _ _ (dpkg_key_step n a Hn)),
    (cmp_eq_r zcmp _ _ _ (dpkg_key_step m b Hm)).
  case_bool_decide as Hnil.
  { destruct Hnil as [-> ->]. unfold dpkg_round. simpl. by destruct n as [|[|]], m as [|[|]]. }
  unfold dpkg_round.
  destruct (nondigit_loop_spec (length a + length b) a b Ha Hb) as [(o & -> & Ho & Hk)|[-> ->]];
    [lia|by rewrite Hk|].
  rewrite zcmp_app, !zcmp_cons, Z.compare_refl. cbn [then_with]. f_equal.
  pose proof (dpkg_rest_bound _ _ Hn). pose proof (dpkg_rest_bound _ _ Hm).
  apply IH; [by repeat apply skip_while_Forall|by repeat apply skip_while_Forall| |done|done].
  pose proof (dpkg_rest_le a). pose proof (dpkg_rest_le b).
  destruct (decide (a = [])) as [->|Hane]; [|pose proof (dpkg_rest_shorter a Hane); lia].
  destruct (decide (b = [])) as [->|Hbne]; [naive_solver|].
  pose proof (dpkg_rest_shorter b Hbne). lia.
Qed.

(** dpkg's fragment comparison is the comparison of the keys. *)
Lemma dpkg_verrevcmp_key a b :
  version_bytes a → version_bytes b →
  dpkg_verrevcmp a b = zcmp (dpkg_key a) (dpkg_key b).
Proof. intros Ha Hb. apply verrevcmp_key; try done; lia. Qed.

(** ** rpm *)

(** A token: its class (tilde, end, caret, letters, number, in this order), the
    number of significant digits, the text. *)
Definition rpm_token : Type := Z * nat * bytes.
Definition tok_tilde : rpm_token := ((-1)%Z, 0, []).
Definition tok_end : rpm_token := (0%Z, 0, []).
Definition tok_caret : rpm_token := (1%Z, 0, []).
Definition tok_alpha (s : bytes) : rpm_token := (2%Z, 0, s).
Definition tok_num (s : bytes) : rpm_token :=
  (3%Z, length (strip_leading_zeros s), strip_leading_zeros s).

Definition tok_cmp (x y : rpm_token) : comparison :=
  then_with (then_with (x.1.1 ?= y.1.1)%Z (Nat.compare x.1.2 y.1.2))
    (slice_cmp Z.compare x.2 y.2).

#[export] Instance tok_comparison : Comparison tok_cmp.
Proof.
  assert (Comparison (λ x y : rpm_token, (x.1.1 ?= y.1.1)%Z)) as H1
    by exact (comparison_of_key (λ t : rpm_token, t.1.1) Z.compare).
  assert (Comparison (λ x y : rpm_token, Nat.compare x.1.2 y.1.2)) as H2
    by exact (comparison_of_key (λ t : rpm_token, t.1.2) Nat.compare).
  assert (Comparison (λ x y : rpm_token, slice_cmp Z.compare x.2 y.2)) as H3
    by exact (comparison_of_key (λ t : rpm_token, t.2) (slice_cmp Z.compare)).
  pose proof (comparison_then _ _ (Comparison0:=H1) (Comparison1:=H2)) as H12.
  exact (comparison_then _ _ (Comparison0:=H12) (Comparison1:=H3)).
Qed.

Definition rcmp : list rpm_token → list rpm_token → comparison := pad_cmp tok_cmp tok_end.

(** The first token of a position past the separators, and what follows. *)
Definition rpm_head (s : bytes) : option (rpm_token * bytes) :=
  match s with
  | [] => None
  | c :: s' =>
      if is_tilde c then Some (tok_tilde, s')
      else if is_caret c then Some (tok_caret, s')
      else if is_digit c then Some (tok_num (take_while is_digit s), skip_while is_digit s)
      else Some (tok_alpha (take_while is_alpha s), skip_while is_alpha s)
  end.

Fixpoint rpm_key_fuel (fuel : nat) (s : bytes) : list rpm_token :=
  match fuel with
  | 0 => []
  | S fuel =>
      match rpm_head (skip_while is_separator s) with
      | None => []
      | Some (t, rest) => t :: rpm_key_fuel fuel rest
      end
  end.
Definition rpm_key (s : bytes) : list rpm_token := rpm_key_fuel (S (length s)) s.

(** What stands at a position past the separators. *)
Variant rpm_at : bytes → Prop :=
  | at_end : rpm_at []
  | at_tilde s : rpm_at (126%Z :: s)
  | at_caret s : rpm_at (94%Z :: s)
  | at_num c s : is_digit c = true → is_alpha c = false → is_tilde c = false →
      is_caret c = false → rpm_at (c :: s)
  | at_alpha c s : is_alpha c = true → is_digit c = false → is_tilde c = false →
      is_caret c = false → rpm_at (c :: s).

Lemma rpm_at_skip s : rpm_at (skip_while is_separator s).
Proof.
  pose proof (on_skip_while is_separator s) as Hon.
  destruct (skip_while is_separator s) as [|c s']; [constructor|]. simpl in Hon.
  unfold is_separator, is_alnum in Hon.
  destruct (is_tilde c) eqn:Ht; [apply Z.eqb_eq in Ht as ->; constructor|].
  destruct (is_caret c) eqn:Hc; [apply Z.eqb_eq in Hc as ->; constructor|].
  destruct (is_digit c) eqn:Hd.
  - apply at_num; try done. unfold is_digit, is_alpha, in_range in *. lia.
  - apply at_alpha; try done. simpl in Hon. by destruct (is_alpha c).
Qed.

(** The comparison of the first tokens, and of the rest. *)
Definition head_cmp (a b : bytes) (rest : bytes → bytes → comparison) : comparison :=
  match rpm_head a, rpm_head b with
  | None, None => Eq
  | Some (t, a'), Some (u, b') => then_with (tok_cmp t u) (rest a' b')
  | Some (t, _), None => tok_cmp t tok_end
  | None, Some (u, _) => tok_cmp tok_end u
  end.

Lemma cmp_segments_tok isnum x y :
  cmp_segments isnum x y =
  if isnum then tok_cmp (tok_num x) (tok_num y) else tok_cmp (tok_alpha x) (tok_alpha y).
Proof. by destruct isnum. Qed.

Lemma rpm_loop_step fuel a b :
  rpmvercmp_loop (S fuel) a b =
  head_cmp (skip_while is_separator a) (skip_while is_separator b) (rpmvercmp_loop fuel).
Proof.
  cbn [rpmvercmp_loop]. set (a' := skip_while is_separator a). set (b' := skip_while is_separator b).
  pose proof (rpm_at_skip a) as Ha. pose proof (rpm_at_skip b) as Hb. fold a' in Ha. fold b' in Hb.
  clearbody a' b'. unfold head_cmp, rpm_head.
  destruct Ha as [|s|s|c s H1 H2 H3 H4|c s H1 H2 H3 H4], Hb as [|t|t|d t G1 G2 G3 G4|d t G1 G2 G3 G4];
    cbn [on]; rewrite ?H1, ?H2, ?H3, ?H4, ?G1, ?G2, ?G3, ?G4; try done;
    cbn [orb negb]; cbn [take_while skip_while]; rewrite ?H1, ?H2, ?G1, ?G2; try done;
    rewrite !bool_decide_eq_false_2 by done; rewrite cmp_segments_tok; cbn [orb];
    by destruct (tok_cmp _ _).
Qed.

Lemma rpm_head_spec s t rest :
  rpm_at s → rpm_head s = Some (t, rest) →
  length rest < length s ∧ ∃ o, tok_cmp t tok_end = o ∧ o ≠ Eq.
Proof.
  intros Hs. unfold rpm_head. destruct Hs as [|s|s|c s H1 H2 H3 H4|c s H1 H2 H3 H4];
    rewrite ?H1, ?H2, ?H3, ?H4; intros [= <- <-]; cbn [skip_while]; rewrite ?H1.
  - split; [simpl; lia|by eexists].
  - split; [simpl; lia|by eexists].
  - pose proof (skip_while_length is_digit s). split; [simpl; lia|by eexists].
  - pose proof (skip_while_length is_alpha s). split; [simpl; lia|by eexists].
Qed.

Lemma then_with_decided o p : o ≠ Eq → then_with o p = o.
Proof. by destruct o. Qed.

Lemma rpmvercmp_loop_key fuel n m a b :
  length a + length b < fuel → length a < n → length b < m →
  rpmvercmp_loop fuel a b = rcmp (rpm_key_fuel n a) (rpm_key_fuel m b).
Proof.
  revert n m a b. induction fuel as [|fuel IH]; intros n m a b Hf Hn Hm; [lia|].
  destruct n as [|n]; [lia|]. destruct m as [|m]; [lia|].
  rewrite rpm_loop_step. cbn [rpm_key_fuel]. unfold head_cmp.
  pose proof (skip_while_length is_separator a). pose proof (skip_while_length is_separator b).
  pose proof (rpm_at_skip a) as Ha. pose proof (rpm_at_skip b) as Hb.
  destruct (rpm_head (skip_while is_separator a)) as [[t a']|] eqn:Hha;
    [destruct (rpm_head_spec _ _ _ Ha Hha) as (? & o1 & Ho1 & Hne1)|];
    (destruct (rpm_head (skip_while is_separator b)) as [[u b']|] eqn:Hhb;
    [destruct (rpm_head_spec _ _ _ Hb Hhb) as (? & o2 & Ho2 & Hne2)|]).
  - unfold rcmp. cbn [pad_cmp]. f_equal. apply IH; lia.
  - unfold rcmp. cbn [pad_cmp]. symmetry. apply then_with_decided. congruence.
  - unfold rcmp. cbn [pad_cmp pad_cmp_nil]. symmetry. apply then_with_decided.
    rewrite (cmp_opp tok_cmp u tok_end), Ho2. by destruct o2.
  - done.
Qed.

Lemma rpmvercmp_key a b : rpmvercmp a b = rcmp (rpm_key a) (rpm_key b).
Proof.
  unfold rpmvercmp. case_bool_decide as Hab.
  - subst. symmetry. apply (cmp_refl rcmp).
  - apply rpmvercmp_loop_key; lia.
Qed.

(** ** semver *)

#[export] Instance pre_id_comparison : Comparison cmp_pre_id.
Proof.
  split.
  - intros [m|m]; simpl; [apply Z.compare_refl|apply (cmp_refl (slice_cmp Z.compare))].
  - intros [m|m] [n|n]; simpl; try done;
      [apply Z.compare_antisym|apply (cmp_opp (slice_cmp Z.compare))].
  - intros [m|m] [n|n] [k|k]; simpl; try done;
      [apply (cmp_trans Z.compare)|apply (cmp_trans (slice_cmp Z.compare))].
Qed.

Lemma cmp_zip_slice a b : cmp_zip a b = slice_cmp cmp_pre_id a b.
Proof.
  revert b. induction a as [|x a IH]; intros [|y b]; simpl; try done. by rewrite IH.
Qed.

#[export] Instance pre_comparison : Comparison cmp_pre.
Proof.
  split.
  - intros [|x a]; [done|]. unfold cmp_pre. rewrite cmp_zip_slice.
    apply (cmp_refl (slice_cmp cmp_pre_id)).
  - intros [|x a] [|y b]; try done. unfold cmp_pre. rewrite !cmp_zip_slice.
    apply (cmp_opp (slice_cmp cmp_pre_id)).
  - intros [|x a] [|y b] [|z c]; try done. unfold cmp_pre. rewrite !cmp_zip_slice.
    apply (cmp_trans (slice_cmp cmp_pre_id)).
Qed.

#[export] Instance core_comparison : Comparison cmp_core.
Proof.
  pose proof (comparison_of_key (λ t : Z * Z * Z, t.1.1) Z.compare) as H1.
  pose proof (comparison_of_key (λ t : Z * Z * Z, t.1.2) Z.compare) as H2.
  pose proof (comparison_of_key (λ t : Z * Z * Z, t.2) Z.compare) as H3.
  pose proof (comparison_then _ _ (Comparison0:=H1) (Comparison1:=H2)) as H12.
  exact (comparison_then _ _ (Comparison0:=H12) (Comparison1:=H3)).
Qed.

Definition semver_cmp (x y : Semver) : comparison :=
  then_with (cmp_core (core x) (core y)) (cmp_pre (pre x) (pre y)).

#[export] Instance semver_comparison : Comparison semver_cmp.
Proof.
  pose proof (comparison_of_key core cmp_core) as H1.
  pose proof (comparison_of_key pre cmp_pre) as H2.
  exact (comparison_then _ _ (Comparison0:=H1) (Comparison1:=H2)).
Qed.

(** ** Whole versions *)

Lemma split_first_Forall P c s l r :
  split_first c s = Some (l, r) → Forall P s → Forall P l ∧ Forall P r.
Proof.
  revert l r. induction s as [|x s IH]; simpl; intros l r H Hs; [done|].
  apply Forall_cons in Hs as [Hx Hs]. destruct (x =? c)%Z; [by simplify_eq|].
  destruct (split_first c s) as [[l' r']|]; simplify_eq.
  destruct (IH l' r eq_refl Hs). split; [by constructor|done].
Qed.

Lemma dpkg_split_Forall P v :
  Forall P v → Forall P (dpkg_split v).1.2 ∧ Forall P (dpkg_split v).2.
Proof.
  intros Hv. unfold dpkg_split.
  assert (Forall P (split_epoch v).2) as Hrest.
  { unfold split_epoch. destruct (split_first 58 v) as [[e r]|] eqn:Hs; [|done].
    destruct (split_first_Forall P _ _ _ _ Hs Hv). by case_match. }
  destruct (split_epoch v) as [epoch rest]. simpl in Hrest. unfold split_last.
  destruct (split_first 45 (reverse rest)) as [[l r]|] eqn:Hs; [|done]. simpl.
  destruct (split_first_Forall P _ _ _ _ Hs) as [Hl Hr]; [by apply Forall_reverse|].
  split; by apply Forall_reverse.
Qed.

(** A version string without NUL bytes. *)
Definition version_string (v : string) : Prop := version_bytes (as_bytes v).

(** Epoch, upstream and revision keys, compared in this order. *)
Definition dpkg_full_key (v : string) : Z * list Z * list Z :=
  let '(e, u, r) := dpkg_split (as_bytes v) in (e, dpkg_key u, dpkg_key r).

Definition dpkg_full_cmp (x y : Z * list Z * list Z) : comparison :=
  then_with (then_with (x.1.1 ?= y.1.1)%Z (zcmp x.1.2 y.1.2)) (zcmp x.2 y.2).

#[export] Instance dpkg_full_comparison : Comparison dpkg_full_cmp.
Proof.
  pose proof (comparison_of_key (λ t : Z * list Z * list Z, t.1.1) Z.compare) as H1.
  pose proof (comparison_of_key (λ t : Z * list Z * list Z, t.1.2) zcmp) as H2.
  pose proof (comparison_of_key (λ t : Z * list Z * list Z, t.2) zcmp) as H3.
  pose proof (comparison_then _ _ (Comparison0:=H1) (Comparison1:=H2)) as H12.
  exact (comparison_then _ _ (Comparison0:=H12) (Comparison1:=H3)).
Qed.

Lemma dpkg_compare_key a b :
  version_string a → version_string b →
  dpkg_compare a b = dpkg_full_cmp (dpkg_full_key a) (dpkg_full_key b).
Proof.
  intros Ha Hb. unfold dpkg_compare, dpkg_full_key, dpkg_full_cmp.
  destruct (dpkg_split_Forall _ _ Ha) as [Hua Hra], (dpkg_split_Forall _ _ Hb) as [Hub Hrb].
  destruct (dpkg_split (as_bytes a)) as [[ea ua] ra], (dpkg_split (as_bytes b)) as [[eb ub] rb].
  simpl in *. by rewrite !dpkg_verrevcmp_key.
Qed.

Definition rpm_full_cmp (x y : Z * bytes) : comparison :=
  then_with (x.1 ?= y.1)%Z (rcmp (rpm_key x.2) (rpm_key y.2)).

#[export] Instance rpm_full_comparison : Comparison rpm_full_cmp.
Proof.
  pose proof (comparison_of_key (λ t : Z * bytes, t.1) Z.compare) as H1.
  pose proof (comparison_of_key (λ t : Z * bytes, rpm_key t.2) rcmp) as H2.
  exact (comparison_then _ _ (Comparison0:=H1) (Comparison1:=H2)).
Qed.

Lemma rpm_compare_key a b :
  rpm_compare a b = rpm_full_cmp (rpm_split (as_bytes a)) (rpm_split (as_bytes b)).
Proof.
  unfold rpm_compare, rpm_full_cmp. destruct (rpm_split (as_bytes a)), (rpm_split (as_bytes b)).
  simpl. by rewrite rpmvercmp_key.
Qed.

Lemma semver_compare_eq a b :
  semver_compare a b =
  match parse_semver (as_bytes a), parse_semver (as_bytes b) with
  | Some x, Some y => Some (semver_cmp x y)
  | _, _ => None
  end.
Proof.
  unfold semver_compare.
  by destruct (parse_semver (as_bytes a)), (parse_semver (as_bytes b)).
Qed.

(** ** The theorems *)

(** On strings without NUL bytes, dpkg's comparison is a total preorder:
    every version equals itself, swapping the arguments flips the answer, and the
    order is transitive. *)
Theorem dpkg_compare_total_preorder a b c :
  version_string a → version_string b → version_string c →
  dpkg_compare a a = Eq ∧ dpkg_compare b a = CompOpp (dpkg_compare a b) ∧
  (dpkg_compare a b ≠ Gt → dpkg_compare b c ≠ Gt → dpkg_compare a c ≠ Gt).
Proof.
  intros Ha Hb Hc. rewrite !dpkg_compare_key by done.
  split; [apply (cmp_refl dpkg_full_cmp)|]. split; [apply (cmp_opp dpkg_full_cmp)|].
  apply (cmp_trans dpkg_full_cmp).
Qed.

(** Rpm's comparison is a total preorder on all strings. *)
Theorem rpm_compare_total_preorder a b c :
  rpm_compare a a = Eq ∧ rpm_compare b a = CompOpp (rpm_compare a b) ∧
  (rpm_compare a b ≠ Gt → rpm_compare b c ≠ Gt → rpm_compare a c ≠ Gt).
Proof.
  rewrite !rpm_compare_key.
  split; [apply (cmp_refl rpm_full_cmp)|]. split; [apply (cmp_opp rpm_full_cmp)|].
  apply (cmp_trans rpm_full_cmp).
Qed.

(** Semver comparison fails exactly when a side does not parse, and is a
    total preorder on the strings that do. *)
Theorem semver_compare_total_preorder a b c :
  (semver_compare a b = None ↔
     parse_semver (as_bytes a) = None ∨ parse_semver (as_bytes b) = None) ∧
  (semver_compare a b = None ∨ semver_compare a a = Some Eq) ∧
  semver_compare b a = CompOpp <$> semver_compare a b ∧
  (∀ o1 o2, semver_compare a b = Some o1 → semver_compare b c = Some o2 →
     o1 ≠ Gt → o2 ≠ Gt → ∃ o3, semver_compare a c = Some o3 ∧ o3 ≠ Gt).
Proof.
  rewrite !semver_compare_eq.
  destruct (parse_semver (as_bytes a)) as [sa|], (parse_semver (as_bytes b)) as [sb|];
    simpl; try naive_solver.
  rewrite (cmp_refl semver_cmp), (cmp_opp semver_cmp sa sb).
  split; [naive_solver|]. split; [naive_solver|]. split; [done|]. intros o1 o2.
  destruct (parse_semver (as_bytes c)) as [sc|]; [|done]. intros [= <-] [= <-] H1 H2.
  eexists. split; [done|]. by apply (cmp_trans semver_cmp sa sb sc).
Qed.

Lemma dpkg_compare_total_preorder_witness :
  dpkg_compare "1.0~rc1" "1.0-1" ≠ Gt ∧ dpkg_compare "1.0-1" "1:0.9" ≠ Gt ∧
  dpkg_compare "1.0~rc1" "1:0.9" ≠ Gt.
Proof.
  split; [by vm_compute|]. split; [by vm_compute|].
  apply (dpkg_compare_total_preorder "1.0~rc1" "1.0-1" "1:0.9");
    [unfold version_string, version_bytes; repeat constructor; lia..|by vm_compute|by vm_compute].
Defined.

(** A numeric pre-release identifier with a leading zero is accepted and
    compares equal to the one without, although the parser's comment says such
    identifiers fail the parse. *)
Theorem semver_leading_zero_accepted :
  semver_compare "1.0.0-01" "1.0.0-1" = Some Eq.
Proof. by vm_compute. Qed.
