(* ===== verification/Findings.v ===== *)
(** * The findings data contract

    [crates/findings/src/lib.rs]: the canonical, deduplicated finding and its
    parts.  Enums live in a module of their own so that constructors keep their
    names. *)

From stdpp Require Import base tactics strings list.
From Stdlib Require Import ZArith.
From S2P Require Import Prelude Float32 Order.

Module DetectionMethod.
Inductive DetectionMethod := Authenticated | Unauthenticated.
End DetectionMethod.
Abbreviation DetectionMethod := DetectionMethod.DetectionMethod.

Module ExploitMaturity.
Inductive ExploitMaturity := None | Poc | Functional | Weaponized | InTheWild.
End ExploitMaturity.
Abbreviation ExploitMaturity := ExploitMaturity.ExploitMaturity.

Module VexStatus.
Inductive VexStatus := Affected | NotAffected | Unknown.
End VexStatus.
Abbreviation VexStatus := VexStatus.VexStatus.

Module Criticality.
Inductive Criticality := CrownJewel | High | Normal | Low.
End Criticality.
Abbreviation Criticality := Criticality.Criticality.

(** The SSVC-style [Decision] (stdpp's [Decision] is the decidability class). *)
Module Ssvc.
Inductive Decision := Act | Attend | Track | Defer.
End Ssvc.

Module FindingState.
Inductive FindingState := Open | Suppressed | Reopened | Closed | Accepted.
End FindingState.
Abbreviation FindingState := FindingState.FindingState.

#[export] Instance DetectionMethod_eq_dec : EqDecision DetectionMethod.
Proof. solve_decision. Defined.
#[export] Instance ExploitMaturity_eq_dec : EqDecision ExploitMaturity.
Proof. solve_decision. Defined.
#[export] Instance VexStatus_eq_dec : EqDecision VexStatus.
Proof. solve_decision. Defined.
#[export] Instance Criticality_eq_dec : EqDecision Criticality.
Proof. solve_decision. Defined.
#[export] Instance Ssvc_eq_dec : EqDecision Ssvc.Decision.
Proof. solve_decision. Defined.
#[export] Instance FindingState_eq_dec : EqDecision FindingState.
Proof. solve_decision. Defined.

Record Identity := mkIdentity {
  asset_id : string;
  vuln_id : string;
  component : string;
  location : string;
}.
#[export] Instance Identity_eq_dec : EqDecision Identity.
Proof. solve_decision. Defined.

(** The derived [Ord]: field by field. *)
Definition identity_cmp (a b : Identity) : comparison :=
  then_with (string_cmp (asset_id a) (asset_id b))
    (then_with (string_cmp (vuln_id a) (vuln_id b))
      (then_with (string_cmp (component a) (component b))
        (string_cmp (location a) (location b)))).

#[export] Instance identity_comparison : Comparison identity_cmp.
Proof.
  pose proof (comparison_of_key asset_id string_cmp) as Ha.
  pose proof (comparison_of_key vuln_id string_cmp) as Hv.
  pose proof (comparison_of_key component string_cmp) as Hc.
  pose proof (comparison_of_key location string_cmp) as Hl.
  exact (comparison_then _ _ (Comparison1 := comparison_then _ _ (Comparison1 := comparison_then _ _))).
Qed.

#[export] Instance identity_comparison_eq : ComparisonEq identity_cmp.
Proof.
  intros [a v c l] [a' v' c' l']. unfold identity_cmp. simpl.
  destruct (string_cmp a a') eqn:Ha; [|done..]. destruct (string_cmp v v') eqn:Hv; [|done..].
  destruct (string_cmp c c') eqn:Hc; [|done..]. intros Hl. simpl in Hl.
  apply string_comparison_eq in Ha, Hv, Hc, Hl. by subst.
Qed.

Record Provenance := mkProvenance {
  p_source : string;
  p_method : DetectionMethod;
  p_reported_severity : option string;
  p_confidence : f32;
}.

Record Enrichment := mkEnrichment {
  cvss_vector : option string;
  cvss_env : option f32;
  epss : option f32;
  epss_pct : option f32;
  kev : bool;
  exploit_maturity : ExploitMaturity;
  vex : VexStatus;
  feed_version : option string;
}.

Record AssetContext := mkAssetContext {
  internet_facing : bool;
  criticality : Criticality;
  compensating_controls : bool;
}.

Record ScoreExplain := mkScoreExplain {
  sev : f32;
  likelihood : f32;
  exposure : f32;
  crit : f32;
  reach : f32;
  runtime_reachable : option bool;
}.

Record Score := mkScore { r : Z; explain : ScoreExplain }.

Record Finding := mkFinding {
  finding_id : string;
  identity : Identity;
  provenance : list Provenance;
  enrichment : Enrichment;
  asset_ctx : AssetContext;
  score : Score;
  decision : Ssvc.Decision;
  sla_hours : Z;
  remediation_key : string;
  status : FindingState;
  first_seen : option Z;
  last_seen : option Z;
  closed_at : option Z;
}.

Record RemediationItem := mkRemediationItem {
  item_key : string;
  risk : Z;
  closes : list string;
  assets : list string;
}.

(** Assignments to the fields the lifecycle code writes. *)
Definition set_status (s : FindingState) (f : Finding) : Finding :=
  mkFinding (finding_id f) (identity f) (provenance f) (enrichment f) (asset_ctx f)
    (score f) (decision f) (sla_hours f) (remediation_key f) s (first_seen f)
    (last_seen f) (closed_at f).
Definition set_seen (first last : option Z) (f : Finding) : Finding :=
  mkFinding (finding_id f) (identity f) (provenance f) (enrichment f) (asset_ctx f)
    (score f) (decision f) (sla_hours f) (remediation_key f) (status f) first
    last (closed_at f).
Definition set_closed_at (c : option Z) (f : Finding) : Finding :=
  mkFinding (finding_id f) (identity f) (provenance f) (enrichment f) (asset_ctx f)
    (score f) (decision f) (sla_hours f) (remediation_key f) (status f) (first_seen f)
    (last_seen f) c.
Definition set_provenance (p : list Provenance) (f : Finding) : Finding :=
  mkFinding (finding_id f) (identity f) p (enrichment f) (asset_ctx f)
    (score f) (decision f) (sla_hours f) (remediation_key f) (status f) (first_seen f)
    (last_seen f) (closed_at f).
