(* ===== verification/Engine.v ===== *)
(** * The findings engine

    [server/findings-engine/src]: [input.rs] (a raw detection, the injected
    sources), [score.rs], [decide.rs], [correlate.rs], [lib.rs] ([Engine::run]),
    [aggregate.rs] and [lifecycle.rs].  A panic ([dets\[0\]] on an empty group) is
    [None]. *)

From stdpp Require Import base tactics gmap strings list.
From Stdlib Require Import ZArith.
From S2P Require Import Prelude Float32 Order Findings.

Local Open Scope Z_scope.

(** ** Inputs (input.rs) *)

Record RawDetection := mkRawDetection {
  rd_identity : Identity;
  rd_source : string;
  rd_method : DetectionMethod;
  rd_reported_severity : option string;
  rd_confidence : f32;
  rd_remediation_key : string;
}.

Class EnrichmentSource (E : Type) := enr_lookup : E → string → option Enrichment.
Class AssetContextSource (A : Type) := asset_context : A → string → AssetContext.
Class ReachabilitySource (R : Type) := {
  has_data : R → string → bool;
  confirmed : R → Identity → bool;
}.

Record MapEnrichment := mkMapEnrichment { enr_map : gmap string Enrichment }.
#[export] Instance MapEnrichment_source : EnrichmentSource MapEnrichment :=
  λ e vuln, enr_map e !! vuln.

Record MapAssetContext := mkMapAssetContext {
  by_asset : gmap string AssetContext;
  ctx_default : AssetContext;
}.
#[export] Instance MapAssetContext_source : AssetContextSource MapAssetContext :=
  λ a asset, default (ctx_default a) (by_asset a !! asset).

Record MapReachability := mkMapReachability {
  assets_with_data : gset string;
  confirmed_pairs : gset (string * string);
}.
#[export] Instance MapReachability_source : ReachabilitySource MapReachability := {|
  has_data m asset := bool_decide (asset ∈ assets_with_data m);
  confirmed m id := bool_decide ((asset_id id, component id) ∈ confirmed_pairs m);
|}.

Inductive NoReachability := mkNoReachability.
#[export] Instance NoReachability_source : ReachabilitySource NoReachability := {|
  has_data _ _ := false;
  confirmed _ _ := false;
|}.

(** ** Scoring (score.rs) *)

Definition exploit_maturity_weight (m : ExploitMaturity) : f32 :=
  match m with
  | ExploitMaturity.None => f32_zero
  | ExploitMaturity.Poc => f32_lit 4 10
  | ExploitMaturity.Functional => f32_lit 7 10
  | ExploitMaturity.Weaponized => f32_lit 9 10
  | ExploitMaturity.InTheWild => f32_one
  end.

Definition reach_gate (v : VexStatus) : f32 :=
  match v with
  | VexStatus.Affected => f32_one
  | VexStatus.Unknown => f32_lit 3 10
  | VexStatus.NotAffected => f32_zero
  end.

Definition criticality_weight (c : Criticality) : f32 :=
  match c with
  | Criticality.CrownJewel => f32_lit 15 10
  | Criticality.High => f32_lit 12 10
  | Criticality.Normal => f32_lit 9 10
  | Criticality.Low => f32_lit 5 10
  end.

Definition exposure_factor (ctx : AssetContext) : f32 :=
  let e := if internet_facing ctx then f32_lit 14 10 else f32_lit 8 10 in
  let e := if compensating_controls ctx then f32_mul e (f32_lit 5 10) else e in
  f32_clamp e (f32_lit 2 10) (f32_lit 15 10).

(** [(100.0 * raw).round() as u8]. *)
Definition percent (raw : f32) : Z := f32_round_as_u8 (f32_mul (f32_of_Z 100) raw).

Definition recompute_score_with_reach (enr : Enrichment) (ctx : AssetContext)
    (reach : f32) : Score :=
  let sev := f32_clamp (f32_div (default f32_zero (cvss_env enr)) (f32_of_Z 10)) f32_zero f32_one in
  let likelihood :=
    f32_clamp (f32_max (default f32_zero (epss enr))
      (exploit_maturity_weight (exploit_maturity enr))) f32_zero f32_one in
  let exposure := exposure_factor ctx in
  let crit := criticality_weight (criticality ctx) in
  let raw := f32_clamp
    (f32_mul (f32_mul (f32_mul (f32_mul sev
      (f32_add (f32_lit 4 10) (f32_mul (f32_lit 6 10) likelihood))) exposure) crit) reach)
    f32_zero f32_one in
  mkScore (percent raw) (mkScoreExplain sev likelihood exposure crit reach None).

Definition recompute_score (enr : Enrichment) (ctx : AssetContext) : Score :=
  recompute_score_with_reach enr ctx (reach_gate (vex enr)).

Definition recompute_compliance_score (weight : f32) (ctx : AssetContext) : Score :=
  let sev := f32_clamp weight f32_zero f32_one in
  let exposure := exposure_factor ctx in
  let crit := criticality_weight (criticality ctx) in
  let raw := f32_clamp (f32_mul (f32_mul sev exposure) crit) f32_zero f32_one in
  mkScore (percent raw) (mkScoreExplain sev f32_one exposure crit f32_one None).

(** ** Decision (decide.rs) *)

Definition decision_sla_hours (d : Ssvc.Decision) : Z :=
  match d with
  | Ssvc.Act => 48
  | Ssvc.Attend => 336
  | Ssvc.Track => 720
  | Ssvc.Defer => 2160
  end.

Definition decide_ssvc (r : Z) (kev in_scope : bool) (reach : f32) : Ssvc.Decision * Z :=
  let decision :=
    if (kev && in_scope && f32_gt reach f32_zero) || (70 <=? r) then Ssvc.Act
    else if 40 <=? r then Ssvc.Attend
    else if 20 <=? r then Ssvc.Track
    else Ssvc.Defer in
  (decision, decision_sla_hours decision).

(** ** Correlation (correlate.rs) *)

Record Correlated := mkCorrelated {
  c_identity : Identity;
  c_provenance : list Provenance;
  c_remediation_key : string;
}.

(** [b.confidence.partial_cmp(&a.confidence).unwrap_or(Equal)]. *)
Definition confidence_desc (a b : RawDetection) : comparison :=
  default Eq (f32_partial_cmp (rd_confidence b) (rd_confidence a)).

Definition provenance_of (d : RawDetection) : Provenance :=
  mkProvenance (rd_source d) (rd_method d) (rd_reported_severity d) (rd_confidence d).

Definition correlate_group (g : Identity * list RawDetection) : option Correlated :=
  dets ← sort_total confidence_desc g.2;
  d0 ← head dets;
  Some (mkCorrelated g.1 (provenance_of <$> dets) (rd_remediation_key d0)).

Definition correlate (detections : list RawDetection) : option (list Correlated) :=
  mapM correlate_group (group identity_cmp rd_identity detections).

(** ** The pipeline (lib.rs) *)

Definition finding_id_for (id : Identity) : string :=
  asset_id id +:+ "|" +:+ vuln_id id +:+ "|" +:+ component id +:+ "|" +:+ location id.

Definition unknown_enrichment : Enrichment :=
  mkEnrichment None None None None false ExploitMaturity.None VexStatus.Unknown None.

Definition set_runtime_reachable (o : option bool) (s : Score) : Score :=
  let e := explain s in
  mkScore (r s) (mkScoreExplain (sev e) (likelihood e) (exposure e) (crit e) (reach e) o).

Section engine.
Context {E A R : Type} `{EnrichmentSource E, AssetContextSource A, ReachabilitySource R}.

Record Engine := mkEngine {
  eng_enrichment : E;
  eng_assets : A;
  eng_reach : R;
}.

(** The closure [run] maps over the correlated detections. *)
Definition finding_of (e : Engine) (c : Correlated) : Finding :=
  let id := c_identity c in
  let ctx := asset_context (eng_assets e) (asset_id id) in
  let enr := default unknown_enrichment (enr_lookup (eng_enrichment e) (vuln_id id)) in
  let runtime_reachable :=
    if has_data (eng_reach e) (asset_id id) then Some (confirmed (eng_reach e) id) else None in
  let effective_reach :=
    if bool_decide (runtime_reachable = Some true) && bool_decide (vex enr = VexStatus.Unknown)
    then f32_one else reach_gate (vex enr) in
  let score := set_runtime_reachable runtime_reachable
    (recompute_score_with_reach enr ctx effective_reach) in
  let '(decision, sla_hours) := decide_ssvc (r score) (kev enr) true (reach (explain score)) in
  let status := if bool_decide (vex enr = VexStatus.NotAffected)
    then FindingState.Suppressed else FindingState.Open in
  mkFinding (finding_id_for id) id (c_provenance c) enr ctx score decision sla_hours
    (c_remediation_key c) status None None None.

Definition run (e : Engine) (detections : list RawDetection) : option (list Finding) :=
  (λ cs : list Correlated, finding_of e <$> cs) <$> correlate detections.
End engine.
Arguments Engine : clear implicits.

(** ** Group-by-fix (aggregate.rs) *)

Definition max_risk (members : list Finding) : Z :=
  match members with
  | [] => 0
  | f :: fs => foldl (λ acc g, Z.max acc (r (score g))) (r (score f)) fs
  end.

Definition item_of (g : string * list Finding) : RemediationItem :=
  mkRemediationItem g.1 (max_risk g.2)
    (dedup_sorted ((λ f, vuln_id (identity f)) <$> g.2))
    (dedup_sorted ((λ f, asset_id (identity f)) <$> g.2)).

Definition group_by_fix (findings : list Finding) : list RemediationItem :=
  item_of <$> group string_cmp remediation_key findings.

(** ** Lifecycle (lifecycle.rs) *)

(** [HashMap] collected from the prior findings: a later entry replaces an
    earlier one with the same identity. *)
Definition prior_by_identity (prior : list Finding) (id : Identity) : option Finding :=
  foldl (λ acc p, if bool_decide (identity p = id) then Some p else acc) None prior.

Definition reconcile_one (prior : list Finding) (batch_time : Z) (f : Finding) : Finding :=
  match prior_by_identity prior (identity f) with
  | Some p =>
      let first := match first_seen p with Some t => Some t | None => Some batch_time end in
      let f := set_seen first (Some batch_time) f in
      if bool_decide (status f = FindingState.Open) && bool_decide (status p = FindingState.Closed)
      then set_closed_at None (set_status FindingState.Reopened f)
      else f
  | None => set_seen (Some batch_time) (Some batch_time) f
  end.

Definition reconcile (prior fresh : list Finding) (batch_time : Z) : list Finding :=
  reconcile_one prior batch_time <$> fresh.
