(* ===== verification/EngineProps.v ===== *)
(** * What the findings engine promises

    One finding per identity with all of its evidence, verdicts that follow from
    the canonical inputs alone, fix grouping and lifecycle. *)

From stdpp Require Import base tactics gmap strings list.
From Stdlib Require Import ZArith SpecFloat Sorting.Sorted.
From S2P Require Import Prelude Float32 Order Findings Engine.

Local Open Scope Z_scope.

(** ** Confidence order *)

(** A sort key for the numbers that are not NaN. *)
Definition f32_key (x : f32) : list Z :=
  match x with
  | S754_infinity true => [-2; 0; 0]
  | S754_finite true m e => [-1; - e; Zneg m]
  | S754_zero _ | S754_nan => [0; 0; 0]
  | S754_finite false m e => [1; e; Zpos m]
  | S754_infinity false => [2; 0; 0]
  end.

Lemma compare_opp_opp a b : ((- a) ?= (- b)) = CompOpp (a ?= b).
Proof.
  destruct (Z.compare_spec a b), (Z.compare_spec (- a) (- b)); simpl; try done; lia.
Qed.

Lemma f32_key_cmp x y :
  f32_is_nan x = false → f32_is_nan y = false →
  f32_partial_cmp x y = Some (slice_cmp Z.compare (f32_key x) (f32_key y)).
Proof.
  intros Hx Hy. destruct x as [[]|[]| |[] m e], y as [[]|[]| |[] m' e']; try done; simpl; f_equal.
  - rewrite compare_opp_opp. change (Pos.compare_cont Eq m m') with (m ?= m')%positive.
    change (Zneg m ?= Zneg m') with (CompOpp (m ?= m')%positive).
    destruct (e ?= e'); try done. by destruct (m ?= m')%positive.
  - change (Pos.compare_cont Eq m m') with (m ?= m')%positive.
    change (Zpos m ?= Zpos m') with (m ?= m')%positive.
    destruct (e ?= e'); try done. by destruct (m ?= m')%positive.
Qed.

(** [sort_by] needs a total preorder: no confidence is NaN. *)
Definition confidence_ok (d : RawDetection) : bool := negb (f32_is_nan (rd_confidence d)).
Lemma confidence_ok_nan d : confidence_ok d → f32_is_nan (rd_confidence d) = false.
Proof. unfold confidence_ok. by destruct (f32_is_nan (rd_confidence d)). Qed.
Definition confidences_ok (ds : list RawDetection) : Prop := Forall confidence_ok ds.

Definition key_desc (a b : RawDetection) : comparison :=
  slice_cmp Z.compare (f32_key (rd_confidence b)) (f32_key (rd_confidence a)).

#[export] Instance key_desc_comparison : Comparison key_desc.
Proof.
  unfold key_desc. split.
  - intros x. apply (cmp_refl (slice_cmp Z.compare)).
  - intros x y. apply (cmp_opp (slice_cmp Z.compare)).
  - intros x y z H1 H2. by eapply (cmp_trans (slice_cmp Z.compare)).
Qed.

Lemma confidence_desc_key a b :
  confidence_ok a → confidence_ok b → confidence_desc a b = key_desc a b.
Proof.
  unfold confidence_desc. intros Ha Hb.
  rewrite f32_key_cmp by (by apply confidence_ok_nan). done.
Qed.

(** Without a NaN the order of confidences is total, and the sort does not panic. *)
Lemma sort_confidence ds :
  confidences_ok ds → sort_total confidence_desc ds = Some (sort_by key_desc ds).
Proof.
  intros Hok. unfold confidences_ok in Hok. rewrite Forall_forall in Hok.
  assert (∀ x y, x ∈ ds → y ∈ ds → confidence_desc x y = key_desc x y) as Hkey
    by (intros x y Hx Hy; apply confidence_desc_key; auto).
  unfold sort_total. rewrite (total_on_ext _ key_desc) by done.
  rewrite (total_on_comparison key_desc). f_equal. by apply sort_by_ext.
Qed.

(** ** Correlation *)

Lemma correlate_group_some g :
  g.2 ≠ [] → confidences_ok g.2 → ∃ d0 ds, sort_by key_desc g.2 = d0 :: ds ∧
    correlate_group g = Some (mkCorrelated g.1 (provenance_of <$> d0 :: ds) (rd_remediation_key d0)).
Proof.
  intros Hne Hok. unfold correlate_group. rewrite sort_confidence by done. cbn [mbind option_bind].
  pose proof (sort_by_perm key_desc g.2) as Hp.
  destruct (sort_by key_desc g.2) as [|d0 ds]; [by apply Permutation_nil in Hp|]. by exists d0, ds.
Qed.

(** What [correlate] returns when it does, group by group. *)
Lemma correlate_Some ds cs :
  correlate ds = Some cs →
  Forall2 (λ g c, correlate_group g = Some c) (group identity_cmp rd_identity ds) cs.
Proof. intros Hcs. by apply mapM_Some_1. Qed.

Lemma group_confidences ds g :
  confidences_ok ds → g ∈ group identity_cmp rd_identity ds → g.2 ≠ [] ∧ confidences_ok g.2.
Proof.
  intros Hok Hg. destruct g as [i l]. destruct (group_member identity_cmp rd_identity _ _ _ Hg) as [-> Hne].
  split; [done|]. unfold confidences_ok in *. rewrite Forall_forall in Hok |- *.
  intros x [_ Hx]%list_elem_of_filter. auto.
Qed.

(** It does when no confidence is a NaN. *)
Lemma correlate_spec ds :
  confidences_ok ds →
  ∃ cs, correlate ds = Some cs ∧
    Forall2 (λ g c, correlate_group g = Some c) (group identity_cmp rd_identity ds) cs.
Proof.
  intros Hok. unfold correlate. pose proof (group_confidences ds) as Hne.
  assert (∃ cs, Forall2 (λ g c, correlate_group g = Some c)
    (group identity_cmp rd_identity ds) cs) as [cs Hcs].
  { induction (group identity_cmp rd_identity ds) as [|g gs IH]; [by exists []; constructor|].
    destruct IH as [cs Hcs]; [intros; apply Hne; [done|by right]|].
    destruct (Hne g) as [Hg Hgok]; [done|by left|].
    destruct (correlate_group_some g Hg Hgok) as (? & ? & _ & Hc).
    eexists (_ :: cs). by constructor. }
  exists cs. split; [by apply mapM_Some_2|done].
Qed.

Lemma correlate_group_identity g c : correlate_group g = Some c → c_identity c = g.1.
Proof.
  unfold correlate_group. intros Hc. destruct (sort_total _ _) as [dets|]; [|done]. cbn in Hc.
  by destruct (head dets); simplify_eq/=.
Qed.

Lemma correlate_identities ds cs :
  correlate ds = Some cs → c_identity <$> cs = (group identity_cmp rd_identity ds).*1.
Proof.
  intros HF%correlate_Some.
  induction HF as [|g c gs cs Hg _ IH]; [done|]. rewrite !fmap_cons, IH. f_equal.
  by apply correlate_group_identity.
Qed.

Definition identity_lt (a b : Identity) : Prop := identity_cmp a b = Lt.

Lemma bt_ok_keys {V} (m : list (Identity * V)) :
  bt_ok identity_cmp m → StronglySorted identity_lt m.*1.
Proof.
  unfold bt_ok. induction 1 as [|[k v] m Hm IH Hall]; [constructor|]. rewrite fmap_cons. constructor; [done|].
  apply Forall_fmap. eapply Forall_impl; [exact Hall|]. done.
Qed.

(** The detections that carry identity [i], in arrival order. *)
Definition evidence (i : Identity) (ds : list RawDetection) : list RawDetection :=
  filter (has_key identity_cmp rd_identity i) ds.

(** What correlation makes of one identity's evidence. *)
Definition correlated_from (ds : list RawDetection) (c : Correlated) : Prop :=
  ∃ dets d0, dets ≡ₚ evidence (c_identity c) ds ∧ head dets = Some d0 ∧
    c_provenance c = provenance_of <$> dets ∧
    c_remediation_key c = rd_remediation_key d0 ∧
    StronglySorted (λ a b, f32_lt (rd_confidence a) (rd_confidence b) = false) dets ∧
    ∀ x, filter (same_class key_desc x) dets =
         filter (same_class key_desc x) (evidence (c_identity c) ds).

Lemma key_desc_not_lt a b :
  confidence_ok a → confidence_ok b → sorted_le key_desc a b →
  f32_lt (rd_confidence a) (rd_confidence b) = false.
Proof.
  unfold sorted_le, key_desc, f32_lt, SFltb. intros Ha Hb Hle.
  change (SFcompare (rd_confidence a) (rd_confidence b)) with
    (f32_partial_cmp (rd_confidence a) (rd_confidence b)).
  rewrite f32_key_cmp by (by apply confidence_ok_nan).
  rewrite (cmp_opp (slice_cmp Z.compare)).
  by destruct (slice_cmp Z.compare (f32_key (rd_confidence b)) (f32_key (rd_confidence a))).
Qed.

Lemma StronglySorted_impl {T} (R S : T → T → Prop) l :
  (∀ x y, x ∈ l → y ∈ l → R x y → S x y) → StronglySorted R l → StronglySorted S l.
Proof.
  intros HRS. induction 1 as [|x l Hl IH Hall]; constructor.
  - apply IH. intros. apply HRS; by try right.
  - rewrite Forall_forall in *. intros y Hy. apply HRS; [by left|by right|auto].
Qed.

Lemma correlate_group_from ds i l c :
  confidences_ok ds → (i, l) ∈ group identity_cmp rd_identity ds →
  correlate_group (i, l) = Some c → correlated_from ds c.
Proof.
  intros Hok Hg Hc. destruct (group_confidences ds _ Hok Hg) as [Hne Hok'].
  destruct (group_member identity_cmp rd_identity _ _ _ Hg) as [-> _]. cbn [snd] in *.
  destruct (correlate_group_some (i, _) Hne Hok') as (d0 & rest & Hd & Hc'). rewrite Hc' in Hc. injection Hc as <-.
  cbn [fst snd] in Hd. exists (d0 :: rest), d0. rewrite <-Hd. unfold correlated_from, evidence; simpl.
  split; [apply sort_by_perm|]. split; [by rewrite Hd|]. split; [by rewrite Hd|]. split; [done|].
  split; [|intros; apply (sort_by_stable key_desc)].
  eapply StronglySorted_impl; [|apply (sort_by_sorted key_desc)].
  unfold confidences_ok in Hok'. rewrite Forall_forall in Hok'.
  intros x y Hx Hy. rewrite sort_by_perm in Hx, Hy. apply key_desc_not_lt; auto.
Qed.

(** Correlation yields exactly one finding per identity, in identity order,
    and loses no evidence: the identities are those of the detections, each
    finding's provenance is a permutation of the detections with its identity,
    highest confidence first and in arrival order within one confidence, and its
    remediation key is that of the first of them.  It does not panic. *)
Theorem correlate_one_finding_per_identity (ds : list RawDetection) :
  confidences_ok ds →
  ∃ cs, correlate ds = Some cs ∧
    StronglySorted identity_lt (c_identity <$> cs) ∧
    (∀ i, i ∈ c_identity <$> cs ↔ i ∈ rd_identity <$> ds) ∧
    Forall (correlated_from ds) cs.
Proof.
  intros Hok. destruct (correlate_spec ds Hok) as (cs & Hcs & HF). exists cs. split; [done|].
  rewrite (correlate_identities ds cs Hcs). split; [|split].
  - apply bt_ok_keys. by destruct (group_spec identity_cmp rd_identity ds).
  - intros i. apply (group_keys identity_cmp rd_identity).
  - apply Forall_forall. intros c Hc.
    destruct (list_elem_of_lookup_1 _ _ Hc) as [n Hn].
    destruct (Forall2_lookup_r _ _ _ _ _ HF Hn) as ([i l] & Hg & Hgc).
    by eapply correlate_group_from; [|by eapply list_elem_of_lookup_2|].
Qed.

(** ** Verdicts *)

Lemma percent_zero_raw x : percent (f32_clamp (f32_mul x f32_zero) f32_zero f32_one) = 0.
Proof. by destruct x as [[]|[]| |[] m e]. Qed.

(** The engine's verdict on a finding: how reach, status and decision follow from
    its enrichment and the runtime signal. *)
Record verdict {E A R} `{EnrichmentSource E, AssetContextSource A, ReachabilitySource R}
    (e : Engine E A R) (f : Finding) : Prop := {
  v_id : finding_id f = finding_id_for (identity f);
  v_ctx : asset_ctx f = asset_context (eng_assets e) (asset_id (identity f));
  v_enr : enrichment f =
    default unknown_enrichment (enr_lookup (eng_enrichment e) (vuln_id (identity f)));
  v_suppressed : status f = FindingState.Suppressed ↔ vex (enrichment f) = VexStatus.NotAffected;
  v_open : status f = FindingState.Open ↔ vex (enrichment f) ≠ VexStatus.NotAffected;
  v_not_affected : vex (enrichment f) = VexStatus.NotAffected →
    r (score f) = 0 ∧ decision f = Ssvc.Defer;
  v_kev : kev (enrichment f) = true → vex (enrichment f) ≠ VexStatus.NotAffected →
    decision f = Ssvc.Act ∧ sla_hours f = 48;
  v_threshold : kev (enrichment f) = false →
    (decision f = Ssvc.Act ↔ 70 ≤ r (score f)) ∧
    (decision f = Ssvc.Attend ↔ 40 ≤ r (score f) < 70) ∧
    (decision f = Ssvc.Track ↔ 20 ≤ r (score f) < 40) ∧
    (decision f = Ssvc.Defer ↔ r (score f) < 20);
  v_sla : sla_hours f = decision_sla_hours (decision f);
  v_runtime : runtime_reachable (explain (score f)) =
    if has_data (eng_reach e) (asset_id (identity f))
    then Some (confirmed (eng_reach e) (identity f)) else None;
  v_reach : reach (explain (score f)) =
    if bool_decide (runtime_reachable (explain (score f)) = Some true ∧
                    vex (enrichment f) = VexStatus.Unknown)
    then f32_one else reach_gate (vex (enrichment f));
  v_score : score f = set_runtime_reachable (runtime_reachable (explain (score f)))
    (recompute_score_with_reach (enrichment f) (asset_ctx f) (reach (explain (score f))));
}.

Lemma decide_threshold r rch :
  let d := (decide_ssvc r false true rch).1 in
  (d = Ssvc.Act ↔ 70 ≤ r) ∧ (d = Ssvc.Attend ↔ 40 ≤ r < 70) ∧
  (d = Ssvc.Track ↔ 20 ≤ r < 40) ∧ (d = Ssvc.Defer ↔ r < 20).
Proof.
  unfold decide_ssvc. simpl.
  destruct (Z.leb_spec 70 r), (Z.leb_spec 40 r), (Z.leb_spec 20 r); simpl;
    repeat split; intros; try done; try lia.
Qed.

Lemma bool_decide_and (P Q : Prop) `{Decision P, Decision Q} :
  bool_decide (P ∧ Q) = bool_decide P && bool_decide Q.
Proof. repeat case_bool_decide; naive_solver. Qed.

(** Proofs below never compute with floats. *)
#[local] Opaque f32_lit f32_mul f32_add f32_div f32_clamp f32_of_Z f32_one.

Section verdict.
Context {E A R : Type} `{EnrichmentSource E, AssetContextSource A, ReachabilitySource R}.

Lemma finding_of_verdict (e : Engine E A R) c : verdict e (finding_of e c).
Proof.
  unfold finding_of.
  set (enr := default unknown_enrichment _). set (ctx := asset_context _ _).
  set (rt := if has_data _ _ then _ else _). rewrite <-bool_decide_and.
  set (er := if bool_decide (rt = Some true ∧ _) then f32_one else _).
  assert (vex enr ≠ VexStatus.NotAffected → f32_gt er f32_zero = true) as Her.
  { intros Hv. unfold er. case_bool_decide; [reflexivity|]. by destruct (vex enr). }
  assert (vex enr = VexStatus.NotAffected → er = f32_zero) as Hna.
  { intros Hv. unfold er. rewrite bool_decide_eq_false_2, Hv by (rewrite Hv; naive_solver). done. }
  set (sc := set_runtime_reachable rt _). change (reach (explain sc)) with er.
  assert (r sc = 0 ∨ er ≠ f32_zero) as Hr0.
  { destruct (decide (er = f32_zero)) as [Hz|]; [left|by right].
    unfold sc. rewrite Hz. apply percent_zero_raw. }
  destruct (decide_ssvc (r sc) (kev enr) true er) as [d s] eqn:Hd.
  split; cbn -[sc er]; try reflexivity.
  - case_bool_decide; naive_solver.
  - case_bool_decide; naive_solver.
  - intros Hv. destruct Hr0 as [Hr0|]; [|by destruct (Hna Hv)]. split; [done|].
    rewrite Hr0, (Hna Hv) in Hd. unfold decide_ssvc in Hd. by rewrite andb_false_r in Hd; simplify_eq/=.
  - intros Hk Hv. unfold decide_ssvc in Hd. by rewrite Hk, Her in Hd; simplify_eq/=.
  - intros Hk. pose proof (decide_threshold (r sc) er) as Ht. by rewrite Hk in Hd; rewrite Hd in Ht.
  - unfold decide_ssvc in Hd. by simplify_eq.
Qed.
End verdict.

(** A whole run that returns. *)
Lemma run_verdicts {E A R} `{EnrichmentSource E, AssetContextSource A, ReachabilitySource R}
    (e : Engine E A R) (ds : list RawDetection) fs :
  run e ds = Some fs → Forall (verdict e) fs ∧
    StronglySorted identity_lt (identity <$> fs) ∧
    ∀ i, i ∈ identity <$> fs ↔ i ∈ rd_identity <$> ds.
Proof.
  unfold run. destruct (correlate ds) as [cs|] eqn:Hcs; [|done]. intros [= <-].
  assert (identity <$> (finding_of e <$> cs) = c_identity <$> cs) as ->.
  { rewrite <-list_fmap_compose. by apply list_fmap_ext. }
  rewrite (correlate_identities ds cs Hcs). split; [|split].
  - apply Forall_fmap, Forall_forall. intros c _. apply finding_of_verdict.
  - apply bt_ok_keys. by destruct (group_spec identity_cmp rd_identity ds).
  - intros i. apply (group_keys identity_cmp rd_identity).
Qed.

(** A whole run. *)
Lemma run_spec {E A R} `{EnrichmentSource E, AssetContextSource A, ReachabilitySource R}
    (e : Engine E A R) (ds : list RawDetection) :
  confidences_ok ds →
  ∃ fs, run e ds = Some fs ∧ Forall (verdict e) fs ∧
    StronglySorted identity_lt (identity <$> fs) ∧
    ∀ i, i ∈ identity <$> fs ↔ i ∈ rd_identity <$> ds.
Proof.
  intros Hok. destruct (correlate_spec ds Hok) as (cs & Hcs & _).
  exists (finding_of e <$> cs). assert (run e ds = Some (finding_of e <$> cs)) as Hrun
    by (unfold run; by rewrite Hcs).
  split; [done|]. by apply run_verdicts.
Qed.

(** C28: every finding the engine emits carries the verdict its canonical inputs
    dictate: a VEX not-affected finding is suppressed, scores 0 and is deferred,
    whatever the KEV flag or the runtime signal says; a known-exploited finding
    that is not not-affected is Act with a 48-hour SLA, whatever its score; the
    others follow the score thresholds; runtime telemetry can only turn an unknown
    reach into a full one.  The findings are one per identity, in order.  The engine
    does not panic on detections none of whose confidences is a NaN; with a NaN among
    them the sort of one identity's evidence may. *)
Theorem engine_verdicts {E A R} `{EnrichmentSource E, AssetContextSource A, ReachabilitySource R}
    (e : Engine E A R) (ds : list RawDetection) :
  (Forall (λ d, f32_is_nan (rd_confidence d) = false) ds → is_Some (run e ds)) ∧
  ∀ fs, run e ds = Some fs → Forall (verdict e) fs ∧
    StronglySorted identity_lt (identity <$> fs) ∧
    ∀ i, i ∈ identity <$> fs ↔ i ∈ rd_identity <$> ds.
Proof.
  split; [|apply run_verdicts]. intros Hok. destruct (run_spec e ds) as (fs & -> & _); [|by eexists].
  eapply Forall_impl; [exact Hok|]. intros d. unfold confidence_ok. by intros ->.
Qed.

(** ** Severity labels *)

(** Forget what the sources reported as severity. *)
Definition unlabel_detection (d : RawDetection) : RawDetection :=
  mkRawDetection (rd_identity d) (rd_source d) (rd_method d) None (rd_confidence d)
    (rd_remediation_key d).
Definition unlabel_provenance (p : Provenance) : Provenance :=
  mkProvenance (p_source p) (p_method p) None (p_confidence p).
Definition unlabel_correlated (c : Correlated) : Correlated :=
  mkCorrelated (c_identity c) (unlabel_provenance <$> c_provenance c) (c_remediation_key c).
Definition unlabel_finding (f : Finding) : Finding :=
  set_provenance (unlabel_provenance <$> provenance f) f.

Lemma correlate_group_unlabel g :
  correlate_group (prod_map id (fmap (M := list) unlabel_detection) g) =
  unlabel_correlated <$> correlate_group g.
Proof.
  destruct g as [i l]. unfold correlate_group. simpl.
  unfold sort_total. rewrite (total_on_fmap unlabel_detection confidence_desc) by done.
  destruct (total_on confidence_desc l); [|done].
  rewrite (sort_by_fmap unlabel_detection confidence_desc) by done.
  destruct (sort_by confidence_desc l) as [|d0 ds]; [done|]. cbn. f_equal. unfold unlabel_correlated.
  cbn. f_equal. f_equal. rewrite <-!list_fmap_compose. by apply list_fmap_ext.
Qed.

Lemma correlate_unlabel ds :
  correlate (unlabel_detection <$> ds) = fmap (M := list) unlabel_correlated <$> correlate ds.
Proof.
  unfold correlate. rewrite (group_fmap identity_cmp rd_identity) by done.
  induction (group identity_cmp rd_identity ds) as [|g gs IH]; [done|].
  rewrite fmap_cons. cbn [mapM]. rewrite correlate_group_unlabel, IH.
  destruct (correlate_group g); [|done]. simpl. by destruct (mapM correlate_group gs).
Qed.

Section labels.
Context {E A R : Type} `{EnrichmentSource E, AssetContextSource A, ReachabilitySource R}.

Lemma run_unlabel (e : Engine E A R) ds :
  run e (unlabel_detection <$> ds) = fmap (M := list) unlabel_finding <$> run e ds.
Proof.
  unfold run. rewrite correlate_unlabel. destruct (correlate ds) as [cs|]; [|done]. cbn. f_equal.
  rewrite <-!list_fmap_compose. by apply list_fmap_ext.
Qed.

(** No severity label a source reports influences a verdict: two batches that
    differ only in the reported labels give findings that differ only in the
    labels kept in their provenance; scores, decisions, SLAs, states, remediation
    keys and order are the same. *)
Theorem severity_labels_never_matter (e : Engine E A R) (ds1 ds2 : list RawDetection) :
  unlabel_detection <$> ds1 = unlabel_detection <$> ds2 →
  fmap (M := list) unlabel_finding <$> run e ds1 = fmap (M := list) unlabel_finding <$> run e ds2.
Proof. intros Heq. by rewrite <-!run_unlabel, Heq. Qed.
End labels.

(** ** Group-by-fix *)

Lemma max_risk_spec f fs :
  (∃ g, g ∈ f :: fs ∧ r (score g) = max_risk (f :: fs)) ∧
  ∀ g, g ∈ f :: fs → r (score g) ≤ max_risk (f :: fs).
Proof.
  unfold max_risk. revert f. induction fs as [|g fs IH] using rev_ind; intros f.
  { split; [exists f; split; [by left|done]|]. by intros ? [->|?%elem_of_nil]%elem_of_cons. }
  rewrite foldl_app. simpl. destruct (IH f) as [(h & Hin & Hmax) Hle].
  set (m := foldl _ _ fs) in *. split.
  - destruct (Z.max_spec m (r (score g))) as [[_ ->]|[_ ->]].
    + exists g. split; [|done]. right. apply elem_of_app. right. by left.
    + exists h. split; [|done]. rewrite app_comm_cons. apply elem_of_app. by left.
  - intros x. rewrite app_comm_cons. intros [Hx|Hx]%elem_of_app.
    + specialize (Hle x Hx). lia.
    + apply list_elem_of_singleton in Hx as ->. lia.
Qed.

Lemma has_key_remediation k f :
  has_key string_cmp remediation_key k f ↔ remediation_key f = k.
Proof.
  unfold has_key. split.
  - destruct (string_cmp (remediation_key f) k) eqn:Hc; try done. intros _.
    by apply string_comparison_eq.
  - intros <-. by rewrite (cmp_refl string_cmp).
Qed.

Lemma group_by_fix_spec (fs : list Finding) :
  StronglySorted string_lt (item_key <$> group_by_fix fs) ∧
  (∀ k, k ∈ item_key <$> group_by_fix fs ↔ k ∈ remediation_key <$> fs) ∧
  ∀ it, it ∈ group_by_fix fs →
    (∃ f, f ∈ fs ∧ remediation_key f = item_key it ∧ r (score f) = risk it) ∧
    (∀ f, f ∈ fs → remediation_key f = item_key it → r (score f) ≤ risk it) ∧
    StronglySorted string_lt (closes it) ∧ StronglySorted string_lt (assets it) ∧
    (∀ v, v ∈ closes it ↔ ∃ f, f ∈ fs ∧ remediation_key f = item_key it ∧ vuln_id (identity f) = v) ∧
    (∀ a, a ∈ assets it ↔ ∃ f, f ∈ fs ∧ remediation_key f = item_key it ∧ asset_id (identity f) = a).
Proof.
  assert (item_key <$> group_by_fix fs = (group string_cmp remediation_key fs).*1) as ->.
  { unfold group_by_fix. rewrite <-list_fmap_compose. by apply list_fmap_ext. }
  split; [|split].
  - destruct (group_spec string_cmp remediation_key fs) as [Hok _].
    induction Hok as [|[k v] m Hm IH Hall]; [constructor|]. rewrite fmap_cons.
    constructor; [done|]. apply Forall_fmap. by eapply Forall_impl; [exact Hall|].
  - intros k. apply (group_keys string_cmp remediation_key).
  - intros it ([k ms] & -> & Hg)%list_elem_of_fmap.
    destruct (group_member string_cmp remediation_key _ _ _ Hg) as [Hms Hne].
    assert (∀ f, f ∈ ms ↔ f ∈ fs ∧ remediation_key f = k) as Hin.
    { intros f. rewrite Hms, list_elem_of_filter, has_key_remediation. tauto. }
    destruct ms as [|f0 ms]; [done|]. destruct (max_risk_spec f0 ms) as [(g & Hg1 & Hg2) Hle].
    split; [exists g; apply Hin in Hg1; naive_solver|].
    split; [intros f Hf Hk; by apply Hle, Hin|].
    cbn [item_of closes assets fst snd]. split; [apply dedup_sorted_spec|]. split; [apply dedup_sorted_spec|].
    split; intros v; (etransitivity; [apply dedup_sorted_spec|]);
      rewrite list_elem_of_fmap; setoid_rewrite Hin; naive_solver.
Qed.

(** Fix grouping is exact: the remediation items are the distinct remediation
    keys in order, and an item's risk is the greatest member score, its [closes]
    and [assets] are strictly increasing lists of exactly the members' vulnerability
    and asset ids. *)
Theorem group_by_fix_exact (fs : list Finding) :
  StronglySorted string_lt (item_key <$> group_by_fix fs) ∧
  (∀ k, k ∈ item_key <$> group_by_fix fs ↔ k ∈ remediation_key <$> fs) ∧
  ∀ it, it ∈ group_by_fix fs →
    (∃ f, f ∈ fs ∧ remediation_key f = item_key it ∧ r (score f) = risk it) ∧
    (∀ f, f ∈ fs → remediation_key f = item_key it → r (score f) ≤ risk it) ∧
    StronglySorted string_lt (closes it) ∧ StronglySorted string_lt (assets it) ∧
    (∀ v, v ∈ closes it ↔ ∃ f, f ∈ fs ∧ remediation_key f = item_key it ∧ vuln_id (identity f) = v) ∧
    (∀ a, a ∈ assets it ↔ ∃ f, f ∈ fs ∧ remediation_key f = item_key it ∧ asset_id (identity f) = a).
Proof. apply group_by_fix_spec. Qed.
