(* ===== verification/ScoreProps.v ===== *)
(** * What a risk score can be, and what can move it

    The score of [score.rs] is a chain of binary32 products and clamps.  Whatever
    the enrichment holds (NaN, infinities and negative numbers included), it stays
    in 0..=100, it never falls when the context gets riskier, and runtime evidence
    can only raise it. *)

From stdpp Require Import base tactics gmap strings list.
From Stdlib Require Import ZArith SpecFloat.
From S2P Require Import Prelude Float32 Order Findings Engine.

Local Open Scope Z_scope.

(** ** The constants *)

Lemma full_hundred : full (f32_of_Z 100).
Proof. by vm_compute. Qed.

Lemma full_criticality c : full (criticality_weight c).
Proof. by destruct c; vm_compute. Qed.

Lemma full_exposure ctx : full (exposure_factor ctx).
Proof. destruct ctx as [[] ? []]; by vm_compute. Qed.

Lemma mul_zero_val x : canonical (f32_mul x f32_zero) ∧ val (f32_mul x f32_zero) = 0.
Proof. by destruct x as [[]|[]| |[] m e]. Qed.

(** A factor the score can carry: zero or a full constant. *)
Definition gate (x : f32) : Prop := x = f32_zero ∨ full x.

Lemma reach_gate_cases v : gate (reach_gate v).
Proof. destruct v; [by right; vm_compute|by left|by right; vm_compute]. Qed.

Lemma gate_canonical x c : gate c → canonical (f32_mul x c).
Proof. intros [->|Hc]; [apply mul_zero_val|by apply mul_canonical]. Qed.

Lemma gate_mono x y c d :
  canonical x → canonical y → gate c → gate d → val x ≤ val y → val c ≤ val d →
  val (f32_mul x c) ≤ val (f32_mul y d).
Proof.
  intros Hx Hy [->|Hc] Hd Hxy Hcd.
  { rewrite (proj2 (mul_zero_val x)). apply val_nonneg. }
  destruct Hd as [->|Hd].
  { exfalso. destruct c as [| | |[] m e]; try done.
    pose proof (val_finite_pos m e (full_canonical _ Hc)). cbn [val f32_zero] in *. lia. }
  transitivity (val (f32_mul x d)); [by apply mul_mono_const|by apply mul_mono].
Qed.

(** ** The last step: clamp, percentage, rounding *)

Lemma percent_mono x y :
  canonical x → canonical y → val x ≤ val y →
  percent (f32_clamp x f32_zero f32_one) ≤ percent (f32_clamp y f32_zero f32_one).
Proof.
  intros Hx Hy Hle. unfold percent. rewrite !(mul_comm (f32_of_Z 100)).
  destruct (clamp_val x Hx) as [Hcx Hvx], (clamp_val y Hy) as [Hcy Hvy].
  apply round_as_u8_mono; [apply mul_canonical, full_hundred..|].
  apply mul_mono; [done|done|apply full_hundred|]. rewrite Hvx, Hvy. lia.
Qed.

Lemma percent_range x :
  canonical x → 0 ≤ percent (f32_clamp x f32_zero f32_one) ≤ 100.
Proof.
  intros Hx. split; [apply f32_round_as_u8_range|].
  change 100 with (percent f32_one). unfold percent. rewrite !(mul_comm (f32_of_Z 100)).
  destruct (clamp_val x Hx) as [Hcx Hvx].
  apply round_as_u8_mono; [apply mul_canonical, full_hundred..|].
  apply mul_mono; [done|apply full_canonical, full_one|apply full_hundred|]. rewrite Hvx, one_val. lia.
Qed.

Lemma score_range enr ctx g : gate g → 0 ≤ r (recompute_score_with_reach enr ctx g) ≤ 100.
Proof. intros Hg. by apply percent_range, gate_canonical. Qed.

Section engine.
Context {E A R : Type} `{EnrichmentSource E, AssetContextSource A, ReachabilitySource R}.

(** C29: every score lies in 0..=100: of every finding the engine makes, for any
    enrichment, asset and runtime source, and of every compliance, FIM or activity
    finding, for any rule weight. *)
Theorem score_within_0_100 (e : Engine E A R) (c : Correlated) (weight : f32) (ctx : AssetContext) :
  0 ≤ r (score (finding_of e c)) ≤ 100 ∧
  0 ≤ r (recompute_compliance_score weight ctx) ≤ 100.
Proof.
  split.
  - unfold finding_of. destruct (decide_ssvc _ _ _ _). cbn [score set_runtime_reachable r].
    apply score_range. destruct (_ && _); [right; apply full_one|apply reach_gate_cases].
  - apply percent_range, mul_canonical, full_criticality.
Qed.
End engine.

(** ** A riskier context never scores lower *)

Definition criticality_rank (c : Criticality) : Z :=
  match c with
  | Criticality.CrownJewel => 3
  | Criticality.High => 2
  | Criticality.Normal => 1
  | Criticality.Low => 0
  end.

Definition vex_rank (v : VexStatus) : Z :=
  match v with
  | VexStatus.Affected => 2
  | VexStatus.Unknown => 1
  | VexStatus.NotAffected => 0
  end.

(** [ctx'] is at least as critical and at least as exposed as [ctx]. *)
Definition riskier (ctx ctx' : AssetContext) : Prop :=
  criticality_rank (criticality ctx) ≤ criticality_rank (criticality ctx') ∧
  (internet_facing ctx → internet_facing ctx') ∧
  (compensating_controls ctx' → compensating_controls ctx).

Lemma criticality_weight_mono c c' :
  criticality_rank c ≤ criticality_rank c' → val (criticality_weight c) ≤ val (criticality_weight c').
Proof. destruct c, c'; intros Hr; first [by vm_compute|by destruct Hr]. Qed.

Lemma reach_gate_mono v v' : vex_rank v ≤ vex_rank v' → val (reach_gate v) ≤ val (reach_gate v').
Proof. destruct v, v'; intros Hr; first [by vm_compute|by destruct Hr]. Qed.

Lemma exposure_factor_mono ctx ctx' :
  riskier ctx ctx' → val (exposure_factor ctx) ≤ val (exposure_factor ctx').
Proof.
  intros (_ & Hi & Hc). destruct ctx as [[] ? []], ctx' as [[] ? []];
    cbn [internet_facing compensating_controls Is_true] in Hi, Hc;
    first [by vm_compute|by destruct (Hi I)|by destruct (Hc I)].
Qed.

(** The whole chain is monotone in exposure, criticality and reach. *)
Lemma score_mono enr enr' ctx ctx' g g' :
  cvss_env enr = cvss_env enr' → epss enr = epss enr' →
  exploit_maturity enr = exploit_maturity enr' →
  riskier ctx ctx' → gate g → gate g' → val g ≤ val g' →
  r (recompute_score_with_reach enr ctx g) ≤ r (recompute_score_with_reach enr' ctx' g').
Proof.
  intros Hs He Hm Hctx Hg Hg' Hle. unfold recompute_score_with_reach. rewrite Hs, He, Hm.
  cbn [r]. set (base := f32_mul (f32_clamp _ _ _) _).
  apply percent_mono; [by apply gate_canonical..|].
  apply gate_mono; [apply mul_canonical, full_criticality..|done|done| |done].
  apply gate_mono; [apply mul_canonical, full_exposure..| | | |]; try (right; apply full_criticality).
  - apply mul_mono_const; [apply full_exposure..|by apply exposure_factor_mono].
  - apply criticality_weight_mono, Hctx.
Qed.

(** Between two findings with the same severity, EPSS and exploit maturity,
    the one whose VEX status excuses less and whose asset is at least as critical,
    at least as exposed and without more compensating controls never scores lower;
    nor does a compliance finding of the same weight on such an asset. *)
Theorem riskier_context_never_scores_lower (enr enr' : Enrichment) (ctx ctx' : AssetContext) (weight : f32) :
  cvss_env enr = cvss_env enr' → epss enr = epss enr' →
  exploit_maturity enr = exploit_maturity enr' →
  vex_rank (vex enr) ≤ vex_rank (vex enr') → riskier ctx ctx' →
  r (recompute_score enr ctx) ≤ r (recompute_score enr' ctx') ∧
  r (recompute_compliance_score weight ctx) ≤ r (recompute_compliance_score weight ctx').
Proof.
  intros Hs He Hm Hv Hctx. split.
  - unfold recompute_score. apply score_mono; [done..|apply reach_gate_cases|apply reach_gate_cases|by apply reach_gate_mono].
  - apply percent_mono; [apply mul_canonical, full_criticality..|].
    apply gate_mono; [apply mul_canonical, full_exposure..| | | |]; try (right; apply full_criticality).
    + apply mul_mono_const; [apply full_exposure..|by apply exposure_factor_mono].
    + apply criticality_weight_mono, Hctx.
Qed.

(** ** Runtime evidence only upgrades *)

Lemma riskier_refl ctx : riskier ctx ctx.
Proof. by repeat split. Qed.

Lemma decide_ssvc_mono s s' k g g' :
  s ≤ s' → (f32_gt g f32_zero → f32_gt g' f32_zero) →
  (decide_ssvc s' k true g').2 ≤ (decide_ssvc s k true g).2.
Proof.
  intros Hs Hg. unfold decide_ssvc. cbn [snd]. rewrite !andb_true_r.
  destruct k; cbn [andb orb];
    [destruct (f32_gt g f32_zero), (f32_gt g' f32_zero); cbn [orb]; try naive_solver|];
    repeat case_match; simpl; try lia;
    repeat match goal with H : (_ <=? _) = _ |- _ => first [apply Z.leb_le in H|apply Z.leb_gt in H] end; lia.
Qed.

Section runtime.
Context {E A R : Type} `{EnrichmentSource E, AssetContextSource A, ReachabilitySource R}.

(** C30: runtime telemetry is upgrade-only: for any reachability source, the
    finding made with it has at least the score and at most the SLA of the finding
    made without runtime data, and the same status. *)
Theorem runtime_evidence_only_upgrades (enrich : E) (assets : A) (reach : R) (c : Correlated) :
  let base := finding_of (mkEngine enrich assets mkNoReachability) c in
  let f := finding_of (mkEngine enrich assets reach) c in
  r (score base) ≤ r (score f) ∧ sla_hours f ≤ sla_hours base ∧ status f = status base.
Proof.
  cbv zeta. unfold finding_of. cbn [eng_enrichment eng_assets eng_reach has_data confirmed NoReachability_source].
  set (enr := default _ _). set (ctx := asset_context _ _).
  rewrite (bool_decide_eq_false_2 (None = Some true)) by done. cbn [andb].
  set (g' := if _ && _ then _ else _).
  assert (gate g' ∧ val (reach_gate (vex enr)) ≤ val g' ∧
    (f32_gt (reach_gate (vex enr)) f32_zero → f32_gt g' f32_zero)) as (Hg & Hle & Hgt).
  { unfold g'. destruct (_ && _) eqn:Hup; [|by split; [apply reach_gate_cases|]].
    apply andb_prop in Hup as [_ Hv%bool_decide_eq_true]. rewrite Hv.
    split; [right; apply full_one|]. by vm_compute. }
  clearbody g'.
  assert (r (recompute_score_with_reach enr ctx (reach_gate (vex enr))) ≤
    r (recompute_score_with_reach enr ctx g')) as Hs
    by (apply score_mono; [done..|apply riskier_refl|apply reach_gate_cases|done|done]).
  cbn [set_runtime_reachable r explain Findings.reach recompute_score_with_reach] in *.
  pose proof (decide_ssvc_mono _ _ (kev enr) _ _ Hs Hgt) as Hd.
  destruct (decide_ssvc _ _ _ (reach_gate _)), (decide_ssvc _ _ _ g'). done.
Qed.
End runtime.

Definition demo_enrichment (v : VexStatus) : Enrichment :=
  mkEnrichment None (Some (f32_lit 75 10)) (Some (f32_lit 3 10)) None false
    ExploitMaturity.Poc v None.

Lemma riskier_context_never_scores_lower_witness :
  let lab := mkAssetContext false Criticality.Low true in
  let edge := mkAssetContext true Criticality.CrownJewel false in
  r (recompute_score (demo_enrichment VexStatus.Unknown) lab) = 3 ∧
  r (recompute_score (demo_enrichment VexStatus.Affected) edge) = 100 ∧
  r (recompute_score (demo_enrichment VexStatus.Unknown) lab) ≤
  r (recompute_score (demo_enrichment VexStatus.Affected) edge).
Proof.
  cbv zeta. split; [by vm_compute|]. split; [by vm_compute|].
  refine (proj1 (riskier_context_never_scores_lower
    (demo_enrichment VexStatus.Unknown) (demo_enrichment VexStatus.Affected)
    (mkAssetContext false Criticality.Low true) (mkAssetContext true Criticality.CrownJewel false)
    f32_one _ _ _ _ _)); try reflexivity; [by vm_compute|].
  split; [by vm_compute|]. split; by intros.
Defined.
