(* ===== verification/CveSource.v ===== *)
(** * CVE sources

    [server/ingest/src/matching.rs] ([CveHit], [CveFeed]) and [cve_source.rs]: the
    range-aware OSV matcher and the composite source.  JSON parsing of the
    advisories is serde's; the model starts from the parsed records. *)

From stdpp Require Import base tactics countable gmap strings list.
From Stdlib Require Import ZArith.
From S2P Require Import Prelude Order Transport Keys Version VersionProps.

(** ** Hits and the source interface *)

Record CveHit := mkCveHit {
  hit_name : string;
  hit_version : string;
  hit_vuln_id : string;
  hit_remediation_key : string;
}.

(** [hits_for source os os_version name version]. *)
Class CveSource (C : Type) :=
  hits_for : C → string → string → string → string → string → list CveHit.

Record CveFeed := mkCveFeed { feed_hits : list CveHit }.
#[export] Instance CveFeed_source : CveSource CveFeed := λ feed _ _ _ name version,
  filter (λ h, hit_name h = name ∧ hit_version h = version) (feed_hits feed).

(** ** Ecosystems *)

Module Family.
Inductive Family := Debian | Ubuntu | Rpm | Other.
End Family.
Abbreviation Family := Family.Family.

#[export] Instance Family_eq_dec : EqDecision Family.
Proof. solve_decision. Defined.
#[export] Instance Family_countable : Countable Family.
Proof.
  refine (inj_countable'
    (λ f, match f with Family.Debian => 0 | Family.Ubuntu => 1 | Family.Rpm => 2 | Family.Other => 3 end)
    (λ n, match n with 0 => Family.Debian | 1 => Family.Ubuntu | 2 => Family.Rpm | _ => Family.Other end) _).
  by intros [].
Defined.

Definition rpm_ecosystems : list string :=
  ["Red Hat"; "Rocky Linux"; "AlmaLinux"; "CentOS"; "Oracle Linux"; "SUSE"; "openSUSE"; "Mageia"].

(** [ecosystem.split(':').next()]: the part before the first colon. *)
Definition before_colon (s : bytes) : bytes :=
  match split_first 58 s with Some (l, _) => l | None => s end.

Definition family_of (ecosystem : string) : Family :=
  let base := trim (before_colon (as_bytes ecosystem)) in
  if bool_decide (base = as_bytes "Debian") then Family.Debian
  else if bool_decide (base = as_bytes "Ubuntu") then Family.Ubuntu
  else if existsb (λ e, bool_decide (base = as_bytes e)) rpm_ecosystems then Family.Rpm
  else Family.Other.

Definition to_ascii_lowercase (s : bytes) : bytes :=
  (λ c, if in_range 65 90 c then (c + 32)%Z else c) <$> s.

(** [s.contains(p)]. *)
Fixpoint contains (p s : bytes) : bool :=
  bool_decide (take (length p) s = p) ||
  match s with [] => false | _ :: s => contains p s end.

Definition source_families (source os os_version : string) : list Family :=
  if bool_decide (source = "dpkg") then
    let os_l := to_ascii_lowercase (as_bytes os) in
    if contains (as_bytes "ubuntu") os_l then [Family.Ubuntu]
    else if contains (as_bytes "debian") os_l then [Family.Debian]
    else [Family.Debian; Family.Ubuntu]
  else if bool_decide (source = "rpm") then [Family.Rpm]
  else [].

Module Comparator.
Inductive Comparator := Dpkg | Rpm | Semver.
End Comparator.
Abbreviation Comparator := Comparator.Comparator.

Definition ecosystem_comparator (family : Family) : Comparator :=
  match family with
  | Family.Debian | Family.Ubuntu => Comparator.Dpkg
  | Family.Rpm => Comparator.Rpm
  | Family.Other => Comparator.Semver
  end.

Definition compare (cmp : Comparator) (a b : string) : option comparison :=
  match cmp with
  | Comparator.Dpkg => Some (dpkg_compare a b)
  | Comparator.Rpm => Some (rpm_compare a b)
  | Comparator.Semver => semver_compare a b
  end.

(** ** Advisories *)

Record OsvEvent := mkOsvEvent {
  introduced : option string;
  fixed : option string;
  last_affected : option string;
}.
Record OsvRange := mkOsvRange { range_type : string; range_events : list OsvEvent }.
Record OsvPackage := mkOsvPackage { pkg_ecosystem : string; pkg_name : string }.
Record OsvAffected := mkOsvAffected {
  aff_package : OsvPackage;
  aff_ranges : list OsvRange;
  aff_versions : list string;
}.
Record OsvRecord := mkOsvRecord { osv_id : string; osv_affected : list OsvAffected }.

Record IndexedAffected := mkIndexedAffected {
  ia_id : string;
  ia_family : Family;
  ia_ranges : list OsvRange;
  ia_versions : list string;
}.
Record OsvSource := mkOsvSource { osv_index : gmap (Family * string) (list IndexedAffected) }.

Definition index_affected (id : string) (index : gmap (Family * string) (list IndexedAffected))
    (a : OsvAffected) : gmap (Family * string) (list IndexedAffected) :=
  let family := family_of (pkg_ecosystem (aff_package a)) in
  let key := (family, pkg_name (aff_package a)) in
  <[key := default [] (index !! key) ++
           [mkIndexedAffected id family (aff_ranges a) (aff_versions a)]]> index.

Definition from_records (records : list OsvRecord) : OsvSource :=
  mkOsvSource (foldl (λ index rec, foldl (index_affected (osv_id rec)) index (osv_affected rec))
    ∅ records).

(** ** Matching *)

(** One event of the walk in [range_affects]. *)
Definition range_event (version : string) (cmp : Comparator) (affected : bool)
    (event : OsvEvent) : bool :=
  let affected :=
    match introduced event with
    | Some i =>
        if bool_decide (i = "0") then true
        else match compare cmp version i with
             | Some Lt => affected
             | Some _ => true
             | None => affected
             end
    | None => affected
    end in
  let affected :=
    match fixed event with
    | Some f =>
        match compare cmp version f with
        | Some Lt => affected
        | Some _ => false
        | None => false
        end
    | None => affected
    end in
  match last_affected event with
  | Some l =>
      match compare cmp version l with
      | Some Gt => false
      | Some _ => affected
      | None => false
      end
  | None => affected
  end.

Definition range_affects (version : string) (events : list OsvEvent) (cmp : Comparator) : bool :=
  foldl (range_event version cmp) false events.

Definition range_comparator (family : Family) (range : OsvRange) : option Comparator :=
  if bool_decide (range_type range = "SEMVER") then Some Comparator.Semver
  else if bool_decide (range_type range = "ECOSYSTEM") then Some (ecosystem_comparator family)
  else None.

Definition affected_matches (entry : IndexedAffected) (version : string) : bool :=
  existsb (λ v, bool_decide (v = version)) (ia_versions entry) ||
  existsb (λ range,
    match range_comparator (ia_family entry) range with
    | Some cmp => range_affects version (range_events range) cmp
    | None => false
    end) (ia_ranges entry).

(** The first [fixed] bound of the entry, in order. *)
Definition first_fixed (entry : IndexedAffected) : option string :=
  head (omap fixed (mjoin (range_events <$> ia_ranges entry))).

Definition osv_remediation_key (name : string) (entry : IndexedAffected) : string :=
  match first_fixed entry with
  | Some f => "upgrade:" +:+ name +:+ ">=" +:+ f
  | None => "patch:" +:+ name +:+ ":" +:+ ia_id entry
  end.

(** The body of the two nested loops of [hits_for]; [acc] is [(out, seen)]. *)
Definition hit_entry (name version : string) (acc : list CveHit * list string)
    (entry : IndexedAffected) : list CveHit * list string :=
  let '(out, seen) := acc in
  if bool_decide (ia_id entry ∈ seen) then acc
  else if affected_matches entry version then
    (out ++ [mkCveHit name version (ia_id entry) (osv_remediation_key name entry)],
     seen ++ [ia_id entry])
  else acc.

Definition hit_family (s : OsvSource) (name version : string)
    (acc : list CveHit * list string) (family : Family) : list CveHit * list string :=
  match osv_index s !! (family, name) with
  | Some entries => foldl (hit_entry name version) acc entries
  | None => acc
  end.

#[export] Instance OsvSource_source : CveSource OsvSource :=
  λ s source os os_version name version,
    (foldl (hit_family s name version) ([], []) (source_families source os os_version)).1.

(** ** Several sources as one *)

Record CompositeCveSource := mkCompositeCveSource {
  sources : list (string → string → string → string → string → list CveHit);
}.
Definition composite_with {C} `{CveSource C} (s : CompositeCveSource) (c : C) : CompositeCveSource :=
  mkCompositeCveSource (sources s ++ [hits_for c]).

Definition push_new (out : list CveHit) (hit : CveHit) : list CveHit :=
  if existsb (λ h, bool_decide (hit_vuln_id h = hit_vuln_id hit)) out then out else out ++ [hit].

#[export] Instance CompositeCveSource_source : CveSource CompositeCveSource :=
  λ s source os os_version name version,
    foldl (λ out f, foldl push_new out (f source os os_version name version)) [] (sources s).

(** * What the CVE sources promise

    The event walk of an OSV range decides membership in its version intervals, and
    the OSV source reports exactly the advisories of the host's own families that
    affect the version. *)

(** ** Intervals *)

(** The upper end of an affected interval. *)
Inductive upper :=
  | UFixed (f : string)
  | ULast (l : string).
Definition upper_version (u : upper) : string := match u with UFixed f => f | ULast l => l end.

(** One [introduced] event, then its upper bound; a last [introduced] may stay open. *)
Definition event_introduced (lo : string) : OsvEvent := mkOsvEvent (Some lo) None None.
Definition event_upper (u : upper) : OsvEvent :=
  match u with
  | UFixed f => mkOsvEvent None (Some f) None
  | ULast l => mkOsvEvent None None (Some l)
  end.
Definition events_of (ivs : list (string * upper)) (open : option string) : list OsvEvent :=
  mjoin ((λ iv, [event_introduced iv.1; event_upper iv.2]) <$> ivs) ++
  match open with Some lo => [event_introduced lo] | None => [] end.

(** The versions a comparator orders. *)
Definition version_ok (cmp : Comparator) (v : string) : Prop :=
  match cmp with
  | Comparator.Dpkg => version_string v
  | Comparator.Rpm => True
  | Comparator.Semver => is_Some (parse_semver (as_bytes v))
  end.

Definition at_least (cmp : Comparator) (v lo : string) : Prop :=
  lo = "0" ∨ compare cmp v lo = Some Eq ∨ compare cmp v lo = Some Gt.
Definition below (cmp : Comparator) (v : string) (u : upper) : Prop :=
  match u with
  | UFixed f => compare cmp v f = Some Lt
  | ULast l => compare cmp v l = Some Lt ∨ compare cmp v l = Some Eq
  end.

(** The advisory's promise: the version lies in one of the intervals. *)
Definition in_intervals (cmp : Comparator) (v : string) (ivs : list (string * upper))
    (open : option string) : Prop :=
  (∃ iv, iv ∈ ivs ∧ at_least cmp v iv.1 ∧ below cmp v iv.2) ∨
  (∃ lo, open = Some lo ∧ at_least cmp v lo).

(** The OSV schema's requirement: bounds in ascending order, each interval
    starting at or above the previous fix (above the previous last affected). *)
Definition starts_after (cmp : Comparator) (prev : option upper) (lo : string) : Prop :=
  match prev with
  | None => True
  | Some (UFixed f) => lo ≠ "0" ∧ compare cmp f lo ≠ Some Gt
  | Some (ULast l) => lo ≠ "0" ∧ compare cmp l lo = Some Lt
  end.
Fixpoint ascending (cmp : Comparator) (prev : option upper) (ivs : list (string * upper))
    (open : option string) : Prop :=
  match ivs with
  | [] => match open with Some lo => starts_after cmp prev lo | None => True end
  | (lo, u) :: ivs =>
      starts_after cmp prev lo ∧ (lo = "0" ∨ compare cmp lo (upper_version u) ≠ Some Gt) ∧
      ascending cmp (Some u) ivs open
  end.

Definition bound_ok (cmp : Comparator) (v : string) : Prop := v = "0" ∨ version_ok cmp v.
Definition bounds_ok (cmp : Comparator) (ivs : list (string * upper)) (open : option string) : Prop :=
  Forall (λ iv, bound_ok cmp iv.1 ∧ version_ok cmp (upper_version iv.2)) ivs ∧
  match open with Some lo => bound_ok cmp lo | None => True end.

(** ** The comparators as total preorders *)

Definition semver_key (v : string) : Semver :=
  default (mkSemver (0, 0, 0)%Z []) (parse_semver (as_bytes v)).

Lemma compare_total cmp :
  ∃ c : string → string → comparison, Comparison c ∧
    ∀ a b, version_ok cmp a → version_ok cmp b → compare cmp a b = Some (c a b).
Proof.
  destruct cmp; simpl.
  - exists (λ a b, dpkg_full_cmp (dpkg_full_key a) (dpkg_full_key b)).
    split; [exact (comparison_of_key dpkg_full_key dpkg_full_cmp)|]. intros a b Ha Hb. f_equal. by apply dpkg_compare_key.
  - exists (λ a b, rpm_full_cmp (rpm_split (as_bytes a)) (rpm_split (as_bytes b))).
    split; [exact (comparison_of_key (λ v, rpm_split (as_bytes v)) rpm_full_cmp)|]. intros a b _ _. f_equal. by apply rpm_compare_key.
  - exists (λ a b, semver_cmp (semver_key a) (semver_key b)).
    split; [exact (comparison_of_key semver_key semver_cmp)|]. intros a b [x Hx] [y Hy].
    rewrite semver_compare_eq. unfold semver_key. by rewrite Hx, Hy.
Qed.

(** ** The walk *)

Section walk.
Context (cmp : Comparator) (c : string → string → comparison) `{!Comparison c}.
Context (Hc : ∀ a b, version_ok cmp a → version_ok cmp b → compare cmp a b = Some (c a b)).
Context (v : string) (Hv : version_ok cmp v).

Definition lo_b (lo : string) : bool :=
  bool_decide (lo = "0") || match c v lo with Lt => false | _ => true end.
Definition up_b (u : upper) : bool :=
  match u with
  | UFixed f => match c v f with Lt => true | _ => false end
  | ULast l => match c v l with Gt => false | _ => true end
  end.

Lemma at_least_b lo : bound_ok cmp lo → at_least cmp v lo ↔ lo_b lo = true.
Proof.
  unfold at_least, lo_b. intros Hlo. destruct (decide (lo = "0")) as [->|Hne].
  { rewrite bool_decide_eq_true_2 by done. naive_solver. }
  rewrite bool_decide_eq_false_2 by done. destruct Hlo as [|Hlo]; [done|]. rewrite Hc by done.
  destruct (c v lo); naive_solver.
Qed.

Lemma below_b u : version_ok cmp (upper_version u) → below cmp v u ↔ up_b u = true.
Proof. destruct u; simpl; intros Hu; rewrite Hc by done; destruct (c v _); naive_solver. Qed.

Lemma event_introduced_step b lo :
  bound_ok cmp lo → range_event v cmp b (event_introduced lo) = lo_b lo || b.
Proof.
  unfold range_event, lo_b. simpl. intros [->|Hlo].
  - by rewrite bool_decide_eq_true_2.
  - case_bool_decide; [done|]. rewrite Hc by done. by destruct (c v lo).
Qed.

Lemma event_upper_step b u :
  version_ok cmp (upper_version u) → range_event v cmp b (event_upper u) = up_b u && b.
Proof. destruct u; unfold range_event; simpl; intros Hu; rewrite Hc by done; by destruct (c v _). Qed.

Definition open_b (open : option string) (b : bool) : bool :=
  match open with Some lo => lo_b lo || b | None => b end.

Lemma walk_events ivs open b :
  bounds_ok cmp ivs open →
  foldl (range_event v cmp) b (events_of ivs open) =
  open_b open (foldl (λ b iv, up_b iv.2 && (lo_b iv.1 || b)) b ivs).
Proof.
  intros [Hivs Hopen]. unfold events_of. rewrite foldl_app. revert b.
  induction Hivs as [|[lo u] ivs [Hlo Hu] Hivs IH]; intros b.
  - destruct open as [lo|]; [|done]. simpl. by rewrite event_introduced_step.
  - cbn [fmap list_fmap mjoin list_join foldl app fst snd].
    rewrite event_introduced_step, event_upper_step by done. apply IH.
Qed.

(** A version still below the previous upper bound has not reached the next start. *)
Lemma starts_after_above u lo :
  version_ok cmp (upper_version u) → bound_ok cmp lo →
  starts_after cmp (Some u) lo → up_b u = true → lo ≠ "0" ∧ c v lo = Lt.
Proof.
  destruct u as [f|l]; simpl; intros Hu [->|Hlo] [Hne Hcmp]; try done; rewrite Hc in Hcmp by done.
  - destruct (c v f) eqn:Hvf; [done| |done]. intros _. split; [done|].
    destruct (c f lo) eqn:Hfl; [|by apply (cmp_lt_trans c v f)|done].
    by rewrite <-(cmp_eq_r c v f lo).
  - injection Hcmp as Hl. destruct (c v l) eqn:Hvl; intros; [| |done]; (split; [done|]).
    + by rewrite (cmp_eq_l c v l lo).
    + by apply (cmp_lt_trans c v l).
Qed.

Lemma below_lo_below_upper lo u :
  version_ok cmp lo → version_ok cmp (upper_version u) →
  compare cmp lo (upper_version u) ≠ Some Gt → c v lo = Lt → up_b u = true.
Proof.
  intros Hlo Hu Hle Hlt. rewrite Hc in Hle by done.
  assert (c v (upper_version u) = Lt) as Hvu.
  { destruct (c lo (upper_version u)) eqn:H'; [|by apply (cmp_lt_trans c v lo)|done].
    by rewrite <-(cmp_eq_r c v lo). }
  destruct u; simpl in *; by rewrite Hvu.
Qed.

(** Once inside an interval, the rest of the walk changes nothing. *)
Lemma walk_quiet u ivs open b :
  version_ok cmp (upper_version u) → bounds_ok cmp ivs open →
  ascending cmp (Some u) ivs open → up_b u = true →
  open_b open (foldl (λ b iv, up_b iv.2 && (lo_b iv.1 || b)) b ivs) = b.
Proof.
  intros Hu [Hivs Hopen]. revert u Hu b.
  induction Hivs as [|[lo u'] ivs [Hlo Hu'] Hivs IH]; intros u Hu b Hasc Hup; simpl in *.
  - destruct open as [lo|]; [|done]. simpl.
    destruct (starts_after_above u lo Hu Hopen Hasc Hup) as [Hne Hlt].
    unfold lo_b. by rewrite bool_decide_eq_false_2, Hlt by done.
  - destruct Hasc as (Hst & Hle & Hasc).
    destruct (starts_after_above u lo Hu Hlo Hst Hup) as [Hne Hlt].
    destruct Hlo as [|Hlo]; [done|]. destruct Hle as [|Hle]; [done|].
    assert (up_b u' = true) as Hup' by exact (below_lo_below_upper lo u' Hlo Hu' Hle Hlt).
    assert (lo_b lo = false) as Hlb by (unfold lo_b; by rewrite bool_decide_eq_false_2, Hlt).
    rewrite Hup', Hlb. simpl.
    by apply (IH u').
Qed.

Lemma walk_intervals prev ivs open :
  bounds_ok cmp ivs open → ascending cmp prev ivs open →
  open_b open (foldl (λ b iv, up_b iv.2 && (lo_b iv.1 || b)) false ivs) = true ↔
  in_intervals cmp v ivs open.
Proof.
  intros [Hivs Hopen]. revert prev.
  induction Hivs as [|[lo u] ivs [Hlo Hu] Hivs IH]; intros prev Hasc; simpl in *.
  - unfold in_intervals, open_b. destruct open as [lo|].
    + rewrite orb_false_r, <-at_least_b by done. split; [intros; right; by eexists|].
      intros [(? & []%elem_of_nil & _)|(? & [= <-] & ?)]; done.
    + split; [done|]. intros [(? & []%elem_of_nil & _)|(? & [=] & _)].
  - destruct Hasc as (_ & _ & Hasc).
    assert (in_intervals cmp v ((lo, u) :: ivs) open ↔
      (at_least cmp v lo ∧ below cmp v u) ∨ in_intervals cmp v ivs open) as ->.
    { unfold in_intervals. setoid_rewrite elem_of_cons. naive_solver. }
    rewrite at_least_b, below_b by done. rewrite orb_false_r.
    destruct (up_b u) eqn:Hup, (lo_b lo); simpl;
      [rewrite (walk_quiet u); by try split; naive_solver|rewrite (IH (Some u)) by done; naive_solver..].
Qed.
End walk.

(** For bounds in ascending order, walking a range's events decides exactly
    whether the version lies in one of its intervals: from [introduced] (with 0 for
    the beginning), strictly below [fixed], up to and including [last_affected],
    and without limit after a last open [introduced]. *)
Theorem range_affects_intervals (cmp : Comparator) (ivs : list (string * upper))
    (open : option string) (v : string) :
  version_ok cmp v → bounds_ok cmp ivs open → ascending cmp None ivs open →
  range_affects v (events_of ivs open) cmp = true ↔ in_intervals cmp v ivs open.
Proof.
  intros Hv Hok Hasc. destruct (compare_total cmp) as (c & HC & Hc). unfold range_affects.
  rewrite (walk_events cmp c Hc v Hv) by done. by apply (walk_intervals cmp c Hc v Hv None).
Qed.

(** ** The OSV source *)

Definition indexed (rec : OsvRecord) (a : OsvAffected) : IndexedAffected :=
  mkIndexedAffected (osv_id rec) (family_of (pkg_ecosystem (aff_package a)))
    (aff_ranges a) (aff_versions a).
Definition clause_key (a : OsvAffected) : Family * string :=
  (family_of (pkg_ecosystem (aff_package a)), pkg_name (aff_package a)).

(** The clauses of the advisories, each with its record. *)
Definition clauses (records : list OsvRecord) : list (OsvRecord * OsvAffected) :=
  rec ← records; pair rec <$> osv_affected rec.

Definition entries_for (k : Family * string) (cl : list (OsvRecord * OsvAffected)) :
    list IndexedAffected :=
  (λ ra, indexed ra.1 ra.2) <$> filter (λ ra, clause_key ra.2 = k) cl.

Definition index_clause (index : gmap (Family * string) (list IndexedAffected))
    (ra : OsvRecord * OsvAffected) : gmap (Family * string) (list IndexedAffected) :=
  index_affected (osv_id ra.1) index ra.2.

Lemma from_records_clauses records :
  osv_index (from_records records) = foldl index_clause ∅ (clauses records).
Proof.
  unfold from_records, clauses. simpl. generalize (∅ : gmap (Family * string) (list IndexedAffected)).
  induction records as [|rec records IH]; intros m; [done|]. simpl. rewrite IH, foldl_app. f_equal.
  clear. revert m. induction (osv_affected rec) as [|a l IHl]; intros m; [done|]. simpl. apply IHl.
Qed.

Lemma index_lookup cl k :
  default [] (foldl index_clause ∅ cl !! k) = entries_for k cl.
Proof.
  induction cl as [|[rec a] cl IH] using rev_ind; [simpl; by rewrite lookup_empty|].
  rewrite foldl_app. unfold entries_for in *. rewrite filter_app, fmap_app, <-IH. simpl.
  unfold index_clause at 1, index_affected. simpl. fold (clause_key a).
  destruct (decide (clause_key a = k)) as [<-|Hne].
  - rewrite lookup_insert_eq, filter_cons_True by done. done.
  - by rewrite lookup_insert_ne, filter_cons_False, app_nil_r.
Qed.

(** What the loops have collected after the entries [es]. *)
Definition collected (name version : string) (es : list IndexedAffected)
    (acc : list CveHit * list string) : Prop :=
  acc.2 = hit_vuln_id <$> acc.1 ∧ NoDup acc.2 ∧
  (∀ id, id ∈ acc.2 ↔ ∃ e, e ∈ es ∧ ia_id e = id ∧ affected_matches e version = true) ∧
  Forall (λ h, ∃ e, e ∈ es ∧ affected_matches e version = true ∧
    h = mkCveHit name version (ia_id e) (osv_remediation_key name e)) acc.1.

Lemma hit_entry_collected name version es acc e :
  collected name version es acc → collected name version (es ++ [e]) (hit_entry name version acc e).
Proof.
  destruct acc as [out seen]. intros (Hs & Hnd & Hin & Hall). unfold collected in *. simpl in *.
  assert (Forall (λ h, ∃ e', e' ∈ es ++ [e] ∧ affected_matches e' version = true ∧
    h = mkCveHit name version (ia_id e') (osv_remediation_key name e')) out) as Hall'.
  { eapply Forall_impl; [exact Hall|]. intros h (e' & ? & ?). exists e'. set_solver. }
  case_bool_decide as Hseen; simpl; [|destruct (affected_matches e version) eqn:Hm; simpl].
  - split_and!; try done. intros id. rewrite Hin. split; [set_solver|].
    intros (e' & [He'| ->%list_elem_of_singleton]%elem_of_app & Hid & Hm); [by exists e'|].
    subst id. by apply Hin.
  - split_and!.
    + by rewrite fmap_app, Hs.
    + apply NoDup_app. split; [done|]. split; [set_solver|]. apply NoDup_singleton.
    + intros id. rewrite elem_of_app, Hin, list_elem_of_singleton. set_solver.
    + apply Forall_app. split; [done|]. apply Forall_singleton. exists e. set_solver.
  - split_and!; try done. intros id. rewrite Hin. split; [set_solver|].
    intros (e' & [He'| ->%list_elem_of_singleton]%elem_of_app & Hid & Hm'); [by exists e'|congruence].
Qed.

Lemma hits_collected s name version fams :
  collected name version (f ← fams; default [] (osv_index s !! (f, name)))
    (foldl (hit_family s name version) ([], []) fams).
Proof.
  assert (∀ es es' acc, collected name version es acc →
    collected name version (es ++ es') (foldl (hit_entry name version) acc es')) as Hfold.
  { intros es es'. revert es. induction es' as [|e es' IH]; intros es acc Hacc; [by rewrite app_nil_r|].
    simpl. rewrite cons_middle, app_assoc. by apply IH, hit_entry_collected. }
  induction fams as [|f fams IH] using rev_ind.
  { split_and!; try done; [constructor|]. set_solver. }
  rewrite foldl_app, bind_app. simpl. rewrite app_nil_r. unfold hit_family at 1.
  destruct (osv_index s !! (f, name)) as [es|]; simpl; [by apply Hfold|by rewrite app_nil_r].
Qed.

(** C34: the OSV source reports each advisory at most once, and reports it exactly
    when it has a clause for the package in one of the families of the host's own
    distribution whose versions or ranges cover the version; the remediation key
    comes from such a clause. *)
Theorem osv_hits_exact (records : list OsvRecord) (source os os_version name version : string) :
  let hits := hits_for (from_records records) source os os_version name version in
  let clause rec a :=
    rec ∈ records ∧ a ∈ osv_affected rec ∧ pkg_name (aff_package a) = name ∧
    family_of (pkg_ecosystem (aff_package a)) ∈ source_families source os os_version ∧
    affected_matches (indexed rec a) version = true in
  NoDup (hit_vuln_id <$> hits) ∧
  (∀ id, id ∈ hit_vuln_id <$> hits ↔ ∃ rec a, clause rec a ∧ osv_id rec = id) ∧
  (∀ h, h ∈ hits → hit_name h = name ∧ hit_version h = version ∧
     ∃ rec a, clause rec a ∧ osv_id rec = hit_vuln_id h ∧
       hit_remediation_key h = osv_remediation_key name (indexed rec a)).
Proof.
  intros hits clause. set (fams := source_families source os os_version) in *.
  destruct (hits_collected (from_records records) name version fams) as (Hs & Hnd & Hin & Hall).
  change ((foldl (hit_family (from_records records) name version) ([], []) fams).1) with hits in *.
  rewrite Hs in Hnd, Hin.
  assert (∀ e, e ∈ (f ← fams; default [] (osv_index (from_records records) !! (f, name))) ↔
    ∃ rec a, rec ∈ records ∧ a ∈ osv_affected rec ∧ pkg_name (aff_package a) = name ∧
      family_of (pkg_ecosystem (aff_package a)) ∈ fams ∧ e = indexed rec a) as He.
  { intros e. rewrite list_elem_of_bind, from_records_clauses. setoid_rewrite index_lookup.
    unfold entries_for. setoid_rewrite list_elem_of_fmap. setoid_rewrite list_elem_of_filter.
    unfold clauses. setoid_rewrite list_elem_of_bind. setoid_rewrite list_elem_of_fmap.
    unfold clause_key. split.
    - intros (f & ([rec a] & -> & [= <- <-] & (rec' & (a' & [= -> ->] & ?) & ?)) & ?). by exists rec', a'.
    - intros (rec & a & Hr & Ha & <- & Hf & ->). eexists. split; [|exact Hf].
      exists (rec, a). split; [done|]. split; [done|]. exists rec. split; [|done]. by exists a. }
  split; [done|]. split.
  - intros id. rewrite Hin. setoid_rewrite He. unfold clause. naive_solver.
  - rewrite Forall_forall in Hall. intros h Hh. destruct (Hall h Hh) as (e & Hein & Hm & ->).
    apply He in Hein as (rec & a & ? & ? & ? & ? & ->). unfold clause. naive_solver.
Qed.
