(* ===== verification/Text.v ===== *)
(** * Text

    What the parsers of the agent and of the server use of [str] beyond trimming and
    lines: words, replacement, splitting at a pattern, the components of a path, the
    lossy decoding of UTF-8, and the numbers that [str::parse] reads, [f32] included. *)

From Stdlib Require Import ZArith SpecFloat.
From stdpp Require Import base tactics gmap strings list.
From S2P Require Import Prelude Float32 Transport Scheduler Keys Version CveSource.

(** ** Searching and splitting *)

Definition eq_ignore_ascii_case (a b : bytes) : bool :=
  bool_decide (to_ascii_lowercase a = to_ascii_lowercase b).

(** [s.replace(junk, " ")]: occurrences from the left, not overlapping. *)
Fixpoint replace_fuel (fuel : nat) (junk s : bytes) : bytes :=
  match fuel, s with
  | _, [] => []
  | O, _ => s
  | S fuel, x :: s' =>
      match strip_prefix junk s with
      | Some rest => 32%Z :: replace_fuel fuel junk rest
      | None => x :: replace_fuel fuel junk s'
      end
  end.
Definition replace (junk s : bytes) : bytes := replace_fuel (length s) junk s.

(** [s.split_once(pat)]: the parts around the first occurrence. *)
Fixpoint split_once (pat s : bytes) : option (bytes * bytes) :=
  match strip_prefix pat s with
  | Some rest => Some ([], rest)
  | None =>
      match s with
      | [] => None
      | x :: s => match split_once pat s with Some (l, r) => Some (x :: l, r) | None => None end
      end
  end.

(** [s.split(pat)] for a pattern that is not empty. *)
Fixpoint split_pat (fuel : nat) (pat s : bytes) : list bytes :=
  match fuel with
  | O => [s]
  | S fuel => match split_once pat s with Some (l, r) => l :: split_pat fuel pat r | None => [s] end
  end.

Definition strip_suffix (p s : bytes) : option bytes := reverse <$> strip_prefix (reverse p) (reverse s).
Definition ends_with (p s : bytes) : bool := bool_decide (is_Some (strip_suffix p s)).
Definition starts_with_ws (s : bytes) : bool := bool_decide (is_Some (first_stripped s whitespace)).

(** ** Words *)

(** [str::split_whitespace]. *)
Fixpoint words_fuel (fuel : nat) (word s : bytes) : list bytes :=
  match fuel, s with
  | _, [] => if bool_decide (word = []) then [] else [word]
  | O, _ => []
  | S fuel, x :: s' =>
      match first_stripped s whitespace with
      | Some rest => (if bool_decide (word = []) then [] else [word]) ++ words_fuel fuel [] rest
      | None => words_fuel fuel (word ++ [x]) s'
      end
  end.
Definition split_whitespace (s : bytes) : list bytes := words_fuel (length s) [] s.

(** [s.split_once(char::is_whitespace)]. *)
Fixpoint split_whitespace_once (s : bytes) : option (bytes * bytes) :=
  match s with
  | [] => None
  | x :: s' =>
      match first_stripped s whitespace with
      | Some rest => Some ([], rest)
      | None => match split_whitespace_once s' with Some (l, r) => Some (x :: l, r) | None => None end
      end
  end.

(** [v.join(" ")]. *)
Fixpoint join_space (ws : list bytes) : bytes :=
  match ws with
  | [] => []
  | [w] => w
  | w :: ws => w ++ [32%Z] ++ join_space ws
  end.

(** ** Paths *)

(** The components of a path that is written with slashes. *)
Definition path_components (p : bytes) : list string :=
  string_of_bytes <$> filter (λ s, s ≠ [] ∧ s ≠ as_bytes ".") (split_on 47 p).

(** ** UTF-8 *)

(** The length of the character or of the ill-formed sequence that starts a text, and
    which of the two it is. *)
Definition utf8_chunk (b0 : Z) (l : bytes) : nat * bool :=
  let at_ i := default 0%Z (l !! i) in
  if in_range 0 127 b0 then (1, true)%nat
  else if in_range 194 223 b0 then if continuation (at_ 0%nat) then (2, true)%nat else (1, false)%nat
  else if in_range 224 239 b0 then
    if (if (b0 =? 224)%Z then in_range 160 191 (at_ 0%nat)
        else if (b0 =? 237)%Z then in_range 128 159 (at_ 0%nat) else continuation (at_ 0%nat))
    then if continuation (at_ 1%nat) then (3, true)%nat else (2, false)%nat
    else (1, false)%nat
  else if in_range 240 244 b0 then
    if (if (b0 =? 240)%Z then in_range 144 191 (at_ 0%nat)
        else if (b0 =? 244)%Z then in_range 128 143 (at_ 0%nat) else continuation (at_ 0%nat))
    then if continuation (at_ 1%nat)
         then if continuation (at_ 2%nat) then (4, true)%nat else (3, false)%nat
         else (2, false)%nat
    else (1, false)%nat
  else (1, false)%nat.

(** [String::from_utf8_lossy]: each maximal ill-formed sequence becomes U+FFFD. *)
Fixpoint lossy_fuel (fuel : nat) (l : bytes) : bytes :=
  match fuel, l with
  | S fuel, b0 :: l' =>
      let '(n, valid) := utf8_chunk b0 l' in
      (if valid then take n l else [239; 191; 189]%Z) ++ lossy_fuel fuel (drop n l)
  | _, _ => []
  end.
Definition from_utf8_lossy (l : bytes) : bytes := lossy_fuel (length l) l.

(** ** Integers *)

(** [str::parse] at an unsigned type with the given greatest value. *)
Definition parse_unsigned (max : Z) (s : bytes) : option Z :=
  v ← parse_u64 s; if (v <=? max)%Z then Some v else None.
Definition parse_u32 : bytes → option Z := parse_unsigned (2 ^ 32 - 1).
Definition parse_u16 : bytes → option Z := parse_unsigned 65535.

(** ** [str::parse::<f32>] *)

(** The f32 nearest to [m * 10 ^ e], ties to even. *)
Definition f32_of_decimal (neg : bool) (m e : Z) : f32 :=
  match m with
  | Zpos p =>
      if (0 <=? e)%Z then
        match (Zpos p * 10 ^ e)%Z with
        | Zpos q => binary_round f32_prec f32_emax neg q 0
        | _ => S754_zero neg
        end
      else
        let '(q, x, l) := SFdiv_core_binary f32_prec f32_emax (Zpos p) 0 (10 ^ - e) 0 in
        binary_round_aux f32_prec f32_emax neg q x l
  | _ => S754_zero neg
  end.

Fixpoint take_digits (s : bytes) : bytes * bytes :=
  match s with
  | c :: s' => if is_digit c then let '(d, r) := take_digits s' in (c :: d, r) else ([], s)
  | [] => ([], [])
  end.

(** A leading sign. *)
Definition take_sign (s : bytes) : bool * bytes :=
  match s with
  | c :: s' => if (c =? 45)%Z then (true, s') else if (c =? 43)%Z then (false, s') else (false, s)
  | [] => (false, [])
  end.

(** The exponent part: absent, or a sign and digits up to the end of the text; the
    value stops growing once it is past 65535. *)
Definition exponent_value (d : bytes) : Z :=
  foldl (λ v c, if (v <? 65536)%Z then (10 * v + (c - 48))%Z else v) 0%Z d.
Definition parse_exponent (s : bytes) : option Z :=
  match s with
  | [] => Some 0%Z
  | c :: s =>
      if (c =? 101)%Z || (c =? 69)%Z then
        let '(neg, s) := take_sign s in
        let '(d, rest) := take_digits s in
        if bool_decide (d = []) || negb (bool_decide (rest = [])) then None
        else Some (if neg then - exponent_value d else exponent_value d)%Z
      else None
  end.

(** Digits with an optional point, at least one of them. *)
Definition parse_number (neg : bool) (s : bytes) : option f32 :=
  let '(int, s) := take_digits s in
  let '(frac, s) :=
    match s with c :: s' => if (c =? 46)%Z then take_digits s' else ([], s) | [] => ([], []) end in
  if bool_decide (int ++ frac = []) then None
  else
    e ← parse_exponent s;
    Some (f32_of_decimal neg (digits_value (int ++ frac)) (e - Z.of_nat (length frac)))%Z.

Definition parse_f32 (s : bytes) : option f32 :=
  let '(neg, s) := take_sign s in
  match parse_number neg s with
  | Some x => Some x
  | None =>
      if eq_ignore_ascii_case s (as_bytes "nan") then Some S754_nan
      else if eq_ignore_ascii_case s (as_bytes "inf") || eq_ignore_ascii_case s (as_bytes "infinity")
      then Some (S754_infinity neg) else None
  end.

(** ** Examples *)

Example parse_f32_half : parse_f32 (as_bytes "0.5") = Some (f32_lit 1 2).
Proof. reflexivity. Qed.
Example parse_f32_epss : parse_f32 (as_bytes "0.90770") = Some (f32_lit 9077 10000).
Proof. reflexivity. Qed.
Example parse_f32_exponent : parse_f32 (as_bytes "-12.5E-1") = Some (f32_div (f32_of_Z (-5)) (f32_of_Z 4)).
Proof. reflexivity. Qed.
Example parse_f32_huge : parse_f32 (as_bytes "1e39") = Some (S754_infinity false).
Proof. reflexivity. Qed.
Example parse_f32_tiny : parse_f32 (as_bytes "1e-45") = Some (S754_finite false 1 (-149)).
Proof. reflexivity. Qed.
Example parse_f32_point : parse_f32 (as_bytes ".") = None.
Proof. reflexivity. Qed.
Example parse_f32_words : parse_f32 (as_bytes "InFinity") = Some (S754_infinity false).
Proof. reflexivity. Qed.
Example parse_u16_range : parse_u16 (as_bytes "65536") = None ∧ parse_u16 (as_bytes "+80") = Some 80%Z.
Proof. done. Qed.
Example lossy_of : from_utf8_lossy [97; 195; 169; 226; 130; 65; 255; 128]%Z =
  [97; 195; 169; 239; 191; 189; 65; 239; 191; 189; 239; 191; 189]%Z.
Proof. reflexivity. Qed.
Example words_of : split_whitespace (as_bytes "  a  bc ") = [as_bytes "a"; as_bytes "bc"].
Proof. reflexivity. Qed.
