(* ===== verification/Ocsf.v ===== *)
(** * JSON values and the event envelope

    [serde_json] is an interface: indexing, the [as_*] accessors, the values the
    [json!] macro builds and deserialization of a record, with the laws that relate
    building to reading.  [crates/ocsf/src/lib.rs] is the envelope every module
    emits and every mapper reads. *)

From Stdlib Require Import ZArith.
From stdpp Require Import base tactics gmap strings list.
From S2P Require Import Prelude.

Local Open Scope Z_scope.

(** ** JSON values ([serde_json::Value]) *)

Class JsonValue (V : Type) := {
  json_index : V → string → V;
  json_as_array : V → option (list V);
  json_as_str : V → option string;
  json_as_u64 : V → option Z;
}.

(** [serde_json::from_value::<T>(v).ok()]. *)
Class Deserialize (V T : Type) := from_value : V → option T.

(** ** The envelope (ocsf/src/lib.rs) *)

Definition PROCESS_ACTIVITY : Z := 1007.
Definition FILE_SYSTEM_ACTIVITY : Z := 1001.
Definition NETWORK_ACTIVITY : Z := 4001.
Definition SOFTWARE_INVENTORY_INFO : Z := 5020.
Definition COMPLIANCE_FINDING : Z := 2003.
Definition DEVICE_CONFIG_STATE : Z := 5002.
Definition FILE_INTEGRITY_FINDING : Z := 2004.
Definition CORRELATED_ACTIVITY : Z := 9002.
Definition RUNTIME_MODULE_LOAD : Z := 9003.

Record Metadata := mkMetadata { product : string; meta_version : string; tenant_id : string }.
Record Device := mkDevice { hostname : string; os : string; os_version : string }.

Record OcsfEnvelope (V : Type) := mkOcsfEnvelope {
  class_uid : Z;
  class_name : string;
  time : Z;
  severity_id : Z;
  metadata : Metadata;
  device : Device;
  data : V;
}.
Arguments mkOcsfEnvelope {V}.
Arguments class_uid {V}.
Arguments class_name {V}.
Arguments time {V}.
Arguments severity_id {V}.
Arguments metadata {V}.
Arguments device {V}.
Arguments data {V}.

(** [OcsfEnvelope::new]; [t] is what [now_millis()] reads. *)
Definition envelope_new {V} (class_uid : Z) (class_name : string) (meta : Metadata)
    (dev : Device) (data : V) (t : Z) : OcsfEnvelope V :=
  mkOcsfEnvelope class_uid class_name t 1 meta dev data.

(** [env.severity_id = sev]. *)
Definition set_severity {V} (sev : Z) (env : OcsfEnvelope V) : OcsfEnvelope V :=
  mkOcsfEnvelope (class_uid env) (class_name env) (time env) sev (metadata env)
    (device env) (data env).

(** ** Building JSON ([json!]) *)

Class JsonBuild (V : Type) := {
  json_null : V;
  json_bool : bool → V;
  json_num : Z → V;
  json_str : string → V;
  json_arr : list V → V;
  json_obj : list (string * V) → V;
}.

(** [v.get(k)] and the remaining accessors. *)
Class JsonGet (V : Type) := {
  json_get : V → string → option V;
  json_as_bool : V → option bool;
  json_as_i64 : V → option Z;
}.

(** First entry of an association list. *)
Fixpoint assoc {V} (k : string) (l : list (string * V)) : option V :=
  match l with
  | [] => None
  | (k', v) :: l => if bool_decide (k' = k) then Some v else assoc k l
  end.

(** What [serde_json] documents about the values it builds; object literals have
    distinct keys.  [v\[k\]] is [v.get(k)], or [null]. *)
Class JsonLaws (V : Type) `{JsonValue V, JsonBuild V, JsonGet V} : Prop := {
  get_obj l k : NoDup l.*1 → json_get (json_obj l) k = assoc k l;
  index_get v k : json_index v k = default json_null (json_get v k);
  as_str_str s : json_as_str (json_str s) = Some s;
  as_u64_num n : is_u64 n → json_as_u64 (json_num n) = Some n;
  as_u64_range v n : json_as_u64 v = Some n → is_u64 n;
  as_array_arr l : json_as_array (json_arr l) = Some l;
  as_str_null : json_as_str json_null = None;
  as_u64_null : json_as_u64 json_null = None;
  get_null k : json_get json_null k = None;
}.

Section access.
Context {V : Type} `{JsonLaws V}.

Lemma index_obj l k : NoDup l.*1 → json_index (json_obj l) k = default json_null (assoc k l).
Proof. intros Hnd. by rewrite index_get, get_obj. Qed.

Lemma index_null k : json_index json_null k = (json_null : V).
Proof. by rewrite index_get, get_null. Qed.

(** [v.get(k).and_then(Value::as_str)] and its siblings. *)
Definition get_str (v : V) (k : string) : option string := json_get v k ≫= json_as_str.
Definition get_u64 (v : V) (k : string) : option Z := json_get v k ≫= json_as_u64.
Definition get_bool (v : V) (k : string) : option bool := json_get v k ≫= json_as_bool.
End access.

(** Field access on the object literals: compare the literal keys, keep the values. *)
Ltac json_keys := repeat match goal with
  | |- context [bool_decide (@eq string ?a ?b)] =>
      let r := eval vm_compute in (bool_decide (@eq string a b)) in
      match r with true => idtac | false => idtac end;
      change (bool_decide (@eq string a b)) with r; cbv iota
  end.
Ltac json_field := rewrite index_obj by (apply (bool_decide_unpack _); vm_compute; exact I);
  cbn [assoc]; json_keys; cbn [default from_option id].

(** * A concrete JSON type

    An instance of the [serde_json] interface in which its laws hold; the concrete
    scenarios of the [Demo] files run on it. *)

Local Open Scope Z_scope.

Set Warnings "-register-all".

Inductive Json :=
  | JNull
  | JBool (b : bool)
  | JNum (z : Z)
  | JStr (s : string)
  | JArr (l : list Json)
  | JObj (l : list (string * Json)).

#[export] Instance Json_get : JsonGet Json := {|
  json_get v k := match v with JObj l => assoc k l | _ => None end;
  json_as_bool v := match v with JBool b => Some b | _ => None end;
  json_as_i64 v := match v with JNum z => Some z | _ => None end;
|}.

#[export] Instance Json_value : JsonValue Json := {|
  json_index v k := default JNull (json_get v k);
  json_as_array v := match v with JArr l => Some l | _ => None end;
  json_as_str v := match v with JStr s => Some s | _ => None end;
  json_as_u64 v := match v with
    | JNum z => if (0 <=? z) && (z <? u64_modulus) then Some z else None
    | _ => None
    end;
|}.

#[export] Instance Json_build : JsonBuild Json := {|
  json_null := JNull;
  json_bool := JBool;
  json_num := JNum;
  json_str := JStr;
  json_arr := JArr;
  json_obj := JObj;
|}.

#[export] Instance Json_laws : JsonLaws Json.
Proof.
  split; try done.
  - intros n [? ?]. simpl. by rewrite (proj2 (Z.leb_le 0 n)), (proj2 (Z.ltb_lt n u64_modulus)).
  - intros [| |z| | |] n; try done. simpl. unfold is_u64.
    destruct (Z.leb_spec 0 z), (Z.ltb_spec z u64_modulus); naive_solver.
Qed.
