(* ===== verification/Ingest.v ===== *)
(** * Ingest

    [server/ingest/src]: SBOM matching,
    runtime reachability, the eight mappers, their composition
    ([pipeline.rs]), the persistent findings store ([store.rs]) and the verifier
    that re-scores after a remediation ([verify.rs]).  [serde_json] is an
    interface: indexing, the [as_*] accessors and deserialization of a record.
    [None] is a panic of the engine. *)

From Stdlib Require Import ZArith Strings.Ascii Strings.String.
From stdpp Require Import base tactics gmap strings list.
From S2P Require Import Prelude Float32 Order Transport Keys Version Findings Engine.
From S2P Require Import CveSource Action Bridge Ocsf.

Local Open Scope Z_scope.

(** ** Records the agent emits *)

(** compliance/src/record.rs, drift.rs, fim.rs. *)
Record FrameworkMapping := mkFrameworkMapping {
  framework : string; control_ids : list string;
}.
Record ComplianceRecord := mkComplianceRecord {
  cr_control_id : string; cr_passed : bool; cr_weight : f32; cr_subject : string;
  cr_location : string; cr_remediation_key : string; cr_frameworks : list FrameworkMapping;
}.
Record DriftRecord := mkDriftRecord {
  dr_entry_id : string; dr_drifted : bool; dr_subject : string; dr_location : string;
  dr_weight : f32; dr_expected : string; dr_actual : option string; dr_remediation_key : string;
}.
Record FimRecord := mkFimRecord {
  fr_entry_id : string; fr_violated : bool; fr_path : string; fr_weight : f32;
  fr_expected_sha256 : string; fr_actual_sha256 : option string; fr_remediation_key : string;
}.
(** One detector hit; the four activity mappers declare the same struct. *)
Record Detection := mkDetection { rule : string; reason : string }.

(** ** Reports *)

Record IngestReport := mkIngestReport {
  findings : list Finding;
  remediation_items : list RemediationItem;
}.

Definition not_suppressed (f : Finding) : bool :=
  bool_decide (status f ≠ FindingState.Suppressed).

(** What every mapper ends with:
    [reconcile], the [Suppressed] filter, then [group_by_fix]. *)
Definition report_of (prior fresh : list Finding) (batch_time : Z) : IngestReport :=
  let findings := reconcile prior fresh batch_time in
  mkIngestReport findings (group_by_fix (filter not_suppressed findings)).

(** What the reachability pass collects per asset. *)
Abbreviation Loaded := (gmap string (gset string)).
Abbreviation PkgLibs := (gmap string (list (string * list string))).

Section ingest.
Context {V : Type} `{JsonValue V}.
Implicit Types (env : OcsfEnvelope V) (envelopes : list (OcsfEnvelope V)).

(** [iter().map(|e| e.time).max().unwrap_or(0)]. *)
Definition batch_time envelopes : Z :=
  match envelopes with
  | [] => 0
  | e :: es => foldl (λ t e, Z.max t (time e)) (time e) es
  end.

(** ** SBOM matching (matching.rs) *)

Definition str_or_default (v : V) : string := default "" (json_as_str v).

Definition detection_of (asset_id name source : string) (hit : CveHit) : RawDetection :=
  mkRawDetection (mkIdentity asset_id (hit_vuln_id hit) name source) "torda"
    DetectionMethod.Authenticated None (f32_lit 95 100) (hit_remediation_key hit).

Definition sbom_components (v : V) : option (list V) :=
  json_as_array (json_index (json_index v "sbom") "components").

Definition detections_from_sbom {C} `{CveSource C} (env : OcsfEnvelope V) (cves : C) :
    list RawDetection :=
  if negb (class_uid env =? SOFTWARE_INVENTORY_INFO) then []
  else
    c ← default [] (sbom_components (data env));
    let name := str_or_default (json_index c "name") in
    let version := str_or_default (json_index c "version") in
    let source := str_or_default (json_index c "source") in
    detection_of (hostname (device env)) name source <$>
      hits_for cves source (os (device env)) (os_version (device env)) name version.

(** ** Runtime reachability (reachability.rs) *)

Record RuntimeReachability := mkRuntimeReachability {
  rr_assets_with_data : gset string;
  rr_confirmed : gset (string * string);
}.

(** The libraries one SBOM component provides; [None] when it is skipped. *)
Definition component_libs (comp : V) : option (string * list string) :=
  match json_as_str (json_index comp "name") with
  | None => None
  | Some name =>
      if bool_decide (name = "") then None
      else
        let libs := omap json_as_str (default [] (json_as_array (json_index comp "libraries"))) in
        if bool_decide (libs = []) then None else Some (name, libs)
  end.

(** One envelope of the collection loop. *)
Definition collect (acc : Loaded * PkgLibs) env : Loaded * PkgLibs :=
  let '(loaded, pkg_libs) := acc in
  let asset := hostname (device env) in
  if class_uid env =? RUNTIME_MODULE_LOAD then
    match json_as_str (json_index (json_index (data env) "module") "path") with
    | Some path => (<[asset := {[path]} ∪ default ∅ (loaded !! asset)]> loaded, pkg_libs)
    | None => acc
    end
  else if class_uid env =? SOFTWARE_INVENTORY_INFO then
    match sbom_components (data env) with
    | Some components =>
        (loaded, <[asset := default [] (pkg_libs !! asset) ++ omap component_libs components]> pkg_libs)
    | None => acc
    end
  else acc.

(** The join for one asset with loads. *)
Definition join_asset (pkg_libs : PkgLibs) (asset : string) (paths : gset string) :
    list (string * string) :=
  (λ p, (asset, p.1)) <$>
    filter (λ p, existsb (λ l, bool_decide (l ∈ paths)) p.2) (default [] (pkg_libs !! asset)).

Definition from_envelopes envelopes : RuntimeReachability :=
  let '(loaded, pkg_libs) := foldl collect (∅, ∅) envelopes in
  mkRuntimeReachability (dom loaded)
    (list_to_set (al ← map_to_list loaded; join_asset pkg_libs al.1 al.2)).

#[export] Instance RuntimeReachability_source : ReachabilitySource RuntimeReachability := {|
  has_data m asset := bool_decide (asset ∈ rr_assets_with_data m);
  confirmed m id := bool_decide ((asset_id id, component id) ∈ rr_confirmed m);
|}.

(** ** The vulnerability pipeline (pipeline.rs) *)

Section vuln.
Context {C E A : Type} `{CveSource C, EnrichmentSource E, AssetContextSource A}.

Definition run_ingest envelopes (feed : C) (enrichment : E) (assets : A)
    (prior : list Finding) : option IngestReport :=
  let detections := env ← envelopes; detections_from_sbom env feed in
  let reach := from_envelopes envelopes in
  scored ← run (mkEngine enrichment assets reach) detections;
  Some (report_of prior scored (batch_time envelopes)).
End vuln.

(** ** Weight-scored findings (scoring.rs) *)

Definition neutral_enrichment : Enrichment :=
  mkEnrichment None None None None false ExploitMaturity.None VexStatus.Affected None.

Definition parse_lenient {T} `{Deserialize V T} (value : V) : list T :=
  omap from_value (default [] (json_as_array value)).

Section mappers.
Context {A : Type} `{AssetContextSource A}.
Context `{!Deserialize V Detection, !Deserialize V ComplianceRecord}
        `{!Deserialize V DriftRecord, !Deserialize V FimRecord}.

Definition weighted_finding (asset vuln comp loc : string) (weight : f32) (key : string)
    (assets : A) : Finding :=
  let identity := mkIdentity asset vuln comp loc in
  let ctx := asset_context assets asset in
  let score := recompute_compliance_score weight ctx in
  let '(decision, sla_hours) := decide_ssvc (r score) false true (reach (explain score)) in
  mkFinding (finding_id_for identity) identity
    [mkProvenance "torda" DetectionMethod.Authenticated None (f32_lit 95 100)]
    neutral_enrichment ctx score decision sla_hours key FindingState.Open None None None.

(** ** Posture mappers (compliance.rs, drift.rs, fim.rs) *)

Definition compliance_findings_from_envelope env (assets : A) : list Finding :=
  if negb (class_uid env =? COMPLIANCE_FINDING) then []
  else
    (λ r, weighted_finding (hostname (device env)) (cr_control_id r) (cr_subject r)
            (cr_location r) (cr_weight r) (cr_remediation_key r) assets) <$>
    filter (λ r, negb (cr_passed r))
      (parse_lenient (json_index (json_index (data env) "compliance") "records")).

Definition run_compliance_ingest envelopes (assets : A) (prior : list Finding) : IngestReport :=
  report_of prior (env ← envelopes; compliance_findings_from_envelope env assets)
    (batch_time envelopes).

Definition drift_findings_from_envelope env (assets : A) : list Finding :=
  if negb (class_uid env =? DEVICE_CONFIG_STATE) then []
  else
    (λ r, weighted_finding (hostname (device env)) (dr_entry_id r) (dr_subject r)
            (dr_location r) (dr_weight r) (dr_remediation_key r) assets) <$>
    filter dr_drifted (parse_lenient (json_index (json_index (data env) "drift") "records")).

Definition run_drift_ingest envelopes (assets : A) (prior : list Finding) : IngestReport :=
  report_of prior (env ← envelopes; drift_findings_from_envelope env assets)
    (batch_time envelopes).

Definition FILESYSTEM : string := "filesystem".

Definition fim_findings_from_envelope env (assets : A) : list Finding :=
  if negb (class_uid env =? FILE_INTEGRITY_FINDING) then []
  else
    (λ r, weighted_finding (hostname (device env)) (fr_entry_id r) (fr_path r)
            FILESYSTEM (fr_weight r) (fr_remediation_key r) assets) <$>
    filter fr_violated (parse_lenient (json_index (json_index (data env) "fim") "records")).

Definition run_fim_ingest envelopes (assets : A) (prior : list Finding) : IngestReport :=
  report_of prior (env ← envelopes; fim_findings_from_envelope env assets)
    (batch_time envelopes).

(** ** Activity mappers: what they share *)

(** The rule weights of a record's detections, the greatest one winning. *)
Definition max_rule_weight (rule_weight : string → f32) (env : OcsfEnvelope V) : option f32 :=
  foldl (λ acc d, let w := rule_weight (rule d) in
           Some (match acc with None => w | Some m => f32_max m w end)) None
    (parse_lenient (T := Detection) (json_index (data env) "detections")).

Definition pair_cmp (a b : string * string) : comparison :=
  then_with (string_cmp a.1 b.1) (string_cmp a.2 b.2).

(** [entry(key).and_modify(|w| *w = w.max(weight)).or_insert(weight)]. *)
Definition max_weight_step (m : list ((string * string) * f32))
    (c : (string * string) * f32) : list ((string * string) * f32) :=
  bt_alter pair_cmp c.1 (λ o, match o with Some w => f32_max w c.2 | None => c.2 end) m.
Definition max_weights (cs : list ((string * string) * f32)) : list ((string * string) * f32) :=
  foldl max_weight_step [] cs.

(** [s.rsplit_once(':').map_or(s, |(a, _)| a)]. *)
Definition before_last_colon (s : string) : string :=
  match split_last 58 (as_bytes s) with Some (a, _) => string_of_bytes a | None => s end.

(** [s.split_once("->").map_or(s, |(i, _)| i)]. *)
Fixpoint take_to_arrow (s : bytes) : bytes :=
  match s with
  | [] => []
  | c :: s' => if bool_decide (take 2 s = as_bytes "->") then [] else c :: take_to_arrow s'
  end.
Definition before_arrow (s : string) : string := string_of_bytes (take_to_arrow (as_bytes s)).

(** [x as u16]. *)
Definition as_u16 (z : Z) : Z := z mod 65536.

(** ** Process activity (process.rs) *)

Definition process_rule_weight (rule : string) : f32 :=
  if bool_decide (rule = "lolbin") then f32_lit 4 10
  else if bool_decide (rule = "suspicious_path") then f32_lit 4 10
  else if bool_decide (rule = "lolbin_in_suspicious_path") then f32_lit 7 10
  else if bool_decide (rule = "short_lived_suspicious") then f32_lit 5 10
  else f32_lit 3 10.

Definition process_contribution env : option ((string * string) * f32) :=
  if negb (class_uid env =? PROCESS_ACTIVITY) then None
  else
    weight ← max_rule_weight process_rule_weight env;
    let image := str_or_default (json_index (json_index (data env) "process") "image") in
    Some ((hostname (device env), image), weight).

Definition process_finding (assets : A) (kw : (string * string) * f32) : Finding :=
  let '((asset, image), weight) := kw in
  weighted_finding asset ("process:" +:+ image) image "process" weight
    "triage-suspicious-process" assets.

Definition aggregate_process_findings envelopes (assets : A) : list Finding :=
  process_finding assets <$> max_weights (omap process_contribution envelopes).

Definition run_process_ingest envelopes (assets : A) (prior : list Finding) : IngestReport :=
  report_of prior (aggregate_process_findings envelopes assets) (batch_time envelopes).

(** ** Network activity (network.rs) *)

Definition network_rule_weight (rule : string) : f32 :=
  if bool_decide (rule = "suspicious_port") then f32_lit 4 10
  else if bool_decide (rule = "suspicious_port_to_external") then f32_lit 7 10
  else f32_lit 3 10.

Definition dest_key (daddr : string) (dport : Z) : string := daddr +:+ ":" +:+ show_Z dport.

Definition network_contribution env : option ((string * string) * f32) :=
  if negb (class_uid env =? NETWORK_ACTIVITY) then None
  else
    weight ← max_rule_weight network_rule_weight env;
    let conn := json_index (data env) "connection" in
    daddr ← json_as_str (json_index conn "daddr");
    dport ← json_as_u64 (json_index conn "dport");
    Some ((hostname (device env), dest_key daddr (as_u16 dport)), weight).

Definition network_finding (assets : A) (kw : (string * string) * f32) : Finding :=
  let '((asset, dest), weight) := kw in
  weighted_finding asset ("network:" +:+ dest) (before_last_colon dest) "network" weight
    "triage-suspicious-connection" assets.

Definition aggregate_network_findings envelopes (assets : A) : list Finding :=
  network_finding assets <$> max_weights (omap network_contribution envelopes).

Definition run_network_ingest envelopes (assets : A) (prior : list Finding) : IngestReport :=
  report_of prior (aggregate_network_findings envelopes assets) (batch_time envelopes).

(** ** File activity (file_activity.rs) *)

Definition file_rule_weight (rule : string) : f32 :=
  if bool_decide (rule = "write_to_system_dir") then f32_lit 8 10
  else if bool_decide (rule = "write_to_persistence_location") then f32_lit 8 10
  else if bool_decide (rule = "write_to_sensitive_config") then f32_lit 8 10
  else if bool_decide (rule = "read_of_sensitive_file") then f32_lit 5 10
  else f32_lit 3 10.

Definition file_contribution env : option ((string * string) * f32) :=
  if negb (class_uid env =? FILE_SYSTEM_ACTIVITY) then None
  else
    weight ← max_rule_weight file_rule_weight env;
    path ← json_as_str (json_index (json_index (data env) "file") "path");
    Some ((hostname (device env), path), weight).

Definition file_finding (assets : A) (kw : (string * string) * f32) : Finding :=
  let '((asset, path), weight) := kw in
  weighted_finding asset ("file:" +:+ path) path path weight
    "triage-suspicious-file-activity" assets.

Definition aggregate_file_activity_findings envelopes (assets : A) : list Finding :=
  file_finding assets <$> max_weights (omap file_contribution envelopes).

Definition run_file_activity_ingest envelopes (assets : A) (prior : list Finding) : IngestReport :=
  report_of prior (aggregate_file_activity_findings envelopes assets) (batch_time envelopes).

(** ** Correlated activity (correlation.rs) *)

Definition correlation_rule_weight (rule : string) : f32 :=
  if bool_decide (rule = "suspicious_process_suspicious_connection") then f32_lit 9 10
  else if bool_decide (rule = "suspicious_process_wrote_file_and_connected") then f32_lit 95 100
  else if bool_decide (rule = "suspicious_process_read_sensitive_and_connected")
  then f32_lit 95 100
  else f32_lit 3 10.

Definition correlation_contribution env : option ((string * string) * f32) :=
  if negb (class_uid env =? CORRELATED_ACTIVITY) then None
  else
    weight ← max_rule_weight correlation_rule_weight env;
    image ← json_as_str (json_index (json_index (data env) "process") "image");
    let conn := json_index (data env) "connection" in
    daddr ← json_as_str (json_index conn "daddr");
    dport ← json_as_u64 (json_index conn "dport");
    Some ((hostname (device env), image +:+ "->" +:+ dest_key daddr (as_u16 dport)), weight).

Definition correlation_finding (assets : A) (kw : (string * string) * f32) : Finding :=
  let '((asset, edge), weight) := kw in
  weighted_finding asset ("correlation:" +:+ edge) (before_arrow edge) "correlation" weight
    "triage-attack-chain" assets.

Definition aggregate_correlation_findings envelopes (assets : A) : list Finding :=
  correlation_finding assets <$> max_weights (omap correlation_contribution envelopes).

Definition run_correlation_ingest envelopes (assets : A) (prior : list Finding) : IngestReport :=
  report_of prior (aggregate_correlation_findings envelopes assets) (batch_time envelopes).

(** ** All mappers over one batch (pipeline.rs) *)

Definition run_all_ingest {C E} `{CveSource C, EnrichmentSource E} envelopes (feed : C)
    (enrichment : E) (assets : A) (prior : list Finding) : option IngestReport :=
  vuln ← run_ingest envelopes feed enrichment assets prior;
  let all :=
    findings vuln ++
    findings (run_process_ingest envelopes assets prior) ++
    findings (run_network_ingest envelopes assets prior) ++
    findings (run_file_activity_ingest envelopes assets prior) ++
    findings (run_correlation_ingest envelopes assets prior) ++
    findings (run_compliance_ingest envelopes assets prior) ++
    findings (run_drift_ingest envelopes assets prior) ++
    findings (run_fim_ingest envelopes assets prior) in
  Some (mkIngestReport all (group_by_fix (filter not_suppressed all))).
End mappers.
End ingest.

(** ** The findings store (store.rs) *)

(** [trait FindingsStore]: [load] and [upsert] may fail. *)
Class FindingsStore (S : Type) := {
  store_load : M S (list Finding);
  store_upsert : list Finding → M S unit;
}.

Record InMemoryStore := mkInMemoryStore { by_id : list (string * Finding) }.
Definition store_new : InMemoryStore := mkInMemoryStore [].

(** [for f in findings { map.insert(f.finding_id.clone(), f.clone()) }]. *)
Definition insert_all (m : list (string * Finding)) (fs : list Finding) : list (string * Finding) :=
  foldl (λ m f, bt_insert string_cmp (finding_id f) f m) m fs.

#[export] Instance InMemoryStore_store : FindingsStore InMemoryStore := {|
  store_load := gets (λ s, (by_id s).*2);
  store_upsert fs := modify (λ s, mkInMemoryStore (insert_all (by_id s) fs));
|}.

Definition ops_terminal (f : Finding) : bool :=
  bool_decide (status f = FindingState.Accepted) || bool_decide (status f = FindingState.Suppressed).

Definition ops_states (prior : list Finding) : list (string * FindingState) :=
  foldl (λ m f, bt_insert string_cmp (finding_id f) (status f) m) [] (filter ops_terminal prior).

Definition carry_forward_ops_states (prior fresh : list Finding) : list Finding :=
  let states := ops_states prior in
  if bool_decide (length states = 0%nat) then fresh
  else
    (λ f, match bt_get string_cmp (finding_id f) states with
          | Some s => set_status s f
          | None => f
          end) <$> fresh.

Definition persisted_ingest {S} `{FindingsStore S} (run : list Finding → IngestReport) :
    M S IngestReport :=
  prior ← store_load;
  let report := run prior in
  let fresh := carry_forward_ops_states prior (findings report) in
  store_upsert fresh;;
  mret (mkIngestReport fresh (remediation_items report)).

(** ** Fixtures (fixtures.rs) *)

Definition default_feed : CveFeed := mkCveFeed
  [mkCveHit "openssl" "3.0.2" "CVE-2022-3602" "upgrade:openssl>=3.0.14";
   mkCveHit "openssh-server" "9.6p1" "CVE-2024-6387" "upgrade:openssh-server>=9.8p1";
   mkCveHit "glibc" "2.39" "CVE-2024-2961" "upgrade:glibc>=2.40"].

Definition default_enrichment : MapEnrichment := mkMapEnrichment
  (<["CVE-2024-2961" := mkEnrichment None (Some (f32_lit 90 10)) (Some (f32_lit 5 10)) None false
        ExploitMaturity.Functional VexStatus.NotAffected None]>
  (<["CVE-2024-6387" := mkEnrichment None (Some (f32_lit 81 10)) (Some (f32_lit 6 10)) None true
        ExploitMaturity.Weaponized VexStatus.Affected None]>
  (<["CVE-2022-3602" := mkEnrichment None (Some (f32_lit 75 10)) (Some (f32_lit 4 10)) None false
        ExploitMaturity.Functional VexStatus.Affected None]> ∅))).

Definition default_assets : MapAssetContext :=
  mkMapAssetContext ∅ (mkAssetContext true Criticality.High false).

(** ** The re-scoring verifier (verify.rs) *)

(** [trait CurrentState]: the envelopes of an asset after the fix. *)
Class CurrentState (S V : Type) := current_envelopes : S → string → list (OcsfEnvelope V).

Record EngineVerifier (S : Type) := mkEngineVerifier { ev_state : S }.
Arguments mkEngineVerifier {S}.
Arguments ev_state {S}.

Section verifier.
Context {S V : Type} `{JsonValue V, CurrentState S V}.

Definition present_ids (state : S) (asset : string) : option (list string) :=
  report ← run_ingest (current_envelopes state asset) default_feed default_enrichment
             default_assets [];
  Some (finding_id <$> findings report).

Definition engine_verify (v : EngineVerifier S) (action : RemediationAction)
    (applied : list string) : option VerifyOutcome :=
  if bool_decide (finding_ids (action_verify action) = []) then Some VerifyOutcome.NotFixed
  else
    present ← mapM (present_ids (ev_state v)) (targets_of action);
    Some (if existsb (λ id, bool_decide (id ∈ mjoin present)) (finding_ids (action_verify action))
          then VerifyOutcome.NotFixed else VerifyOutcome.Fixed).

(** The bridge's interface; [engine_verify] never panics. *)
#[export] Instance EngineVerifier_verifier : Verifier (EngineVerifier S) :=
  λ v action applied, default VerifyOutcome.NotFixed (engine_verify v action applied).
End verifier.
