(* ===== verification/IngestProps.v ===== *)
(** * What ingest promises

    Runtime reachability is the exact join, the vulnerability pipeline reports
    exactly the vulnerable components, the verifier closes nothing that is still
    detected, the activity mappers emit one finding per key, and operator
    decisions survive every later run. *)

From Stdlib Require Import ZArith Strings.Ascii Strings.String Sorting.Sorted.
From stdpp Require Import base tactics gmap strings list pretty.
From S2P Require Import Prelude Float32 Order Transport Keys Version Findings Engine.
From S2P Require Import EngineProps CveSource Action Bridge Ocsf Ingest.

Local Open Scope Z_scope.

(** ** Runtime reachability *)

Section reachability.
Context {V : Type} `{JsonValue V}.
Implicit Types (env : OcsfEnvelope V) (envs : list (OcsfEnvelope V)).

(** [asset] was seen to load [path]. *)
Definition loaded_by env (asset path : string) : Prop :=
  hostname (device env) = asset ∧ class_uid env = RUNTIME_MODULE_LOAD ∧
  json_as_str (json_index (json_index (data env) "module") "path") = Some path.

(** The SBOM of [asset] lists package [pkg] with these libraries. *)
Definition provides env (asset : string) (pkg : string * list string) : Prop :=
  hostname (device env) = asset ∧ class_uid env = SOFTWARE_INVENTORY_INFO ∧
  ∃ comps comp, sbom_components (data env) = Some comps ∧ comp ∈ comps ∧
    component_libs comp = Some pkg.

Definition loaded_on envs asset path : Prop := ∃ env, env ∈ envs ∧ loaded_by env asset path.
Definition provided_on envs asset pkg : Prop := ∃ env, env ∈ envs ∧ provides env asset pkg.

Definition collected_loads envs (loaded : Loaded) : Prop :=
  ∀ asset, (asset ∈ (dom loaded : gset string) ↔ ∃ p, loaded_on envs asset p) ∧
    ∀ p, p ∈ default ∅ (loaded !! asset) ↔ loaded_on envs asset p.
Definition collected_libs envs (libs : PkgLibs) : Prop :=
  ∀ asset pkg, pkg ∈ default [] (libs !! asset) ↔ provided_on envs asset pkg.

Lemma loaded_on_snoc envs env asset p :
  loaded_on (envs ++ [env]) asset p ↔ loaded_on envs asset p ∨ loaded_by env asset p.
Proof. unfold loaded_on. setoid_rewrite elem_of_app. setoid_rewrite list_elem_of_singleton. naive_solver. Qed.

Lemma provided_on_snoc envs env asset pkg :
  provided_on (envs ++ [env]) asset pkg ↔ provided_on envs asset pkg ∨ provides env asset pkg.
Proof. unfold provided_on. setoid_rewrite elem_of_app. setoid_rewrite list_elem_of_singleton. naive_solver. Qed.

Lemma collect_loads envs env loaded libs :
  collected_loads envs loaded → collected_loads (envs ++ [env]) (collect (loaded, libs) env).1.
Proof.
  intros Hl asset. destruct (Hl asset) as [Hdom Hin].
  setoid_rewrite loaded_on_snoc. unfold collect, loaded_by.
  destruct (Z.eqb_spec (class_uid env) RUNTIME_MODULE_LOAD) as [Hcl|Hcl].
  - destruct (json_as_str _) as [path|] eqn:Hp; simpl; [|rewrite Hdom; split; [|intros p; rewrite Hin]; naive_solver].
    destruct (decide (hostname (device env) = asset)) as [<-|Hne].
    + rewrite dom_insert_L, lookup_insert_eq. split; [set_solver|]. intros p. simpl.
      rewrite elem_of_union, Hin, elem_of_singleton. naive_solver.
    + rewrite dom_insert_L, lookup_insert_ne by done. split; [set_solver|]. intros p. rewrite Hin. naive_solver.
  - assert ((if class_uid env =? SOFTWARE_INVENTORY_INFO
             then match sbom_components (data env) with
                  | Some components => (loaded, <[hostname (device env) :=
                      default [] (libs !! hostname (device env)) ++ omap component_libs components]> libs)
                  | None => (loaded, libs)
                  end else (loaded, libs)).1 = loaded) as -> by (by repeat case_match).
    rewrite Hdom. split; [|intros p; rewrite Hin]; naive_solver.
Qed.

Lemma collect_libs envs env loaded libs :
  collected_libs envs libs → collected_libs (envs ++ [env]) (collect (loaded, libs) env).2.
Proof.
  intros Hl asset pkg. specialize (Hl asset pkg). rewrite provided_on_snoc, <-Hl. unfold collect, provides.
  destruct (Z.eqb_spec (class_uid env) RUNTIME_MODULE_LOAD) as [Hcl|Hcl].
  { assert (class_uid env ≠ SOFTWARE_INVENTORY_INFO) by (rewrite Hcl; done).
    case_match; simpl; naive_solver. }
  destruct (Z.eqb_spec (class_uid env) SOFTWARE_INVENTORY_INFO) as [Hs|Hs]; [|simpl; naive_solver].
  destruct (sbom_components (data env)) as [comps|] eqn:Hc; simpl; [|naive_solver].
  destruct (decide (hostname (device env) = asset)) as [<-|Hne].
  - rewrite lookup_insert_eq. simpl. rewrite elem_of_app, list_elem_of_omap. naive_solver.
  - rewrite lookup_insert_ne by done. naive_solver.
Qed.

Lemma collect_spec envs :
  collected_loads envs (foldl collect (∅, ∅) envs).1 ∧ collected_libs envs (foldl collect (∅, ∅) envs).2.
Proof.
  induction envs as [|env envs [IH1 IH2]] using rev_ind.
  { split.
    - intros asset. cbn. rewrite dom_empty_L, lookup_empty. unfold loaded_on.
      split; [|intros p]; set_solver.
    - intros asset pkg. cbn. rewrite lookup_empty. unfold provided_on. set_solver. }
  rewrite !foldl_app. cbn [foldl]. destruct (foldl collect (∅, ∅) envs) as [loaded libs].
  split; [by apply collect_loads|by apply collect_libs].
Qed.

Lemma join_asset_elem libs asset paths name :
  (asset, name) ∈ join_asset libs asset paths ↔
  ∃ ls l, (name, ls) ∈ default [] (libs !! asset) ∧ l ∈ ls ∧ l ∈ paths.
Proof.
  unfold join_asset. rewrite list_elem_of_fmap. setoid_rewrite list_elem_of_filter.
  setoid_rewrite Is_true_true. setoid_rewrite existsb_exists. setoid_rewrite bool_decide_eq_true.
  setoid_rewrite <-list_elem_of_In. split.
  - intros ([n ls] & [= ->] & (l & ? & ?) & ?). by exists ls, l.
  - intros (ls & l & ? & ? & ?). exists (name, ls). naive_solver.
Qed.

(** Runtime reachability is exactly the join of the batch: an asset has data
    iff one of its module-load events names a path, and a package is confirmed on
    an asset iff the asset loaded one of the libraries the asset's own SBOM lists
    for that package. *)
Theorem reachability_is_the_join envs (asset : string) (id : Identity) :
  (has_data (from_envelopes envs) asset = true ↔ ∃ p, loaded_on envs asset p) ∧
  (confirmed (from_envelopes envs) id = true ↔
     ∃ libs l, provided_on envs (asset_id id) (component id, libs) ∧ l ∈ libs ∧
       loaded_on envs (asset_id id) l).
Proof.
  destruct (collect_spec envs) as [Hl Hp]. unfold from_envelopes.
  destruct (foldl collect (∅, ∅) envs) as [loaded libs]. simpl in *.
  rewrite !bool_decide_eq_true. split; [by apply Hl|].
  rewrite elem_of_list_to_set, list_elem_of_bind. setoid_rewrite elem_of_map_to_list'. split.
  - intros ([a paths] & Hj & Hlk). simpl in *.
    assert (a = asset_id id) as ->.
    { unfold join_asset in Hj. apply list_elem_of_fmap in Hj as (? & [= ->] & _). done. }
    apply join_asset_elem in Hj as (ls & l & Hls & Hin & Hpath). exists ls, l.
    split; [by apply Hp|]. split; [done|]. apply Hl. by rewrite Hlk.
  - intros (ls & l & Hls & Hin & Hload). apply Hp in Hls. apply Hl in Hload.
    destruct (loaded !! asset_id id) as [paths|] eqn:Hlk; [|set_solver].
    exists (asset_id id, paths). split; [|done]. apply join_asset_elem. by exists ls, l.
Qed.
End reachability.

(** ** The vulnerability pipeline *)

Lemma reconcile_one_same prior t f :
  identity (reconcile_one prior t f) = identity f ∧
  finding_id (reconcile_one prior t f) = finding_id f ∧
  enrichment (reconcile_one prior t f) = enrichment f ∧
  last_seen (reconcile_one prior t f) = Some t ∧
  (status (reconcile_one prior t f) = FindingState.Suppressed ↔ status f = FindingState.Suppressed).
Proof.
  unfold reconcile_one. destruct (prior_by_identity prior (identity f)) as [p|]; [|done].
  simpl. case_bool_decide as Ho; [|done]. simpl. case_bool_decide; [|done].
  split_and!; try done. simpl. rewrite Ho. done.
Qed.

Lemma reconcile_identities prior fresh t :
  identity <$> reconcile prior fresh t = identity <$> fresh.
Proof.
  unfold reconcile. rewrite <-list_fmap_compose. apply list_fmap_ext. intros _ f _.
  apply reconcile_one_same.
Qed.

Lemma StronglySorted_lt_NoDup (l : list Identity) : StronglySorted identity_lt l → NoDup l.
Proof.
  induction 1 as [|x l Hl IH Hall]; constructor; [|done]. intros Hx.
  rewrite Forall_forall in Hall. specialize (Hall x Hx). unfold identity_lt in Hall.
  by rewrite (cmp_refl identity_cmp) in Hall.
Qed.

Section pipeline.
Context {V C : Type} `{JsonValue V, CveSource C}.
Implicit Types (env : OcsfEnvelope V) (envs : list (OcsfEnvelope V)).

(** [id] names a component of some SBOM of the batch that the feed has a hit for. *)
Definition detected (feed : C) envs (id : Identity) : Prop :=
  ∃ env comp hit, env ∈ envs ∧ class_uid env = SOFTWARE_INVENTORY_INFO ∧
    comp ∈ default [] (sbom_components (data env)) ∧
    let name := str_or_default (json_index comp "name") in
    let source := str_or_default (json_index comp "source") in
    hit ∈ hits_for feed source (os (device env)) (os_version (device env)) name
            (str_or_default (json_index comp "version")) ∧
    id = mkIdentity (hostname (device env)) (hit_vuln_id hit) name source.

Lemma detections_identities feed envs id :
  id ∈ rd_identity <$> (env ← envs; detections_from_sbom env feed) ↔ detected feed envs id.
Proof.
  rewrite list_elem_of_fmap. setoid_rewrite list_elem_of_bind. unfold detections_from_sbom. split.
  - intros (d & -> & env & Hd & Henv).
    destruct (Z.eqb_spec (class_uid env) SOFTWARE_INVENTORY_INFO) as [Hc|]; simpl in Hd; [|by apply elem_of_nil in Hd].
    apply list_elem_of_bind in Hd as (comp & Hd & Hcomp).
    apply list_elem_of_fmap in Hd as (hit & -> & Hhit). by exists env, comp, hit.
  - intros (env & comp & hit & Henv & Hc & Hcomp & Hhit & ->). cbv zeta in Hhit.
    eexists. split; [|exists env; split; [|done]].
    2:{ rewrite Hc, Z.eqb_refl. simpl. apply list_elem_of_bind. exists comp. split; [|done].
        apply list_elem_of_fmap. exists hit. split; [done|done]. }
    done.
Qed.

(** The pipeline's own confidence is a number. *)
Lemma detections_confidences feed envs :
  confidences_ok (env ← envs; detections_from_sbom env feed).
Proof.
  apply Forall_forall. intros d (env & Hd & _)%list_elem_of_bind. unfold detections_from_sbom in Hd.
  destruct (_ =? _)%Z; simpl in Hd; [|by apply elem_of_nil in Hd].
  apply list_elem_of_bind in Hd as (comp & Hd & _). by apply list_elem_of_fmap in Hd as (hit & -> & _).
Qed.

Context {E A : Type} `{EnrichmentSource E, AssetContextSource A}.

Lemma run_ingest_spec envs (feed : C) (enr : E) (assets : A) prior :
  ∃ fs, run_ingest envs feed enr assets prior = Some (report_of prior fs (batch_time envs)) ∧
    Forall (verdict (mkEngine enr assets (from_envelopes envs))) fs ∧
    NoDup (identity <$> fs) ∧ ∀ id, id ∈ identity <$> fs ↔ detected feed envs id.
Proof.
  unfold run_ingest.
  destruct (run_spec (mkEngine enr assets (from_envelopes envs))
    (env ← envs; detections_from_sbom env feed)) as (fs & -> & Hv & Hs & Hin); [apply detections_confidences|].
  exists fs. split; [done|]. split; [done|]. split; [by apply StronglySorted_lt_NoDup|].
  intros id. by rewrite Hin, detections_identities.
Qed.

(** C31: the vulnerability pipeline reports exactly one finding for each SBOM
    component of the batch the feed has a hit for, under that component's host,
    name and source, and nothing else; a finding is suppressed exactly when VEX
    says not affected, and the remediation items close exactly the vulnerabilities
    of the findings that are not suppressed.  It never panics. *)
Theorem ingest_reports_exactly_the_vulnerable envs (feed : C) (enr : E) (assets : A) prior :
  ∃ rep, run_ingest envs feed enr assets prior = Some rep ∧
    NoDup (identity <$> findings rep) ∧
    (∀ id, id ∈ identity <$> findings rep ↔ detected feed envs id) ∧
    (∀ f, f ∈ findings rep →
       finding_id f = finding_id_for (identity f) ∧ last_seen f = Some (batch_time envs) ∧
       (status f = FindingState.Suppressed ↔ vex (enrichment f) = VexStatus.NotAffected)) ∧
    (∀ v, (∃ it, it ∈ remediation_items rep ∧ v ∈ closes it) ↔
       ∃ f, f ∈ findings rep ∧ status f ≠ FindingState.Suppressed ∧ vuln_id (identity f) = v).
Proof.
  destruct (run_ingest_spec envs feed enr assets prior) as (fs & Hrun & Hv & Hnd & Hin).
  eexists. split; [exact Hrun|]. unfold report_of. cbn [findings remediation_items].
  rewrite reconcile_identities. split; [done|]. split; [done|]. split.
  - intros f (f0 & -> & Hf0)%list_elem_of_fmap. rewrite Forall_forall in Hv. specialize (Hv f0 Hf0).
    destruct (reconcile_one_same prior (batch_time envs) f0) as (-> & -> & -> & -> & ->).
    split; [apply Hv|]. split; [done|apply Hv].
  - intros v. set (fs' := reconcile prior fs (batch_time envs)).
    destruct (group_by_fix_spec (filter not_suppressed fs')) as (_ & Hkeys & Hit).
    assert (∀ f, f ∈ filter not_suppressed fs' ↔ f ∈ fs' ∧ status f ≠ FindingState.Suppressed) as Hns.
    { intros f. rewrite list_elem_of_filter. unfold not_suppressed. rewrite bool_decide_spec. tauto. }
    split.
    + intros (it & Hi & Hcl). destruct (Hit it Hi) as (_ & _ & _ & _ & Hc & _).
      apply Hc in Hcl as (f & Hf & _ & <-). apply Hns in Hf. naive_solver.
    + intros (f & Hf & Hst & <-). assert (f ∈ filter not_suppressed fs') as Hf' by (by apply Hns).
      assert (remediation_key f ∈ item_key <$> group_by_fix (filter not_suppressed fs')) as Hk.
      { apply Hkeys, list_elem_of_fmap. by exists f. }
      apply list_elem_of_fmap in Hk as (it & Hkey & Hi). exists it. split; [done|].
      destruct (Hit it Hi) as (_ & _ & _ & _ & Hc & _). apply Hc. by exists f.
Qed.
End pipeline.

(** ** The verifier *)

Section verifier.
Context {S V : Type} `{JsonValue V, CurrentState S V}.

Lemma present_ids_spec (state : S) asset :
  ∃ ids, present_ids state asset = Some ids ∧
    ∀ i, i ∈ ids ↔ ∃ id, detected default_feed (current_envelopes state asset) id ∧ finding_id_for id = i.
Proof.
  unfold present_ids. destruct (run_ingest_spec (current_envelopes state asset) default_feed
    default_enrichment default_assets []) as (fs & -> & Hv & _ & Hin).
  eexists. split; [done|]. cbn. intros i. setoid_rewrite <-Hin. rewrite list_elem_of_fmap.
  setoid_rewrite list_elem_of_fmap. rewrite Forall_forall in Hv. split.
  - intros (f & -> & (f0 & -> & Hf0)). exists (identity f0). split; [by exists f0|].
    destruct (reconcile_one_same [] (batch_time (current_envelopes state asset)) f0) as (_ & -> & _).
    symmetry. apply (Hv f0 Hf0).
  - intros (id & (f0 & -> & Hf0) & <-).
    exists (reconcile_one [] (batch_time (current_envelopes state asset)) f0). split.
    + destruct (reconcile_one_same [] (batch_time (current_envelopes state asset)) f0) as (_ & -> & _).
      symmetry. apply (Hv f0 Hf0).
    + by exists f0.
Qed.

Lemma present_all (state : S) assets :
  ∃ ids : list (list string), mapM (present_ids state) assets = Some ids ∧
    ∀ i, i ∈ mjoin ids ↔ ∃ asset id, asset ∈ assets ∧
      detected default_feed (current_envelopes state asset) id ∧ finding_id_for id = i.
Proof.
  induction assets as [|a assets (ids & Hids & IH)]; [exists []; split; [done|]; set_solver|].
  destruct (present_ids_spec state a) as (l & Hl & Hin). exists (l :: ids).
  cbn [mapM]. rewrite Hl, Hids. split; [done|]. intros i. cbn [mjoin list_join].
  rewrite elem_of_app, Hin, IH. setoid_rewrite elem_of_cons. naive_solver.
Qed.

(** C33: the re-scoring verifier reports Fixed exactly when the action links at
    least one finding and no SBOM component of any target's current state still
    produces a linked finding; otherwise it reports NotFixed, and it never panics. *)
Theorem verifier_fixed_iff_gone (v : EngineVerifier S) (action : RemediationAction)
    (applied : list string) :
  (engine_verify v action applied = Some VerifyOutcome.Fixed ↔
     finding_ids (action_verify action) ≠ [] ∧
     ∀ asset id, asset ∈ targets_of action →
       detected default_feed (current_envelopes (ev_state v) asset) id →
       finding_id_for id ∉ finding_ids (action_verify action)) ∧
  (engine_verify v action applied = Some VerifyOutcome.Fixed ∨
   engine_verify v action applied = Some VerifyOutcome.NotFixed).
Proof.
  unfold engine_verify. case_bool_decide as Hnil; [naive_solver|].
  destruct (present_all (ev_state v) (targets_of action)) as (ids & -> & Hin). cbn.
  destruct (existsb _ _) eqn:Hex; (split; [|naive_solver]).
  - apply existsb_exists in Hex as (i & Hi%list_elem_of_In & Hp%bool_decide_eq_true).
    apply Hin in Hp as (asset & id & Ha & Hd & <-). naive_solver.
  - split; [|done]. intros _. split; [done|]. intros asset id Ha Hd Hlinked.
    apply not_true_iff_false in Hex. apply Hex, existsb_exists.
    exists (finding_id_for id). split; [by apply list_elem_of_In|].
    apply bool_decide_eq_true, Hin. naive_solver.
Qed.
End verifier.

(** ** The findings store across runs *)

(** Keys in order, every finding under its own id. *)
Definition store_ok (s : InMemoryStore) : Prop :=
  bt_ok string_cmp (by_id s) ∧ Forall (λ p, finding_id p.2 = p.1) (by_id s).

Definition with_id (k : string) (f : Finding) : bool := bool_decide (finding_id f = k).

Lemma bt_get_insert {W} k (x : W) m j :
  bt_ok string_cmp m →
  bt_get string_cmp j (bt_insert string_cmp k x m) =
  if bool_decide (k = j) then Some x else bt_get string_cmp j m.
Proof.
  intros Hm. unfold bt_insert. rewrite (bt_get_alter string_cmp) by done.
  case_bool_decide as Hkj; [subst; by rewrite (cmp_refl string_cmp)|].
  destruct (string_cmp j k) eqn:Hc; [|done..]. by apply string_comparison_eq in Hc.
Qed.

(** Inserting findings one by one: the last one with an id wins. *)
Lemma insert_all_spec {W} (val : Finding → W) fs m :
  bt_ok string_cmp m →
  let m' := foldl (λ m f, bt_insert string_cmp (finding_id f) (val f) m) m fs in
  bt_ok string_cmp m' ∧
  ∀ k, bt_get string_cmp k m' =
    match last (filter (with_id k) fs) with Some f => Some (val f) | None => bt_get string_cmp k m end.
Proof.
  intros Hm. induction fs as [|f fs [IHok IH]] using rev_ind; [done|].
  rewrite foldl_app. cbn. split; [by apply (bt_alter_ok string_cmp)|].
  intros k. rewrite bt_get_insert by done. rewrite filter_app, filter_cons_bool, filter_nil.
  change (bool_decide (finding_id f = k)) with (with_id k f).
  destruct (with_id k f); [by rewrite last_snoc|]. rewrite app_nil_r. apply IH.
Qed.

Definition persisted_fresh (run : list Finding → IngestReport) (s : InMemoryStore) : list Finding :=
  carry_forward_ops_states (by_id s).*2 (findings (run (by_id s).*2)).

Lemma persisted_ingest_run run s :
  persisted_ingest run s =
  (mkInMemoryStore (insert_all (by_id s) (persisted_fresh run s)),
   Ok (mkIngestReport (persisted_fresh run s) (remediation_items (run (by_id s).*2)))).
Proof. done. Qed.

(** After a run an id holds the last reported finding with it, or what it held. *)
Lemma persisted_get run s k :
  store_ok s →
  bt_get string_cmp k (by_id (persisted_ingest run s).1) =
  match last (filter (with_id k) (persisted_fresh run s)) with
  | Some f => Some f
  | None => bt_get string_cmp k (by_id s)
  end.
Proof. intros [Hok _]. rewrite persisted_ingest_run. by apply (insert_all_spec id). Qed.

Lemma bt_alter_values {K W} (cmp : K → K → comparison) (P : K * W → Prop) k w m :
  P (k, w) → (∀ k' w', cmp k k' = Eq → P (k', w') → P (k', w)) → Forall P m →
  Forall P (bt_insert cmp k w m).
Proof.
  intros Hk Heq. unfold bt_insert. induction 1 as [|[k' w'] m Hp Hm IH]; simpl; [by constructor|].
  destruct (cmp k k') eqn:Hc; constructor; eauto.
Qed.

Lemma insert_all_ok m fs :
  store_ok (mkInMemoryStore m) → store_ok (mkInMemoryStore (insert_all m fs)).
Proof.
  intros [Hok Hids]. split; [by apply (insert_all_spec id)|]. cbn in *. unfold insert_all.
  induction fs as [|f fs IH] using rev_ind; [done|].
  rewrite foldl_app. cbn. apply bt_alter_values; [done| |done].
  intros k' w' Hc%string_comparison_eq Hw. by simpl.
Qed.

Lemma persisted_ok run s : store_ok s → store_ok (persisted_ingest run s).1.
Proof. rewrite persisted_ingest_run. destruct s. apply insert_all_ok. Qed.

(** The stored findings with an id are the one the map gives. *)
Lemma store_unique s k f g :
  store_ok s → bt_get string_cmp k (by_id s) = Some f → g ∈ (by_id s).*2 → finding_id g = k → g = f.
Proof.
  intros [Hok Hids] Hf ([k' g'] & -> & Hin)%list_elem_of_fmap Hk. simpl in *.
  rewrite Forall_forall in Hids. specialize (Hids _ Hin). simpl in Hids. subst.
  apply (bt_get_elem string_cmp) in Hin; [|done]. congruence.
Qed.

Lemma ops_states_get s k f :
  store_ok s → bt_get string_cmp k (by_id s) = Some f → ops_terminal f = true →
  bt_get string_cmp k (ops_states (by_id s).*2) = Some (status f).
Proof.
  intros Hs Hf Hterm. unfold ops_states.
  destruct (insert_all_spec status (filter ops_terminal (by_id s).*2) []) as [_ ->]; [constructor|].
  assert ((k, f) ∈ by_id s) as Hin by (apply (bt_get_elem string_cmp); [apply Hs|done]).
  destruct Hs as [Hok Hids] eqn:Heqs. clear Heqs. pose proof Hids as Hids'.
  rewrite Forall_forall in Hids'. specialize (Hids' _ Hin). simpl in Hids'.
  assert (f ∈ filter (with_id k) (filter ops_terminal (by_id s).*2)) as Hfin.
  { apply list_elem_of_filter. split; [by apply bool_decide_spec|].
    apply list_elem_of_filter. split; [by rewrite Hterm|]. apply list_elem_of_fmap. by exists (k, f). }
  destruct (last _) as [g|] eqn:Hl; [|by apply last_None in Hl; rewrite Hl in Hfin; apply elem_of_nil in Hfin].
  apply last_Some_elem_of in Hl. apply list_elem_of_filter in Hl as [Hgk [_ Hg]%list_elem_of_filter].
  apply bool_decide_spec in Hgk. by rewrite (store_unique s k f g).
Qed.

Lemma carried_status s run k f g :
  store_ok s → bt_get string_cmp k (by_id s) = Some f → ops_terminal f = true →
  g ∈ persisted_fresh run s → finding_id g = k → status g = status f.
Proof.
  intros Hs Hf Hterm. unfold persisted_fresh, carry_forward_ops_states.
  pose proof (ops_states_get s k f Hs Hf Hterm) as Hget.
  rewrite bool_decide_eq_false_2 by (by destruct (ops_states (by_id s).*2)).
  intros (h & -> & _)%list_elem_of_fmap.
  destruct (bt_get string_cmp (finding_id h) (ops_states (by_id s).*2)) as [st|] eqn:Hst; intros Hk.
  - simpl in *. congruence.
  - congruence.
Qed.

Definition run_batches (runs : list (list Finding → IngestReport)) (s : InMemoryStore) : InMemoryStore :=
  foldl (λ s run, (persisted_ingest run s).1) s runs.

(** C32: an operator's decision is never lost: whatever later ingest runs report,
    a finding stored as Accepted or Suppressed is still stored with that status
    after any number of runs, and a stored finding no run reports again is kept
    unchanged. *)
Theorem ops_decisions_survive (runs : list (list Finding → IngestReport)) (s : InMemoryStore)
    (k : string) (f : Finding) :
  store_ok s → bt_get string_cmp k (by_id s) = Some f →
  (status f = FindingState.Accepted ∨ status f = FindingState.Suppressed →
   ∃ f', bt_get string_cmp k (by_id (run_batches runs s)) = Some f' ∧ status f' = status f) ∧
  (Forall (λ run, ∀ prior g, g ∈ findings (run prior) → finding_id g ≠ k) runs →
   bt_get string_cmp k (by_id (run_batches runs s)) = Some f).
Proof.
  revert s f. induction runs as [|run runs IH]; intros s f Hs Hf; [naive_solver|].
  pose proof (persisted_ok run s Hs) as Hs'. pose proof (persisted_get run s k Hs) as Hget.
  change (run_batches (run :: runs) s) with (run_batches runs (persisted_ingest run s).1). split.
  - intros Hst0. assert (ops_terminal f = true) as Hterm by (unfold ops_terminal; by destruct Hst0 as [->| ->]).
    destruct (last _) as [g|] eqn:Hl.
    + apply last_Some_elem_of in Hl. apply list_elem_of_filter in Hl as [Hg%bool_decide_spec Hin].
      pose proof (carried_status s run k f g Hs Hf Hterm Hin Hg) as Hst.
      destruct (IH _ _ Hs' Hget) as [IH1 _]. destruct IH1 as (f' & ? & ?); [|exists f'; split; congruence].
      by rewrite Hst.
    + rewrite Hf in Hget. by apply (IH _ _ Hs' Hget).
  - intros (Hrun & Hruns)%Forall_cons. apply (IH _ _ Hs'); [|done]. rewrite Hget.
    destruct (last _) as [g|] eqn:Hl; [|done]. exfalso.
    apply last_Some_elem_of in Hl. apply list_elem_of_filter in Hl as [Hg%bool_decide_spec Hin].
    unfold persisted_fresh, carry_forward_ops_states in Hin. case_bool_decide.
    + by eapply Hrun.
    + apply list_elem_of_fmap in Hin as (h & -> & Hh). eapply Hrun; [exact Hh|]. by case_match.
Qed.
