(* ===== verification/ActivityProps.v ===== *)
(** * What the activity mappers promise

    Process, network, file and correlated activity: one finding per key and asset,
    scored by the strongest rule that fired. *)

From Stdlib Require Import ZArith Strings.Ascii Strings.String Sorting.Sorted SpecFloat.
From stdpp Require Import base tactics gmap strings list pretty.
From S2P Require Import Prelude Float32 Order Transport Keys Version Findings Engine.
From S2P Require Import EngineProps Ocsf Ingest IngestProps.

Local Open Scope Z_scope.

(** ** Keys *)

#[export] Instance pair_comparison : Comparison pair_cmp.
Proof.
  pose proof (comparison_of_key (λ p : string * string, p.1) string_cmp) as H1.
  pose proof (comparison_of_key (λ p : string * string, p.2) string_cmp) as H2.
  exact (comparison_then _ _ (Comparison0 := H1) (Comparison1 := H2)).
Qed.
#[export] Instance pair_comparison_eq : ComparisonEq pair_cmp.
Proof.
  intros [a b] [a' b']. unfold pair_cmp. simpl. destruct (string_cmp a a') eqn:Ha; [|done..].
  intros Hb. apply string_comparison_eq in Ha, Hb. by subst.
Qed.

(** ** The strongest rule *)

Definition not_nan (x : f32) : Prop := f32_is_nan x = false.

Definition fold_max (ws : list f32) : option f32 :=
  foldl (λ acc w, Some (match acc with None => w | Some m => f32_max m w end)) None ws.

Lemma f32_lt_key x y :
  not_nan x → not_nan y → f32_lt x y = true ↔ slice_cmp Z.compare (f32_key x) (f32_key y) = Lt.
Proof.
  intros Hx Hy. unfold f32_lt, SFltb. change (SFcompare x y) with (f32_partial_cmp x y).
  rewrite f32_key_cmp by done. by destruct (slice_cmp _ _ _).
Qed.

Lemma f32_not_lt_trans x y z :
  not_nan x → not_nan y → not_nan z →
  f32_lt x y = false → f32_lt y z = false → f32_lt x z = false.
Proof.
  intros Hx Hy Hz. rewrite <-!not_true_iff_false, !f32_lt_key by done.
  rewrite (cmp_opp (slice_cmp Z.compare) (f32_key y) (f32_key x)).
  rewrite (cmp_opp (slice_cmp Z.compare) (f32_key z) (f32_key y)).
  rewrite (cmp_opp (slice_cmp Z.compare) (f32_key z) (f32_key x)).
  pose proof (cmp_trans (slice_cmp Z.compare) (f32_key z) (f32_key y) (f32_key x)) as Ht.
  destruct (slice_cmp Z.compare (f32_key y) (f32_key x)), (slice_cmp Z.compare (f32_key z) (f32_key y)),
    (slice_cmp Z.compare (f32_key z) (f32_key x)); simpl in *; try done; exfalso; by apply Ht.
Qed.

(** [w] is one of [ws] and none of them exceeds it. *)
Definition greatest (w : f32) (ws : list f32) : Prop :=
  w ∈ ws ∧ ∀ w', w' ∈ ws → f32_lt w w' = false.

Lemma f32_max_cases x y :
  not_nan x → not_nan y →
  not_nan (f32_max x y) ∧ (f32_max x y = x ∨ f32_max x y = y) ∧
  f32_lt (f32_max x y) x = false ∧ f32_lt (f32_max x y) y = false.
Proof.
  unfold not_nan. intros Hx Hy. unfold f32_max. rewrite Hx, Hy.
  pose proof (f32_gt_irrefl x) as Hxx. pose proof (f32_gt_irrefl y) as Hyy.
  change (f32_gt x x) with (f32_lt x x) in Hxx. change (f32_gt y y) with (f32_lt y y) in Hyy.
  destruct (f32_lt x y) eqn:Hxy; split_and!; auto.
  destruct (f32_lt y x) eqn:Hyx; [|done]. exfalso.
  apply f32_lt_key in Hxy, Hyx; [|done..].
  rewrite (cmp_opp (slice_cmp Z.compare)), Hxy in Hyx. done.
Qed.

Lemma fold_max_greatest ws :
  Forall not_nan ws → match fold_max ws with
    | Some w => not_nan w ∧ greatest w ws
    | None => ws = []
    end.
Proof.
  induction ws as [|x ws IH] using rev_ind; [done|]. intros [Hws Hx]%Forall_app.
  rewrite Forall_singleton in Hx. specialize (IH Hws). unfold fold_max in *. rewrite foldl_app.
  destruct (foldl _ None ws) as [m|]; simpl.
  - destruct IH as (Hm & Hin & Hle). destruct (f32_max_cases m x Hm Hx) as (Hn & Hor & H1 & H2).
    split; [done|]. split; [apply elem_of_app; destruct Hor as [->| ->]; [by left|right; by left]|].
    rewrite Forall_forall in Hws. intros w' [Hw|Hw]%elem_of_app.
    + apply (f32_not_lt_trans _ m); auto.
    + by apply list_elem_of_singleton in Hw as ->.
  - subst ws. split; [done|]. split; [by left|]. intros w' ->%list_elem_of_singleton. apply f32_gt_irrefl.
Qed.

(** ** Aggregation *)

Definition weights_for (k : string * string) (cs : list ((string * string) * f32)) : list f32 :=
  (filter (λ c, c.1 = k) cs).*2.

Lemma max_weights_spec cs :
  bt_ok pair_cmp (max_weights cs) ∧
  ∀ k, bt_get pair_cmp k (max_weights cs) = fold_max (weights_for k cs).
Proof.
  induction cs as [|c cs [IHok IH]] using rev_ind; [split; [constructor|done]|].
  unfold max_weights in *. rewrite foldl_app. cbn [foldl]. unfold max_weight_step.
  split; [by apply (bt_alter_ok pair_cmp)|]. intros k. rewrite (bt_get_alter pair_cmp) by done.
  unfold weights_for. rewrite filter_app, fmap_app. unfold fold_max. rewrite foldl_app.
  fold (fold_max (filter (λ c, c.1 = k) cs).*2). fold (weights_for k cs). rewrite !IH.
  destruct (decide (c.1 = k)) as [<-|Hne].
  - rewrite (cmp_refl pair_cmp), filter_cons_True by done. simpl. by destruct (fold_max _).
  - rewrite filter_cons_False by done. simpl.
    destruct (pair_cmp k c.1) eqn:Hc; [|done..]. by apply pair_comparison_eq in Hc.
Qed.

(** A mapper that turns each key into an identity of its own. *)
Lemma aggregate_spec (mk : (string * string) * f32 → Finding) (idf : string * string → Identity) cs :
  (∀ kw, identity (mk kw) = idf kw.1) → Inj (=) (=) idf →
  NoDup (identity <$> (mk <$> max_weights cs)) ∧
  ∀ i, i ∈ identity <$> (mk <$> max_weights cs) ↔ ∃ k, k ∈ cs.*1 ∧ i = idf k.
Proof.
  intros Hmk Hinj. destruct (max_weights_spec cs) as [Hok Hget].
  assert (identity <$> (mk <$> max_weights cs) = idf <$> (max_weights cs).*1) as ->.
  { rewrite <-!list_fmap_compose. apply list_fmap_ext. intros _ kw _. apply Hmk. }
  split.
  - apply NoDup_fmap_2; [done|]. clear Hget.
    induction Hok as [|[k w] m Hm IH Hall]; rewrite ?fmap_cons; constructor; [|done].
    intros ([k' w'] & Hkk & Hin)%list_elem_of_fmap. simpl in Hkk. subst k'.
    rewrite Forall_forall in Hall. specialize (Hall _ Hin). unfold key_lt in Hall. simpl in Hall.
    by rewrite (cmp_refl pair_cmp) in Hall.
  - intros i. rewrite list_elem_of_fmap.
    assert (∀ k, k ∈ (max_weights cs).*1 ↔ k ∈ cs.*1) as Hk; [|setoid_rewrite Hk; naive_solver].
    intros k. transitivity (is_Some (bt_get pair_cmp k (max_weights cs))).
    { split.
      - intros ([k' w] & -> & Hin)%list_elem_of_fmap. exists w. by apply (bt_get_elem pair_cmp).
      - intros [w Hw%(bt_get_elem pair_cmp)]; [|done]. apply list_elem_of_fmap. by exists (k, w). }
    rewrite Hget. unfold weights_for. split.
    + destruct (filter _ cs) as [|c l] eqn:Hf; [by intros []|]. intros _.
      assert (c ∈ filter (λ c, c.1 = k) cs) as Hc by (rewrite Hf; by left).
      apply list_elem_of_filter in Hc as [<- Hc]. apply list_elem_of_fmap. by exists c.
    + intros (c & -> & Hc)%list_elem_of_fmap.
      assert (c ∈ filter (λ c', c'.1 = c.1) cs) as Hin by (by apply list_elem_of_filter).
      destruct (filter _ cs) as [|c' l] using rev_ind; [by apply elem_of_nil in Hin|].
      rewrite fmap_app. unfold fold_max. rewrite foldl_app. by eexists.
Qed.

(** ** Destination keys *)

Lemma pretty_N_go_digits x s :
  Forall (λ c, is_digit c) (as_bytes s) → Forall (λ c, is_digit c) (as_bytes (pretty_N_go x s)).
Proof.
  revert s. induction (N.lt_wf_0 x) as [x _ IH]; intros s Hs.
  destruct (decide (x = 0%N)) as [->|Hx]; [by rewrite pretty_N_go_0|].
  rewrite pretty_N_go_step by lia. apply IH; [apply N.div_lt; lia|].
  rewrite as_bytes_cons. constructor; [|done]. unfold pretty_N_char. by repeat case_match.
Qed.

Lemma show_Z_digits z : 0 ≤ z → Forall (λ c, is_digit c) (as_bytes (show_Z z)).
Proof.
  intros Hz. destruct z as [|p|p]; [by repeat constructor| |lia].
  apply pretty_N_go_digits. constructor.
Qed.

Lemma split_first_here c l r :
  Forall (λ x, x ≠ c) l → split_first c (l ++ c :: r) = Some (l, r).
Proof.
  induction 1 as [|x l Hx Hl IH]; simpl; [by rewrite Z.eqb_refl|].
  destruct (Z.eqb_spec x c); [done|]. by rewrite IH.
Qed.

Lemma before_last_colon_dest daddr port :
  0 ≤ port → before_last_colon (dest_key daddr port) = daddr.
Proof.
  intros Hp. unfold before_last_colon, dest_key, split_last. rewrite !as_bytes_app, !reverse_app.
  change (reverse (as_bytes ":")) with [58]. rewrite <-app_assoc. change ([58] ++ ?l) with (58 :: l).
  rewrite split_first_here.
  - by rewrite reverse_involutive, string_of_as_bytes.
  - apply Forall_reverse. eapply Forall_impl; [by apply show_Z_digits|].
    intros c Hc ->. done.
Qed.

Lemma as_u16_nonneg z : 0 ≤ as_u16 z.
Proof. apply Z.mod_pos_bound. lia. Qed.

(** ** The mappers *)

Section activity.
Context {V A : Type} `{JsonValue V, AssetContextSource A, !Deserialize V Detection}.
Implicit Types (env : OcsfEnvelope V) (envs : list (OcsfEnvelope V)).

(** The rule weights of one record. *)
Definition rule_weights (weight : string → f32) env : list f32 :=
  (λ d, weight (rule d)) <$>
    parse_lenient (T := Detection) (json_index (data env) "detections").

Lemma max_rule_weight_fold weight env : max_rule_weight weight env = fold_max (rule_weights weight env).
Proof.
  unfold max_rule_weight, fold_max, rule_weights.
  generalize (parse_lenient (T := Detection) (json_index (data env) "detections")).
  intros ds. generalize (@None f32). induction ds as [|d ds IH]; intros acc; [done|]. simpl. apply IH.
Qed.

Lemma weighted_finding_identity asset vuln comp loc w key (assets : A) :
  identity (weighted_finding asset vuln comp loc w key assets) = mkIdentity asset vuln comp loc.
Proof. unfold weighted_finding. by destruct (decide_ssvc _ _ _ _). Qed.

Lemma weighted_finding_score asset vuln comp loc w key (assets : A) :
  score (weighted_finding asset vuln comp loc w key assets) =
  recompute_compliance_score w (asset_context assets asset).
Proof. unfold weighted_finding. by destruct (decide_ssvc _ _ _ _). Qed.

(** A flagged connection: the host, the destination and the port it names. *)
Definition flagged_connection env (host daddr : string) (dport : Z) : Prop :=
  class_uid env = NETWORK_ACTIVITY ∧ hostname (device env) = host ∧
  rule_weights network_rule_weight env ≠ [] ∧
  json_as_str (json_index (json_index (data env) "connection") "daddr") = Some daddr ∧
  ∃ raw, json_as_u64 (json_index (json_index (data env) "connection") "dport") = Some raw ∧
    dport = as_u16 raw.

Lemma fold_max_some ws : ws ≠ [] → is_Some (fold_max ws).
Proof.
  destruct ws as [|w ws] using rev_ind; [done|]. intros _. unfold fold_max. rewrite foldl_app. by eexists.
Qed.

Lemma network_contribution_spec env k :
  (∃ w, network_contribution env = Some (k, w)) ↔
  ∃ daddr dport, flagged_connection env k.1 daddr dport ∧ k.2 = dest_key daddr dport.
Proof.
  unfold network_contribution, flagged_connection. rewrite max_rule_weight_fold.
  destruct (Z.eqb_spec (class_uid env) NETWORK_ACTIVITY) as [Hc|Hc]; simpl; [|naive_solver].
  destruct (fold_max (rule_weights network_rule_weight env)) as [w|] eqn:Hw; simpl.
  - assert (rule_weights network_rule_weight env ≠ []) by (intros He; by rewrite He in Hw).
    destruct (json_as_str _) as [daddr|]; simpl; [|naive_solver].
    destruct (json_as_u64 _) as [raw|]; simpl; [|naive_solver].
    destruct k as [h d]. simpl. split; [|naive_solver]. intros (w' & [= <- <- <-]). by repeat eexists.
  - split; [naive_solver|]. intros (? & ? & (_ & _ & Hne & _) & _).
    destruct (fold_max_some _ Hne). congruence.
Qed.

Lemma network_rule_weight_not_nan rule : not_nan (network_rule_weight rule).
Proof. unfold network_rule_weight. by repeat case_bool_decide. Qed.

Lemma network_weights_not_nan envs k :
  Forall not_nan (weights_for k (omap network_contribution envs)).
Proof.
  apply Forall_forall. unfold weights_for.
  intros w ([k' w'] & -> & [_ Hc]%list_elem_of_filter)%list_elem_of_fmap.
  apply list_elem_of_omap in Hc as (env & _ & Hc). unfold network_contribution in Hc.
  rewrite max_rule_weight_fold in Hc. destruct (negb _); [done|].
  assert (Forall not_nan (rule_weights network_rule_weight env)) as Hr.
  { apply Forall_fmap, Forall_forall. intros d _. apply network_rule_weight_not_nan. }
  pose proof (fold_max_greatest _ Hr) as Hg.
  destruct (fold_max (rule_weights network_rule_weight env)) as [m|]; [|done].
  destruct Hg as [Hm _]. cbn in Hc. destruct (json_as_str _); [|done]. cbn in Hc.
  destruct (json_as_u64 _); [|done]. cbn in Hc. by injection Hc as _ <-.
Qed.

Definition network_identity (k : string * string) : Identity :=
  mkIdentity k.1 ("network:" +:+ k.2) (before_last_colon k.2) "network".

#[export] Instance network_identity_inj : Inj (=) (=) network_identity.
Proof. intros [h d] [h' d'] Heq. unfold network_identity in Heq. by simplify_eq/=. Qed.

(** However many flagged connections a batch holds, the network mapper emits
    exactly one finding per host and destination, whose component is the address
    (the part before the last colon is the address even when it has colons of its
    own), and each finding's score is the recomputed score of the strongest rule
    weight that fired for it. *)
Theorem network_one_finding_per_destination envs (assets : A) :
  let fs := aggregate_network_findings envs assets in
  NoDup (identity <$> fs) ∧
  (∀ i, i ∈ identity <$> fs ↔
     ∃ env host daddr dport, env ∈ envs ∧ flagged_connection env host daddr dport ∧
       i = mkIdentity host ("network:" +:+ dest_key daddr dport) daddr "network") ∧
  (∀ f, f ∈ fs → ∃ w key, identity f = network_identity key ∧
     score f = recompute_compliance_score w (asset_context assets (asset_id (identity f))) ∧
     greatest w (weights_for key (omap network_contribution envs))).
Proof.
  intros fs. unfold fs, aggregate_network_findings.
  destruct (aggregate_spec (network_finding assets) network_identity (omap network_contribution envs))
    as [Hnd Hin]; [intros [[? ?] ?]; apply weighted_finding_identity|apply _|].
  split; [done|]. split.
  - intros i. rewrite Hin. setoid_rewrite list_elem_of_fmap. setoid_rewrite list_elem_of_omap. split.
    + intros (k & ([k' w] & -> & env & Henv & Hc) & ->).
      destruct (proj1 (network_contribution_spec env k')) as (daddr & dport & Hf & Hk); [by exists w|].
      exists env, k'.1, daddr, dport. split; [done|]. split; [done|]. unfold network_identity. simpl.
      destruct Hf as (_ & _ & _ & _ & raw & _ & ->). by rewrite Hk, before_last_colon_dest by apply as_u16_nonneg.
    + intros (env & host & daddr & dport & Henv & Hf & ->).
      destruct (proj2 (network_contribution_spec env (host, dest_key daddr dport))) as [w Hw];
        [by exists daddr, dport|].
      exists (host, dest_key daddr dport). split; [by exists (host, dest_key daddr dport, w); split; [|exists env]|].
      unfold network_identity. simpl. destruct Hf as (_ & _ & _ & _ & raw & _ & ->).
      by rewrite before_last_colon_dest by apply as_u16_nonneg.
  - intros f ([[host dest] w] & -> & Hkw)%list_elem_of_fmap. exists w, (host, dest).
    unfold network_finding. rewrite weighted_finding_identity, weighted_finding_score.
    split; [done|]. split; [done|].
    destruct (max_weights_spec (omap network_contribution envs)) as [Hok Hget].
    apply (bt_get_elem pair_cmp) in Hkw; [|done]. rewrite Hget in Hkw.
    pose proof (fold_max_greatest _ (network_weights_not_nan envs (host, dest))) as Hg.
    rewrite Hkw in Hg. by destruct Hg.
Qed.
End activity.
