(* ===== verification/IngestDemo.v ===== *)
(** * Concrete batches

    Envelopes of the kinds the agent emits, and the engine and
    ingest theorems applied to them. *)

From Stdlib Require Import ZArith Strings.Ascii Strings.String Sorting.Sorted.
From stdpp Require Import base tactics gmap strings list.
From S2P Require Import Prelude Float32 Order Transport Keys Version VersionProps.
From S2P Require Import Findings Engine EngineProps CveSource Action Bridge.
From S2P Require Import BridgeSpec BridgeProps BridgeCalls BridgeDemo Ocsf Ingest IngestProps.
From S2P Require Import ActivityProps.

(** ** JSON *)

#[export] Instance Json_detection : Deserialize Json Detection := λ v,
  match json_as_str (json_index v "rule"), json_index v "reason" with
  | Some r, JStr s => Some (mkDetection r s)
  | Some r, JNull => Some (mkDetection r "")
  | _, _ => None
  end.

(** ** Envelopes *)

Definition demo_device (host : string) : Device := mkDevice host "Ubuntu 22.04" "22.04".
Definition demo_envelope (class : Z) (t : Z) (host : string) (d : Json) : OcsfEnvelope Json :=
  mkOcsfEnvelope class "" t 1 (mkMetadata "torda" "0" "t") (demo_device host) d.

Definition sbom_of (name version : string) : Json :=
  JObj [("sbom", JObj [("components", JArr [JObj
    [("name", JStr name); ("version", JStr version); ("source", JStr "dpkg")]])])].
Definition demo_sbom (host name version : string) : OcsfEnvelope Json :=
  demo_envelope SOFTWARE_INVENTORY_INFO 1000 host (sbom_of name version).

Definition process_event (t : Z) (host image : string) : OcsfEnvelope Json :=
  demo_envelope PROCESS_ACTIVITY t host
    (JObj [("process", JObj [("image", JStr image)]);
           ("detections", JArr [JObj [("rule", JStr "lolbin_in_suspicious_path")]])]).

(** ** The engine's theorems at work *)

Definition demo_identity : Identity := mkIdentity "host-A" "CVE-X" "openssl" "dpkg".
Definition demo_detection (source : string) (severity : option string) (conf : f32) : RawDetection :=
  mkRawDetection demo_identity source DetectionMethod.Authenticated severity conf
    "upgrade:openssl>=3.0.14".
Definition demo_detections (sev1 sev2 : option string) : list RawDetection :=
  [demo_detection "network-scan" sev1 (f32_lit 5 10); demo_detection "torda" None (f32_lit 95 100);
   demo_detection "nessus" sev2 (f32_lit 8 10)].
Definition demo_engine : Engine MapEnrichment MapAssetContext NoReachability :=
  mkEngine default_enrichment default_assets mkNoReachability.

Example demo_provenance_order :
  (λ cs : list Correlated, (λ c, p_source <$> c_provenance c) <$> cs) <$>
    correlate (demo_detections (Some "Critical") (Some "High")) =
  Some [["torda"; "nessus"; "network-scan"]].
Proof. by vm_compute. Qed.

Lemma correlate_one_finding_per_identity_witness :
  ∃ cs, correlate (demo_detections (Some "Critical") (Some "High")) = Some cs ∧
    StronglySorted identity_lt (c_identity <$> cs) ∧
    (∀ i, i ∈ c_identity <$> cs ↔
       i ∈ rd_identity <$> demo_detections (Some "Critical") (Some "High")) ∧
    Forall (correlated_from (demo_detections (Some "Critical") (Some "High"))) cs.
Proof. apply correlate_one_finding_per_identity. repeat constructor. Defined.

Lemma severity_labels_never_matter_witness :
  is_Some (run demo_engine (demo_detections (Some "Critical") (Some "High"))) ∧
  fmap (M := list) unlabel_finding <$> run demo_engine (demo_detections (Some "Critical") (Some "High")) =
  fmap (M := list) unlabel_finding <$> run demo_engine (demo_detections None (Some "Low")).
Proof.
  split; [vm_compute; by eexists|]. apply severity_labels_never_matter. reflexivity.
Defined.

(** A NaN between two confidences is equal to both, and they are not: the comparison is
    no total order, and the sort may panic.  Two detections are not enough for that. *)
Example nan_confidence_may_panic :
  let one_nan := demo_detection "other" None SpecFloat.S754_nan in
  run demo_engine (one_nan :: demo_detections None None) = None ∧
  is_Some (run demo_engine [one_nan; demo_detection "torda" None (f32_lit 95 100)]).
Proof. split; vm_compute; [done|by eexists]. Qed.

Lemma engine_verdicts_witness :
  ∃ fs, run demo_engine (demo_detections None None) = Some fs ∧ Forall (verdict demo_engine) fs ∧
    ∀ i, i ∈ identity <$> fs ↔ i ∈ rd_identity <$> demo_detections None None.
Proof.
  destruct (engine_verdicts demo_engine (demo_detections None None)) as [Hsome Hall].
  destruct Hsome as [fs Hfs]; [by repeat constructor|]. exists fs.
  destruct (Hall fs Hfs) as (Hv & _ & Hin). by split.
Defined.

(** ** Version ranges at work *)

Lemma range_affects_intervals_witness :
  range_affects "1.2-3" (events_of [("0", UFixed "1.1-1"); ("1.2-1", ULast "1.2-4")] None)
    Comparator.Dpkg = true ↔
  in_intervals Comparator.Dpkg "1.2-3" [("0", UFixed "1.1-1"); ("1.2-1", ULast "1.2-4")] None.
Proof.
  apply range_affects_intervals.
  - unfold version_ok, version_string, version_bytes. repeat constructor; lia.
  - unfold bounds_ok, bound_ok, version_ok, version_string, version_bytes.
    split; [|done]. apply Forall_cons_2; [split; [by left|]|apply Forall_singleton; split; [right|]];
      repeat constructor; simpl; lia.
  - split; [done|]. split; [by left|]. split; [by split; vm_compute|].
    split; [right; by vm_compute|done].
Defined.

(** ** The store at work *)

Definition demo_run (t : Z) : list Finding → IngestReport :=
  run_process_ingest [process_event t "host-A" "/tmp/nc"] default_assets.

(** The finding of a first run, as an operator then leaves it. *)
Definition demo_findings (st : FindingState) : list Finding :=
  set_status st <$> findings (demo_run 1000 []).
Definition demo_store (st : FindingState) : InMemoryStore :=
  mkInMemoryStore ((λ f, (finding_id f, f)) <$> demo_findings st).

Lemma ops_decisions_survive_witness :
  ∃ f', bt_get string_cmp "host-A|process:/tmp/nc|/tmp/nc|process"
          (by_id (run_batches [demo_run 2000; demo_run 3000] (demo_store FindingState.Accepted))) = Some f' ∧
    status f' = FindingState.Accepted.
Proof.
  destruct (ops_decisions_survive [demo_run 2000; demo_run 3000] (demo_store FindingState.Accepted)
    "host-A|process:/tmp/nc|/tmp/nc|process"
    (default (set_status FindingState.Accepted (process_finding default_assets ("", "", f32_zero)))
       (head (demo_findings FindingState.Accepted)))) as [H _].
  - split; repeat constructor.
  - reflexivity.
  - apply H. by left.
Defined.

(** Remediation items are grouped before the operator's decisions are carried
    forward: a finding the operator suppressed comes back as suppressed in the
    report's findings while the same report still lists an item that closes it. *)
Theorem suppressed_finding_still_in_items :
  ∃ report,
    (persisted_ingest (demo_run 2000) (demo_store FindingState.Suppressed)).2 = Ok report ∧
    status <$> findings report = [FindingState.Suppressed] ∧
    closes <$> remediation_items report = [["process:/tmp/nc"]] ∧
    group_by_fix (filter not_suppressed (findings report)) = [].
Proof. eexists. split; [reflexivity|]. split_and!; by vm_compute. Qed.

(** ** The verifier behind a canary *)

#[export] Instance demo_state : CurrentState (string → list (OcsfEnvelope Json)) Json := λ st, st.

(** The canary host is patched, the other target is not reached yet. *)
Definition mid_canary (host : string) : list (OcsfEnvelope Json) :=
  if bool_decide (host = "h1") then [demo_sbom "h1" "openssl" "3.0.14"]
  else [demo_sbom host "openssl" "3.0.2"].

Definition two_host_action (targets : list string) : RemediationAction :=
  mkRemediationAction "act-2" "patch openssl" Method.PackageMgr "apt upgrade openssl"
    (mkAssetSelector targets) true true None
    (mkVerifySpec ["h1|CVE-2022-3602|openssl|dpkg"; "h2|CVE-2022-3602|openssl|dpkg"])
    (mkCanarySpec 1 (f32_lit 0 1)).

Definition demo_verifier : EngineVerifier (string → list (OcsfEnvelope Json)) :=
  mkEngineVerifier mid_canary.

Definition two_host_approved : Bridge VecAuditSink :=
  (foldl (λ s op, (run_op op s).1) (bridge_new (mkVecAuditSink []), demo_exec)
    [OpDraft (V := EngineVerifier (string → list (OcsfEnvelope Json)))
       (two_host_action ["h1"; "h2"]) "alice"; OpMapToItem "act-2" "item-1" "alice";
     OpDryRun "act-2" "alice"; OpSubmit "act-2" "alice"; OpApprove "act-2" "bob"]).1.

(** The verifier ignores which targets the action was applied to: a canary
    whose only host is patched, with every finding of that host gone, is rolled
    back because a target outside the cohort still has its finding. *)
Theorem canary_judged_by_unapplied_targets :
  engine_verify demo_verifier (two_host_action ["h1"]) ["h1"] = Some VerifyOutcome.Fixed ∧
  engine_verify demo_verifier (two_host_action ["h1"; "h2"]) ["h1"] = Some VerifyOutcome.NotFixed ∧
  let '((_, x), out) := run_canary demo_verifier "act-2" "carol" (two_host_approved, demo_exec) in
  calls x = [CApply "act-2" "h1"; CRollback "act-2" "h1"] ∧ out = Ok StageOutcome.RolledBack.
Proof. split; [by vm_compute|]. split; by vm_compute. Qed.

(** Two different identities with the same finding id: the store keeps only one. *)
Theorem finding_id_collision :
  let i1 := mkIdentity "a" "b|c" "d" "e" in
  let i2 := mkIdentity "a|b" "c" "d" "e" in
  i1 ≠ i2 ∧ finding_id_for i1 = finding_id_for i2 ∧
  length (by_id (store_upsert
    [weighted_finding "a" "b|c" "d" "e" f32_one "k" default_assets;
     weighted_finding "a|b" "c" "d" "e" f32_one "k" default_assets] store_new).1) = 1%nat.
Proof. cbv zeta. split; [done|]. split; by vm_compute. Qed.

(** The component of an attack-chain finding is cut at the first arrow of the edge,
    also when that arrow is part of the image path. *)
Theorem correlation_component_truncated :
  component (identity (correlation_finding default_assets
    ("h1", "/tmp/a->b" +:+ "->" +:+ dest_key "10.0.0.1" 4444, f32_one))) = "/tmp/a".
Proof. by vm_compute. Qed.
