(* ===== verification/Substrate.v ===== *)
(** * What the agent's modules share

    [crates/core/src/lib.rs]: the bus events, the severity scale, the verdict of a
    ruleset; and the parts of the platform a module observes: the monotonic and the
    wall clock, the iteration order of a [HashMap], Unicode lowercasing, each an
    oracle with its documented laws. *)

From Stdlib Require Import ZArith.
From stdpp Require Import base tactics gmap strings list.
From S2P Require Import Prelude Transport Keys Version CveSource Ocsf.

Local Open Scope Z_scope.

(** ** Events *)

Module EventKind.
Inductive EventKind :=
  | ProcessExec | ProcessExit | FileOpen | FileWrite | NetConnect | AuthEvent.
End EventKind.
Abbreviation EventKind := EventKind.EventKind.
#[export] Instance EventKind_eq_dec : EqDecision EventKind.
Proof. solve_decision. Defined.

Record SubstrateEvent (V : Type) := mkSubstrateEvent {
  kind : EventKind;
  ts : Z;
  fields : V;
}.
Arguments mkSubstrateEvent {V}.
Arguments kind {V}.
Arguments ts {V}.
Arguments fields {V}.

(** ** Severities and verdicts *)

Definition SEV_INFORMATIONAL : Z := 1.
Definition SEV_LOW : Z := 2.
Definition SEV_MEDIUM : Z := 3.
Definition SEV_HIGH : Z := 4.

(** The monitors declare the same two structs. *)
Record RuleHit := mkRuleHit { hit_rule : string; hit_reason : string }.
Record Assessment := mkAssessment { assessed : Z; hits : list RuleHit }.
#[export] Instance RuleHit_eq_dec : EqDecision RuleHit.
Proof. solve_decision. Defined.

(** [hits.iter().map(|h| rule_severity(h.rule)).max().unwrap_or(SEV_INFORMATIONAL)]. *)
Definition max_severity (rule_severity : string → Z) (hits : list RuleHit) : Z :=
  match hits with
  | [] => SEV_INFORMATIONAL
  | h :: hs => foldl (λ m h, Z.max m (rule_severity (hit_rule h))) (rule_severity (hit_rule h)) hs
  end.

(** [json!({ "rule": h.rule, "reason": h.reason })]. *)
Definition hit_json {V} `{JsonBuild V} (h : RuleHit) : V :=
  json_obj [("rule", json_str (hit_rule h)); ("reason", json_str (hit_reason h))].

(** ** The platform *)

(** Every observation has a number: the [n]-th one may read a clock or fix the
    order in which a [HashMap] is walked. *)
Class Host := {
  instant : nat → Z;
  wall_millis : nat → Z;
  hash_order : nat → ∀ V : Type, gmap Z V → list (Z * V);
  to_lowercase : string → string;
}.

Definition is_ascii (s : string) : bool := forallb (λ c, c <? 128) (as_bytes s).
Definition ascii_lower (s : string) : string :=
  string_of_bytes (to_ascii_lowercase (as_bytes s)).

(** [Instant] holds seconds as an [i64]; adding past the end panics. *)
Definition instant_max : Z := (2 ^ 63 - 1) * 10 ^ 9 + 999999999.
Definition instant_add (t d : Z) : option Z := if t + d <=? instant_max then Some (t + d) else None.

(** [Instant] never runs backwards, a walk meets every entry once, and on ASCII text
    Unicode lowercasing is ASCII lowercasing. *)
Class HostLaws `{Host} : Prop := {
  instant_mono i j : (i ≤ j)%nat → instant i ≤ instant j;
  hash_order_perm n V (m : gmap Z V) : hash_order n V m ≡ₚ map_to_list m;
  to_lowercase_ascii s : is_ascii s → to_lowercase s = ascii_lower s;
}.

(** Durations, in nanoseconds. *)
Definition from_millis (n : Z) : Z := n * 1000000.
Definition from_secs (n : Z) : Z := n * 1000000000.

(** [stamp.elapsed()] when the clock reads [t]: saturating. *)
Definition elapsed_at (t stamp : Z) : Z := Z.max 0 (t - stamp).

(** [iter().min_by_key(f)]: the first entry with the least key. *)
Definition min_by_key {T} (key : T → Z) (l : list T) : option T :=
  match l with
  | [] => None
  | x :: l => Some (foldl (λ m y, if key y <? key m then y else m) x l)
  end.

(** ** Text *)

Definition str_contains (p s : string) : bool := contains (as_bytes p) (as_bytes s).
Definition starts_with (p s : bytes) : bool := bool_decide (take (length p) s = p).
Definition str_ends_with (p s : string) : bool :=
  starts_with (reverse (as_bytes p)) (reverse (as_bytes s)).

(** [s.rsplit(seps).next()]: what follows the last separator. *)
Fixpoint after_last (sep : Z → bool) (acc s : bytes) : bytes :=
  match s with
  | [] => acc
  | c :: s => if sep c then after_last sep s s else after_last sep acc s
  end.
Definition rsplit_next (sep : Z → bool) (s : string) : string :=
  string_of_bytes (after_last sep (as_bytes s) (as_bytes s)).
(** [s.strip_suffix(p).unwrap_or(s)]. *)
Definition trim_suffix (p s : string) : string :=
  if str_ends_with p s
  then string_of_bytes (take (length (as_bytes s) - length (as_bytes p)) (as_bytes s)) else s.

Definition is_slash (c : Z) : bool := c =? 47.
Definition is_separator_char (c : Z) : bool := (c =? 47) || (c =? 92).

(** [c.contains(&x)], [iter().find(p)] on string tables. *)
Definition in_table (t : list string) (s : string) : bool := existsb (λ x, bool_decide (x = s)) t.

(** ** Facts *)

Lemma foldl_max_spec {T} (f : T → Z) l m :
  m ≤ foldl (λ m x, Z.max m (f x)) m l ∧
  (∀ x, x ∈ l → f x ≤ foldl (λ m x, Z.max m (f x)) m l) ∧
  (foldl (λ m x, Z.max m (f x)) m l = m ∨ ∃ x, x ∈ l ∧ f x = foldl (λ m x, Z.max m (f x)) m l).
Proof.
  revert m. induction l as [|y l IH]; intros m; simpl.
  { split; [lia|]. split; [by intros x ?%not_elem_of_nil|]. by left. }
  destruct (IH (Z.max m (f y))) as (Hm & Hl & Heq). split; [lia|]. split.
  - intros x [->|Hx]%elem_of_cons; [lia|auto].
  - destruct Heq as [Heq|(x & Hx & Heq)]; [|right; exists x; split; [by right|done]].
    destruct (Z.max_spec m (f y)) as [[? Hmax]|[? Hmax]].
    + right. exists y. split; [by left|]. lia.
    + left. lia.
Qed.

(** A verdict is the greatest severity of its hits. *)
Lemma max_severity_spec sev hs :
  hs ≠ [] → (∀ h, h ∈ hs → sev (hit_rule h) ≤ max_severity sev hs) ∧
  ∃ h, h ∈ hs ∧ sev (hit_rule h) = max_severity sev hs.
Proof.
  destruct hs as [|h hs]; [done|]. intros _. simpl.
  destruct (foldl_max_spec (λ h, sev (hit_rule h)) hs (sev (hit_rule h))) as (Hm & Hl & Heq).
  split.
  - intros x [->|Hx]%elem_of_cons; auto.
  - destruct Heq as [Heq|(x & Hx & Heq)]; [exists h; split; [by left|done]|].
    exists x. split; [by right|done].
Qed.

Lemma min_by_key_spec {T} (key : T → Z) l x :
  min_by_key key l = Some x → x ∈ l ∧ ∀ y, y ∈ l → key x ≤ key y.
Proof.
  destruct l as [|a l]; [done|]. intros [= <-].
  revert a. induction l as [|b l IH]; intros a; simpl.
  { split; [by left|]. intros y Hy; assert (y = a) as -> by set_solver; lia. }
  destruct (IH (if key b <? key a then b else a)) as [Hin Hle].
  destruct (Z.ltb_spec (key b) (key a)) as [Hlt|Hge].
  - split; [set_solver|]. intros y [->|[->|Hy]%elem_of_cons]%elem_of_cons.
    + pose proof (Hle b ltac:(by left)). lia.
    + apply Hle. by left.
    + apply Hle. by right.
  - split; [set_solver|]. intros y [->|[->|Hy]%elem_of_cons]%elem_of_cons.
    + apply Hle. by left.
    + pose proof (Hle a ltac:(by left)). lia.
    + apply Hle. by right.
Qed.

Lemma min_by_key_some {T} (key : T → Z) l : l ≠ [] → is_Some (min_by_key key l).
Proof. destruct l; [done|]. intros _. by eexists. Qed.

(** ** Emitting *)

(** What a module without state of its own leaves behind: the records it emitted and
    the number of observations of the platform. *)
Record Outbox (V : Type) := mkOutbox {
  out_emitted : list (OcsfEnvelope V);
  out_seen : nat;
}.
Arguments mkOutbox {V}.
Arguments out_emitted {V}.
Arguments out_seen {V}.

Definition outbox_emit {V} `{Host} (meta : Metadata) (dev : Device) (sev class : Z)
    (name : string) (data : V) : M (Outbox V) unit :=
  modify (λ s, mkOutbox
    (out_emitted s ++ [set_severity sev (envelope_new class name meta dev data
                                          (wall_millis (out_seen s)))])
    (S (out_seen s))).
