(* ===== verification/ProcMon.v ===== *)
(** * The process monitor

    [crates/modules/procmon/src/lib.rs]: the ruleset ([assess], [assess_ctx],
    [assess_lifecycle]) and the event handlers with their bounded map of execs
    awaiting an exit.  The tokio task around the handlers delivers one event after
    the other. *)

From Stdlib Require Import ZArith.
From stdpp Require Import base tactics gmap strings list.
From S2P Require Import Prelude Transport Keys Version CveSource Ocsf Substrate.

Local Open Scope Z_scope.

(** ** Tables *)

Definition SHORT_LIVED_MS : Z := 500.

Definition LOLBINS : list string :=
  ["powershell"; "cmd"; "wscript"; "cscript"; "mshta"; "regsvr32"; "rundll32"; "certutil";
   "bitsadmin"; "msbuild"; "nc"; "ncat"; "socat"; "xxd"; "base64"; "nmap"; "wget"; "curl"].

Definition SUSPICIOUS_PATHS : list string :=
  ["\temp\"; "\downloads\"; "/tmp/"; "/dev/shm/"; "/var/tmp/"].

Definition SUSPICIOUS_CMDLINE : list string :=
  ["-enc"; "-encodedcommand"; "-nop"; "-noprofile"; "-w hidden"; "-windowstyle hidden"; "iex";
   "invoke-expression"; "downloadstring"; "frombase64string"; "| sh"; "|sh"; "| bash"; "|bash";
   "-urlcache"; "-decode"].

Definition rule_severity (rule : string) : Z :=
  if bool_decide (rule = "lolbin") then SEV_MEDIUM
  else if bool_decide (rule = "suspicious_path") then SEV_MEDIUM
  else if bool_decide (rule = "lolbin_in_suspicious_path") then SEV_HIGH
  else if bool_decide (rule = "lolbin_suspicious_cmdline") then SEV_HIGH
  else if bool_decide (rule = "short_lived_suspicious") then SEV_MEDIUM
  else SEV_INFORMATIONAL.

Record ProcCtx := mkProcCtx {
  image : string;
  cmdline : option string;
  image_trusted : option bool;
}.

Definition MAX_PENDING : nat := 4096.

Record PendingExec := mkPendingExec { pe_image : string; pe_exec_ts : Z }.

(** The task-local map, the two counters of [health()], the records emitted, and the
    number of observations of the platform so far. *)
Record ProcMon (V : Type) := mkProcMon {
  pending : gmap Z PendingExec;
  pending_len : nat;
  evicted : Z;
  emitted : list (OcsfEnvelope V);
  seen : nat;
}.
Arguments mkProcMon {V}.
Arguments pending {V}.
Arguments pending_len {V}.
Arguments evicted {V}.
Arguments emitted {V}.
Arguments seen {V}.

Definition procmon_new {V} : ProcMon V := mkProcMon ∅ 0 0 [] 0.

(** [i64] subtraction in the release profile. *)
Definition wrap_i64 (z : Z) : Z := (z + 2 ^ 63) mod 2 ^ 64 - 2 ^ 63.

Section procmon.
Context `{Host}.

(** ** The ruleset *)

Definition basename (image : string) : string :=
  trim_suffix ".exe" (to_lowercase (rsplit_next is_separator_char image)).

Definition assess_ctx (ctx : ProcCtx) : Assessment :=
  let base := basename (image ctx) in
  let is_lolbin := in_table LOLBINS base in
  let lower := to_lowercase (image ctx) in
  let trusted := bool_decide (image_trusted ctx = Some true) in
  let suspicious_dir := List.find (λ p, str_contains p lower) SUSPICIOUS_PATHS in
  let path_hit := if trusted then None else suspicious_dir in
  let a := if is_lolbin
    then [mkRuleHit "lolbin"
            ("'" +:+ base +:+ "' is a known living-off-the-land / dual-use binary")] else [] in
  let b := match path_hit with
    | Some pat => [mkRuleHit "suspicious_path"
                     ("image path contains suspicious directory '" +:+ pat +:+ "'")]
    | None => []
    end in
  let c := if is_lolbin then
    match path_hit with
    | Some pat => [mkRuleHit "lolbin_in_suspicious_path"
                     ("living-off-the-land binary '" +:+ base +:+
                      "' launched from suspicious directory '" +:+ pat +:+ "'")]
    | None => []
    end else [] in
  let d := if is_lolbin then
    match cmdline ctx with
    | Some cmd =>
        match List.find (λ t, str_contains t (to_lowercase cmd)) SUSPICIOUS_CMDLINE with
        | Some tok => [mkRuleHit "lolbin_suspicious_cmdline"
                         ("LOLBin '" +:+ base +:+ "' invoked with suspicious argument '" +:+
                          tok +:+ "'")]
        | None => []
        end
    | None => []
    end else [] in
  let hits := a ++ b ++ c ++ d in
  mkAssessment (max_severity rule_severity hits) hits.

Definition assess (image : string) : Assessment := assess_ctx (mkProcCtx image None None).

Definition assess_lifecycle (image : string) (lifetime_ms : Z) : option RuleHit :=
  if (SEV_INFORMATIONAL <? assessed (assess image)) && (lifetime_ms <? SHORT_LIVED_MS)
  then Some (mkRuleHit "short_lived_suspicious"
    ("suspicious image '" +:+ image +:+ "' exited after " +:+ show_Z lifetime_ms +:+
     "ms (< " +:+ show_Z SHORT_LIVED_MS +:+ "ms)"))
  else None.

(** ** The handlers *)

Context {V : Type} `{JsonValue V, JsonBuild V, JsonGet V}.
Context (meta : Metadata) (dev : Device).

Definition observe {A} (f : nat → A) : M (ProcMon V) A := λ s,
  (mkProcMon (pending s) (pending_len s) (evicted s) (emitted s) (S (seen s)), Ok (f (seen s))).
Definition emit (sev : Z) (class : Z) (name : string) (data : V) : M (ProcMon V) unit :=
  t ← observe wall_millis;
  modify (λ s, mkProcMon (pending s) (pending_len s) (evicted s)
    (emitted s ++ [set_severity sev (envelope_new class name meta dev data t)]) (seen s)).
Definition set_pending (m : gmap Z PendingExec) : M (ProcMon V) unit :=
  modify (λ s, mkProcMon m (pending_len s) (evicted s) (emitted s) (seen s)).
Definition store_pending_len : M (ProcMon V) unit :=
  modify (λ s, mkProcMon (pending s) (size (pending s)) (evicted s) (emitted s) (seen s)).
Definition count_evicted : M (ProcMon V) unit :=
  modify (λ s, mkProcMon (pending s) (pending_len s) (wrap_u64 (evicted s + 1)) (emitted s) (seen s)).

Definition exec_process (pid : Z) (img : string) (cmd sha : option string) (trusted : option bool) : V :=
  json_obj ([("pid", json_num pid); ("image", json_str img)] ++
    match cmd with Some c => [("cmdline", json_str c)] | None => [] end ++
    match sha with Some h => [("image_sha256", json_str h)] | None => [] end ++
    match trusted with Some t => [("image_trusted", json_bool t)] | None => [] end).

Definition handle_exec (ev : SubstrateEvent V) : M (ProcMon V) unit :=
  match get_u64 (fields ev) "pid", get_str (fields ev) "image" with
  | Some pid, Some img =>
      let cmd := get_str (fields ev) "cmdline" in
      let sha := get_str (fields ev) "image_sha256" in
      let trusted := get_bool (fields ev) "image_trusted" in
      let a := assess_ctx (mkProcCtx img cmd trusted) in
      emit (assessed a) PROCESS_ACTIVITY "Process Activity"
        (json_obj [("activity", json_str "exec");
                   ("process", exec_process pid img cmd sha trusted);
                   ("detections", json_arr (hit_json <$> hits a))]);;
      let key := wrap_u32 pid in
      p ← gets pending;
      (if bool_decide (p !! key = None) && bool_decide (MAX_PENDING ≤ size p)%nat then
         l ← observe (λ n, hash_order n PendingExec p);
         match min_by_key (λ kp, pe_exec_ts kp.2) l with
         | Some (oldest, _) => set_pending (delete oldest p);; count_evicted
         | None => mret tt
         end
       else mret tt);;
      p ← gets pending;
      set_pending (<[key := mkPendingExec img (ts ev)]> p);;
      store_pending_len
  | _, _ => mret tt
  end.

Definition handle_exit (ev : SubstrateEvent V) : M (ProcMon V) unit :=
  match get_u64 (fields ev) "pid", get_str (fields ev) "image" with
  | Some pid, Some exit_image =>
      let key := wrap_u32 pid in
      p ← gets pending;
      set_pending (delete key p);;
      let '(img, lifetime, hit, exec_severity) :=
        match p !! key with
        | Some pe =>
            let lifetime_ms := Z.max 0 (wrap_i64 (ts ev - pe_exec_ts pe)) in
            (pe_image pe, json_num lifetime_ms, assess_lifecycle (pe_image pe) lifetime_ms,
             assessed (assess (pe_image pe)))
        | None => (exit_image, json_null, None, assessed (assess exit_image))
        end in
      store_pending_len;;
      let detections := match hit with Some h => [hit_json h] | None => [] end in
      let lifecycle_severity :=
        match hit with Some h => rule_severity (hit_rule h) | None => SEV_INFORMATIONAL end in
      emit (Z.max exec_severity lifecycle_severity) PROCESS_ACTIVITY "Process Activity"
        (json_obj [("activity", json_str "exit");
                   ("process", json_obj [("pid", json_num pid); ("image", json_str img)]);
                   ("lifetime_ms", lifetime);
                   ("detections", json_arr detections)])
  | _, _ => mret tt
  end.

Definition handle_event (ev : SubstrateEvent V) : M (ProcMon V) unit :=
  match kind ev with
  | EventKind.ProcessExec => handle_exec ev
  | EventKind.ProcessExit => handle_exit ev
  | _ => mret tt
  end.

(** The task's loop over what the bus delivers. *)
Definition run_events (evs : list (SubstrateEvent V)) : M (ProcMon V) unit :=
  for_each handle_event evs.
End procmon.
