(* ===== verification/NetMon.v ===== *)
(** * The network monitor

    [crates/modules/netmon/src/lib.rs]: which destinations leave the host
    ([is_external]), the ruleset and the event handler.  The parser of
    [std::net::IpAddr] is written out as the standard library defines it. *)

From Stdlib Require Import ZArith.
From stdpp Require Import base tactics gmap strings list.
From S2P Require Import Prelude Transport Keys Version CveSource Ocsf Substrate.

Local Open Scope Z_scope.

(** ** [IpAddr::from_str] *)

(** A reader consumes a prefix or, on failure, nothing. *)
Definition Reader (A : Type) : Type := bytes → option (A * bytes).

Definition to_digit (radix c : Z) : option Z :=
  let d := if in_range 48 57 c then Some (c - 48)
           else if in_range 97 122 c then Some (c - 97 + 10)
           else if in_range 65 90 c then Some (c - 65 + 10) else None in
  d ← d; if d <? radix then Some d else None.

Fixpoint read_digits (radix : Z) (s : bytes) : list Z * bytes :=
  match s with
  | [] => ([], [])
  | c :: s' =>
      match to_digit radix c with
      | Some d => let '(ds, rest) := read_digits radix s' in (d :: ds, rest)
      | None => ([], s)
      end
  end.

(** [read_number(radix, Some(max_digits), allow_zero_prefix)] into an integer type
    whose greatest value is [bound]. *)
Definition read_number (radix : Z) (max_digits : nat) (allow_zero_prefix : bool) (bound : Z) : Reader Z :=
  λ s,
    let '(ds, rest) := read_digits radix s in
    if bool_decide (max_digits < length ds)%nat then None
    else if bool_decide (ds = []) then None
    else if negb allow_zero_prefix && bool_decide (head ds = Some 0) && bool_decide (1 < length ds)%nat
    then None
    else
      let v := foldl (λ v d, v * radix + d) 0 ds in
      if v <=? bound then Some (v, rest) else None.

Definition read_given_char (c : Z) : Reader unit := λ s,
  match s with c' :: s' => if c' =? c then Some (tt, s') else None | [] => None end.

(** [read_separator(sep, index, inner)]. *)
Definition read_separator {A} (sep : Z) (index : nat) (inner : Reader A) : Reader A := λ s,
  match index with
  | O => inner s
  | S _ => '(_, s') ← read_given_char sep s; inner s'
  end.

Definition Ipv4Addr : Type := Z * Z * Z * Z.
Definition Ipv6Addr : Type := list Z.
Inductive IpAddr := V4 (ip : Ipv4Addr) | V6 (segments : Ipv6Addr).

Definition read_octet (i : nat) : Reader Z := read_separator 46 i (read_number 10 3 false 255).

Definition read_ipv4_addr : Reader Ipv4Addr := λ s,
  '(a, s) ← read_octet 0 s;
  '(b, s) ← read_octet 1 s;
  '(c, s) ← read_octet 2 s;
  '(d, s) ← read_octet 3 s;
  Some ((a, b, c, d), s).

(** [read_groups] with [left] slots to fill from index [i]: the groups read, whether
    they end in an embedded IPv4 address, and what is left. *)
Fixpoint read_groups (left i : nat) (s : bytes) : list Z * bool * bytes :=
  match left with
  | O => ([], false, s)
  | S left' =>
      let ipv4 := match left' with O => None | S _ => read_separator 58 i read_ipv4_addr s end in
      match ipv4 with
      | Some ((a, b, c, d), s') => ([a * 256 + b; c * 256 + d], true, s')
      | None =>
          match read_separator 58 i (read_number 16 4 true 65535) s with
          | Some (g, s') => let '(gs, v4, s'') := read_groups left' (S i) s' in (g :: gs, v4, s'')
          | None => ([], false, s)
          end
      end
  end.

Definition read_ipv6_addr : Reader Ipv6Addr := λ s,
  let '(head, head_ipv4, s) := read_groups 8 0 s in
  if bool_decide (length head = 8%nat) then Some (head, s)
  else if head_ipv4 then None
  else
    '(_, s) ← read_given_char 58 s;
    '(_, s) ← read_given_char 58 s;
    let '(tail, _, s) := read_groups (8 - (length head + 1)) 0 s in
    Some (head ++ replicate (8 - length head - length tail) 0 ++ tail, s).

Definition read_ip_addr : Reader IpAddr := λ s,
  match read_ipv4_addr s with
  | Some (ip, s) => Some (V4 ip, s)
  | None => '(ip, s) ← read_ipv6_addr s; Some (V6 ip, s)
  end.

Definition parse_ip (s : string) : option IpAddr :=
  '(ip, rest) ← read_ip_addr (as_bytes s);
  if bool_decide (rest = []) then Some ip else None.

(** [Ipv4Addr]'s predicates. *)
Definition is_private (ip : Ipv4Addr) : bool :=
  let '(a, b, _, _) := ip in
  (a =? 10) || ((a =? 172) && (16 <=? b) && (b <=? 31)) || ((a =? 192) && (b =? 168)).
Definition is_loopback (ip : Ipv4Addr) : bool := let '(a, _, _, _) := ip in a =? 127.
Definition is_link_local (ip : Ipv4Addr) : bool :=
  let '(a, b, _, _) := ip in (a =? 169) && (b =? 254).
Definition is_unspecified (ip : Ipv4Addr) : bool := bool_decide (ip = (0, 0, 0, 0)).

(** [Ipv6Addr::to_ipv4_mapped]. *)
Definition to_ipv4_mapped (ip : Ipv6Addr) : option Ipv4Addr :=
  match ip with
  | [0; 0; 0; 0; 0; 65535; x; y] => Some (x / 256, x mod 256, y / 256, y mod 256)
  | _ => None
  end.

(** ** External destinations *)

Definition ipv4_is_local (ip : Ipv4Addr) : bool :=
  is_private ip || is_loopback ip || is_link_local ip || is_unspecified ip.

Definition ipv6_is_local (ip : Ipv6Addr) : bool :=
  if bool_decide (ip = [0; 0; 0; 0; 0; 0; 0; 1]) || bool_decide (ip = [0; 0; 0; 0; 0; 0; 0; 0])
  then true
  else
    let hi := default 0 (head ip) in
    let link_local := Z.land hi 0xffc0 =? 0xfe80 in
    let unique_local := Z.land hi 0xfe00 =? 0xfc00 in
    link_local || unique_local.

Definition is_external (daddr : string) : bool :=
  match parse_ip daddr with
  | Some (V4 ip) => negb (ipv4_is_local ip)
  | Some (V6 ip) =>
      match to_ipv4_mapped ip with
      | Some v4 => negb (ipv4_is_local v4)
      | None => negb (ipv6_is_local ip)
      end
  | None => false
  end.

(** ** The ruleset *)

Definition SUSPICIOUS_PORTS : list Z := [4444; 4445; 1337; 31337; 12345; 6667; 6697; 5555; 9001].

Definition rule_severity (rule : string) : Z :=
  if bool_decide (rule = "suspicious_port") then SEV_MEDIUM
  else if bool_decide (rule = "suspicious_port_to_external") then SEV_HIGH
  else SEV_INFORMATIONAL.

Definition assess (daddr : string) (dport : Z) : Assessment :=
  let suspicious_port := existsb (Z.eqb dport) SUSPICIOUS_PORTS in
  let a := if suspicious_port
    then [mkRuleHit "suspicious_port"
            ("destination port " +:+ show_Z dport +:+ " is a known C2 / backdoor / remote-shell port")]
    else [] in
  let b := if suspicious_port && is_external daddr
    then [mkRuleHit "suspicious_port_to_external"
            ("suspicious port " +:+ show_Z dport +:+ " connection to external address " +:+ daddr)]
    else [] in
  let hits := a ++ b in
  mkAssessment (max_severity rule_severity hits) hits.

(** ** The handler *)

(** [u64 -> u16]: [try_into().ok()]. *)
Definition u16_try_from (z : Z) : option Z := if z <? 65536 then Some z else None.

Section netmon.
Context `{Host} {V : Type} `{JsonValue V, JsonBuild V, JsonGet V}.
Context (meta : Metadata) (dev : Device).

Definition handle_event (ev : SubstrateEvent V) : M (Outbox V) unit :=
  if negb (bool_decide (kind ev = EventKind.NetConnect)) then mret tt
  else
    match get_str (fields ev) "daddr", get_u64 (fields ev) "dport" ≫= u16_try_from,
          get_u64 (fields ev) "pid", get_str (fields ev) "image" with
    | Some daddr, Some dport, Some pid, Some image =>
        let proto := default "tcp" (get_str (fields ev) "proto") in
        let a := assess daddr dport in
        outbox_emit meta dev (assessed a) NETWORK_ACTIVITY "Network Activity"
          (json_obj
            [("activity", json_str "connect");
             ("connection", json_obj [("daddr", json_str daddr); ("dport", json_num dport);
                                      ("proto", json_str proto)]);
             ("process", json_obj [("pid", json_num pid); ("image", json_str image)]);
             ("detections", json_arr (hit_json <$> hits a))])
    | _, _, _, _ => mret tt
    end.
End netmon.

(** ** Examples *)

Example external_public : is_external "8.8.8.8" = true.
Proof. reflexivity. Qed.
Example external_private : is_external "192.168.1.20" = false.
Proof. reflexivity. Qed.
Example external_leading_zero : is_external "08.8.8.8" = false.
Proof. reflexivity. Qed.
Example external_v6 : is_external "2607:6bc0::10" = true.
Proof. reflexivity. Qed.
Example external_v6_mapped : is_external "::ffff:10.0.0.1" = false.
Proof. reflexivity. Qed.
Example external_v6_link_local : is_external "fe80::1" = false.
Proof. reflexivity. Qed.
Example external_garbage : is_external "evil.example.com" = false.
Proof. reflexivity. Qed.
