(* ===== verification/FileMon.v ===== *)
(** * The file monitor

    [crates/modules/filemon/src/lib.rs]: the path prefilter, the ruleset and the
    event handler, which emits flagged events only. *)

From Stdlib Require Import ZArith.
From stdpp Require Import base tactics gmap strings list.
From S2P Require Import Prelude Transport Keys Version CveSource Ocsf Substrate.

Local Open Scope Z_scope.

(** ** The prefilter *)

Record FilePolicy := mkFilePolicy { watch : list string; ignore : list string }.

Definition policy_new (watch ignore : list string) : FilePolicy :=
  mkFilePolicy (ascii_lower <$> watch) (ascii_lower <$> ignore).

(** [i.starts_with('.')]. *)
Definition dotted (i : string) : bool := starts_with [46] (as_bytes i).

Definition considers (policy : FilePolicy) (path : string) : bool :=
  let path_lower := ascii_lower path in
  if negb (existsb (λ w, str_contains w path_lower) (watch policy)) then false
  else negb (existsb (λ i, if dotted i then str_ends_with i path_lower
                           else str_contains i path_lower) (ignore policy)).

Definition default_policy : FilePolicy :=
  policy_new
    ["\windows\system32\"; "\program files\"; "\start menu\programs\startup\";
     "\system32\tasks\"; "\system32\config\"; "\drivers\etc\hosts"; "/usr/bin/"; "/usr/sbin/";
     "/bin/"; "/sbin/"; "/etc/"; ".ssh/"; "/etc/cron"; "/etc/systemd/"; "/etc/init.d/";
     "/etc/rc.local"]
    ["\appdata\local\temp\"; "/tmp/"; "\temp\"; "\ebwebview\"; "\cache\"; "\logfiles\";
     ".etl"; ".log"; "/proc/"; "/sys/"; "/dev/"].

(** ** The ruleset *)

Definition SYSTEM_DIRS : list string :=
  ["\windows\system32\"; "\program files\"; "/usr/bin/"; "/usr/sbin/"; "/bin/"; "/sbin/"].
Definition PERSISTENCE_LOCATIONS : list string :=
  ["\start menu\programs\startup\"; "\system32\tasks\"; "/etc/cron"; "/etc/systemd/";
   "/etc/init.d/"; "/etc/rc.local"].
Definition SENSITIVE_CONFIG_DIRS : list string :=
  ["/etc/"; ".ssh/"; "\system32\config\"; "\drivers\etc\hosts"].
Definition SENSITIVE_READ_FILES : list string :=
  ["/etc/shadow"; ".ssh/id_"; "\system32\config\sam"; "/etc/sudoers"].

Definition rule_severity (rule : string) : Z :=
  if bool_decide (rule = "write_to_system_dir") then SEV_HIGH
  else if bool_decide (rule = "write_to_persistence_location") then SEV_HIGH
  else if bool_decide (rule = "write_to_sensitive_config") then SEV_HIGH
  else if bool_decide (rule = "read_of_sensitive_file") then SEV_MEDIUM
  else SEV_INFORMATIONAL.

Definition any_in (table : list string) (path_lower : string) : bool :=
  existsb (λ p, str_contains p path_lower) table.

Definition assess (path : string) (write : bool) : Assessment :=
  let path_lower := ascii_lower path in
  let hits :=
    (if write && any_in SYSTEM_DIRS path_lower
     then [mkRuleHit "write_to_system_dir" ("write to a system/binary directory: " +:+ path)]
     else []) ++
    (if write && any_in PERSISTENCE_LOCATIONS path_lower
     then [mkRuleHit "write_to_persistence_location"
             ("write to a startup/autorun/cron/systemd/init location: " +:+ path)] else []) ++
    (if write && any_in SENSITIVE_CONFIG_DIRS path_lower
     then [mkRuleHit "write_to_sensitive_config"
             ("write to a sensitive config/credential path: " +:+ path)] else []) ++
    (if negb write && any_in SENSITIVE_READ_FILES path_lower
     then [mkRuleHit "read_of_sensitive_file" ("read of a credential/secret file: " +:+ path)]
     else []) in
  mkAssessment (max_severity rule_severity hits) hits.

(** ** The handler *)

Section filemon.
Context `{Host} {V : Type} `{JsonValue V, JsonBuild V, JsonGet V}.
Context (meta : Metadata) (dev : Device) (policy : FilePolicy).

(** [json!(o)] on an [Option]. *)
Definition opt_json {T} (f : T → V) (o : option T) : V :=
  match o with Some x => f x | None => json_null end.

Definition handle_event (ev : SubstrateEvent V) : M (Outbox V) unit :=
  let write := match kind ev with
    | EventKind.FileWrite => Some true
    | EventKind.FileOpen => Some false
    | _ => None
    end in
  match write, get_str (fields ev) "path" with
  | Some write, Some path =>
      if negb (considers policy path) then mret tt
      else
        let pid := get_u64 (fields ev) "pid" in
        let image := get_str (fields ev) "image" in
        let a := assess path write in
        if bool_decide (hits a = []) then mret tt
        else
          outbox_emit meta dev (assessed a) FILE_SYSTEM_ACTIVITY "File System Activity"
            (json_obj
              [("file", json_obj [("path", json_str path);
                                  ("op", json_str (if write then "write" else "open"))]);
               ("pid", opt_json json_num pid); ("image", opt_json json_str image);
               ("detections", json_arr (hit_json <$> hits a))])
  | _, _ => mret tt
  end.
End filemon.

(** ** Examples *)

Example considers_shadow : considers default_policy "/etc/shadow" = true.
Proof. reflexivity. Qed.
Example considers_decoy_extension : considers default_policy "\Windows\System32\evil.log.dll" = true.
Proof. reflexivity. Qed.
Example considers_log : considers default_policy "/etc/app.LOG" = false.
Proof. reflexivity. Qed.
(** The evasion the module's documentation admits. *)
Example considers_traversal : considers default_policy "/tmp/../etc/passwd" = false.
Proof. reflexivity. Qed.
