(* ===== verification/Corr.v ===== *)
(** * The cross-sensor correlator

    [crates/modules/corr/src/lib.rs]: one task owns the process contexts, the
    buffers of events seen before their exec, the contexts of exited processes and
    the per-pid chain trackers; this file has its state, every handler, the grace
    tick and the shutdown flush.  A clock read and a [HashMap] walk are numbered
    observations of the [Host].  A [.unwrap()] or an index is a possible panic. *)

From Stdlib Require Import ZArith.
From stdpp Require Import base tactics gmap strings list.
From S2P Require Import Prelude Transport Keys Version CveSource Ocsf Substrate.
From S2P Require Import ProcMon NetMon FileMon.

Local Open Scope Z_scope.

(** ** Constants *)

Definition CORRELATED_RULE : string := "suspicious_process_suspicious_connection".
Definition ANCESTRY_RULE : string := "suspicious_ancestor".
Definition CORRELATED_FILE_RULE : string := "suspicious_process_suspicious_file_write".
Definition CORRELATED_CHAIN_RULE : string := "suspicious_process_wrote_file_and_connected".
Definition CORRELATED_EXFIL_RULE : string := "suspicious_process_read_sensitive_and_connected".
Definition READ_OF_SENSITIVE_FILE_RULE : string := "read_of_sensitive_file".

Definition MAX_TRACKED : nat := 4096.
Definition GRACE : Z := from_millis 250.
Definition CHAIN_WINDOW : Z := from_secs 5.
Definition EXITED_RETENTION : Z := CHAIN_WINDOW.
Definition MAX_RECENTLY_EXITED : nat := 4096.
Definition MAX_PENDING_CONNECTS : nat := 4096.
Definition MAX_PENDING_FILE_WRITES : nat := 4096.
Definition MAX_PENDING_FILE_READS : nat := 4096.
Definition MAX_CHAIN_TRACKED : nat := 4096.

(** ** State *)

Record PendingConnect := mkPendingConnect {
  pc_image : string; pc_daddr : string; pc_dport : Z; pc_proto : string; pc_buffered_at : Z;
}.
Record PendingFileWrite := mkPendingFileWrite {
  pfw_image : string; pfw_path : string; pfw_buffered_at : Z;
}.
Record PendingFileRead := mkPendingFileRead { pfr_path : string; pfr_buffered_at : Z }.

Record ProcContext := mkProcContext {
  ctx_image : string; exec_severity : Z; exec_detections : list RuleHit; exec_ts : Z;
}.

Record ChainFileHalf := mkChainFileHalf { fh_path : string; fh_detections : list RuleHit; fh_stamp : Z }.
Record ChainReadHalf := mkChainReadHalf { rh_path : string; rh_detections : list RuleHit; rh_stamp : Z }.
Record ChainConnHalf := mkChainConnHalf {
  ch_daddr : string; ch_dport : Z; ch_proto : string; ch_detections : list RuleHit; ch_stamp : Z;
}.
Record ChainState := mkChainState {
  cs_file : option ChainFileHalf; cs_read : option ChainReadHalf; cs_conn : option ChainConnHalf;
  fired : bool; exfil_fired : bool;
}.
Definition chain_default : ChainState := mkChainState None None None false false.

(** The payload of a class 9002 record: the blocks the [json!] literals have. *)
Record ProcessBlock := mkProcessBlock {
  pb_pid : Z; pb_image : string; pb_detections : list RuleHit; pb_attributed : bool;
}.
Record FileBlock := mkFileBlock { fb_path : string; fb_op : string; fb_detections : list RuleHit }.
Record ConnBlock := mkConnBlock {
  cb_daddr : string; cb_dport : Z; cb_proto : string; cb_detections : list RuleHit;
}.
Record CorrData := mkCorrData {
  activity : string; process : ProcessBlock; file : option FileBlock;
  connection : option ConnBlock; detections : list RuleHit;
}.
Record Emission := mkEmission { em_time : Z; em_severity : Z; em_data : CorrData }.

(** The atomics [health()] reads. *)
Record Counters := mkCounters {
  tracked_len : nat; evicted : Z;
  pending_len : nat; pending_evicted : Z;
  file_pending_len : nat; file_pending_evicted : Z;
  read_pending_len : nat; read_pending_evicted : Z;
  chain_len : nat; chain_evicted : Z;
}.

Record Corr := mkCorr {
  contexts : gmap Z ProcContext;
  pending : gmap Z (list PendingConnect);
  file_pending : gmap Z (list PendingFileWrite);
  read_pending : gmap Z (list PendingFileRead);
  recently_exited : gmap Z (ProcContext * Z);
  chain : gmap Z ChainState;
  counters : Counters;
  emitted : list Emission;
  seen : nat;
  running : bool;
}.

Definition counters_zero : Counters := mkCounters 0 0 0 0 0 0 0 0 0 0.
Definition corr_new : Corr := mkCorr ∅ ∅ ∅ ∅ ∅ ∅ counters_zero [] 0 true.

Definition set_contexts m s := mkCorr m (pending s) (file_pending s) (read_pending s)
  (recently_exited s) (chain s) (counters s) (emitted s) (seen s) (running s).
Definition set_pending m s := mkCorr (contexts s) m (file_pending s) (read_pending s)
  (recently_exited s) (chain s) (counters s) (emitted s) (seen s) (running s).
Definition set_file_pending m s := mkCorr (contexts s) (pending s) m (read_pending s)
  (recently_exited s) (chain s) (counters s) (emitted s) (seen s) (running s).
Definition set_read_pending m s := mkCorr (contexts s) (pending s) (file_pending s) m
  (recently_exited s) (chain s) (counters s) (emitted s) (seen s) (running s).
Definition set_recently_exited m s := mkCorr (contexts s) (pending s) (file_pending s)
  (read_pending s) m (chain s) (counters s) (emitted s) (seen s) (running s).
Definition set_chain m s := mkCorr (contexts s) (pending s) (file_pending s) (read_pending s)
  (recently_exited s) m (counters s) (emitted s) (seen s) (running s).
Definition set_counters c s := mkCorr (contexts s) (pending s) (file_pending s) (read_pending s)
  (recently_exited s) (chain s) c (emitted s) (seen s) (running s).
Definition push_emission e s := mkCorr (contexts s) (pending s) (file_pending s) (read_pending s)
  (recently_exited s) (chain s) (counters s) (emitted s ++ [e]) (seen s) (running s).
Definition bump_seen s := mkCorr (contexts s) (pending s) (file_pending s) (read_pending s)
  (recently_exited s) (chain s) (counters s) (emitted s) (S (seen s)) (running s).
Definition halt s := mkCorr (contexts s) (pending s) (file_pending s) (read_pending s)
  (recently_exited s) (chain s) (counters s) (emitted s) (seen s) false.

(** The counter updates: [store] of a length, [fetch_add(1)] on a [u64]. *)
Definition put_tracked n c := mkCounters n (evicted c) (pending_len c) (pending_evicted c)
  (file_pending_len c) (file_pending_evicted c) (read_pending_len c) (read_pending_evicted c)
  (chain_len c) (chain_evicted c).
Definition add_evicted c := mkCounters (tracked_len c) (wrap_u64 (evicted c + 1)) (pending_len c)
  (pending_evicted c) (file_pending_len c) (file_pending_evicted c) (read_pending_len c)
  (read_pending_evicted c) (chain_len c) (chain_evicted c).
Definition put_pending n c := mkCounters (tracked_len c) (evicted c) n (pending_evicted c)
  (file_pending_len c) (file_pending_evicted c) (read_pending_len c) (read_pending_evicted c)
  (chain_len c) (chain_evicted c).
Definition add_pending_evicted c := mkCounters (tracked_len c) (evicted c) (pending_len c)
  (wrap_u64 (pending_evicted c + 1)) (file_pending_len c) (file_pending_evicted c)
  (read_pending_len c) (read_pending_evicted c) (chain_len c) (chain_evicted c).
Definition put_file_pending n c := mkCounters (tracked_len c) (evicted c) (pending_len c)
  (pending_evicted c) n (file_pending_evicted c) (read_pending_len c) (read_pending_evicted c)
  (chain_len c) (chain_evicted c).
Definition add_file_pending_evicted c := mkCounters (tracked_len c) (evicted c) (pending_len c)
  (pending_evicted c) (file_pending_len c) (wrap_u64 (file_pending_evicted c + 1))
  (read_pending_len c) (read_pending_evicted c) (chain_len c) (chain_evicted c).
Definition put_read_pending n c := mkCounters (tracked_len c) (evicted c) (pending_len c)
  (pending_evicted c) (file_pending_len c) (file_pending_evicted c) n (read_pending_evicted c)
  (chain_len c) (chain_evicted c).
Definition add_read_pending_evicted c := mkCounters (tracked_len c) (evicted c) (pending_len c)
  (pending_evicted c) (file_pending_len c) (file_pending_evicted c) (read_pending_len c)
  (wrap_u64 (read_pending_evicted c + 1)) (chain_len c) (chain_evicted c).
Definition put_chain n c := mkCounters (tracked_len c) (evicted c) (pending_len c)
  (pending_evicted c) (file_pending_len c) (file_pending_evicted c) (read_pending_len c)
  (read_pending_evicted c) n (chain_evicted c).
Definition add_chain_evicted c := mkCounters (tracked_len c) (evicted c) (pending_len c)
  (pending_evicted c) (file_pending_len c) (file_pending_evicted c) (read_pending_len c)
  (read_pending_evicted c) (chain_len c) (wrap_u64 (chain_evicted c + 1)).

Definition count (f : Counters → Counters) (s : Corr) : Corr := set_counters (f (counters s)) s.

(** ** Pending buffers

    The three buffers differ in their items only. *)

Section buffer.
Context {P : Type} (buffered_at : P → Z).

(** [m.values().map(Vec::len).sum()]. *)
Definition total (m : gmap Z (list P)) : nat := sum_list (length <$> (map_to_list m).*2).

(** [m.entry(key).or_default().push(x)]. *)
Definition push_item (key : Z) (x : P) (m : gmap Z (list P)) : gmap Z (list P) :=
  <[key := default [] (m !! key) ++ [x]]> m.

(** The double loop that looks for the oldest item of the walk. *)
Definition oldest_step (victim : option (Z * nat * Z)) (pid : Z) (idx : nat) (x : P) :
    option (Z * nat * Z) :=
  match victim with
  | Some (_, _, t) => if buffered_at x <? t then Some (pid, idx, buffered_at x) else victim
  | None => Some (pid, idx, buffered_at x)
  end.
Definition oldest_in (victim : option (Z * nat * Z)) (pid : Z) (vec : list P) :
    option (Z * nat * Z) :=
  (foldl (λ acc x, (oldest_step acc.1 pid acc.2 x, S acc.2)) (victim, 0%nat) vec).1.
Definition oldest (walk : list (Z * list P)) : option (Z * nat * Z) :=
  foldl (λ v pv, oldest_in v pv.1 pv.2) None walk.

(** [vec.remove(idx)], dropping a pid whose [Vec] becomes empty. *)
Definition remove_item (pid : Z) (idx : nat) (m : gmap Z (list P)) : gmap Z (list P) :=
  match m !! pid with
  | Some vec =>
      let vec' := delete idx vec in
      if bool_decide (vec' = []) then delete pid m else <[pid := vec']> m
  | None => m
  end.
End buffer.

Definition pending_total := total (P := PendingConnect).
Definition file_pending_total := total (P := PendingFileWrite).
Definition read_pending_total := total (P := PendingFileRead).

Section corr.
Context `{Host}.

(** ** Observations *)

Definition now : M Corr Z := λ s, (bump_seen s, Ok (instant (seen s))).
Definition elapsed (stamp : Z) : M Corr Z := t ← now; mret (elapsed_at t stamp).
Definition walk {T} (m : gmap Z T) : M Corr (list (Z * T)) := λ s,
  (bump_seen s, Ok (hash_order (seen s) T m)).
Definition emit (severity : Z) (d : CorrData) : M Corr unit := λ s,
  (push_emission (mkEmission (wall_millis (seen s)) severity d) (bump_seen s), Ok tt).

Definition evict_oldest_pending : M Corr unit :=
  m ← gets pending;
  l ← walk m;
  match oldest pc_buffered_at l with
  | Some (pid, idx, _) =>
      modify (λ s, count add_pending_evicted (set_pending (remove_item pid idx m) s))
  | None => mret tt
  end.
Definition evict_oldest_file_pending : M Corr unit :=
  m ← gets file_pending;
  l ← walk m;
  match oldest pfw_buffered_at l with
  | Some (pid, idx, _) =>
      modify (λ s, count add_file_pending_evicted (set_file_pending (remove_item pid idx m) s))
  | None => mret tt
  end.
Definition evict_oldest_read_pending : M Corr unit :=
  m ← gets read_pending;
  l ← walk m;
  match oldest pfr_buffered_at l with
  | Some (pid, idx, _) =>
      modify (λ s, count add_read_pending_evicted (set_read_pending (remove_item pid idx m) s))
  | None => mret tt
  end.

(** ** Emitting a component record *)

Definition emit_correlated (pid : Z) (attributed : bool) (proc_image : string)
    (exec_severity : Z) (proc_detections : list RuleHit) (daddr : string) (dport : Z)
    (proto : string) : M Corr (option (list RuleHit)) :=
  let net := NetMon.assess daddr dport in
  let fired := (SEV_INFORMATIONAL <? exec_severity) && (SEV_INFORMATIONAL <? assessed net) in
  let top := if fired then [mkRuleHit CORRELATED_RULE
    ("suspicious process '" +:+ proc_image +:+ "' made a suspicious connection to " +:+ daddr
       +:+ ":" +:+ show_Z dport)] else [] in
  let severity := if fired then SEV_HIGH else Z.max exec_severity (assessed net) in
  emit severity (mkCorrData "process_network"
    (mkProcessBlock pid proc_image proc_detections attributed) None
    (Some (mkConnBlock daddr dport proto (hits net))) top);;
  mret (if fired then Some (hits net) else None).

Definition emit_correlated_file (pid : Z) (attributed : bool) (proc_image : string)
    (exec_severity : Z) (proc_detections : list RuleHit) (path : string) :
    M Corr (option (list RuleHit)) :=
  let file := FileMon.assess path true in
  let fired := (SEV_INFORMATIONAL <? exec_severity) && (SEV_INFORMATIONAL <? assessed file) in
  let top := if fired then [mkRuleHit CORRELATED_FILE_RULE
    ("suspicious process '" +:+ proc_image +:+ "' made a suspicious write to " +:+ path)] else [] in
  let severity := if fired then SEV_HIGH else Z.max exec_severity (assessed file) in
  emit severity (mkCorrData "process_file"
    (mkProcessBlock pid proc_image proc_detections attributed)
    (Some (mkFileBlock path "write" (hits file))) None top);;
  mret (if fired then Some (hits file) else None).

(** ** Chains *)

Definition emit_correlated_chain (pid : Z) (proc_image : string) (proc_detections : list RuleHit)
    (f : ChainFileHalf) (c : ChainConnHalf) : M Corr unit :=
  let top := [mkRuleHit CORRELATED_CHAIN_RULE
    ("suspicious process '" +:+ proc_image +:+ "' wrote to " +:+ fh_path f +:+
     " and connected to " +:+ ch_daddr c +:+ ":" +:+ show_Z (ch_dport c))] in
  emit SEV_HIGH (mkCorrData "process_file_network"
    (mkProcessBlock pid proc_image proc_detections true)
    (Some (mkFileBlock (fh_path f) "write" (fh_detections f)))
    (Some (mkConnBlock (ch_daddr c) (ch_dport c) (ch_proto c) (ch_detections c))) top).

Definition emit_correlated_exfil (pid : Z) (proc_image : string) (proc_detections : list RuleHit)
    (rd : ChainReadHalf) (c : ChainConnHalf) : M Corr unit :=
  let top := rh_detections rd ++ ch_detections c ++ [mkRuleHit CORRELATED_EXFIL_RULE
    ("suspicious process '" +:+ proc_image +:+ "' read sensitive file " +:+ rh_path rd +:+
     " and connected to " +:+ ch_daddr c +:+ ":" +:+ show_Z (ch_dport c))] in
  emit SEV_HIGH (mkCorrData "process_file_network"
    (mkProcessBlock pid proc_image proc_detections true)
    (Some (mkFileBlock (rh_path rd) "read" (rh_detections rd)))
    (Some (mkConnBlock (ch_daddr c) (ch_dport c) (ch_proto c) (ch_detections c))) top).

(** [a.stamp.elapsed() < CHAIN_WINDOW && b.stamp.elapsed() < CHAIN_WINDOW]. *)
Definition both_fresh (a b : Z) : M Corr bool :=
  ea ← elapsed a;
  if ea <? CHAIN_WINDOW then eb ← elapsed b; mret (eb <? CHAIN_WINDOW) else mret false.

Definition maybe_fire_chain (entry : ChainState) (pid : Z) (proc_image : string)
    (proc_detections : list RuleHit) : M Corr ChainState :=
  if fired entry then mret entry
  else
    within ← match cs_file entry, cs_conn entry with
      | Some f, Some c => both_fresh (fh_stamp f) (ch_stamp c)
      | _, _ => mret false
      end;
    if negb within then mret entry
    else
      f ← unwrap (cs_file entry);
      c ← unwrap (cs_conn entry);
      emit_correlated_chain pid proc_image proc_detections f c;;
      mret (mkChainState (cs_file entry) (cs_read entry) (cs_conn entry) true (exfil_fired entry)).

Definition maybe_fire_exfil (entry : ChainState) (pid : Z) (proc_image : string)
    (proc_detections : list RuleHit) : M Corr ChainState :=
  if exfil_fired entry then mret entry
  else
    within ← match cs_read entry, cs_conn entry with
      | Some rd, Some c => both_fresh (rh_stamp rd) (ch_stamp c)
      | _, _ => mret false
      end;
    if negb within then mret entry
    else
      rd ← unwrap (cs_read entry);
      c ← unwrap (cs_conn entry);
      emit_correlated_exfil pid proc_image proc_detections rd c;;
      mret (mkChainState (cs_file entry) (cs_read entry) (cs_conn entry) (fired entry) true).

(** [oldest_stamp]: an entry without halves reads the clock. *)
Definition oldest_stamp (cs : ChainState) : M Corr Z :=
  let stamps := omap id [fh_stamp <$> cs_file cs; rh_stamp <$> cs_read cs; ch_stamp <$> cs_conn cs] in
  match stamps with
  | [] => now
  | t :: ts => mret (foldl Z.min t ts)
  end.

Fixpoint with_stamps (l : list (Z * ChainState)) : M Corr (list (Z * Z)) :=
  match l with
  | [] => mret []
  | (k, cs) :: l => t ← oldest_stamp cs; ts ← with_stamps l; mret ((k, t) :: ts)
  end.

Definition evict_oldest_chain : M Corr unit :=
  m ← gets chain;
  l ← walk m;
  stamped ← with_stamps l;
  match min_by_key snd stamped with
  | Some (victim, _) => modify (λ s, count add_chain_evicted (set_chain (delete victim m) s))
  | None => mret tt
  end.

(** [chain.entry(key)] after the cap check, then [or_default]. *)
Definition chain_entry (key : Z) : M Corr ChainState :=
  m ← gets chain;
  (if bool_decide (m !! key = None) && bool_decide (MAX_CHAIN_TRACKED ≤ size m)%nat
   then evict_oldest_chain else mret tt);;
  m ← gets chain;
  mret (default chain_default (m !! key)).
Definition chain_put (key : Z) (entry : ChainState) : M Corr unit :=
  modify (λ s, count (put_chain (size (<[key := entry]> (chain s))))
                 (set_chain (<[key := entry]> (chain s)) s)).

Definition record_connect_and_maybe_chain (pid : Z) (proc_image : string)
    (proc_detections : list RuleHit) (daddr : string) (dport : Z) (proto : string)
    (conn_detections : list RuleHit) : M Corr unit :=
  let key := wrap_u32 pid in
  entry ← chain_entry key;
  t ← now;
  let entry := mkChainState (cs_file entry) (cs_read entry)
    (Some (mkChainConnHalf daddr dport proto conn_detections t)) (fired entry) (exfil_fired entry) in
  entry ← maybe_fire_chain entry pid proc_image proc_detections;
  entry ← maybe_fire_exfil entry pid proc_image proc_detections;
  chain_put key entry.

Definition record_file_and_maybe_chain (pid : Z) (proc_image : string)
    (proc_detections : list RuleHit) (path : string) (file_detections : list RuleHit) : M Corr unit :=
  let key := wrap_u32 pid in
  entry ← chain_entry key;
  t ← now;
  let entry := mkChainState (Some (mkChainFileHalf path file_detections t)) (cs_read entry)
    (cs_conn entry) (fired entry) (exfil_fired entry) in
  entry ← maybe_fire_chain entry pid proc_image proc_detections;
  chain_put key entry.

Definition record_read_and_maybe_exfil (pid : Z) (proc_image : string)
    (proc_detections : list RuleHit) (path : string) (read_detections : list RuleHit) : M Corr unit :=
  let key := wrap_u32 pid in
  entry ← chain_entry key;
  t ← now;
  let entry := mkChainState (cs_file entry) (Some (mkChainReadHalf path read_detections t))
    (cs_conn entry) (fired entry) (exfil_fired entry) in
  entry ← maybe_fire_exfil entry pid proc_image proc_detections;
  chain_put key entry.

Definition judge_read (path : string) : option (list RuleHit) :=
  let a := FileMon.assess path false in
  if existsb (λ h, bool_decide (hit_rule h = READ_OF_SENSITIVE_FILE_RULE)) (hits a)
  then Some (hits a) else None.

(** ** Attribution *)

Definition same_instance (ctx_image event_comm : string) : bool :=
  if bool_decide (event_comm = "") || bool_decide (event_comm = "unknown") then true
  else starts_with (as_bytes event_comm) (as_bytes (rsplit_next is_slash ctx_image)).

Definition resolve_instance (ctx : ProcContext) (event_comm : string) :
    string * Z * list RuleHit :=
  if same_instance (ctx_image ctx) event_comm
  then (ctx_image ctx, exec_severity ctx, exec_detections ctx)
  else let a := ProcMon.assess event_comm in (event_comm, assessed a, hits a).

(** The context an event is attributed to: the live one, or a retained one within
    its window. *)
Definition attribution (key : Z) : M Corr (option ProcContext) :=
  m ← gets contexts;
  match m !! key with
  | Some c => mret (Some c)
  | None =>
      r ← gets recently_exited;
      match r !! key with
      | Some (_, stamp) =>
          e ← elapsed stamp;
          if e <? EXITED_RETENTION then '(c, _) ← unwrap (r !! key); mret (Some c) else mret None
      | None => mret None
      end
  end.

Definition connect_attributed (pid : Z) (image : string) (severity : Z) (dets : list RuleHit)
    (daddr : string) (dport : Z) (proto : string) : M Corr unit :=
  o ← emit_correlated pid true image severity dets daddr dport proto;
  match o with
  | Some conn_detections =>
      record_connect_and_maybe_chain pid image dets daddr dport proto conn_detections
  | None => mret tt
  end.

Definition write_attributed (pid : Z) (image : string) (severity : Z) (dets : list RuleHit)
    (path : string) : M Corr unit :=
  o ← emit_correlated_file pid true image severity dets path;
  match o with
  | Some file_detections => record_file_and_maybe_chain pid image dets path file_detections
  | None => mret tt
  end.

(** ** Handlers *)

Context {V : Type} `{JsonValue V, JsonGet V}.
Implicit Type ev : SubstrateEvent V.

(** The suspicious parent an exec inherits from: its pid, image and severity. *)
Definition inherited (s : Corr) (ppid : option Z) : option (Z * string * Z) :=
  pp ← ppid;
  pctx ← match contexts s !! wrap_u32 pp with
    | Some c => Some c
    | None => fst <$> recently_exited s !! wrap_u32 pp
    end;
  if SEV_INFORMATIONAL <? exec_severity pctx
  then Some (pp, ctx_image pctx, exec_severity pctx) else None.

Definition inherit (a : Assessment) (o : option (Z * string * Z)) : Z * list RuleHit :=
  match o with
  | Some (pp, pimage, psev) =>
      (Z.max (assessed a) psev, hits a ++ [mkRuleHit ANCESTRY_RULE
         ("inherited suspicion from ancestor '" +:+ pimage +:+ "' (pid " +:+ show_Z pp +:+ ")")])
  | None => (assessed a, hits a)
  end.

Definition evict_oldest_context : M Corr unit :=
  m ← gets contexts;
  l ← walk m;
  match min_by_key (λ kc, exec_ts kc.2) l with
  | Some (oldest, _) => modify (λ s, count add_evicted (set_contexts (delete oldest m) s))
  | None => mret tt
  end.

Definition drain_connects (pid key : Z) (image : string) (severity : Z) (dets : list RuleHit) :
    M Corr unit :=
  m ← gets pending;
  match m !! key with
  | Some vec =>
      modify (set_pending (delete key m));;
      for_each (λ pc, connect_attributed pid image severity dets (pc_daddr pc) (pc_dport pc)
                        (pc_proto pc)) vec;;
      modify (λ s, count (put_pending (pending_total (pending s))) s)
  | None => mret tt
  end.

Definition drain_writes (pid key : Z) (image : string) (severity : Z) (dets : list RuleHit) :
    M Corr unit :=
  m ← gets file_pending;
  match m !! key with
  | Some vec =>
      modify (set_file_pending (delete key m));;
      for_each (λ pfw, write_attributed pid image severity dets (pfw_path pfw)) vec;;
      modify (λ s, count (put_file_pending (file_pending_total (file_pending s))) s)
  | None => mret tt
  end.

Definition drain_reads (pid key : Z) (image : string) (dets : list RuleHit) : M Corr unit :=
  m ← gets read_pending;
  match m !! key with
  | Some vec =>
      modify (set_read_pending (delete key m));;
      for_each (λ pfr, match judge_read (pfr_path pfr) with
        | Some rds => record_read_and_maybe_exfil pid image dets (pfr_path pfr) rds
        | None => mret tt
        end) vec;;
      modify (λ s, count (put_read_pending (read_pending_total (read_pending s))) s)
  | None => mret tt
  end.

Definition handle_exec (ev : SubstrateEvent V) : M Corr unit :=
  match get_u64 (fields ev) "pid", get_str (fields ev) "image" with
  | Some pid, Some image =>
      let a := ProcMon.assess image in
      let key := wrap_u32 pid in
      modify (λ s, set_recently_exited (delete key (recently_exited s)) s);;
      modify (λ s, match chain s !! key with
        | Some _ => count (put_chain (size (delete key (chain s)))) (set_chain (delete key (chain s)) s)
        | None => s
        end);;
      inh ← gets (λ s, inherited s (get_u64 (fields ev) "ppid"));
      let '(severity, dets) := inherit a inh in
      m ← gets contexts;
      (if bool_decide (m !! key = None) && bool_decide (MAX_TRACKED ≤ size m)%nat
       then evict_oldest_context else mret tt);;
      modify (λ s, set_contexts (<[key := mkProcContext image severity dets (ts ev)]> (contexts s)) s);;
      modify (λ s, count (put_tracked (size (contexts s))) s);;
      drain_connects pid key image severity dets;;
      drain_writes pid key image severity dets;;
      drain_reads pid key image dets
  | _, _ => mret tt
  end.

Definition evict_oldest_exited : M Corr unit :=
  m ← gets recently_exited;
  l ← walk m;
  match min_by_key (λ kct, kct.2.2) l with
  | Some (oldest, _) => modify (set_recently_exited (delete oldest m))
  | None => mret tt
  end.

Definition handle_exit (ev : SubstrateEvent V) : M Corr unit :=
  match get_u64 (fields ev) "pid" with
  | Some pid =>
      let key := wrap_u32 pid in
      m ← gets contexts;
      match m !! key with
      | Some ctx =>
          modify (set_contexts (delete key m));;
          r ← gets recently_exited;
          (if bool_decide (r !! key = None) && bool_decide (MAX_RECENTLY_EXITED ≤ size r)%nat
           then evict_oldest_exited else mret tt);;
          t ← now;
          modify (λ s, set_recently_exited (<[key := (ctx, t)]> (recently_exited s)) s)
      | None => mret tt
      end;;
      modify (λ s, count (put_tracked (size (contexts s))) s)
  | None => mret tt
  end.

Definition buffer_connect (key : Z) (image daddr : string) (dport : Z) (proto : string) : M Corr unit :=
  m ← gets pending;
  (if bool_decide (MAX_PENDING_CONNECTS ≤ pending_total m)%nat
   then evict_oldest_pending else mret tt);;
  t ← now;
  modify (λ s, set_pending (push_item key (mkPendingConnect image daddr dport proto t) (pending s)) s);;
  modify (λ s, count (put_pending (pending_total (pending s))) s).

Definition handle_connect (ev : SubstrateEvent V) : M Corr unit :=
  match get_u64 (fields ev) "pid", get_str (fields ev) "daddr",
        get_u64 (fields ev) "dport" ≫= u16_try_from with
  | Some pid, Some daddr, Some dport =>
      let connect_image := default "unknown" (get_str (fields ev) "image") in
      let proto := default "tcp" (get_str (fields ev) "proto") in
      let key := wrap_u32 pid in
      o ← attribution key;
      match o with
      | Some c =>
          let '(img, sev, dets) := resolve_instance c connect_image in
          connect_attributed pid img sev dets daddr dport proto
      | None => buffer_connect key connect_image daddr dport proto
      end
  | _, _, _ => mret tt
  end.

Definition buffer_write (key : Z) (image path : string) : M Corr unit :=
  m ← gets file_pending;
  (if bool_decide (MAX_PENDING_FILE_WRITES ≤ file_pending_total m)%nat
   then evict_oldest_file_pending else mret tt);;
  t ← now;
  modify (λ s, set_file_pending (push_item key (mkPendingFileWrite image path t) (file_pending s)) s);;
  modify (λ s, count (put_file_pending (file_pending_total (file_pending s))) s).

Definition handle_file_write (file_policy : FilePolicy) (ev : SubstrateEvent V) : M Corr unit :=
  match get_u64 (fields ev) "pid", get_str (fields ev) "path" with
  | Some pid, Some path =>
      if negb (considers file_policy path) then mret tt
      else
        let write_image := default "unknown" (get_str (fields ev) "image") in
        let key := wrap_u32 pid in
        o ← attribution key;
        match o with
        | Some c =>
            let '(img, sev, dets) := resolve_instance c write_image in
            write_attributed pid img sev dets path
        | None => buffer_write key write_image path
        end
  | _, _ => mret tt
  end.

Definition buffer_read (key : Z) (path : string) : M Corr unit :=
  m ← gets read_pending;
  (if bool_decide (MAX_PENDING_FILE_READS ≤ read_pending_total m)%nat
   then evict_oldest_read_pending else mret tt);;
  t ← now;
  modify (λ s, set_read_pending (push_item key (mkPendingFileRead path t) (read_pending s)) s);;
  modify (λ s, count (put_read_pending (read_pending_total (read_pending s))) s).

Definition handle_file_open (file_policy : FilePolicy) (ev : SubstrateEvent V) : M Corr unit :=
  match get_u64 (fields ev) "pid", get_str (fields ev) "path" with
  | Some pid, Some path =>
      if negb (considers file_policy path) then mret tt
      else
        match judge_read path with
        | None => mret tt
        | Some read_detections =>
            let read_image := default "unknown" (get_str (fields ev) "image") in
            let key := wrap_u32 pid in
            o ← attribution key;
            match o with
            | Some c =>
                let '(img, _, dets) := resolve_instance c read_image in
                record_read_and_maybe_exfil pid img dets path read_detections
            | None => buffer_read key path
            end
        end
  | _, _ => mret tt
  end.

Definition handle_event (ev : SubstrateEvent V) : M Corr unit :=
  match kind ev with
  | EventKind.ProcessExec => handle_exec ev
  | EventKind.ProcessExit => handle_exit ev
  | EventKind.NetConnect => handle_connect ev
  | EventKind.FileWrite => handle_file_write default_policy ev
  | EventKind.FileOpen => handle_file_open default_policy ev
  | EventKind.AuthEvent => mret tt
  end.

(** ** The grace tick *)

(** The [while i < vec.len()] loop over one pid's connects: the over-grace ones are
    emitted un-attributed, the others kept in order. *)
Fixpoint flush_connects (grace pid : Z) (vec : list PendingConnect) : M Corr (list PendingConnect) :=
  match vec with
  | [] => mret []
  | pc :: vec =>
      e ← elapsed (pc_buffered_at pc);
      if grace <=? e then
        emit_correlated pid false (pc_image pc) SEV_INFORMATIONAL [] (pc_daddr pc) (pc_dport pc)
          (pc_proto pc);;
        flush_connects grace pid vec
      else
        rest ← flush_connects grace pid vec;
        mret (pc :: rest)
  end.

Fixpoint flush_writes (grace pid : Z) (vec : list PendingFileWrite) : M Corr (list PendingFileWrite) :=
  match vec with
  | [] => mret []
  | pfw :: vec =>
      e ← elapsed (pfw_buffered_at pfw);
      if grace <=? e then
        emit_correlated_file pid false (pfw_image pfw) SEV_INFORMATIONAL [] (pfw_path pfw);;
        flush_writes grace pid vec
      else
        rest ← flush_writes grace pid vec;
        mret (pfw :: rest)
  end.

Fixpoint retain_reads (grace : Z) (vec : list PendingFileRead) : M Corr (list PendingFileRead) :=
  match vec with
  | [] => mret []
  | pfr :: vec =>
      e ← elapsed (pfr_buffered_at pfr);
      rest ← retain_reads grace vec;
      mret (if e <? grace then pfr :: rest else rest)
  end.

(** Write back one pid's [Vec]; an empty one is dropped after the walk. *)
Definition put_vec {P} (pid : Z) (vec : list P) (m : gmap Z (list P)) : gmap Z (list P) :=
  if bool_decide (vec = []) then delete pid m else <[pid := vec]> m.

Definition tick_connects (grace : Z) : M Corr unit :=
  m ← gets pending;
  l ← walk m;
  for_each (λ pv, vec ← flush_connects grace pv.1 pv.2;
                  modify (λ s, set_pending (put_vec pv.1 vec (pending s)) s)) l;;
  modify (λ s, count (put_pending (pending_total (pending s))) s).

Definition tick_writes (grace : Z) : M Corr unit :=
  m ← gets file_pending;
  l ← walk m;
  for_each (λ pv, vec ← flush_writes grace pv.1 pv.2;
                  modify (λ s, set_file_pending (put_vec pv.1 vec (file_pending s)) s)) l;;
  modify (λ s, count (put_file_pending (file_pending_total (file_pending s))) s).

Definition tick_reads (grace : Z) : M Corr unit :=
  m ← gets read_pending;
  l ← walk m;
  for_each (λ pv, vec ← retain_reads grace pv.2;
                  modify (λ s, set_read_pending (put_vec pv.1 vec (read_pending s)) s)) l;;
  modify (λ s, count (put_read_pending (read_pending_total (read_pending s))) s).

Definition tick_exited : M Corr unit :=
  m ← gets recently_exited;
  l ← walk m;
  for_each (λ pct : Z * (ProcContext * Z), e ← elapsed pct.2.2;
    if EXITED_RETENTION <=? e
    then modify (λ s, set_recently_exited (delete pct.1 (recently_exited s)) s) else mret tt) l.

(** [is_none_or(|h| h.stamp.elapsed() >= CHAIN_WINDOW)]. *)
Definition half_old (stamp : option Z) : M Corr bool :=
  match stamp with
  | None => mret true
  | Some t => e ← elapsed t; mret (CHAIN_WINDOW <=? e)
  end.

Definition is_expired (cs : ChainState) : M Corr bool :=
  file_old ← half_old (fh_stamp <$> cs_file cs);
  read_old ← half_old (rh_stamp <$> cs_read cs);
  conn_old ← half_old (ch_stamp <$> cs_conn cs);
  mret (file_old && read_old && conn_old).

Definition tick_chain : M Corr unit :=
  m ← gets chain;
  l ← walk m;
  for_each (λ kc : Z * ChainState, old ← is_expired kc.2;
    if (old : bool) then modify (λ s, set_chain (delete kc.1 (chain s)) s) else mret tt) l;;
  modify (λ s, count (put_chain (size (chain s))) s).

Definition tick (grace : Z) : M Corr unit :=
  tick_connects grace;; tick_writes grace;; tick_reads grace;; tick_exited;; tick_chain.

(** ** Shutdown *)

Definition flush_pending_on_shutdown : M Corr unit :=
  m ← gets pending;
  l ← walk m;
  modify (set_pending ∅);;
  for_each (λ pv : Z * list PendingConnect, for_each (λ pc,
    emit_correlated pv.1 false (pc_image pc) SEV_INFORMATIONAL [] (pc_daddr pc) (pc_dport pc)
      (pc_proto pc);; mret tt) pv.2) l;;
  modify (count (put_pending 0)).

Definition flush_file_pending_on_shutdown : M Corr unit :=
  m ← gets file_pending;
  l ← walk m;
  modify (set_file_pending ∅);;
  for_each (λ pv : Z * list PendingFileWrite, for_each (λ pfw,
    emit_correlated_file pv.1 false (pfw_image pfw) SEV_INFORMATIONAL [] (pfw_path pfw);;
    mret tt) pv.2) l;;
  modify (count (put_file_pending 0)).

Definition shutdown : M Corr unit :=
  flush_pending_on_shutdown;; flush_file_pending_on_shutdown;; modify halt.

(** ** The task's loop *)

(** What wakes the [select!]: an event, a gap in the broadcast, the interval, a stop
    request or the end of the bus. *)
Inductive Wake :=
  | Recv (ev : SubstrateEvent V)
  | Lagged
  | Tick
  | Stop
  | Closed.

Definition wake (grace : Z) (w : Wake) : M Corr unit :=
  r ← gets running;
  if negb r then mret tt
  else
    match w with
    | Recv ev => handle_event ev
    | Lagged => mret tt
    | Tick => tick grace
    | Stop | Closed => shutdown
    end.

Definition run_task (grace : Z) (ws : list Wake) : M Corr unit := for_each (wake grace) ws.
End corr.
Arguments Wake : clear implicits.

(** ** The envelope on the wire *)

Section render.
Context {V : Type} `{JsonBuild V}.

Definition detections_json (l : list RuleHit) : V := json_arr (hit_json <$> l).

Definition corr_json (d : CorrData) : V :=
  json_obj ([("activity", json_str (activity d));
    ("process", json_obj
      [("pid", json_num (pb_pid (process d))); ("image", json_str (pb_image (process d)));
       ("detections", detections_json (pb_detections (process d)));
       ("attributed", json_bool (pb_attributed (process d)))])] ++
    match file d with
    | Some f => [("file", json_obj [("path", json_str (fb_path f)); ("op", json_str (fb_op f));
                                    ("detections", detections_json (fb_detections f))])]
    | None => []
    end ++
    match connection d with
    | Some c => [("connection", json_obj
        [("daddr", json_str (cb_daddr c)); ("dport", json_num (cb_dport c));
         ("proto", json_str (cb_proto c)); ("detections", detections_json (cb_detections c))])]
    | None => []
    end ++
    [("detections", detections_json (detections d))]).

Definition corr_envelope (meta : Metadata) (dev : Device) (e : Emission) : OcsfEnvelope V :=
  set_severity (em_severity e)
    (envelope_new CORRELATED_ACTIVITY "Correlated Activity" meta dev (corr_json (em_data e)) (em_time e)).
End render.
