(* ===== verification/CorrFacts.v ===== *)
(** * Facts about the correlator's state

    The buffers as bags of items, totality of every operation, and what each
    operation leaves alone. *)

From Stdlib Require Import ZArith.
From stdpp Require Import base tactics gmap strings list.
From S2P Require Import Prelude Transport Keys Version CveSource Ocsf Substrate ProcMon NetMon FileMon.
From S2P Require Import Corr.

Local Open Scope Z_scope.

(** ** Buffers *)

Section buffer.
Context {P : Type}.
Implicit Types (m : gmap Z (list P)) (vec : list P).

(** The items of a buffer, each with its pid. *)
Definition items (l : list (Z * list P)) : list (Z * P) := l ≫= λ pv, (pv.1,.) <$> pv.2.
Definition contents m : list (Z * P) := items (map_to_list m).

Definition no_empty m : Prop := map_Forall (λ _ vec, vec ≠ []) m.

Lemma items_app l1 l2 : items (l1 ++ l2) = items l1 ++ items l2.
Proof. unfold items. by rewrite bind_app. Qed.

#[export] Instance items_perm : Proper ((≡ₚ) ==> (≡ₚ)) items.
Proof. intros l1 l2 Hp. unfold items. by rewrite Hp. Qed.

Lemma total_contents m : total m = length (contents m).
Proof.
  unfold total, contents, items. induction (map_to_list m) as [|[k v] l IH]; [done|].
  cbn. by rewrite length_app, length_fmap, <-IH.
Qed.

Lemma contents_empty : contents (∅ : gmap Z (list P)) = [].
Proof. unfold contents. by rewrite map_to_list_empty. Qed.

Lemma elem_of_contents m k x : (k, x) ∈ contents m ↔ ∃ vec, m !! k = Some vec ∧ x ∈ vec.
Proof.
  unfold contents, items. rewrite list_elem_of_bind. split.
  - intros ([k' vec] & (y & [= -> ->] & Hy)%list_elem_of_fmap & Hin). exists vec.
    by apply elem_of_map_to_list in Hin.
  - intros (vec & Hk & Hx). exists (k, vec). split; [|by apply elem_of_map_to_list].
    apply list_elem_of_fmap. by exists x.
Qed.

Lemma contents_insert m k vec :
  m !! k = None → contents (<[k := vec]> m) ≡ₚ ((k,.) <$> vec) ++ contents m.
Proof.
  intros Hk. unfold contents. rewrite map_to_list_insert by done. done.
Qed.

Lemma contents_delete m k vec :
  m !! k = Some vec → contents m ≡ₚ ((k,.) <$> vec) ++ contents (delete k m).
Proof.
  intros Hk. rewrite <-(insert_delete_id m k vec) at 1 by done.
  by rewrite contents_insert by apply lookup_delete_eq.
Qed.

Lemma contents_push m k x : contents (push_item k x m) ≡ₚ (k, x) :: contents m.
Proof.
  unfold push_item. rewrite <-insert_delete_eq. rewrite contents_insert by apply lookup_delete_eq.
  destruct (m !! k) as [vec|] eqn:Hk; cbn [default].
  - rewrite (contents_delete m k vec) by done. rewrite fmap_app. cbn.
    by rewrite <-Permutation_middle, app_nil_r.
  - cbn. by rewrite (delete_id m k Hk).
Qed.

Lemma contents_put m k vec0 vec :
  m !! k = Some vec0 → contents (put_vec k vec m) ≡ₚ ((k,.) <$> vec) ++ contents (delete k m).
Proof.
  intros Hk. unfold put_vec. case_bool_decide as Hv; [by subst|].
  rewrite <-insert_delete_eq. by rewrite contents_insert by apply lookup_delete_eq.
Qed.

Lemma contents_remove m k vec idx x :
  m !! k = Some vec → vec !! idx = Some x → contents m ≡ₚ (k, x) :: contents (remove_item k idx m).
Proof.
  intros Hk Hx. unfold remove_item. rewrite Hk.
  change (if bool_decide (delete idx vec = []) then delete k m else <[k:=delete idx vec]> m)
    with (put_vec k (delete idx vec) m).
  rewrite (contents_put m k vec) by done. rewrite (contents_delete m k vec) by done.
  assert ((k,.) <$> vec ≡ₚ (k, x) :: ((k,.) <$> delete idx vec)) as Hp
    by (change ((k, x) :: ((k,.) <$> delete idx vec)) with ((k,.) <$> x :: delete idx vec);
        by rewrite <-delete_Permutation).
  by rewrite Hp.
Qed.

Lemma no_empty_push m k x : no_empty m → no_empty (push_item k x m).
Proof. intros Hm. apply map_Forall_insert_2; [|done]. by destruct (default [] (m !! k)). Qed.

Lemma no_empty_delete m k : no_empty m → no_empty (delete k m).
Proof. apply map_Forall_delete. Qed.

Lemma no_empty_put m k vec : no_empty m → no_empty (put_vec k vec m).
Proof.
  intros Hm. unfold put_vec. case_bool_decide; [by apply map_Forall_delete|].
  by apply map_Forall_insert_2.
Qed.

Lemma no_empty_remove m k idx : no_empty m → no_empty (remove_item k idx m).
Proof.
  intros Hm. unfold remove_item. destruct (m !! k); [|done]. by apply (no_empty_put m k).
Qed.

(** *** The oldest item *)

Context (at_ : P → Z).

(** Every item with the place it has in the walk. *)
Definition places (l : list (Z * list P)) : list (Z * nat * P) :=
  l ≫= λ pv, (λ ix, (pv.1, ix.1, ix.2)) <$> zip (seq 0 (length pv.2)) pv.2.
Definition place_step (v : option (Z * nat * Z)) (p : Z * nat * P) : option (Z * nat * Z) :=
  oldest_step at_ v p.1.1 p.1.2 p.2.

Lemma oldest_in_places v pid vec n :
  foldl (λ acc x, (oldest_step at_ acc.1 pid acc.2 x, S acc.2)) (v, n) vec =
  (foldl place_step v ((λ ix, (pid, ix.1, ix.2)) <$> zip (seq n (length vec)) vec), (n + length vec)%nat).
Proof.
  revert v n. induction vec as [|x vec IH]; intros v n; cbn; [f_equal; lia|].
  rewrite IH. f_equal. lia.
Qed.

Lemma oldest_places l : oldest at_ l = foldl place_step None (places l).
Proof.
  unfold oldest, places. generalize (None : option (Z * nat * Z)).
  induction l as [|[pid vec] l IH]; intros v; [done|].
  cbn. rewrite IH, foldl_app. unfold oldest_in. by rewrite oldest_in_places.
Qed.

Lemma places_lookup l pid idx x :
  (pid, idx, x) ∈ places l → ∃ vec, (pid, vec) ∈ l ∧ vec !! idx = Some x.
Proof.
  unfold places. intros ([p vec] & Hin & Hl)%list_elem_of_bind.
  apply list_elem_of_fmap in Hin as ([i y] & [= -> -> ->] & Hin). cbn in *.
  exists vec. split; [done|]. apply list_elem_of_lookup in Hin as [j Hj].
  apply lookup_zip_Some in Hj as [Hi Hy]. apply lookup_seq in Hi as [-> _]. done.
Qed.

Lemma places_items l : (λ p, (p.1.1, p.2)) <$> places l = items l.
Proof.
  unfold places, items. induction l as [|[pid vec] l IH]; [done|]. cbn.
  rewrite fmap_app, IH. f_equal. rewrite <-list_fmap_compose.
  generalize 0%nat. induction vec as [|x vec IHv]; intros n; [done|]. cbn. f_equal. apply IHv.
Qed.

Lemma place_fold ps v :
  match foldl place_step v ps with
  | None => v = None ∧ ps = []
  | Some (pid, idx, t) =>
      (v = Some (pid, idx, t) ∨ ∃ x, (pid, idx, x) ∈ ps ∧ at_ x = t) ∧
      (∀ p i t', v = Some (p, i, t') → t ≤ t') ∧ ∀ p, p ∈ ps → t ≤ at_ p.2
  end.
Proof.
  revert v. induction ps as [|[[p i] x] ps IH]; intros v; cbn.
  { destruct v as [[[pid idx] t]|]; [|done]. split; [by left|]. split.
    - intros ? ? ? [= <- <- <-]. lia.
    - by intros ? ?%not_elem_of_nil. }
  specialize (IH (place_step v (p, i, x))).
  assert (place_step v (p, i, x) = match v with
    | Some (_, _, t0) => if at_ x <? t0 then Some (p, i, at_ x) else v
    | None => Some (p, i, at_ x)
    end) as Hstep by done.
  destruct (foldl place_step _ ps) as [[[pid idx] t]|] eqn:Hfold; rewrite Hstep in IH.
  - destruct IH as (Hwhere & Hle & Hall). cbn in *.
    destruct v as [[[p0 i0] t0]|]; [destruct (Z.ltb_spec (at_ x) t0) as [Hlt|Hge]|].
    + pose proof (Hle _ _ _ eq_refl). split; [|split].
      * right. destruct Hwhere as [[= -> -> <-]|(y & Hy & <-)]; [by exists x; set_solver|].
        exists y. set_solver.
      * intros ? ? ? [= <- <- <-]. lia.
      * intros q [->|Hq]%elem_of_cons; [cbn; lia|auto].
    + pose proof (Hle _ _ _ eq_refl). split; [|split].
      * destruct Hwhere as [[= -> -> <-]|(y & Hy & <-)]; [by left|]. right. exists y. set_solver.
      * intros ? ? ? [= <- <- <-]. lia.
      * intros q [->|Hq]%elem_of_cons; [cbn; lia|auto].
    + pose proof (Hle _ _ _ eq_refl). split; [|split; [done|]].
      * right. destruct Hwhere as [[= -> -> <-]|(y & Hy & <-)]; [by exists x; set_solver|].
        exists y. set_solver.
      * intros q [->|Hq]%elem_of_cons; [cbn; lia|auto].
  - exfalso. destruct IH as [Hv _]. cbn in Hv. destruct v as [[[p0 i0] t0]|]; [|done].
    by destruct (at_ x <? t0).
Qed.

(** Eviction takes an item with the least stamp, and finds one unless the buffer is
    empty. *)
Lemma oldest_spec l m :
  l ≡ₚ map_to_list m →
  match oldest at_ l with
  | None => contents m = []
  | Some (pid, idx, t) => ∃ vec x, m !! pid = Some vec ∧ vec !! idx = Some x ∧ at_ x = t ∧
      ∀ kx, kx ∈ contents m → t ≤ at_ kx.2
  end.
Proof.
  intros Hl. rewrite oldest_places. pose proof (place_fold (places l) None) as Hf.
  destruct (foldl place_step None (places l)) as [[[pid idx] t]|].
  - destruct Hf as ([Hf|(x & Hin & Hat)] & _ & Hle); [done|].
    apply places_lookup in Hin as (vec & Hvec & Hx). exists vec, x.
    rewrite Hl in Hvec. apply elem_of_map_to_list in Hvec. repeat split; [done..|].
    intros [k y] Hy. unfold contents in Hy. rewrite <-Hl, <-places_items in Hy.
    apply list_elem_of_fmap in Hy as ([[k' i] y'] & [= -> ->] & Hy). by apply (Hle _ Hy).
  - destruct Hf as [_ Hnil]. apply Permutation_nil_r. unfold contents. rewrite <-Hl, <-places_items.
    by rewrite Hnil.
Qed.
End buffer.

(** ** Every operation succeeds *)

(** Walk through a monadic body; [leaf] closes the primitive steps. *)
Ltac walk_body leaf :=
  repeat first
    [ progress intros
    | leaf
    | match goal with
      | |- context [match ?x with _ => _ end] => destruct x eqn:?
      end ].

Section total.
Context `{Host}.

Lemma total_now : total_m now.
Proof. intros s. by do 2 eexists. Qed.
Lemma total_walk {T} (m : gmap Z T) : total_m (walk m).
Proof. intros s. by do 2 eexists. Qed.
Lemma total_emit sev d : total_m (emit sev d).
Proof. intros s. by do 2 eexists. Qed.
Lemma total_elapsed t : total_m (elapsed t).
Proof. apply total_bind; [apply total_now|]. intros. apply total_mret. Qed.
End total.

#[export] Hint Resolve total_ret total_mret total_gets total_modify total_unwrap total_bind
  total_for_each total_now total_walk total_emit total_elapsed : torda.

Ltac total_leaf :=
  first [ solve [eauto 2 with torda nocore]
        | apply total_bind; [|intros ?]
        | apply total_for_each; intros ? ].
Ltac solve_total := walk_body total_leaf.

Section total_ops.
Context `{Host}.

Lemma total_both_fresh a b : total_m (both_fresh a b).
Proof. unfold both_fresh. solve_total. Qed.
Lemma total_oldest_stamp cs : total_m (oldest_stamp cs).
Proof. unfold oldest_stamp. solve_total. Qed.
Lemma total_with_stamps l : total_m (with_stamps l).
Proof.
  induction l as [|[k cs] l IH]; cbn [with_stamps]; [apply total_mret|].
  apply total_bind; [apply total_oldest_stamp|]. solve_total.
Qed.
Lemma total_emit_correlated pid b img sev dets daddr dport proto :
  total_m (emit_correlated pid b img sev dets daddr dport proto).
Proof. unfold emit_correlated. solve_total. Qed.
Lemma total_emit_correlated_file pid b img sev dets path :
  total_m (emit_correlated_file pid b img sev dets path).
Proof. unfold emit_correlated_file. solve_total. Qed.
Lemma total_emit_chain pid img dets f c : total_m (emit_correlated_chain pid img dets f c).
Proof. unfold emit_correlated_chain. solve_total. Qed.
Lemma total_emit_exfil pid img dets f c : total_m (emit_correlated_exfil pid img dets f c).
Proof. unfold emit_correlated_exfil. solve_total. Qed.
End total_ops.

#[export] Hint Resolve total_both_fresh total_oldest_stamp total_with_stamps total_emit_correlated
  total_emit_correlated_file total_emit_chain total_emit_exfil : torda.

(** ** Firing a chain *)

Definition set_fired (cs : ChainState) : ChainState :=
  mkChainState (cs_file cs) (cs_read cs) (cs_conn cs) true (exfil_fired cs).
Definition set_exfil_fired (cs : ChainState) : ChainState :=
  mkChainState (cs_file cs) (cs_read cs) (cs_conn cs) (fired cs) true.

Section fire.
Context `{Host}.

(** The guards guarantee the halves the code unwraps. *)
Lemma maybe_fire_chain_eq cs pid img dets s :
  maybe_fire_chain cs pid img dets s =
  (match fired cs, cs_file cs, cs_conn cs with
   | false, Some f, Some c =>
       within ← both_fresh (fh_stamp f) (ch_stamp c);
       if (within : bool) then emit_correlated_chain pid img dets f c;; mret (set_fired cs)
       else mret cs
   | _, _, _ => mret cs
   end) s.
Proof.
  unfold maybe_fire_chain. destruct cs as [[f|] rd [c|] [] ex]; try done.
  cbn [fired cs_file cs_conn]. unfold mbind, M_bind, m_bind.
  destruct (both_fresh _ _ s) as [s' [[]|e|]]; done.
Qed.

Lemma maybe_fire_exfil_eq cs pid img dets s :
  maybe_fire_exfil cs pid img dets s =
  (match exfil_fired cs, cs_read cs, cs_conn cs with
   | false, Some rd, Some c =>
       within ← both_fresh (rh_stamp rd) (ch_stamp c);
       if (within : bool) then emit_correlated_exfil pid img dets rd c;; mret (set_exfil_fired cs)
       else mret cs
   | _, _, _ => mret cs
   end) s.
Proof.
  unfold maybe_fire_exfil. destruct cs as [f [rd|] [c|] fd []]; try done.
  cbn [exfil_fired cs_read cs_conn]. unfold mbind, M_bind, m_bind.
  destruct (both_fresh _ _ s) as [s' [[]|e|]]; done.
Qed.

Lemma total_maybe_fire_chain cs pid img dets : total_m (maybe_fire_chain cs pid img dets).
Proof. eapply total_ext; [intros s; apply maybe_fire_chain_eq|]. solve_total. Qed.

Lemma total_maybe_fire_exfil cs pid img dets : total_m (maybe_fire_exfil cs pid img dets).
Proof. eapply total_ext; [intros s; apply maybe_fire_exfil_eq|]. solve_total. Qed.

Lemma total_attribution key : total_m (attribution key).
Proof.
  unfold attribution. apply total_bind; [eauto with torda|]. intros m. destruct (m !! key); [eauto with torda|].
  apply total_bind; [eauto with torda|]. intros r. destruct (r !! key) as [[c t]|] eqn:Hr; solve_total.
Qed.
End fire.

#[export] Hint Resolve total_maybe_fire_chain total_maybe_fire_exfil total_attribution : torda.

Section total_handlers.
Context `{Host} {V : Type} `{JsonValue V, JsonGet V}.

Lemma total_evict_chain : total_m evict_oldest_chain.
Proof. unfold evict_oldest_chain. solve_total. Qed.
Lemma total_chain_entry key : total_m (chain_entry key).
Proof. pose proof total_evict_chain. unfold chain_entry. solve_total. Qed.
Hint Resolve total_evict_chain total_chain_entry : torda.

Lemma total_record_connect pid img dets daddr dport proto cds :
  total_m (record_connect_and_maybe_chain pid img dets daddr dport proto cds).
Proof. unfold record_connect_and_maybe_chain, chain_put. solve_total. Qed.
Lemma total_record_file pid img dets path fds :
  total_m (record_file_and_maybe_chain pid img dets path fds).
Proof. unfold record_file_and_maybe_chain, chain_put. solve_total. Qed.
Lemma total_record_read pid img dets path rds :
  total_m (record_read_and_maybe_exfil pid img dets path rds).
Proof. unfold record_read_and_maybe_exfil, chain_put. solve_total. Qed.
Hint Resolve total_record_connect total_record_file total_record_read : torda.

Lemma total_connect_attributed pid img sev dets daddr dport proto :
  total_m (connect_attributed pid img sev dets daddr dport proto).
Proof. unfold connect_attributed. solve_total. Qed.
Lemma total_write_attributed pid img sev dets path :
  total_m (write_attributed pid img sev dets path).
Proof. unfold write_attributed. solve_total. Qed.
Hint Resolve total_connect_attributed total_write_attributed : torda.

Lemma total_evictions :
  total_m evict_oldest_pending ∧ total_m evict_oldest_file_pending ∧
  total_m evict_oldest_read_pending ∧ total_m evict_oldest_context ∧ total_m evict_oldest_exited.
Proof.
  unfold evict_oldest_pending, evict_oldest_file_pending, evict_oldest_read_pending,
    evict_oldest_context, evict_oldest_exited. split_and!; solve_total.
Qed.

Lemma total_drains pid key img sev dets :
  total_m (drain_connects pid key img sev dets) ∧ total_m (drain_writes pid key img sev dets) ∧
  total_m (drain_reads pid key img dets).
Proof. unfold drain_connects, drain_writes, drain_reads. split_and!; solve_total. Qed.

Lemma total_handle_event (ev : SubstrateEvent V) : total_m (handle_event ev).
Proof.
  destruct total_evictions as (? & ? & ? & ? & ?).
  unfold handle_event, handle_exec, handle_exit, handle_connect, handle_file_write, handle_file_open,
    buffer_connect, buffer_write, buffer_read.
  destruct (kind ev); walk_body ltac:(first [total_leaf|apply total_drains|assumption]).
Qed.

Lemma total_flush_connects g pid vec : total_m (flush_connects g pid vec).
Proof. induction vec; cbn [flush_connects]; solve_total. Qed.
Lemma total_flush_writes g pid vec : total_m (flush_writes g pid vec).
Proof. induction vec; cbn [flush_writes]; solve_total. Qed.
Lemma total_retain_reads g vec : total_m (retain_reads g vec).
Proof. induction vec; cbn [retain_reads]; solve_total. Qed.
Lemma total_is_expired cs : total_m (is_expired cs).
Proof. unfold is_expired, half_old. solve_total. Qed.
Hint Resolve total_flush_connects total_flush_writes total_retain_reads total_is_expired : torda.

Lemma total_tick g : total_m (tick g).
Proof.
  unfold tick, tick_connects, tick_writes, tick_reads, tick_exited, tick_chain. solve_total.
Qed.

Lemma total_shutdown : total_m shutdown.
Proof. unfold shutdown, flush_pending_on_shutdown, flush_file_pending_on_shutdown. solve_total. Qed.

Lemma total_wake g (w : Wake V) : total_m (wake g w).
Proof.
  unfold wake. apply total_bind; [eauto with torda|]. intros r. destruct r; [|apply total_mret].
  destruct w; cbn [negb]; first [apply total_handle_event|apply total_tick|apply total_shutdown|apply total_mret].
Qed.
End total_handlers.

#[export] Hint Resolve total_evict_chain total_chain_entry total_record_connect total_record_file
  total_record_read total_connect_attributed total_write_attributed total_flush_connects
  total_flush_writes total_retain_reads total_is_expired : torda.

(** ** What is left alone *)

Ltac rel_leaf :=
  first [ solve [eauto 2 with torda typeclass_instances nocore]
        | apply rel_m_bind; [exact _|..|intros ?]
        | apply rel_m_for_each; [exact _|intros ?] ].

(** A step of the state itself: unfold the view and compute. *)
Ltac keeps_prim := intros ?; unfold keeps; cbn; rewrite ?omap_app, ?app_nil_r; cbn;
  rewrite ?app_nil_r; reflexivity.
Ltac solve_keeps := walk_body ltac:(first [rel_leaf|solve [keeps_prim]]).

(** A view of the state that neither time nor the chain trackers can change. *)
Class ChainBlind {T} (f : Corr → T) : Prop := {
  blind_seen s : f (bump_seen s) = f s;
  blind_chain m s : f (set_chain m s) = f s;
  blind_put_chain n s : f (count (put_chain n) s) = f s;
  blind_add_chain s : f (count add_chain_evicted s) = f s;
  blind_emit e s : activity (em_data e) = "process_file_network" → f (push_emission e s) = f s;
}.

Section blind.
Context `{Host} {T} (f : Corr → T) `{!ChainBlind f}.

Lemma blind_now : rel_m (keeps f) now.
Proof. intros s. apply blind_seen. Qed.
Lemma blind_walk {U} (m : gmap Z U) : rel_m (keeps f) (walk m).
Proof. intros s. apply blind_seen. Qed.
Lemma blind_chain_emit sev d :
  activity d = "process_file_network" → rel_m (keeps f) (emit sev d).
Proof. intros Hd s. unfold keeps. cbn. by rewrite blind_emit, blind_seen. Qed.
Hint Resolve blind_now blind_walk : torda.

Lemma blind_elapsed t : rel_m (keeps f) (elapsed t).
Proof. unfold elapsed. walk_body rel_leaf. Qed.
Hint Resolve blind_elapsed : torda.
Lemma blind_both_fresh a b : rel_m (keeps f) (both_fresh a b).
Proof. unfold both_fresh. walk_body rel_leaf. Qed.
Lemma blind_oldest_stamp cs : rel_m (keeps f) (oldest_stamp cs).
Proof. unfold oldest_stamp. walk_body rel_leaf. Qed.
Hint Resolve blind_both_fresh blind_oldest_stamp : torda.
Lemma blind_with_stamps l : rel_m (keeps f) (with_stamps l).
Proof. induction l as [|[k cs] l IH]; cbn [with_stamps]; walk_body rel_leaf. Qed.
Hint Resolve blind_with_stamps : torda.

Lemma blind_evict_chain : rel_m (keeps f) evict_oldest_chain.
Proof.
  unfold evict_oldest_chain. walk_body rel_leaf. apply rel_m_modify. intros s. unfold keeps.
  by rewrite blind_add_chain, blind_chain.
Qed.
Lemma blind_chain_put key cs : rel_m (keeps f) (chain_put key cs).
Proof. apply rel_m_modify. intros s. unfold keeps. by rewrite blind_put_chain, blind_chain. Qed.
Hint Resolve blind_evict_chain blind_chain_put : torda.
Lemma blind_chain_entry key : rel_m (keeps f) (chain_entry key).
Proof. unfold chain_entry. walk_body rel_leaf. Qed.

Lemma blind_fire_chain cs pid img dets : rel_m (keeps f) (maybe_fire_chain cs pid img dets).
Proof.
  eapply rel_m_ext; [intros s; apply maybe_fire_chain_eq|].
  walk_body rel_leaf. by apply blind_chain_emit.
Qed.
Lemma blind_fire_exfil cs pid img dets : rel_m (keeps f) (maybe_fire_exfil cs pid img dets).
Proof.
  eapply rel_m_ext; [intros s; apply maybe_fire_exfil_eq|].
  walk_body rel_leaf. by apply blind_chain_emit.
Qed.
Hint Resolve blind_chain_entry blind_fire_chain blind_fire_exfil : torda.

Lemma blind_record_connect pid img dets daddr dport proto cds :
  rel_m (keeps f) (record_connect_and_maybe_chain pid img dets daddr dport proto cds).
Proof. unfold record_connect_and_maybe_chain. walk_body rel_leaf. Qed.
Lemma blind_record_file pid img dets path fds :
  rel_m (keeps f) (record_file_and_maybe_chain pid img dets path fds).
Proof. unfold record_file_and_maybe_chain. walk_body rel_leaf. Qed.
Lemma blind_record_read pid img dets path rds :
  rel_m (keeps f) (record_read_and_maybe_exfil pid img dets path rds).
Proof. unfold record_read_and_maybe_exfil. walk_body rel_leaf. Qed.

Lemma blind_attribution key : rel_m (keeps f) (attribution key).
Proof. unfold attribution. walk_body rel_leaf. Qed.

Lemma blind_is_expired cs : rel_m (keeps f) (is_expired cs).
Proof. unfold is_expired, half_old. walk_body rel_leaf. Qed.
Lemma blind_tick_chain : rel_m (keeps f) tick_chain.
Proof.
  pose proof blind_is_expired. unfold tick_chain. walk_body rel_leaf;
    apply rel_m_modify; intros s; unfold keeps; by rewrite ?blind_put_chain, ?blind_chain.
Qed.
End blind.

#[export] Hint Resolve blind_now blind_walk blind_elapsed blind_both_fresh blind_evict_chain
  blind_chain_put blind_chain_entry blind_fire_chain blind_fire_exfil blind_record_connect
  blind_record_file blind_record_read blind_attribution blind_is_expired blind_tick_chain : torda.

(** ** Balance

    For a buffer [buf], the reports [out] and an eviction counter [ev]: what came
    in is reported, buffered, or lost and counted. *)

Definition count_up (n : nat) (e : Z) : Z := Nat.iter n (λ e, wrap_u64 (e + 1)) e.

Lemma count_up_add n1 n2 e : count_up (n1 + n2) e = count_up n1 (count_up n2 e).
Proof. unfold count_up. by rewrite Nat.iter_add. Qed.

Lemma count_up_0 n : count_up n 0 = wrap_u64 (Z.of_nat n).
Proof.
  induction n as [|n IH]; [done|]. unfold count_up in *. rewrite Nat.iter_succ, IH. unfold wrap_u64.
  rewrite Zplus_mod_idemp_l. f_equal. lia.
Qed.

Section balance.
Context {K P : Type} (out : Corr → list K) (buf : Corr → gmap Z (list P)) (ev : Corr → Z)
  (item : Z * P → K).

Definition waiting (s : Corr) : list K := item <$> contents (buf s).
Definition stock (s : Corr) : list K := out s ++ waiting s.

Definition balanced (received : list K) (s s' : Corr) : Prop :=
  ∃ lost, stock s' ++ lost ≡ₚ stock s ++ received ∧ ev s' = count_up (length lost) (ev s).

Definition conserves {A} (received : list K) (m : M Corr A) : Prop :=
  ∀ s, wp m (λ _ s', balanced received s s') s.

Lemma app_swap_r (a b c : list K) : (a ++ b) ++ c ≡ₚ (a ++ c) ++ b.
Proof. rewrite <-!app_assoc. by rewrite (Permutation_app_comm b c). Qed.

Lemma balanced_trans r1 r2 s1 s2 s3 :
  balanced r1 s1 s2 → balanced r2 s2 s3 → balanced (r1 ++ r2) s1 s3.
Proof.
  intros (l1 & Hp1 & He1) (l2 & Hp2 & He2). exists (l1 ++ l2). split.
  - rewrite (app_assoc _ l1 l2), app_swap_r, Hp2, app_swap_r, Hp1. by rewrite app_assoc.
  - rewrite length_app, Nat.add_comm, count_up_add, <-He1. done.
Qed.

(** Nothing lost: the same stock. *)
Lemma balanced_stock received s s' :
  stock s' ≡ₚ stock s ++ received → ev s' = ev s → balanced received s s'.
Proof. intros Hp He. exists []. by rewrite app_nil_r. Qed.

Lemma balanced_keeps s s' : out s' = out s → buf s' = buf s → ev s' = ev s → balanced [] s s'.
Proof.
  intros Ho Hb He. apply balanced_stock; [|done]. unfold stock, waiting. by rewrite Ho, Hb, app_nil_r.
Qed.

Lemma conserves_ext {A} r (m m' : M Corr A) :
  (∀ s, m s = m' s) → conserves r m' → conserves r m.
Proof. intros Heq Hm s. unfold wp. rewrite Heq. apply Hm. Qed.

Lemma conserves_bind {A B} r1 r2 (m : M Corr A) (k : A → M Corr B) :
  conserves r1 m → (∀ a, conserves r2 (k a)) → conserves (r1 ++ r2) (m ≫= k).
Proof.
  intros Hm Hk s. apply wp_bind. eapply wp_mono; [apply Hm|]. intros a s' Hs'.
  eapply wp_mono; [apply Hk|]. intros b s'' Hs''. by apply (balanced_trans r1 r2 s s' s'').
Qed.

Lemma conserves_bind_nil {A B} r (m : M Corr A) (k : A → M Corr B) :
  conserves [] m → (∀ a, conserves r (k a)) → conserves r (m ≫= k).
Proof. apply (conserves_bind [] r). Qed.

Lemma conserves_then_nil {A B} r (m : M Corr A) (k : A → M Corr B) :
  conserves r m → (∀ a, conserves [] (k a)) → conserves r (m ≫= k).
Proof. intros. rewrite <-(app_nil_r r). by apply conserves_bind. Qed.

Lemma conserves_view {A T} (view : Corr → T) (m : M Corr A) :
  (∀ s s', view s' = view s → out s' = out s ∧ buf s' = buf s ∧ ev s' = ev s) →
  total_m m → rel_m (keeps view) m → conserves [] m.
Proof.
  intros Hv Hm HR s. eapply wp_mono; [by apply wp_total|]. intros a s' Hs'.
  destruct (Hv _ _ Hs') as (? & ? & ?). by apply balanced_keeps.
Qed.

(** Moving the buffered items of one pid to the reports. *)
Lemma balanced_drain key vec s s' :
  buf s !! key = Some vec → buf s' = delete key (buf s) →
  out s' = out s ++ (item <$> ((key,.) <$> vec)) → ev s' = ev s → balanced [] s s'.
Proof.
  intros Hk Hb Ho He. apply balanced_stock; [|done]. unfold stock, waiting.
  rewrite Hb, Ho, app_nil_r. rewrite (contents_delete (buf s) key vec) by done.
  by rewrite fmap_app, app_assoc.
Qed.

(** Buffering one item. *)
Lemma balanced_push key x s s' :
  buf s' = push_item key x (buf s) → out s' = out s → ev s' = ev s →
  balanced [item (key, x)] s s'.
Proof.
  intros Hb Ho He. apply balanced_stock; [|done]. unfold stock, waiting. rewrite Hb, Ho.
  rewrite contents_push. cbn. rewrite <-app_assoc. f_equiv. by rewrite Permutation_cons_append.
Qed.

(** Evicting one item. *)
Lemma balanced_evict key idx vec x s s' :
  buf s !! key = Some vec → vec !! idx = Some x → buf s' = remove_item key idx (buf s) →
  out s' = out s → ev s' = wrap_u64 (ev s + 1) → balanced [] s s'.
Proof.
  intros Hk Hx Hb Ho He. exists [item (key, x)]. split; [|done]. unfold stock, waiting.
  rewrite Hb, Ho, app_nil_r, (contents_remove (buf s) key vec idx x) by done. cbn.
  rewrite <-app_assoc. f_equiv. by rewrite <-Permutation_cons_append.
Qed.
End balance.

(** * A buffer and its reports

    The connection buffer and the write buffer of the correlator go through the
    same moves: an item is buffered (evicting the oldest at the cap), drained by an
    exec, flushed by the tick, flushed at shutdown.  Here those moves are written
    once, over an interface to a buffer, and proved to conserve items. *)

Local Open Scope Z_scope.

(** What the moves need of a buffer: where it is, its counters, what a report is. *)
Record Buffer (K P : Type) := mkBuffer {
  buf : Corr → gmap Z (list P);
  set_buf : gmap Z (list P) → Corr → Corr;
  put_len : nat → Counters → Counters;
  add_lost : Counters → Counters;
  lost_count : Corr → Z;
  out : Corr → list K;
  item : Z * P → K;
  stamp_of : P → Z;
}.
Arguments buf {K P}. Arguments set_buf {K P}. Arguments put_len {K P}. Arguments add_lost {K P}.
Arguments lost_count {K P}. Arguments out {K P}. Arguments item {K P}. Arguments stamp_of {K P}.

Class BufferLaws {K P} (b : Buffer K P) : Prop := {
  buf_set m s : buf b (set_buf b m s) = m;
  out_set m s : out b (set_buf b m s) = out b s;
  lost_set m s : lost_count b (set_buf b m s) = lost_count b s;
  buf_len n s : buf b (count (put_len b n) s) = buf b s;
  out_len n s : out b (count (put_len b n) s) = out b s;
  lost_len n s : lost_count b (count (put_len b n) s) = lost_count b s;
  buf_add s : buf b (count (add_lost b) s) = buf b s;
  out_add s : out b (count (add_lost b) s) = out b s;
  lost_add s : lost_count b (count (add_lost b) s) = wrap_u64 (lost_count b s + 1);
  buf_seen s : buf b (bump_seen s) = buf b s;
  out_seen s : out b (bump_seen s) = out b s;
  lost_seen s : lost_count b (bump_seen s) = lost_count b s;
  seen_set m s : seen (set_buf b m s) = seen s;
}.

Section buffer.
Context `{Host, !HostLaws} {K P : Type} (b : Buffer K P) `{!BufferLaws b}.

Abbreviation b_balanced := (balanced (out b) (buf b) (lost_count b) (item b)).
Abbreviation b_conserves := (conserves (out b) (buf b) (lost_count b) (item b)).

(** [ks] were reported, nothing else moved. *)
Definition reported (ks : list K) (s s' : Corr) : Prop :=
  buf b s' = buf b s ∧ out b s' = out b s ++ ks ∧ lost_count b s' = lost_count b s.
Definition reports {A} (ks : list K) (m : M Corr A) : Prop :=
  ∀ s, wp m (λ _ s', reported ks s s') s.

Lemma reported_refl s : reported [] s s.
Proof. unfold reported. by rewrite app_nil_r. Qed.

Lemma reported_trans k1 k2 s1 s2 s3 :
  reported k1 s1 s2 → reported k2 s2 s3 → reported (k1 ++ k2) s1 s3.
Proof.
  intros (Hp1 & Ho1 & He1) (Hp2 & Ho2 & He2).
  split_and!; [congruence| |congruence]. by rewrite Ho2, Ho1, app_assoc.
Qed.

Lemma reports_bind {A B} k1 k2 (m : M Corr A) (k : A → M Corr B) :
  reports k1 m → (∀ a, reports k2 (k a)) → reports (k1 ++ k2) (m ≫= k).
Proof.
  intros Hm Hk s. apply wp_bind. eapply wp_mono; [apply Hm|]. intros a s1 Hs1.
  eapply wp_mono; [apply Hk|]. intros c s2 Hs2. by apply (reported_trans k1 k2 s s1 s2).
Qed.

Lemma reports_mret {A} (a : A) : reports [] (mret a).
Proof. intros s. apply wp_mret, reported_refl. Qed.

(** A loop reports what its rounds report. *)
Lemma reports_for_each {A} (f : A → M Corr unit) (g : A → list K) l :
  (∀ x, reports (g x) (f x)) → reports (l ≫= g) (for_each f l).
Proof.
  intros Hf. induction l as [|x l IH]; [apply reports_mret|]. cbn.
  by apply (reports_bind (g x) (l ≫= g) (f x) (λ _, for_each f l)).
Qed.

Lemma reports_keeps {A T} (view : Corr → T) (m : M Corr A) :
  (∀ s s', view s' = view s → buf b s' = buf b s ∧ out b s' = out b s ∧ lost_count b s' = lost_count b s) →
  total_m m → rel_m (keeps view) m → reports [] m.
Proof.
  intros Hv Hm HR s. eapply wp_mono; [by apply (wp_total m (keeps view))|]. intros a s' Hs'.
  destruct (Hv _ _ Hs') as (? & ? & ?). unfold reported. by rewrite app_nil_r.
Qed.

Lemma reports_elapsed t : reports [] (elapsed t).
Proof.
  intros s. apply wp_bind. eapply wp_intro; [done|]. apply wp_mret. unfold reported.
  by rewrite buf_seen, out_seen, lost_seen, app_nil_r.
Qed.

Lemma bind_singletons (pid : Z) (l : list P) :
  (l ≫= λ x, [item b (pid, x)]) = item b <$> ((pid,.) <$> l).
Proof. induction l as [|x l IH]; [done|]. cbn. by rewrite IH. Qed.

(** ** The moves *)

Definition evict_oldest : M Corr unit :=
  m ← gets (buf b);
  l ← walk m;
  match oldest (stamp_of b) l with
  | Some (pid, idx, _) => modify (λ s, count (add_lost b) (set_buf b (remove_item pid idx m) s))
  | None => mret tt
  end.

Definition buffer_item (cap : nat) (key : Z) (x : Z → P) : M Corr unit :=
  m ← gets (buf b);
  (if bool_decide (cap ≤ total m)%nat then evict_oldest else mret tt);;
  t ← now;
  modify (λ s, set_buf b (push_item key (x t) (buf b s)) s);;
  modify (λ s, count (put_len b (total (buf b s))) s).

Definition drain (key : Z) (report : P → M Corr unit) : M Corr unit :=
  m ← gets (buf b);
  match m !! key with
  | Some vec =>
      modify (set_buf b (delete key m));;
      for_each report vec;;
      modify (λ s, count (put_len b (total (buf b s))) s)
  | None => mret tt
  end.

Fixpoint flush_overdue {R} (report : P → M Corr R) (grace : Z) (vec : list P) : M Corr (list P) :=
  match vec with
  | [] => mret []
  | x :: vec =>
      e ← elapsed (stamp_of b x);
      if grace <=? e then report x;; flush_overdue report grace vec
      else rest ← flush_overdue report grace vec; mret (x :: rest)
  end.

Definition tick_buffer {R} (report : Z → P → M Corr R) (grace : Z) : M Corr unit :=
  m ← gets (buf b);
  l ← walk m;
  for_each (λ pv, vec ← flush_overdue (report pv.1) grace pv.2;
                  modify (λ s, set_buf b (put_vec pv.1 vec (buf b s)) s)) l;;
  modify (λ s, count (put_len b (total (buf b s))) s).

Definition flush_all {R} (report : Z → P → M Corr R) : M Corr unit :=
  m ← gets (buf b);
  l ← walk m;
  modify (set_buf b ∅);;
  for_each (λ pv : Z * list P, for_each (λ x, report pv.1 x;; mret tt) pv.2) l;;
  modify (count (put_len b 0)).

(** ** They conserve items *)

Lemma conserves_quiet {A} (m : M Corr A) : reports [] m → b_conserves [] m.
Proof.
  intros Hm s. eapply wp_mono; [apply Hm|]. intros a s' (Hb & Ho & He).
  apply balanced_keeps; [by rewrite Ho, app_nil_r|done..].
Qed.

Lemma conserves_reports {A} ks (m : M Corr A) : reports ks m → b_conserves ks m.
Proof.
  intros Hm s. eapply wp_mono; [apply Hm|]. intros a s' (Hb & Ho & He).
  apply balanced_stock; [|done]. unfold stock, waiting. rewrite Hb, Ho. apply app_swap_r.
Qed.

Lemma evict_oldest_conserves : b_conserves [] evict_oldest.
Proof.
  intros s. unfold evict_oldest. apply wp_bind, wp_gets, wp_bind. eapply wp_intro; [done|].
  pose proof (oldest_spec (stamp_of b) _ (buf b s) (hash_order_perm (seen s) _ _)) as Ho.
  destruct (oldest _ _) as [[[pid idx] t]|].
  - destruct Ho as (vec & x & Hk & Hx & _). apply wp_modify.
    eapply (balanced_evict _ _ _ _ pid idx vec x); [done|done|..];
      rewrite ?buf_add, ?buf_set, ?out_add, ?out_set, ?lost_add, ?lost_set, ?out_seen, ?lost_seen; done.
  - apply wp_mret, balanced_keeps; [apply out_seen|apply buf_seen|apply lost_seen].
Qed.

Lemma buffer_item_conserves cap key x k :
  (∀ t, item b (key, x t) = k) → b_conserves [k] (buffer_item cap key x).
Proof.
  intros Hk. unfold buffer_item.
  apply conserves_bind_nil; [by intros s; apply wp_gets, balanced_keeps|]. intros m.
  apply conserves_bind_nil.
  { case_bool_decide; [apply evict_oldest_conserves|by intros s; apply wp_mret, balanced_keeps]. }
  intros _. apply conserves_bind_nil.
  { intros s. eapply wp_intro; [done|]. apply balanced_keeps; [apply out_seen|apply buf_seen|apply lost_seen]. }
  intros t s. apply wp_bind, wp_modify, wp_modify. rewrite <-(Hk t).
  apply balanced_push; rewrite ?buf_len, ?buf_set, ?out_len, ?out_set, ?lost_len, ?lost_set; done.
Qed.

Lemma drain_conserves key report :
  (∀ x, reports [item b (key, x)] (report x)) → b_conserves [] (drain key report).
Proof.
  intros Hr s. unfold drain. apply wp_bind, wp_gets.
  destruct (buf b s !! key) as [vec|] eqn:Hk; [|by apply wp_mret, balanced_keeps].
  apply wp_bind, wp_modify, wp_bind.
  eapply wp_mono; [apply (reports_for_each report (λ x, [item b (key, x)]) vec); done|].
  intros u s' (Hb & Ho & He). rewrite bind_singletons in Ho. rewrite buf_set in Hb.
  rewrite out_set in Ho. rewrite lost_set in He. apply wp_modify.
  eapply (balanced_drain _ _ _ _ key vec); rewrite ?buf_len, ?out_len, ?lost_len; done.
Qed.

Lemma flush_overdue_reports {R} pid (report : P → M Corr R) grace vec s :
  (∀ x, reports [item b (pid, x)] (report x)) →
  wp (flush_overdue report grace vec) (λ kept s', ∃ gone, reported gone s s' ∧
    gone ++ (item b <$> ((pid,.) <$> kept)) ≡ₚ item b <$> ((pid,.) <$> vec)) s.
Proof.
  intros Hr. revert s. induction vec as [|x vec IH]; intros s; cbn [flush_overdue].
  { apply wp_mret. exists []. split; [apply reported_refl|done]. }
  apply wp_bind. eapply wp_mono; [apply reports_elapsed|]. intros e s1 Hs1. destruct (grace <=? e).
  - apply wp_bind. eapply wp_mono; [apply Hr|]. intros o s2 Hs2.
    eapply wp_mono; [apply IH|]. intros kept s3 (gone & Hs3 & Hp).
    exists ([item b (pid, x)] ++ gone). split.
    + apply (reported_trans [] _ s s1 s3); [done|]. by apply (reported_trans [_] gone s1 s2 s3).
    + cbn. by rewrite Hp.
  - apply wp_bind. eapply wp_mono; [apply IH|]. intros kept s2 (gone & Hs2 & Hp). apply wp_mret.
    exists gone. split; [by apply (reported_trans [] gone s s1 s2)|]. cbn.
    by rewrite <-Permutation_middle, Hp.
Qed.

(** One round of the tick: [p]'s items were flushed or put back. *)
Lemma balanced_round p v kept gone s1 s2 s3 :
  buf b s1 !! p = Some v → reported gone s1 s2 →
  gone ++ (item b <$> ((p,.) <$> kept)) ≡ₚ item b <$> ((p,.) <$> v) →
  buf b s3 = put_vec p kept (buf b s2) → out b s3 = out b s2 → lost_count b s3 = lost_count b s2 →
  b_balanced [] s1 s3.
Proof.
  intros Hv (Hb & Ho & He) Hp Hb3 Ho3 He3. apply balanced_stock; [|congruence].
  unfold stock, waiting. rewrite Hb3, Ho3, Ho, Hb.
  rewrite (contents_put (buf b s1) p v), (contents_delete (buf b s1) p v) by done.
  rewrite !fmap_app, app_nil_r, <-Hp. by rewrite <-!app_assoc.
Qed.

Lemma tick_buffer_conserves {R} (report : Z → P → M Corr R) grace :
  (∀ pid x, reports [item b (pid, x)] (report pid x)) → b_conserves [] (tick_buffer report grace).
Proof.
  intros Hr s. unfold tick_buffer. apply wp_bind, wp_gets, wp_bind. eapply wp_intro; [done|].
  set (l := hash_order _ _ _).
  assert (NoDup l.*1) as Hnd by (unfold l; rewrite hash_order_perm; apply NoDup_fst_map_to_list).
  assert (∀ pv, pv ∈ l → buf b s !! pv.1 = Some pv.2) as Hl.
  { intros [p v]. unfold l. rewrite hash_order_perm. apply elem_of_map_to_list. }
  apply wp_bind. eapply wp_mono; [apply (wp_for_each _ (λ rest s', b_balanced [] s s' ∧
    NoDup rest.*1 ∧ ∀ pv, pv ∈ rest → buf b s' !! pv.1 = Some pv.2))|].
  - intros [p v] rest s1 (Hbal & Hnd1 & Hrest). cbn [fst snd]. apply NoDup_cons in Hnd1 as [Hp Hnd1].
    assert (buf b s1 !! p = Some v) as Hpv by (apply (Hrest (p, v)); by left).
    apply wp_bind. eapply wp_mono; [by apply (flush_overdue_reports p)|].
    intros kept s2 (gone & Hrep & Hperm). apply wp_modify. split_and!; [|done|].
    + apply (balanced_trans _ _ _ _ [] [] s s1); [done|].
      eapply (balanced_round p v kept gone s1 s2); [done..|apply buf_set|apply out_set|apply lost_set].
    + intros [p' v'] Hin. cbn. rewrite buf_set. destruct Hrep as (-> & _ & _). assert (p' ≠ p) as Hne.
      { intros ->. apply Hp. apply list_elem_of_fmap. by exists (p, v'). }
      assert (buf b s1 !! p' = Some v') as Hs1 by (apply (Hrest (p', v')); by right).
      unfold put_vec. case_bool_decide; [by rewrite lookup_delete_ne|by rewrite lookup_insert_ne].
  - split_and!; [|done|by intros; rewrite buf_seen; auto].
    apply balanced_keeps; [apply out_seen|apply buf_seen|apply lost_seen].
  - intros u s' (Hbal & _). apply wp_modify.
    apply (balanced_trans _ _ _ _ [] [] s s'); [done|].
    apply balanced_keeps; [apply out_len|apply buf_len|apply lost_len].
Qed.

Lemma flush_all_conserves {R} (report : Z → P → M Corr R) :
  (∀ pid x, reports [item b (pid, x)] (report pid x)) →
  ∀ s, wp (flush_all report) (λ _ s', b_balanced [] s s' ∧ buf b s' = ∅) s.
Proof.
  intros Hr s. unfold flush_all. apply wp_bind, wp_gets, wp_bind. eapply wp_intro; [done|].
  set (l := hash_order _ _ _). apply wp_bind, wp_modify, wp_bind.
  eapply wp_mono; [apply (reports_for_each _ (λ pv, item b <$> ((pv.1,.) <$> pv.2)) l)|].
  - intros [p v]. cbn [fst snd]. rewrite <-bind_singletons. apply reports_for_each. intros x.
    apply (reports_bind [item b (p, x)] []); [apply Hr|]. intros _. apply reports_mret.
  - intros u s' (Hb & Ho & He). apply wp_modify. rewrite buf_set in Hb. rewrite out_set, out_seen in Ho.
    rewrite lost_set, lost_seen in He. split; [|by rewrite buf_len].
    apply balanced_stock; [|by rewrite lost_len]. unfold stock, waiting.
    rewrite buf_len, out_len, Hb, Ho, contents_empty, !app_nil_r. f_equiv.
    unfold contents, items. rewrite <-(hash_order_perm (seen s)). fold l.
    clear. induction l as [|pv l IH]; [done|]. cbn. by rewrite fmap_app, IH.
Qed.
End buffer.
