(* ===== verification/CorrConserve.v ===== *)
(** * No connection and no write is lost or duplicated

    Every connection the correlator accepts is reported exactly once, is still
    buffered, or was evicted and counted; so is every file write it considers. *)

From Stdlib Require Import ZArith.
From stdpp Require Import base tactics gmap strings list.
From S2P Require Import Prelude Transport Keys Version CveSource Ocsf Substrate.
From S2P Require Import ProcMon NetMon FileMon Corr CorrFacts.

Local Open Scope Z_scope.

(** ** What is reported and what is waiting *)

Definition conn_key : Type := Z * string * Z * string.
Definition write_key : Type := Z * string.

(** The connection, or the write, that a record of the join reports. *)
Definition net_record (e : Emission) : option conn_key :=
  if bool_decide (activity (em_data e) = "process_network") then
    (λ c, (wrap_u32 (pb_pid (process (em_data e))), cb_daddr c, cb_dport c, cb_proto c)) <$>
      connection (em_data e)
  else None.
Definition file_record (e : Emission) : option write_key :=
  if bool_decide (activity (em_data e) = "process_file") then
    (λ f, (wrap_u32 (pb_pid (process (em_data e))), fb_path f)) <$> file (em_data e)
  else None.

Definition conn_buffer : Buffer conn_key PendingConnect := {|
  buf := pending; set_buf := set_pending; put_len := put_pending; add_lost := add_pending_evicted;
  lost_count s := pending_evicted (counters s); out s := omap net_record (emitted s);
  item kp := (wrap_u32 kp.1, pc_daddr kp.2, pc_dport kp.2, pc_proto kp.2);
  stamp_of := pc_buffered_at;
|}.
Definition write_buffer : Buffer write_key PendingFileWrite := {|
  buf := file_pending; set_buf := set_file_pending; put_len := put_file_pending;
  add_lost := add_file_pending_evicted; lost_count s := file_pending_evicted (counters s);
  out s := omap file_record (emitted s); item kp := (wrap_u32 kp.1, pfw_path kp.2);
  stamp_of := pfw_buffered_at;
|}.

#[export] Instance conn_buffer_laws : BufferLaws conn_buffer.
Proof. by split. Qed.
#[export] Instance write_buffer_laws : BufferLaws write_buffer.
Proof. by split. Qed.

Definition conn_view (s : Corr) :=
  (pending s, omap net_record (emitted s), pending_evicted (counters s), running s).
Definition write_view (s : Corr) :=
  (file_pending s, omap file_record (emitted s), file_pending_evicted (counters s), running s).
Arguments conn_view /.
Arguments write_view /.

#[export] Instance conn_view_blind : ChainBlind conn_view.
Proof.
  split; try done. intros e s He. unfold conn_view. cbn. rewrite omap_app. cbn.
  unfold net_record. rewrite He. cbn. by rewrite app_nil_r.
Qed.
#[export] Instance write_view_blind : ChainBlind write_view.
Proof.
  split; try done. intros e s He. unfold write_view. cbn. rewrite omap_app. cbn.
  unfold file_record. rewrite He. cbn. by rewrite app_nil_r.
Qed.

Lemma wrap_u32_idem z : wrap_u32 (wrap_u32 z) = wrap_u32 z.
Proof. unfold wrap_u32. by rewrite Zmod_mod. Qed.

(** ** Operations on files leave connections alone, and the other way around *)

Section keeps.
Context `{Host}.

Lemma keep_emit_file pid b img sev dets path :
  rel_m (keeps conn_view) (emit_correlated_file pid b img sev dets path).
Proof. unfold emit_correlated_file. solve_keeps. Qed.
Lemma keep_emit_net pid b img sev dets daddr dport proto :
  rel_m (keeps write_view) (emit_correlated pid b img sev dets daddr dport proto).
Proof. unfold emit_correlated. solve_keeps. Qed.
Hint Resolve keep_emit_file keep_emit_net : torda.

Lemma keep_write_attributed pid img sev dets path :
  rel_m (keeps conn_view) (write_attributed pid img sev dets path).
Proof. unfold write_attributed. solve_keeps. Qed.
Lemma keep_connect_attributed pid img sev dets daddr dport proto :
  rel_m (keeps write_view) (connect_attributed pid img sev dets daddr dport proto).
Proof. unfold connect_attributed. solve_keeps. Qed.
Hint Resolve keep_write_attributed keep_connect_attributed : torda.

Lemma keep_drains pid key img sev dets :
  rel_m (keeps conn_view) (drain_writes pid key img sev dets) ∧
  rel_m (keeps conn_view) (drain_reads pid key img dets) ∧
  rel_m (keeps write_view) (drain_connects pid key img sev dets) ∧
  rel_m (keeps write_view) (drain_reads pid key img dets).
Proof. unfold drain_writes, drain_reads, drain_connects. split_and!; solve_keeps. Qed.

Lemma keep_buffering key img path daddr dport proto :
  rel_m (keeps conn_view) (buffer_write key img path) ∧
  rel_m (keeps conn_view) (buffer_read key path) ∧
  rel_m (keeps write_view) (buffer_connect key img daddr dport proto) ∧
  rel_m (keeps write_view) (buffer_read key path).
Proof.
  unfold buffer_write, buffer_read, buffer_connect, evict_oldest_file_pending,
    evict_oldest_read_pending, evict_oldest_pending. split_and!; solve_keeps.
Qed.

Lemma keep_evict_context :
  rel_m (keeps conn_view) evict_oldest_context ∧ rel_m (keeps write_view) evict_oldest_context.
Proof. unfold evict_oldest_context. split; solve_keeps. Qed.

Lemma keep_flush_writes g pid vec : rel_m (keeps conn_view) (flush_writes g pid vec).
Proof. induction vec; cbn [flush_writes]; solve_keeps. Qed.
Lemma keep_flush_connects g pid vec : rel_m (keeps write_view) (flush_connects g pid vec).
Proof. induction vec; cbn [flush_connects]; solve_keeps. Qed.
Lemma keep_retain_reads g vec :
  rel_m (keeps conn_view) (retain_reads g vec) ∧ rel_m (keeps write_view) (retain_reads g vec).
Proof. split; induction vec; cbn [retain_reads]; solve_keeps. Qed.

Lemma keep_tick_rest g :
  rel_m (keeps conn_view) (tick_writes g;; tick_reads g;; tick_exited;; tick_chain) ∧
  rel_m (keeps write_view) (tick_reads g;; tick_exited;; tick_chain) ∧
  rel_m (keeps write_view) (tick_connects g).
Proof.
  pose proof keep_flush_writes. pose proof keep_flush_connects. pose proof keep_retain_reads.
  unfold tick_connects, tick_writes, tick_reads, tick_exited. split_and!;
    walk_body ltac:(first [rel_leaf|apply keep_retain_reads|solve [keeps_prim]]).
Qed.

Lemma keep_shutdown :
  rel_m (keeps conn_view) flush_file_pending_on_shutdown ∧
  rel_m (keeps write_view) flush_pending_on_shutdown.
Proof. unfold flush_file_pending_on_shutdown, flush_pending_on_shutdown. split; solve_keeps. Qed.

Context {V : Type} `{JsonValue V, JsonGet V}.
Implicit Type ev : SubstrateEvent V.

Lemma keep_handle_exit ev :
  rel_m (keeps conn_view) (handle_exit ev) ∧ rel_m (keeps write_view) (handle_exit ev).
Proof. unfold handle_exit, evict_oldest_exited. split; solve_keeps. Qed.

Ltac solve_handler := walk_body ltac:(first [rel_leaf|apply keep_buffering; exact ""|solve [keeps_prim]]).
Lemma keep_handle_file_write p ev : rel_m (keeps conn_view) (handle_file_write p ev).
Proof. unfold handle_file_write. solve_handler. Qed.
Lemma keep_handle_file_open p ev :
  rel_m (keeps conn_view) (handle_file_open p ev) ∧ rel_m (keeps write_view) (handle_file_open p ev).
Proof. unfold handle_file_open. split; solve_handler. Qed.
Lemma keep_handle_connect ev : rel_m (keeps write_view) (handle_connect ev).
Proof. unfold handle_connect. solve_handler. Qed.
End keeps.

(** ** The moves of the two buffers *)

Section moves.
Context `{Host}.

Definition report_connect (pid : Z) (pc : PendingConnect) : M Corr (option (list RuleHit)) :=
  emit_correlated pid false (pc_image pc) SEV_INFORMATIONAL [] (pc_daddr pc) (pc_dport pc) (pc_proto pc).
Definition report_write (pid : Z) (pfw : PendingFileWrite) : M Corr (option (list RuleHit)) :=
  emit_correlated_file pid false (pfw_image pfw) SEV_INFORMATIONAL [] (pfw_path pfw).

Lemma flush_connects_eq g pid vec :
  flush_connects g pid vec = flush_overdue conn_buffer (report_connect pid) g vec.
Proof. induction vec as [|x vec IH]; [done|]. cbn [flush_connects flush_overdue]. by rewrite IH. Qed.
Lemma flush_writes_eq g pid vec :
  flush_writes g pid vec = flush_overdue write_buffer (report_write pid) g vec.
Proof. induction vec as [|x vec IH]; [done|]. cbn [flush_writes flush_overdue]. by rewrite IH. Qed.

Lemma tick_connects_eq g s : tick_connects g s = tick_buffer conn_buffer report_connect g s.
Proof.
  unfold tick_connects, tick_buffer, mbind, M_bind, m_bind, gets, walk. cbn [buf conn_buffer].
  erewrite for_each_ext; [reflexivity|]. intros pv s'. cbn. by rewrite flush_connects_eq.
Qed.
Lemma tick_writes_eq g s : tick_writes g s = tick_buffer write_buffer report_write g s.
Proof.
  unfold tick_writes, tick_buffer, mbind, M_bind, m_bind, gets, walk. cbn [buf write_buffer].
  erewrite for_each_ext; [reflexivity|]. intros pv s'. cbn. by rewrite flush_writes_eq.
Qed.

Lemma buffer_connect_eq key img daddr dport proto :
  buffer_connect key img daddr dport proto =
  buffer_item conn_buffer MAX_PENDING_CONNECTS key (mkPendingConnect img daddr dport proto).
Proof.
  unfold buffer_connect, buffer_item, evict_oldest_pending, evict_oldest, pending_total.
  cbn [buf set_buf put_len add_lost stamp_of conn_buffer]. reflexivity.
Qed.
Lemma buffer_write_eq key img path :
  buffer_write key img path =
  buffer_item write_buffer MAX_PENDING_FILE_WRITES key (mkPendingFileWrite img path).
Proof.
  unfold buffer_write, buffer_item, evict_oldest_file_pending, evict_oldest, file_pending_total.
  cbn [buf set_buf put_len add_lost stamp_of write_buffer]. reflexivity.
Qed.

Lemma conn_reports_keeps {A} (m : M Corr A) :
  total_m m → rel_m (keeps conn_view) m → reports conn_buffer [] m.
Proof. apply (reports_keeps conn_buffer conn_view). by intros s s' [= Hp Ho He _]. Qed.
Lemma write_reports_keeps {A} (m : M Corr A) :
  total_m m → rel_m (keeps write_view) m → reports write_buffer [] m.
Proof. apply (reports_keeps write_buffer write_view). by intros s s' [= Hp Ho He _]. Qed.

Lemma emit_correlated_reports pid a img sev dets daddr dport proto :
  reports conn_buffer [(wrap_u32 pid, daddr, dport, proto)]
    (emit_correlated pid a img sev dets daddr dport proto).
Proof.
  intros s. unfold emit_correlated. apply wp_bind. eapply wp_intro; [done|]. apply wp_mret.
  split_and!; [done| |done]. cbn [out conn_buffer emitted push_emission bump_seen]. by rewrite omap_app.
Qed.
Lemma emit_correlated_file_reports pid a img sev dets path :
  reports write_buffer [(wrap_u32 pid, path)] (emit_correlated_file pid a img sev dets path).
Proof.
  intros s. unfold emit_correlated_file. apply wp_bind. eapply wp_intro; [done|]. apply wp_mret.
  split_and!; [done| |done]. cbn [out write_buffer emitted push_emission bump_seen]. by rewrite omap_app.
Qed.

Lemma connect_attributed_reports pid img sev dets daddr dport proto :
  reports conn_buffer [(wrap_u32 pid, daddr, dport, proto)]
    (connect_attributed pid img sev dets daddr dport proto).
Proof.
  unfold connect_attributed. apply (reports_bind conn_buffer [_] []); [apply emit_correlated_reports|].
  intros [cds|]; [|apply reports_mret].
  apply conn_reports_keeps; [apply total_record_connect|apply blind_record_connect, _].
Qed.
Lemma write_attributed_reports pid img sev dets path :
  reports write_buffer [(wrap_u32 pid, path)] (write_attributed pid img sev dets path).
Proof.
  unfold write_attributed. apply (reports_bind write_buffer [_] []); [apply emit_correlated_file_reports|].
  intros [fds|]; [|apply reports_mret].
  apply write_reports_keeps; [apply total_record_file|apply blind_record_file, _].
Qed.
End moves.

(** ** Handlers *)

Abbreviation conserves_in b := (conserves (out b) (buf b) (lost_count b) (item b)).
Abbreviation balanced_in b := (balanced (out b) (buf b) (lost_count b) (item b)).

Section handlers.
Context `{Host, !HostLaws} {V : Type} `{JsonValue V, JsonGet V}.
Implicit Type ev : SubstrateEvent V.

(** The connection a well-formed event carries; the write of an event the policy
    considers. *)
Definition connect_of ev : option conn_key :=
  match kind ev with
  | EventKind.NetConnect =>
      pid ← get_u64 (fields ev) "pid";
      daddr ← get_str (fields ev) "daddr";
      dport ← get_u64 (fields ev) "dport" ≫= u16_try_from;
      Some (wrap_u32 pid, daddr, dport, default "tcp" (get_str (fields ev) "proto"))
  | _ => None
  end.
Definition write_of ev : option write_key :=
  match kind ev with
  | EventKind.FileWrite =>
      pid ← get_u64 (fields ev) "pid";
      path ← get_str (fields ev) "path";
      if considers default_policy path then Some (wrap_u32 pid, path) else None
  | _ => None
  end.

Lemma conn_quiet {A} (m : M Corr A) :
  total_m m → rel_m (keeps conn_view) m → conserves_in conn_buffer [] m.
Proof. intros. by apply conserves_quiet, conn_reports_keeps. Qed.
Lemma write_quiet {A} (m : M Corr A) :
  total_m m → rel_m (keeps write_view) m → conserves_in write_buffer [] m.
Proof. intros. by apply conserves_quiet, write_reports_keeps. Qed.

Lemma handle_connect_conserves ev :
  kind ev = EventKind.NetConnect →
  conserves_in conn_buffer (option_list (connect_of ev)) (handle_connect ev).
Proof.
  intros Hk. unfold handle_connect, connect_of. rewrite Hk.
  destruct (get_u64 (fields ev) "pid") as [pid|]; [|by apply conserves_quiet, reports_mret].
  destruct (get_str (fields ev) "daddr") as [daddr|]; [|by apply conserves_quiet, reports_mret].
  cbn [mbind option_bind]. destruct (get_u64 (fields ev) "dport" ≫= u16_try_from) as [dport|];
    [|by apply conserves_quiet, reports_mret].
  cbn [option_list]. apply conserves_bind_nil.
  { apply conn_quiet; [apply total_attribution|apply blind_attribution, _]. }
  intros [c|].
  - destruct (resolve_instance c _) as [[img sev] dets].
    apply conserves_reports, connect_attributed_reports.
  - rewrite buffer_connect_eq. apply buffer_item_conserves; [exact _|].
    intros t. cbn. by rewrite wrap_u32_idem.
Qed.

Lemma handle_file_write_conserves ev :
  kind ev = EventKind.FileWrite →
  conserves_in write_buffer (option_list (write_of ev)) (handle_file_write default_policy ev).
Proof.
  intros Hk. unfold handle_file_write, write_of. rewrite Hk.
  destruct (get_u64 (fields ev) "pid") as [pid|]; [|by apply conserves_quiet, reports_mret].
  destruct (get_str (fields ev) "path") as [path|]; [|by apply conserves_quiet, reports_mret].
  cbn [mbind option_bind].
  destruct (considers default_policy path); cbn [negb]; [|by apply conserves_quiet, reports_mret].
  cbn [option_list]. apply conserves_bind_nil.
  { apply write_quiet; [apply total_attribution|apply blind_attribution, _]. }
  intros [c|].
  - destruct (resolve_instance c _) as [[img sev] dets].
    apply conserves_reports, write_attributed_reports.
  - rewrite buffer_write_eq. apply buffer_item_conserves; [exact _|].
    intros t. cbn. by rewrite wrap_u32_idem.
Qed.

(** The part of an exec before the drains touches neither buffer. *)
Ltac quiet_prim := intros ?; eapply wp_intro; [reflexivity|]; by apply balanced_keeps.

Lemma handle_exec_conserves ev :
  conserves_in conn_buffer [] (handle_exec ev) ∧ conserves_in write_buffer [] (handle_exec ev).
Proof.
  unfold handle_exec.
  destruct (get_u64 (fields ev) "pid") as [pid|];
    [|split; by apply conserves_quiet, reports_mret].
  destruct (get_str (fields ev) "image") as [image|];
    [|split; by apply conserves_quiet, reports_mret].
  split.
  - apply conserves_bind_nil; [quiet_prim|]. intros _.
    apply conserves_bind_nil; [intros s; eapply wp_intro; [reflexivity|];
      cbn; destruct (chain s !! _); by apply balanced_keeps|]. intros _.
    apply conserves_bind_nil; [quiet_prim|]. intros inh. destruct (inherit _ inh) as [sev dets].
    apply conserves_bind_nil; [quiet_prim|]. intros m.
    apply conserves_bind_nil.
    { destruct (_ && _); [|quiet_prim]. apply conn_quiet; [apply total_evictions|apply keep_evict_context]. }
    intros _. apply conserves_bind_nil; [quiet_prim|]. intros _.
    apply conserves_bind_nil; [quiet_prim|]. intros _.
    apply conserves_bind_nil.
    { apply (drain_conserves conn_buffer). intros pc. cbn. rewrite wrap_u32_idem.
      apply connect_attributed_reports. }
    intros _. apply conserves_bind_nil; [apply conn_quiet; [apply total_drains|apply keep_drains]|].
    intros _. apply conn_quiet; [by apply (total_drains _ _ _ 0)|by apply (keep_drains _ _ _ 0)].
  - apply conserves_bind_nil; [quiet_prim|]. intros _.
    apply conserves_bind_nil; [intros s; eapply wp_intro; [reflexivity|];
      cbn; destruct (chain s !! _); by apply balanced_keeps|]. intros _.
    apply conserves_bind_nil; [quiet_prim|]. intros inh. destruct (inherit _ inh) as [sev dets].
    apply conserves_bind_nil; [quiet_prim|]. intros m.
    apply conserves_bind_nil.
    { destruct (_ && _); [|quiet_prim]. apply write_quiet; [apply total_evictions|apply keep_evict_context]. }
    intros _. apply conserves_bind_nil; [quiet_prim|]. intros _.
    apply conserves_bind_nil; [quiet_prim|]. intros _.
    apply conserves_bind_nil; [apply write_quiet; [apply total_drains|apply keep_drains]|].
    intros _. apply conserves_bind_nil.
    { apply (drain_conserves write_buffer). intros pc. cbn. rewrite wrap_u32_idem.
      apply write_attributed_reports. }
    intros _. apply write_quiet; [by apply (total_drains _ _ _ 0)|by apply (keep_drains _ _ _ 0)].
Qed.
End handlers.

(** ** The whole task *)

#[export] Instance running_blind : ChainBlind running.
Proof. by split. Qed.

Section task.
Context `{Host, !HostLaws} {V : Type} `{JsonValue V, JsonGet V}.
Implicit Type (ev : SubstrateEvent V) (ws : list (Wake V)).

Lemma running_emit pid a img sev dets daddr dport proto :
  rel_m (keeps running) (emit_correlated pid a img sev dets daddr dport proto).
Proof. unfold emit_correlated. solve_keeps. Qed.
Lemma running_emit_file pid a img sev dets path :
  rel_m (keeps running) (emit_correlated_file pid a img sev dets path).
Proof. unfold emit_correlated_file. solve_keeps. Qed.
Hint Resolve running_emit running_emit_file : torda.

Lemma running_flush_connects g pid vec : rel_m (keeps running) (flush_connects g pid vec).
Proof. induction vec; cbn [flush_connects]; solve_keeps. Qed.
Lemma running_flush_writes g pid vec : rel_m (keeps running) (flush_writes g pid vec).
Proof. induction vec; cbn [flush_writes]; solve_keeps. Qed.
Lemma running_retain_reads g vec : rel_m (keeps running) (retain_reads g vec).
Proof. induction vec; cbn [retain_reads]; solve_keeps. Qed.
Hint Resolve running_flush_connects running_flush_writes running_retain_reads : torda.

Lemma running_tick g : rel_m (keeps running) (tick g).
Proof. unfold tick, tick_connects, tick_writes, tick_reads, tick_exited. solve_keeps. Qed.

Lemma running_event ev : rel_m (keeps running) (handle_event ev).
Proof.
  unfold handle_event, handle_exec, handle_exit, handle_connect, handle_file_write, handle_file_open,
    buffer_connect, buffer_write, buffer_read, drain_connects, drain_writes, drain_reads,
    connect_attributed, write_attributed, evict_oldest_context, evict_oldest_exited,
    evict_oldest_pending, evict_oldest_file_pending, evict_oldest_read_pending.
  destruct (kind ev); solve_keeps; intros t; unfold keeps; cbn; by destruct (chain t !! _).
Qed.

Lemma handle_event_conserves ev :
  conserves_in conn_buffer (option_list (connect_of ev)) (handle_event ev) ∧
  conserves_in write_buffer (option_list (write_of ev)) (handle_event ev).
Proof.
  pose proof (total_handle_event ev) as Htot. unfold handle_event in *.
  destruct (kind ev) eqn:Hk; split;
    repeat match goal with
    | |- context [connect_of ev] => unfold connect_of at 1; rewrite Hk at 1
    | |- context [write_of ev] => unfold write_of at 1; rewrite Hk at 1
    end; cbn [option_list].
  all: first
    [ apply handle_exec_conserves
    | apply conn_quiet; [done|apply keep_handle_exit]
    | apply write_quiet; [done|apply keep_handle_exit]
    | apply conn_quiet; [done|apply keep_handle_file_open]
    | apply write_quiet; [done|apply keep_handle_file_open]
    | apply conn_quiet; [done|apply keep_handle_file_write]
    | apply write_quiet; [done|apply keep_handle_connect]
    | by apply conserves_quiet, reports_mret
    | idtac ].
  - pose proof (handle_file_write_conserves ev Hk) as Hc. unfold write_of in Hc. by rewrite Hk in Hc.
  - pose proof (handle_connect_conserves ev Hk) as Hc. unfold connect_of in Hc. by rewrite Hk in Hc.
Qed.

Lemma tick_conserves g :
  conserves_in conn_buffer [] (tick g) ∧ conserves_in write_buffer [] (tick g).
Proof.
  pose proof (total_tick g) as Htot. split.
  - unfold tick. apply conserves_bind_nil.
    + eapply conserves_ext; [apply tick_connects_eq|]. apply tick_buffer_conserves; [exact _|].
      intros pid pc. apply emit_correlated_reports.
    + intros _. apply conn_quiet; [|apply keep_tick_rest].
      unfold tick_writes, tick_reads, tick_exited, tick_chain. solve_total.
  - unfold tick. apply conserves_bind_nil.
    + apply write_quiet; [|apply keep_tick_rest].
      pose proof total_flush_connects. unfold tick_connects. solve_total.
    + intros _. apply conserves_bind_nil.
      * eapply conserves_ext; [apply tick_writes_eq|]. apply tick_buffer_conserves; [exact _|].
        intros pid pfw. apply emit_correlated_file_reports.
      * intros _. apply write_quiet; [|apply keep_tick_rest].
        pose proof total_retain_reads. pose proof total_is_expired.
        unfold tick_reads, tick_exited, tick_chain. solve_total.
Qed.

Lemma shutdown_conserves s :
  wp shutdown (λ _ s', balanced_in conn_buffer [] s s' ∧ balanced_in write_buffer [] s s' ∧
    pending s' = ∅ ∧ file_pending s' = ∅ ∧ running s' = false) s.
Proof.
  unfold shutdown. apply wp_bind.
  eapply wp_mono.
  { apply wp_and; [apply (flush_all_conserves conn_buffer report_connect)|].
    - intros pid pc. apply emit_correlated_reports.
    - apply (write_quiet flush_pending_on_shutdown); [|apply keep_shutdown].
      unfold flush_pending_on_shutdown. solve_total. }
  intros u s1 ((Hc & Hp) & Hw). apply wp_bind. eapply wp_mono.
  { apply wp_and; [apply (flush_all_conserves write_buffer report_write)|].
    - intros pid pfw. apply emit_correlated_file_reports.
    - apply (wp_total flush_file_pending_on_shutdown (keeps conn_view)); [|apply keep_shutdown].
      unfold flush_file_pending_on_shutdown. solve_total. }
  intros u' s2 ((Hw2 & Hp2) & Hk). apply wp_modify. injection Hk as Hkp Hko Hke _.
  cbn in Hp, Hp2. split_and!; [| |cbn; congruence|done|done].
  - apply (balanced_trans _ _ _ _ [] [] s s1); [done|]. by apply balanced_keeps.
  - apply (balanced_trans _ _ _ _ [] [] s s1); [done|].
    destruct Hw2 as (lost & Hl & He). by exists lost.
Qed.

(** The items of the events delivered before the task stops. *)
Fixpoint accepted {K} (pick : SubstrateEvent V → option K) ws : list K :=
  match ws with
  | [] => []
  | Recv ev :: ws => option_list (pick ev) ++ accepted pick ws
  | Stop :: _ | Closed :: _ => []
  | _ :: ws => accepted pick ws
  end.
Definition stops (w : Wake V) : bool := match w with Stop | Closed => true | _ => false end.

Lemma halted_task g ws s : running s = false → run_task g ws s = (s, Ok tt).
Proof.
  intros Hr. induction ws as [|w ws IH]; [done|]. cbn. unfold m_bind.
  assert (wake g w s = (s, Ok tt)) as ->; [|done].
  unfold wake, mbind, M_bind, m_bind, gets. by rewrite Hr.
Qed.

(** One delivery. *)
Lemma wake_conserves g w s :
  running s = true →
  wp (wake g w) (λ _ s',
    balanced_in conn_buffer (match w with Recv ev => option_list (connect_of ev) | _ => [] end) s s' ∧
    balanced_in write_buffer (match w with Recv ev => option_list (write_of ev) | _ => [] end) s s' ∧
    running s' = negb (stops w) ∧ (stops w → pending s' = ∅ ∧ file_pending s' = ∅)) s.
Proof.
  intros Hr. unfold wake. apply wp_bind, wp_gets. rewrite Hr. cbn [negb].
  destruct w as [ev| | | |]; cbn [stops negb].
  - eapply wp_mono; [apply wp_and; [apply (proj1 (handle_event_conserves ev))|];
      apply wp_and; [apply (proj2 (handle_event_conserves ev))|];
      apply (wp_total _ (keeps running)); [apply total_handle_event|apply running_event]|].
    intros u s' (Hc & Hw & Hrun). split_and!; [done|done|unfold keeps in Hrun; congruence|done].
  - apply wp_mret. split_and!; [by apply balanced_keeps|by apply balanced_keeps|done|done].
  - eapply wp_mono; [apply wp_and; [apply (proj1 (tick_conserves g))|];
      apply wp_and; [apply (proj2 (tick_conserves g))|];
      apply (wp_total _ (keeps running)); [apply total_tick|apply running_tick]|].
    intros u s' (Hc & Hw & Hrun). split_and!; [done|done|unfold keeps in Hrun; congruence|done].
  - eapply wp_mono; [apply shutdown_conserves|]. intros u s' (? & ? & ? & ? & ?). done.
  - eapply wp_mono; [apply shutdown_conserves|]. intros u s' (? & ? & ? & ? & ?). done.
Qed.

Lemma task_conserves g ws s :
  running s = true →
  wp (run_task g ws) (λ _ s',
    balanced_in conn_buffer (accepted connect_of ws) s s' ∧
    balanced_in write_buffer (accepted write_of ws) s s' ∧
    (existsb stops ws → pending s' = ∅ ∧ file_pending s' = ∅)) s.
Proof.
  revert s. induction ws as [|w ws IH]; intros s Hr.
  { apply wp_ret. split_and!; [by apply balanced_keeps|by apply balanced_keeps|done]. }
  apply (wp_bind (wake g w) (λ _, run_task g ws)). eapply wp_mono; [by apply wake_conserves|].
  intros u s1 (Hc & Hw & Hrun & Hstop). destruct (stops w) eqn:Hst.
  - eapply wp_intro; [by apply halted_task|]. cbn. rewrite Hst.
    destruct w; try done; split_and!; auto.
  - eapply wp_mono; [by apply IH|]. intros u' s2 (Hc2 & Hw2 & Hstop2). cbn. rewrite Hst.
    destruct w; try done; cbn [accepted]; split_and!;
      first [by apply (balanced_trans _ _ _ _ _ _ s s1)|by apply (balanced_trans _ _ _ _ [] _ s s1)|done].
Qed.

Definition conn_waiting (s : Corr) : list conn_key := waiting pending (item conn_buffer) s.
Definition conn_reported (s : Corr) : list conn_key := omap net_record (emitted s).
Definition write_waiting (s : Corr) : list write_key := waiting file_pending (item write_buffer) s.
Definition write_reported (s : Corr) : list write_key := omap file_record (emitted s).

(** C11: no connection and no considered file write is lost, duplicated or invented:
    for every history of bus events, ticks and shutdown the task ends without a
    panic, and the connections accepted before it stopped are, as a bag, those
    reported (one record each), those still waiting for their exec, and those
    evicted by the cap, whose number [pending_evicted] shows (mod 2^64); likewise
    for file writes; once stopped, nothing is waiting. *)
Theorem no_event_lost_or_duplicated (g : Z) ws :
  let s := (run_task g ws corr_new).1 in
  (run_task g ws corr_new).2 = Ok tt ∧
  (∃ lost, conn_reported s ++ conn_waiting s ++ lost ≡ₚ accepted connect_of ws ∧
    pending_evicted (counters s) = wrap_u64 (Z.of_nat (length lost))) ∧
  (∃ lost, write_reported s ++ write_waiting s ++ lost ≡ₚ accepted write_of ws ∧
    file_pending_evicted (counters s) = wrap_u64 (Z.of_nat (length lost))) ∧
  (existsb stops ws → conn_waiting s = [] ∧ write_waiting s = []).
Proof.
  intros s. destruct (wp_ok _ _ _ (task_conserves g ws corr_new eq_refl)) as ([] & s' & Hrun & Hc & Hw & Hst).
  assert (s = s') as -> by (unfold s; by rewrite Hrun). rewrite Hrun.
  split; [done|]. split_and!.
  - destruct Hc as (lost & Hp & He). exists lost. rewrite <-count_up_0. split; [|done].
    rewrite app_assoc. unfold stock, waiting in Hp. cbn in Hp. by rewrite contents_empty in Hp.
  - destruct Hw as (lost & Hp & He). exists lost. rewrite <-count_up_0. split; [|done].
    rewrite app_assoc. unfold stock, waiting in Hp. cbn in Hp. by rewrite contents_empty in Hp.
  - intros Hs. destruct (Hst Hs) as [Hp Hf]. unfold conn_waiting, write_waiting, waiting.
    by rewrite Hp, Hf, !contents_empty.
Qed.
End task.
