(* ===== verification/CorrBounds.v ===== *)
(** * What a buffer holds over time

    The moves of a buffer again: what each leaves waiting, that the cap bounds it,
    and that a tick leaves nothing overdue. *)

From Stdlib Require Import ZArith.
From stdpp Require Import base tactics gmap strings list.
From S2P Require Import Prelude Transport Keys Version CveSource Ocsf Substrate ProcMon NetMon FileMon.
From S2P Require Import Corr CorrFacts CorrConserve.

Local Open Scope Z_scope.

Section moves.
Context `{Host, !HostLaws} {K P : Type} (b : Buffer K P) `{!BufferLaws b}.

(** What waits afterwards waited before. *)
Definition shrank (s s' : Corr) : Prop := contents (buf b s') ⊆+ contents (buf b s).
#[export] Instance shrank_preorder : PreOrder shrank.
Proof.
  split; [by intros s; unfold shrank|]. intros s1 s2 s3 H12 H23. unfold shrank in *. by etrans.
Qed.

Lemma shrank_same s s' : buf b s' = buf b s → shrank s s'.
Proof. unfold shrank. by intros ->. Qed.

Definition shrinks {A} (m : M Corr A) : Prop := ∀ s, wp m (λ _ s', shrank s s') s.
Definition still {A} (m : M Corr A) : Prop := ∀ s, wp m (λ _ s', buf b s' = buf b s) s.

Lemma shrinks_still {A} (m : M Corr A) : still m → shrinks m.
Proof. intros Hm s. eapply wp_mono; [apply Hm|]. intros a s'. apply shrank_same. Qed.
Lemma shrinks_ext {A} (m m' : M Corr A) : (∀ s, m s = m' s) → shrinks m' → shrinks m.
Proof. intros Heq Hm s. unfold wp. rewrite Heq. apply Hm. Qed.
Lemma shrinks_bind {A B} (m : M Corr A) (k : A → M Corr B) :
  shrinks m → (∀ a, shrinks (k a)) → shrinks (m ≫= k).
Proof.
  intros Hm Hk s. apply wp_bind. eapply wp_mono; [apply Hm|]. intros a s1 H1.
  eapply wp_mono; [apply Hk|]. intros c s2 H2. by transitivity s1.
Qed.

Lemma shrinks_mret {A} (a : A) : shrinks (mret a).
Proof. intros s. by apply wp_mret, shrank_same. Qed.
Lemma shrinks_gets {A} (f : Corr → A) : shrinks (gets f).
Proof. intros s. by apply wp_gets, shrank_same. Qed.

Lemma still_for_each {A} (f : A → M Corr unit) l : (∀ x, still (f x)) → still (for_each f l).
Proof.
  intros Hf s. apply (wp_for_each f (λ _ s', buf b s' = buf b s)); [|done].
  intros x l' s1 Hs1. eapply wp_mono; [apply Hf|]. intros u s2. congruence.
Qed.

(** ** Moves that only remove *)

Lemma remove_shrinks (m : gmap Z (list P)) k idx vec x :
  m !! k = Some vec → vec !! idx = Some x →
  contents (remove_item k idx m) ⊆+ contents m ∧ total m = S (total (remove_item k idx m)).
Proof.
  intros Hk Hx. pose proof (contents_remove (P := P) m k vec idx x Hk Hx) as Hp. split.
  - rewrite Hp. by apply submseteq_cons.
  - rewrite !total_contents. by rewrite Hp.
Qed.

Lemma delete_shrinks (m : gmap Z (list P)) k : contents (delete k m) ⊆+ contents m.
Proof.
  destruct (m !! k) as [vec|] eqn:Hk; [|by rewrite delete_id].
  rewrite (contents_delete m k vec) by done. by apply submseteq_inserts_l.
Qed.

Lemma put_shrinks (m : gmap Z (list P)) k vec kept :
  m !! k = Some vec → kept ⊆+ vec → contents (put_vec k kept m) ⊆+ contents m.
Proof.
  intros Hk Hsub. rewrite (contents_put m k vec), (contents_delete m k vec) by done.
  apply submseteq_app; [|done]. by apply fmap_submseteq.
Qed.

(** An eviction makes room. *)
Lemma evict_spec s :
  wp (evict_oldest b) (λ _ s', shrank s s' ∧ seen s ≤ seen s' ∧
    (total (buf b s') ≤ pred (total (buf b s))))%nat s.
Proof.
  unfold evict_oldest. apply wp_bind, wp_gets, wp_bind. eapply wp_intro; [done|].
  pose proof (oldest_spec (stamp_of b) _ (buf b s) (hash_order_perm (seen s) _ _)) as Ho.
  destruct (oldest _ _) as [[[pid idx] t]|].
  - destruct Ho as (vec & x & Hk & Hx & _). apply wp_modify.
    destruct (remove_shrinks (buf b s) pid idx vec x Hk Hx) as [Hsub Hlen].
    unfold shrank. rewrite buf_add, buf_set. cbn. rewrite seen_set. cbn. split_and!; [done|lia|lia].
  - apply wp_mret. split_and!; [by apply shrank_same, buf_seen|cbn; lia|].
    rewrite buf_seen. rewrite total_contents, Ho. cbn. lia.
Qed.

Lemma drain_shrinks key report : (∀ x, still (report x)) → shrinks (drain b key report).
Proof.
  intros Hr s. unfold drain. apply wp_bind, wp_gets.
  destruct (buf b s !! key) as [vec|]; [|by apply wp_mret, shrank_same].
  apply wp_bind, wp_modify, wp_bind. eapply wp_mono; [by apply still_for_each|].
  intros u s' Hb. apply wp_modify. unfold shrank. rewrite buf_len, Hb, buf_set. apply delete_shrinks.
Qed.

Lemma flush_all_shrinks {R} (report : Z → P → M Corr R) :
  (∀ pid x, still (report pid x)) → shrinks (flush_all b report).
Proof.
  intros Hr s. unfold flush_all. apply wp_bind, wp_gets, wp_bind. eapply wp_intro; [done|].
  apply wp_bind, wp_modify, wp_bind. eapply wp_mono.
  - apply still_for_each. intros [p v]. apply still_for_each. intros x s'. apply wp_bind.
    eapply wp_mono; [apply Hr|]. intros r s1 Hs1. by apply wp_mret.
  - intros u s' Hb. apply wp_modify. unfold shrank. rewrite buf_len, Hb, buf_set, contents_empty.
    apply submseteq_nil_l.
Qed.

(** ** Buffering *)

(** The cap holds, and the new item is stamped with a reading made meanwhile. *)
Lemma buffer_item_spec cap key x s :
  (0 < cap)%nat →
  wp (buffer_item b cap key x) (λ _ s', (total (buf b s) ≤ cap → total (buf b s') ≤ cap)%nat ∧
    ∃ i, (seen s ≤ i < seen s')%nat ∧ contents (buf b s') ⊆+ (key, x (instant i)) :: contents (buf b s)) s.
Proof.
  intros Hcap. unfold buffer_item. apply wp_bind, wp_gets, wp_bind.
  eapply (wp_mono _ (λ _ s1, shrank s s1 ∧ (seen s ≤ seen s1)%nat ∧
    (total (buf b s) ≤ cap → S (total (buf b s1)) ≤ cap)%nat)).
  { case_bool_decide as Hfull.
    - eapply wp_mono; [apply evict_spec|]. intros u s1 (? & ? & ?). split_and!; [done|done|lia].
    - apply wp_mret. split_and!; [done|done|lia]. }
  intros u s1 (Hsub & Hseen & Hlen). apply wp_bind. eapply wp_intro; [done|].
  apply wp_bind, wp_modify, wp_modify. rewrite buf_len, buf_set, buf_seen. split.
  - rewrite !total_contents in *. rewrite contents_push. cbn. lia.
  - exists (seen s1). cbn. rewrite seen_set. cbn. split; [lia|].
    rewrite contents_push. by apply submseteq_skip.
Qed.

(** ** The tick *)

(** What is kept of one pid's items is fresh at the first reading of the clock. *)
Definition fresh (grace : Z) (t : Z) (x : P) : Prop := elapsed_at t (stamp_of b x) < grace.

Definition flushes (grace : Z) (flush : list P → M Corr (list P)) : Prop :=
  ∀ vec s, wp (flush vec) (λ kept s', buf b s' = buf b s ∧ (seen s ≤ seen s')%nat ∧
    sublist kept vec ∧ ∀ x, x ∈ kept → fresh grace (instant (seen s)) x) s.

Lemma fresh_later grace i j x : (i ≤ j)%nat → fresh grace (instant j) x → fresh grace (instant i) x.
Proof. intros Hij. pose proof (instant_mono i j Hij). unfold fresh, elapsed_at. lia. Qed.

Definition tick_loop (flush : Z → list P → M Corr (list P)) : M Corr unit :=
  m ← gets (buf b);
  l ← walk m;
  for_each (λ pv, vec ← flush pv.1 pv.2;
                  modify (λ s, set_buf b (put_vec pv.1 vec (buf b s)) s)) l;;
  modify (λ s, count (put_len b (total (buf b s))) s).

(** The loop's invariant: [rest] is still to visit. *)
Record ticking (grace : Z) (s : Corr) (rest : list (Z * list P)) (s' : Corr) : Prop := {
  tk_shrank : shrank s s';
  tk_seen : (seen s ≤ seen s')%nat;
  tk_nodup : NoDup rest.*1;
  tk_rest pv : pv ∈ rest → buf b s' !! pv.1 = Some pv.2;
  tk_fresh k vec x : k ∉ rest.*1 → buf b s' !! k = Some vec → x ∈ vec → fresh grace (instant (seen s)) x;
}.

Lemma lookup_put (m : gmap Z (list P)) k kept j vec :
  put_vec k kept m !! j = Some vec → (j = k ∧ vec = kept) ∨ (j ≠ k ∧ m !! j = Some vec).
Proof.
  unfold put_vec. destruct (decide (j = k)) as [->|Hne].
  - case_bool_decide; [by rewrite lookup_delete_eq|rewrite lookup_insert_eq]. intros [= ->]. by left.
  - case_bool_decide; [rewrite lookup_delete_ne by done|rewrite lookup_insert_ne by done]; auto.
Qed.
Lemma lookup_put_ne (m : gmap Z (list P)) k kept j : j ≠ k → put_vec k kept m !! j = m !! j.
Proof. intros. unfold put_vec. case_bool_decide; [by rewrite lookup_delete_ne|by rewrite lookup_insert_ne]. Qed.

Lemma ticking_round grace s p v rest s1 s2 kept :
  ticking grace s ((p, v) :: rest) s1 →
  buf b s2 = buf b s1 → (seen s1 ≤ seen s2)%nat → sublist kept v →
  (∀ x, x ∈ kept → fresh grace (instant (seen s1)) x) →
  ticking grace s rest (set_buf b (put_vec p kept (buf b s2)) s2).
Proof.
  intros [Hsh Hsn Hnd Hrest Hfr] Hb Hsn2 Hsub Hk.
  apply NoDup_cons in Hnd as [Hp Hnd]. pose proof (Hrest (p, v) ltac:(by left)) as Hpv. cbn in Hpv.
  split; rewrite ?buf_set, ?seen_set, ?Hb; [|lia|done|..].
  - transitivity s1; [done|]. unfold shrank. rewrite buf_set.
    eapply put_shrinks; [done|by apply sublist_submseteq].
  - intros [p' v'] Hin. cbn. rewrite lookup_put_ne; [apply (Hrest (p', v')); by right|].
    intros ->. apply Hp, list_elem_of_fmap. by exists (p, v').
  - intros k vec x Hnot [[-> ->]|[Hne Hlk]]%lookup_put Hx.
    + by apply (fresh_later grace (seen s) (seen s1)), Hk.
    + apply (Hfr k vec x); [|done..]. cbn. by rewrite not_elem_of_cons.
Qed.

(** After a tick, what waits is fresh. *)
Lemma tick_loop_spec grace flush s :
  (∀ pid, flushes grace (flush pid)) →
  wp (tick_loop flush) (λ _ s', shrank s s' ∧
    ∀ kx, kx ∈ contents (buf b s') → fresh grace (instant (seen s)) kx.2) s.
Proof.
  intros Hf. unfold tick_loop. apply wp_bind, wp_gets, wp_bind. eapply wp_intro; [done|].
  set (l := hash_order _ _ _). assert (l ≡ₚ map_to_list (buf b s)) as Hl by apply hash_order_perm.
  apply wp_bind. eapply wp_mono; [apply (wp_for_each _ (ticking grace s) l)|].
  - intros [p v] rest s1 Hs1. cbn [fst snd]. apply wp_bind. eapply wp_mono; [apply Hf|].
    intros kept s2 (? & ? & ? & ?). apply wp_modify. by eapply ticking_round.
  - split; rewrite ?buf_seen; [by apply shrank_same, buf_seen|cbn; lia|..].
    + rewrite Hl. apply NoDup_fst_map_to_list.
    + intros [p v] Hin. rewrite Hl in Hin. by apply elem_of_map_to_list in Hin.
    + intros k vec x Hnot Hk. destruct Hnot. apply list_elem_of_fmap. exists (k, vec). split; [done|].
      rewrite Hl. by apply elem_of_map_to_list.
  - intros u s' [Hsh _ _ _ Hfr]. apply wp_modify. unfold shrank. rewrite buf_len. split; [exact Hsh|].
    intros [k x] (vec & Hvec & Hx)%elem_of_contents. eapply Hfr; [by apply not_elem_of_nil|done..].
Qed.

Lemma flush_overdue_flushes {R} (report : P → M Corr R) grace :
  (∀ x, still (report x)) → (∀ x s, wp (report x) (λ _ s', seen s ≤ seen s')%nat s) →
  flushes grace (flush_overdue b report grace).
Proof.
  intros Hr Hs vec. induction vec as [|x vec IH]; intros s; cbn [flush_overdue].
  { apply wp_mret. split_and!; [done|done|done|]. by intros x ?%not_elem_of_nil. }
  apply wp_bind. eapply wp_intro; [done|]. cbn [fst snd].
  assert (buf b (bump_seen s) = buf b s) as Hb0 by apply buf_seen.
  destruct (Z.leb_spec grace (elapsed_at (instant (seen s)) (stamp_of b x))) as [Hdue|Hfresh].
  - apply wp_bind. eapply wp_mono; [apply wp_and; [apply Hr|apply Hs]|].
    intros r s1 (Hb1 & Hs1). cbn in Hs1.
    eapply wp_mono; [apply IH|]. intros kept s2 (Hb2 & Hs2 & Hsub & Hfr).
    split_and!; [congruence|lia|by constructor|].
    intros y Hy. apply (fresh_later grace (seen s) (seen s1)); [lia|auto].
  - apply wp_bind. eapply wp_mono; [apply IH|].
    intros kept s2 (Hb2 & Hs2 & Hsub & Hfr). cbn in Hs2. apply wp_mret.
    split_and!; [congruence|lia|by constructor|].
    intros y [->|Hy]%elem_of_cons; [done|]. apply (fresh_later grace _ (seen (bump_seen s))); [cbn; lia|auto].
Qed.

(** ** Across any operation *)

(** The cap still holds; what is new was stamped meanwhile, and a [quiet] operation
    brings nothing new. *)
Definition took (cap : nat) (quiet : Prop) (s s' : Corr) : Prop :=
  (total (buf b s) ≤ cap → total (buf b s') ≤ cap)%nat ∧
  ∃ new, contents (buf b s') ⊆+ new ++ contents (buf b s) ∧
    (∀ kx, kx ∈ new → ∃ i, (seen s ≤ i < seen s')%nat ∧ stamp_of b kx.2 = instant i) ∧
    (quiet → new = []).

Lemma took_shrank cap quiet s s' : shrank s s' → took cap quiet s s'.
Proof.
  intros Hsh. split.
  - rewrite !total_contents. apply submseteq_length in Hsh. lia.
  - exists []. split_and!; [done| |done]. by intros kx ?%not_elem_of_nil.
Qed.

Lemma took_after cap quiet s s1 s2 :
  buf b s1 = buf b s → (seen s ≤ seen s1)%nat → took cap quiet s1 s2 → took cap quiet s s2.
Proof.
  intros Hb Hs [Hcap (new & Hsub & Hst & Hq)]. unfold took. rewrite <-Hb. split; [done|].
  exists new. split_and!; [done| |done]. intros kx Hkx. destruct (Hst kx Hkx) as (i & Hi & ?).
  exists i. split; [lia|done].
Qed.

Lemma buffer_item_took cap (quiet : Prop) key x :
  (0 < cap)%nat → (quiet → False) → (∀ t, stamp_of b (x t) = t) →
  ∀ s, wp (buffer_item b cap key x) (λ _ s', took cap quiet s s') s.
Proof.
  intros Hcap Hq Hx s. eapply wp_mono; [by apply buffer_item_spec|].
  intros u s' [Hb (i & Hi & Hsub)]. split; [done|]. exists [(key, x (instant i))].
  split_and!; [done| |by intros ?%Hq]. intros kx ->%list_elem_of_singleton. exists i. split; [done|apply Hx].
Qed.
End moves.

(** * Memory and time

    The correlator's maps stay within their caps, its health counters show their
    real sizes, and no event waits past its grace. *)

Local Open Scope Z_scope.

(** ** Observations only advance *)

Definition seen_le (s s' : Corr) : Prop := (seen s ≤ seen s')%nat.
#[export] Instance seen_le_preorder : PreOrder seen_le.
Proof. split; [by intros s; unfold seen_le|]. intros s1 s2 s3. unfold seen_le. lia. Qed.

Ltac seen_prim := intros ?; unfold seen_le; cbn; lia.
Ltac solve_seen := walk_body ltac:(first [rel_leaf|solve [seen_prim]]).

Section seen.
Context `{Host}.

Lemma seen_now : rel_m seen_le now.
Proof. seen_prim. Qed.
Lemma seen_walk {T} (m : gmap Z T) : rel_m seen_le (walk m).
Proof. seen_prim. Qed.
Lemma seen_emit sev d : rel_m seen_le (emit sev d).
Proof. seen_prim. Qed.
Hint Resolve seen_now seen_walk seen_emit : torda.
Lemma seen_elapsed t : rel_m seen_le (elapsed t).
Proof. unfold elapsed. solve_seen. Qed.
Hint Resolve seen_elapsed : torda.
Lemma seen_emit_correlated pid a img sev dets daddr dport proto :
  rel_m seen_le (emit_correlated pid a img sev dets daddr dport proto).
Proof. unfold emit_correlated. solve_seen. Qed.
Lemma seen_emit_file pid a img sev dets path :
  rel_m seen_le (emit_correlated_file pid a img sev dets path).
Proof. unfold emit_correlated_file. solve_seen. Qed.
Lemma seen_attribution key : rel_m seen_le (attribution key).
Proof. unfold attribution. solve_seen. Qed.
Hint Resolve seen_emit_correlated seen_emit_file seen_attribution : torda.

Lemma seen_with_stamps l : rel_m seen_le (with_stamps l).
Proof. induction l as [|[k cs] l IH]; cbn [with_stamps]; unfold oldest_stamp; solve_seen. Qed.
Lemma seen_fire cs pid img dets :
  rel_m seen_le (maybe_fire_chain cs pid img dets) ∧ rel_m seen_le (maybe_fire_exfil cs pid img dets).
Proof.
  unfold maybe_fire_chain, maybe_fire_exfil, both_fresh, emit_correlated_chain, emit_correlated_exfil.
  split; solve_seen.
Qed.
Lemma seen_chain_entry key : rel_m seen_le (chain_entry key).
Proof. pose proof seen_with_stamps. unfold chain_entry, evict_oldest_chain. solve_seen. Qed.
Hint Resolve seen_chain_entry : torda.
Lemma seen_records pid img dets daddr dport proto path ds :
  rel_m seen_le (record_connect_and_maybe_chain pid img dets daddr dport proto ds) ∧
  rel_m seen_le (record_file_and_maybe_chain pid img dets path ds) ∧
  rel_m seen_le (record_read_and_maybe_exfil pid img dets path ds).
Proof.
  pose proof (λ cs pid img dets, proj1 (seen_fire cs pid img dets)).
  pose proof (λ cs pid img dets, proj2 (seen_fire cs pid img dets)).
  unfold record_connect_and_maybe_chain, record_file_and_maybe_chain, record_read_and_maybe_exfil,
    chain_put. split_and!; solve_seen.
Qed.
Lemma seen_flush g pid v1 v2 v3 :
  rel_m seen_le (flush_connects g pid v1) ∧ rel_m seen_le (flush_writes g pid v2) ∧
  rel_m seen_le (retain_reads g v3).
Proof.
  split_and!; [induction v1; cbn [flush_connects]|induction v2; cbn [flush_writes]
              |induction v3; cbn [retain_reads]]; solve_seen.
Qed.

Context {V : Type} `{JsonValue V, JsonGet V}.

Lemma seen_event (ev : SubstrateEvent V) : rel_m seen_le (handle_event ev).
Proof.
  pose proof (λ pid img dets daddr dport proto ds, proj1 (seen_records pid img dets daddr dport proto "" ds)).
  pose proof (λ pid img dets path ds, proj1 (proj2 (seen_records pid img dets "" 0 "" path ds))).
  pose proof (λ pid img dets path ds, proj2 (proj2 (seen_records pid img dets "" 0 "" path ds))).
  unfold handle_event, handle_exec, handle_exit, handle_connect, handle_file_write, handle_file_open,
    buffer_connect, buffer_write, buffer_read, drain_connects, drain_writes, drain_reads,
    connect_attributed, write_attributed, evict_oldest_context, evict_oldest_exited,
    evict_oldest_pending, evict_oldest_file_pending, evict_oldest_read_pending.
  destruct (kind ev); solve_seen; intros t; unfold seen_le; cbn; by destruct (chain t !! _).
Qed.

Lemma seen_tick g : rel_m seen_le (tick g).
Proof.
  pose proof (λ pid v, proj1 (seen_flush g pid v [] [])).
  pose proof (λ pid v, proj1 (proj2 (seen_flush g pid [] v []))).
  pose proof (λ v, proj2 (proj2 (seen_flush g 0 [] [] v))).
  unfold tick, tick_connects, tick_writes, tick_reads, tick_exited, tick_chain, is_expired, half_old.
  solve_seen.
Qed.

Lemma seen_wake g (w : Wake V) : rel_m seen_le (wake g w).
Proof.
  pose proof seen_event. pose proof seen_tick. unfold wake, shutdown, flush_pending_on_shutdown,
    flush_file_pending_on_shutdown. solve_seen.
Qed.
End seen.

(** ** The three buffers across a delivery *)

(** The read buffer reports nothing. *)
Definition read_buffer : Buffer () PendingFileRead := {|
  buf := read_pending; set_buf := set_read_pending; put_len := put_read_pending;
  add_lost := add_read_pending_evicted; lost_count s := read_pending_evicted (counters s);
  out _ := []; item _ := tt; stamp_of := pfr_buffered_at;
|}.
#[export] Instance read_buffer_laws : BufferLaws read_buffer.
Proof. by split. Qed.
#[export] Instance read_pending_blind : ChainBlind read_pending.
Proof. by split. Qed.

Section took.
Context `{Host, !HostLaws}.

Lemma still_view {K P A T} (b : Buffer K P) (view : Corr → T) (m : M Corr A) :
  (∀ s s', view s' = view s → buf b s' = buf b s) → total_m m → rel_m (keeps view) m → still b m.
Proof. intros Hv Hm HR s. eapply wp_mono; [by apply wp_total|]. intros a s'. apply Hv. Qed.
Lemma conn_still {A} (m : M Corr A) : total_m m → rel_m (keeps conn_view) m → still conn_buffer m.
Proof. apply still_view. by intros s s' [= Hv _ _ _]. Qed.
Lemma write_still {A} (m : M Corr A) : total_m m → rel_m (keeps write_view) m → still write_buffer m.
Proof. apply still_view. by intros s s' [= Hv _ _ _]. Qed.
Lemma read_still {A} (m : M Corr A) : total_m m → rel_m (keeps read_pending) m → still read_buffer m.
Proof. apply still_view. done. Qed.

Lemma attribute_took {K P} (b : Buffer K P) cap quiet key (on : ProcContext → M Corr unit) off :
  rel_m (keeps (buf b)) (attribution key) → (∀ c, still b (on c)) →
  (∀ s, wp off (λ _ s', took b cap quiet s s') s) →
  ∀ s, wp (o ← attribution key; match o with Some c => on c | None => off end)
    (λ _ s', took b cap quiet s s') s.
Proof.
  intros Hatt Hon Hoff s. apply wp_bind.
  eapply wp_mono; [apply wp_and; [apply (wp_total _ (keeps (buf b)))|apply (wp_total _ seen_le)]|];
    [apply total_attribution|exact Hatt|apply total_attribution|apply seen_attribution|].
  intros [c|] s1 [Hb Hs].
  - eapply wp_mono; [apply Hon|]. intros u s2 Hb2. apply took_shrank, shrank_same.
    unfold keeps in Hb. congruence.
  - eapply wp_mono; [apply Hoff|]. intros u s2 Ht. by apply (took_after b cap quiet s s1 s2).
Qed.

(** A view that the processes' own maps do not touch. *)
Class ExecBlind {T} (f : Corr → T) : Prop := {
  eb_contexts m s : f (set_contexts m s) = f s;
  eb_exited m s : f (set_recently_exited m s) = f s;
  eb_tracked n s : f (count (put_tracked n) s) = f s;
  eb_evicted s : f (count add_evicted s) = f s;
}.

Section exec_blind.
Context {T} (f : Corr → T) `{!ChainBlind f, !ExecBlind f}.

Ltac eb_prim := intros ?; unfold keeps, modify; cbn [fst];
  rewrite ?eb_tracked, ?eb_evicted, ?eb_contexts, ?eb_exited, ?blind_put_chain, ?blind_chain; reflexivity.
Ltac solve_eb := walk_body ltac:(first [rel_leaf|solve [eb_prim]]).

Lemma eb_evict_context : rel_m (keeps f) evict_oldest_context.
Proof. unfold evict_oldest_context. solve_eb. Qed.
Lemma eb_tick_exited : rel_m (keeps f) tick_exited.
Proof. unfold tick_exited. solve_eb. Qed.
Lemma eb_handle_exit {V} `{JsonValue V, JsonGet V} (ev : SubstrateEvent V) : rel_m (keeps f) (handle_exit ev).
Proof. unfold handle_exit, evict_oldest_exited. solve_eb. Qed.
Lemma eb_put_tracked : rel_m (keeps f) (modify (λ s, count (put_tracked (size (contexts s))) s)).
Proof. intros s. apply eb_tracked. Qed.
Lemma eb_set_contexts k c : rel_m (keeps f) (modify (λ s, set_contexts (<[k := c]> (contexts s)) s)).
Proof. intros s. apply eb_contexts. Qed.
Lemma eb_delete_exited k : rel_m (keeps f) (modify (λ s, set_recently_exited (delete k (recently_exited s)) s)).
Proof. intros s. apply eb_exited. Qed.
Lemma eb_drop_chain k : rel_m (keeps f) (modify (λ s, match chain s !! k with
  | Some _ => count (put_chain (size (delete k (chain s)))) (set_chain (delete k (chain s)) s)
  | None => s
  end)).
Proof. intros s. unfold keeps, modify. cbn [fst]. destruct (chain s !! k); [|done]. by rewrite blind_put_chain, blind_chain. Qed.
End exec_blind.

#[export] Instance pending_blind : ChainBlind pending.
Proof. by split. Qed.
#[export] Instance file_pending_blind : ChainBlind file_pending.
Proof. by split. Qed.
#[export] Instance pending_eb : ExecBlind pending.
Proof. by split. Qed.
#[export] Instance file_pending_eb : ExecBlind file_pending.
Proof. by split. Qed.
#[export] Instance read_pending_eb : ExecBlind read_pending.
Proof. by split. Qed.

Lemma still_eb {K P A} (b : Buffer K P) (m : M Corr A) : total_m m → rel_m (keeps (buf b)) m → shrinks b m.
Proof. intros Hm HR. apply shrinks_still. intros s. by apply (wp_total m (keeps (buf b))). Qed.

(** An exec only takes from a buffer. *)
Lemma exec_shrinks {K P} (b : Buffer K P) `{!ChainBlind (buf b), !ExecBlind (buf b)} {V} `{JsonValue V, JsonGet V}
    (ev : SubstrateEvent V) :
  (∀ pid key img sev dets, shrinks b (drain_connects pid key img sev dets) ∧
     shrinks b (drain_writes pid key img sev dets) ∧ shrinks b (drain_reads pid key img dets)) →
  shrinks b (handle_exec ev).
Proof.
  intros Hd. unfold handle_exec.
  destruct (get_u64 _ _) as [pid|]; [|apply shrinks_mret].
  destruct (get_str _ _) as [img|]; [|apply shrinks_mret].
  apply shrinks_bind; [apply still_eb; [eauto with torda|by apply eb_delete_exited]|intros _].
  apply shrinks_bind; [apply still_eb; [eauto with torda|by apply eb_drop_chain]|intros _].
  apply shrinks_bind; [apply shrinks_gets|]. intros inh.
  destruct (inherit _ inh) as [sev dets]. destruct (Hd pid (wrap_u32 pid) img sev dets) as (? & ? & ?).
  apply shrinks_bind; [apply shrinks_gets|]. intros m.
  apply shrinks_bind.
  { destruct (_ && _); [|apply shrinks_mret].
    apply still_eb; [apply total_evictions|]. by apply eb_evict_context. }
  intros _. apply shrinks_bind; [apply still_eb; [eauto with torda|by apply eb_set_contexts]|intros _].
  apply shrinks_bind; [apply still_eb; [eauto with torda|by apply eb_put_tracked]|intros _].
  apply shrinks_bind; [done|intros _]. by apply shrinks_bind.
Qed.

(** The other buffers' business. *)
Lemma read_keep_emits pid a img sev dets daddr dport proto path :
  rel_m (keeps read_pending) (emit_correlated pid a img sev dets daddr dport proto) ∧
  rel_m (keeps read_pending) (emit_correlated_file pid a img sev dets path).
Proof. unfold emit_correlated, emit_correlated_file. split; solve_keeps. Qed.
Lemma read_keep_drains pid key img sev dets :
  rel_m (keeps read_pending) (drain_connects pid key img sev dets) ∧
  rel_m (keeps read_pending) (drain_writes pid key img sev dets).
Proof.
  pose proof (λ pid a img sev dets daddr dport proto,
    proj1 (read_keep_emits pid a img sev dets daddr dport proto "")).
  pose proof (λ pid a img sev dets path, proj2 (read_keep_emits pid a img sev dets "" 0 "" path)).
  unfold drain_connects, drain_writes, connect_attributed, write_attributed. split; solve_keeps.
Qed.
Lemma conn_still_attributed pid img sev dets daddr dport proto :
  still conn_buffer (connect_attributed pid img sev dets daddr dport proto).
Proof.
  intros s. eapply wp_mono; [apply connect_attributed_reports|]. by intros u s' (? & _).
Qed.
Lemma write_still_attributed pid img sev dets path :
  still write_buffer (write_attributed pid img sev dets path).
Proof. intros s. eapply wp_mono; [apply write_attributed_reports|]. by intros u s' (? & _). Qed.

Lemma conn_drains pid key img sev dets :
  shrinks conn_buffer (drain_connects pid key img sev dets) ∧
  shrinks conn_buffer (drain_writes pid key img sev dets) ∧ shrinks conn_buffer (drain_reads pid key img dets).
Proof.
  destruct (total_drains pid key img sev dets) as (? & ? & ?).
  destruct (keep_drains pid key img sev dets) as (? & ? & ? & ?). split_and!.
  - apply (drain_shrinks conn_buffer). intros x. apply conn_still_attributed.
  - by apply shrinks_still, conn_still.
  - by apply shrinks_still, conn_still.
Qed.
Lemma write_drains pid key img sev dets :
  shrinks write_buffer (drain_connects pid key img sev dets) ∧
  shrinks write_buffer (drain_writes pid key img sev dets) ∧ shrinks write_buffer (drain_reads pid key img dets).
Proof.
  destruct (total_drains pid key img sev dets) as (? & ? & ?).
  destruct (keep_drains pid key img sev dets) as (? & ? & ? & ?). split_and!.
  - by apply shrinks_still, write_still.
  - apply (drain_shrinks write_buffer). intros x. apply write_still_attributed.
  - by apply shrinks_still, write_still.
Qed.
Lemma read_drains pid key img sev dets :
  shrinks read_buffer (drain_connects pid key img sev dets) ∧
  shrinks read_buffer (drain_writes pid key img sev dets) ∧ shrinks read_buffer (drain_reads pid key img dets).
Proof.
  destruct (total_drains pid key img sev dets) as (? & ? & ?).
  destruct (read_keep_drains pid key img sev dets) as (? & ?). split_and!.
  - by apply shrinks_still, read_still.
  - by apply shrinks_still, read_still.
  - apply (drain_shrinks read_buffer). intros x.
    destruct (judge_read _); apply read_still; eauto with torda typeclass_instances.
Qed.

Context {V : Type} `{JsonValue V, JsonGet V}.
Implicit Type ev : SubstrateEvent V.

Abbreviation conn_took ev := (took conn_buffer MAX_PENDING_CONNECTS (connect_of ev = None)).
Abbreviation write_took ev := (took write_buffer MAX_PENDING_FILE_WRITES (write_of ev = None)).
Abbreviation read_took := (took read_buffer MAX_PENDING_FILE_READS False).

Lemma shrinks_took {K P} (b : Buffer K P) cap quiet {A} (m : M Corr A) s :
  shrinks b m → wp m (λ _ s', took b cap quiet s s') s.
Proof. intros Hm. eapply wp_mono; [apply Hm|]. intros a s'. apply took_shrank. Qed.

Lemma caps_positive :
  (0 < MAX_PENDING_CONNECTS ∧ 0 < MAX_PENDING_FILE_WRITES ∧ 0 < MAX_PENDING_FILE_READS)%nat.
Proof. unfold MAX_PENDING_CONNECTS, MAX_PENDING_FILE_WRITES, MAX_PENDING_FILE_READS. lia. Qed.

Lemma handle_connect_took ev s :
  kind ev = EventKind.NetConnect → wp (handle_connect ev) (λ _ s', conn_took ev s s') s.
Proof.
  intros Hk. unfold handle_connect, connect_of. rewrite Hk.
  destruct (get_u64 (fields ev) "pid") as [pid|]; [|by apply shrinks_took, shrinks_mret].
  destruct (get_str (fields ev) "daddr") as [daddr|]; [|by apply shrinks_took, shrinks_mret].
  destruct (get_u64 (fields ev) "dport" ≫= u16_try_from) as [dport|] eqn:Hp;
    [|by apply shrinks_took, shrinks_mret].
  apply attribute_took; [apply blind_attribution, _| |].
  - intros c. destruct (resolve_instance c _) as [[img sev] dets]. apply conn_still_attributed.
  - rewrite buffer_connect_eq. apply buffer_item_took; [exact _|apply caps_positive| |done].
    cbn. by rewrite ?Hp.
Qed.

Lemma handle_write_took ev s :
  kind ev = EventKind.FileWrite → wp (handle_file_write default_policy ev) (λ _ s', write_took ev s s') s.
Proof.
  intros Hk. unfold handle_file_write, write_of. rewrite Hk.
  destruct (get_u64 (fields ev) "pid") as [pid|]; [|by apply shrinks_took, shrinks_mret].
  destruct (get_str (fields ev) "path") as [path|]; [|by apply shrinks_took, shrinks_mret].
  destruct (considers default_policy path) eqn:Hc; cbn [negb]; [|by apply shrinks_took, shrinks_mret].
  apply attribute_took; [apply blind_attribution, _| |].
  - intros c. destruct (resolve_instance c _) as [[img sev] dets]. apply write_still_attributed.
  - rewrite buffer_write_eq. apply buffer_item_took; [exact _|apply caps_positive| |done].
    cbn. by rewrite ?Hc.
Qed.

Lemma buffer_read_eq key path :
  buffer_read key path = buffer_item read_buffer MAX_PENDING_FILE_READS key (mkPendingFileRead path).
Proof.
  unfold buffer_read, buffer_item, evict_oldest_read_pending, evict_oldest, read_pending_total.
  cbn [buf set_buf put_len add_lost stamp_of read_buffer]. reflexivity.
Qed.

Lemma handle_open_took p ev s : wp (handle_file_open p ev) (λ _ s', read_took s s') s.
Proof.
  unfold handle_file_open.
  destruct (get_u64 (fields ev) "pid") as [pid|]; [|by apply shrinks_took, shrinks_mret].
  destruct (get_str (fields ev) "path") as [path|]; [|by apply shrinks_took, shrinks_mret].
  destruct (negb _); [by apply shrinks_took, shrinks_mret|].
  destruct (judge_read path); [|by apply shrinks_took, shrinks_mret].
  apply attribute_took; [apply blind_attribution, _| |].
  - intros c. destruct (resolve_instance c _) as [[img sev] dets].
    apply read_still; eauto with torda typeclass_instances.
  - rewrite buffer_read_eq. apply buffer_item_took; [exact _|apply caps_positive|done|done].
Qed.

Lemma read_keep_buffering key img path daddr dport proto :
  rel_m (keeps read_pending) (buffer_write key img path) ∧
  rel_m (keeps read_pending) (buffer_connect key img daddr dport proto).
Proof.
  unfold buffer_write, buffer_connect, evict_oldest_file_pending, evict_oldest_pending.
  split; solve_keeps.
Qed.
Lemma read_keep_handlers p ev :
  rel_m (keeps read_pending) (handle_file_write p ev) ∧ rel_m (keeps read_pending) (handle_connect ev).
Proof.
  pose proof (λ pid a img sev dets daddr dport proto,
    proj1 (read_keep_emits pid a img sev dets daddr dport proto "")).
  pose proof (λ pid a img sev dets path, proj2 (read_keep_emits pid a img sev dets "" 0 "" path)).
  pose proof (λ key img path, proj1 (read_keep_buffering key img path "" 0 "")).
  pose proof (λ key img daddr dport proto, proj2 (read_keep_buffering key img "" daddr dport proto)).
  unfold handle_file_write, handle_connect, connect_attributed, write_attributed. split; solve_keeps.
Qed.

Lemma event_took ev s :
  wp (handle_event ev) (λ _ s', conn_took ev s s' ∧ write_took ev s s' ∧ read_took s s') s.
Proof.
  pose proof (total_handle_event ev) as Htot.
  pose proof (λ K P (b : Buffer K P) cap q, shrinks_took b cap q (mret tt : M Corr ()) s (shrinks_mret b tt)) as Hnop.
  unfold handle_event in *. destruct (kind ev) eqn:Hk.
  - apply wp_and; [|apply wp_and]; apply shrinks_took, exec_shrinks; try exact _;
      [apply conn_drains|apply write_drains|apply read_drains].
  - apply wp_and; [|apply wp_and]; apply shrinks_took, still_eb; try done; by apply eb_handle_exit.
  - apply wp_and; [|apply wp_and; [|apply handle_open_took]]; apply shrinks_took, shrinks_still;
      [apply conn_still|apply write_still]; try done; apply keep_handle_file_open.
  - apply wp_and; [|apply wp_and; [by apply handle_write_took|]]; apply shrinks_took, shrinks_still;
      [apply conn_still|apply read_still]; try done; [apply keep_handle_file_write|apply read_keep_handlers].
  - apply wp_and; [by apply handle_connect_took|apply wp_and]; apply shrinks_took, shrinks_still;
      [apply write_still|apply read_still]; try done; [apply keep_handle_connect|].
    by apply (read_keep_handlers default_policy).
  - apply wp_and; [|apply wp_and]; apply shrinks_took, shrinks_mret.
Qed.

(** ** The tick *)

Lemma wp_seen {A} (m : M Corr A) : total_m m → rel_m seen_le m → ∀ s, wp m (λ _ s', seen s ≤ seen s')%nat s.
Proof. intros Hm HR s. by apply (wp_total m seen_le). Qed.

Lemma flush_connects_flushes g pid :
  flushes conn_buffer g (flush_overdue conn_buffer (report_connect pid) g).
Proof.
  apply (flush_overdue_flushes conn_buffer); intros pc.
  - intros s. eapply wp_mono; [apply emit_correlated_reports|]. by intros o s' (? & _).
  - apply wp_seen; [apply total_emit_correlated|apply seen_emit_correlated].
Qed.
Lemma flush_writes_flushes g pid :
  flushes write_buffer g (flush_overdue write_buffer (report_write pid) g).
Proof.
  apply (flush_overdue_flushes write_buffer); intros pfw.
  - intros s. eapply wp_mono; [apply emit_correlated_file_reports|]. by intros o s' (? & _).
  - apply wp_seen; [apply total_emit_correlated_file|apply seen_emit_file].
Qed.
Lemma retain_reads_flushes g : flushes read_buffer g (retain_reads g).
Proof.
  intros vec. induction vec as [|x vec IH]; intros s; cbn [retain_reads].
  { apply wp_mret. split_and!; [done|done|done|]. by intros x ?%not_elem_of_nil. }
  apply wp_bind. eapply wp_intro; [done|]. cbn [fst snd]. apply wp_bind. eapply wp_mono; [apply IH|].
  intros rest s2 (Hb & Hs & Hsub & Hfr). apply wp_mret. cbn in Hb, Hs.
  assert (∀ y, y ∈ rest → fresh read_buffer g (instant (seen s)) y) as Hfr'.
  { intros y Hy. apply (fresh_later read_buffer g (seen s) (S (seen s))); [lia|by apply Hfr]. }
  destruct (Z.ltb_spec (elapsed_at (instant (seen s)) (pfr_buffered_at x)) g);
    split_and!; [done|lia|by constructor| |done|lia|by constructor|done].
  intros y [->|Hy]%elem_of_cons; [done|auto].
Qed.

Lemma read_keep_ticks g :
  rel_m (keeps read_pending) (tick_connects g) ∧ rel_m (keeps read_pending) (tick_writes g).
Proof.
  pose proof (λ pid a img sev dets daddr dport proto,
    proj1 (read_keep_emits pid a img sev dets daddr dport proto "")).
  pose proof (λ pid a img sev dets path, proj2 (read_keep_emits pid a img sev dets "" 0 "" path)).
  assert (∀ pid vec, rel_m (keeps read_pending) (flush_connects g pid vec))
    by (intros pid vec; induction vec; cbn [flush_connects]; solve_keeps).
  assert (∀ pid vec, rel_m (keeps read_pending) (flush_writes g pid vec))
    by (intros pid vec; induction vec; cbn [flush_writes]; solve_keeps).
  unfold tick_connects, tick_writes. split; solve_keeps.
Qed.

Lemma total_ticks g :
  total_m (tick_connects g) ∧ total_m (tick_writes g) ∧ total_m (tick_reads g) ∧ total_m tick_exited ∧
  total_m tick_chain.
Proof.
  pose proof total_flush_connects. pose proof total_flush_writes. pose proof total_retain_reads.
  pose proof total_is_expired.
  unfold tick_connects, tick_writes, tick_reads, tick_exited, tick_chain. split_and!; solve_total.
Qed.

(** The tick leaves only fresh items. *)
Lemma tick_fresh_conn g s :
  wp (tick g) (λ _ s', shrank conn_buffer s s' ∧
    ∀ kx, kx ∈ contents (pending s') → fresh conn_buffer g (instant (seen s)) kx.2) s.
Proof.
  destruct (total_ticks g) as (T1 & T2 & T3 & T4 & T5). unfold tick. apply wp_bind.
  eapply (wp_mono _ (λ _ s', shrank conn_buffer s s' ∧
    ∀ kx, kx ∈ contents (pending s') → fresh conn_buffer g (instant (seen s)) kx.2)).
  { eapply wp_ext; [apply tick_connects_eq|].
    apply (tick_loop_spec conn_buffer g (λ pid, flush_overdue conn_buffer (report_connect pid) g)).
    intros pid. apply flush_connects_flushes. }
  intros u s1 [Hsh Hfr]. eapply wp_mono; [apply (conn_still (tick_writes g;; tick_reads g;; tick_exited;; tick_chain))|].
  - solve_total.
  - apply keep_tick_rest.
  - intros u' s2 Hb. cbn in Hb. rewrite Hb. split; [|done]. unfold shrank. cbn. by rewrite Hb.
Qed.

Lemma tick_fresh_write g s :
  wp (tick g) (λ _ s', shrank write_buffer s s' ∧
    ∀ kx, kx ∈ contents (file_pending s') → fresh write_buffer g (instant (seen s)) kx.2) s.
Proof.
  destruct (total_ticks g) as (T1 & T2 & T3 & T4 & T5). unfold tick. apply wp_bind.
  eapply wp_mono; [apply wp_and; [apply (write_still (tick_connects g)); [done|apply keep_tick_rest]|
    apply (wp_total _ seen_le); [done|]]|].
  { pose proof (λ pid v, proj1 (seen_flush g pid v [] [])). unfold tick_connects. solve_seen. }
  intros u s1 [Hb1 Hs1]. cbn in Hb1. apply wp_bind.
  eapply wp_mono.
  { eapply wp_ext; [apply tick_writes_eq|].
    apply (tick_loop_spec write_buffer g (λ pid, flush_overdue write_buffer (report_write pid) g)).
    intros pid. apply flush_writes_flushes. }
  intros u' s2 [Hsh Hfr]. eapply wp_mono; [apply (write_still (tick_reads g;; tick_exited;; tick_chain))|].
  - solve_total.
  - apply keep_tick_rest.
  - intros u3 s3 Hb. cbn in Hb. rewrite Hb. unfold shrank in *. cbn in *. rewrite Hb, <-Hb1. split; [done|].
    intros kx Hkx. by apply (fresh_later write_buffer g (seen s) (seen s1)), Hfr.
Qed.

Lemma tick_shrinks_read g : shrinks read_buffer (tick g).
Proof.
  destruct (total_ticks g) as (T1 & T2 & T3 & T4 & T5). destruct (read_keep_ticks g) as [K1 K2].
  unfold tick. apply shrinks_bind; [by apply still_eb|intros _]. apply shrinks_bind; [by apply still_eb|intros _].
  apply shrinks_bind; [|intros _; apply shrinks_bind; [by apply still_eb, eb_tick_exited|intros _]].
  - intros s. eapply wp_mono; [apply (tick_loop_spec read_buffer g (λ _, retain_reads g))|by intros u s' [? _]].
    intros _. apply retain_reads_flushes.
  - apply still_eb; eauto with torda typeclass_instances.
Qed.

Lemma shutdown_shrinks :
  shrinks conn_buffer shutdown ∧ shrinks write_buffer shutdown ∧ shrinks read_buffer shutdown.
Proof.
  assert (total_m flush_pending_on_shutdown ∧ total_m flush_file_pending_on_shutdown) as [T1 T2]
    by (unfold flush_pending_on_shutdown, flush_file_pending_on_shutdown; split; solve_total).
  destruct keep_shutdown as [K1 K2].
  pose proof (λ pid a img sev dets daddr dport proto,
    proj1 (read_keep_emits pid a img sev dets daddr dport proto "")).
  pose proof (λ pid a img sev dets path, proj2 (read_keep_emits pid a img sev dets "" 0 "" path)).
  unfold shutdown. split_and!.
  - apply shrinks_bind; [apply (flush_all_shrinks conn_buffer report_connect)|intros _].
    { intros pid pc s. eapply wp_mono; [apply emit_correlated_reports|]. by intros o s' (? & _). }
    apply shrinks_bind; [by apply shrinks_still, conn_still|intros _]. by apply still_eb; [apply total_modify|].
  - apply shrinks_bind; [by apply shrinks_still, write_still|intros _].
    apply shrinks_bind; [apply (flush_all_shrinks write_buffer report_write)|intros _].
    { intros pid pc s. eapply wp_mono; [apply emit_correlated_file_reports|]. by intros o s' (? & _). }
    by apply still_eb; [apply total_modify|].
  - apply still_eb; [solve_total|]. unfold flush_pending_on_shutdown, flush_file_pending_on_shutdown. solve_keeps.
Qed.

(** ** One delivery *)

Definition quiet_wake {K} (pick : SubstrateEvent V → option K) (w : Wake V) : Prop :=
  match w with Recv ev => pick ev = None | _ => True end.

Lemma wake_took g (w : Wake V) s :
  wp (wake g w) (λ _ s', took conn_buffer MAX_PENDING_CONNECTS (quiet_wake connect_of w) s s' ∧
    took write_buffer MAX_PENDING_FILE_WRITES (quiet_wake write_of w) s s' ∧ read_took s s') s.
Proof.
  unfold wake. apply wp_bind, wp_gets. destruct (negb _); [|destruct w as [ev| | | |]].
  - apply wp_and; [|apply wp_and]; apply shrinks_took, shrinks_mret.
  - apply event_took.
  - apply wp_and; [|apply wp_and]; apply shrinks_took, shrinks_mret.
  - apply wp_and; [|apply wp_and; [|apply shrinks_took, tick_shrinks_read]].
    + eapply wp_mono; [apply tick_fresh_conn|]. intros u s' [? _]. by apply took_shrank.
    + eapply wp_mono; [apply tick_fresh_write|]. intros u s' [? _]. by apply took_shrank.
  - destruct shutdown_shrinks as (? & ? & ?). apply wp_and; [|apply wp_and]; by apply shrinks_took.
  - destruct shutdown_shrinks as (? & ? & ?). apply wp_and; [|apply wp_and]; by apply shrinks_took.
Qed.

(** ** Stamps *)

Section stamps.
Context {K P : Type} (b : Buffer K P).

Definition stamped (T : Z) (s : Corr) : Prop := ∀ kx, kx ∈ contents (buf b s) → stamp_of b kx.2 ≤ T.

(** Everything buffered was stamped by now ... *)
Lemma stamped_now cap quiet s s' :
  seen_le s s' → took b cap quiet s s' → stamped (instant (seen s)) s → stamped (instant (seen s')) s'.
Proof.
  intros Hs [_ (new & Hsub & Hst & _)] Hold kx Hkx.
  eapply elem_of_submseteq in Hsub; [|exact Hkx]. apply elem_of_app in Hsub as [Hn|Ho].
  - destruct (Hst kx Hn) as (i & Hi & ->). apply instant_mono. lia.
  - pose proof (Hold kx Ho). pose proof (instant_mono _ _ Hs). lia.
Qed.

(** ... and while nothing new arrives, no later. *)
Lemma stamped_quiet cap (quiet : Prop) T s s' : quiet → took b cap quiet s s' → stamped T s → stamped T s'.
Proof.
  intros Hq [_ (new & Hsub & _ & Hnew)] Hold kx Hkx. rewrite (Hnew Hq) in Hsub.
  apply Hold. by eapply elem_of_submseteq.
Qed.
End stamps.

Implicit Type ws : list (Wake V).

Lemma task_seen g ws : rel_m seen_le (run_task g ws).
Proof. apply rel_m_for_each; [exact _|]. intros w. apply seen_wake. Qed.

Lemma task_bounded g ws s :
  (pending_total (pending s) ≤ MAX_PENDING_CONNECTS)%nat →
  (file_pending_total (file_pending s) ≤ MAX_PENDING_FILE_WRITES)%nat →
  (read_pending_total (read_pending s) ≤ MAX_PENDING_FILE_READS)%nat →
  stamped conn_buffer (instant (seen s)) s → stamped write_buffer (instant (seen s)) s →
  wp (run_task g ws) (λ _ s',
    (pending_total (pending s') ≤ MAX_PENDING_CONNECTS)%nat ∧
    (file_pending_total (file_pending s') ≤ MAX_PENDING_FILE_WRITES)%nat ∧
    (read_pending_total (read_pending s') ≤ MAX_PENDING_FILE_READS)%nat ∧
    stamped conn_buffer (instant (seen s')) s' ∧ stamped write_buffer (instant (seen s')) s') s.
Proof.
  intros Hp Hf Hr Hc Hw.
  apply (wp_for_each (wake g) (λ _ s', (pending_total (pending s') ≤ MAX_PENDING_CONNECTS)%nat ∧
    (file_pending_total (file_pending s') ≤ MAX_PENDING_FILE_WRITES)%nat ∧
    (read_pending_total (read_pending s') ≤ MAX_PENDING_FILE_READS)%nat ∧
    stamped conn_buffer (instant (seen s')) s' ∧ stamped write_buffer (instant (seen s')) s')); [|done].
  clear dependent s. intros w ws' s (Hp & Hf & Hr & Hc & Hw).
  eapply wp_mono; [apply wp_and; [apply wake_took|apply (wp_total _ seen_le); [apply total_wake|apply seen_wake]]|].
  intros u s' [(Htc & Htw & Htr) Hs]. split_and!; [by apply Htc|by apply Htw|by apply Htr|..];
    by eapply stamped_now.
Qed.

Lemma task_quiet g ws T1 T2 s :
  Forall (quiet_wake connect_of) ws → Forall (quiet_wake write_of) ws →
  stamped conn_buffer T1 s → stamped write_buffer T2 s →
  wp (run_task g ws) (λ _ s', stamped conn_buffer T1 s' ∧ stamped write_buffer T2 s') s.
Proof.
  intros Hq1 Hq2 Hc Hw.
  eapply wp_mono; [apply (wp_for_each (wake g) (λ ws s', Forall (quiet_wake connect_of) ws ∧
    Forall (quiet_wake write_of) ws ∧ stamped conn_buffer T1 s' ∧ stamped write_buffer T2 s'))|].
  - clear dependent s. intros w ws' s ([Hw1 Hq1']%Forall_cons & [Hw2 Hq2']%Forall_cons & Hc & Hw).
    eapply wp_mono; [apply wake_took|]. intros u s' (Htc & Htw & _).
    split_and!; [done|done|..].
    + exact (stamped_quiet conn_buffer _ _ T1 s s' Hw1 Htc Hc).
    + exact (stamped_quiet write_buffer _ _ T2 s s' Hw2 Htw Hw).
  - done.
  - by intros u s' (_ & _ & ? & ?).
Qed.
End took.

(** ** Memory and liveness of the whole task *)

Section task.
Context `{Host, !HostLaws} {V : Type} `{JsonValue V, JsonGet V}.
Implicit Type ws : list (Wake V).

Lemma accepted_quiet {K} (pick : SubstrateEvent V → option K) ws :
  existsb stops ws = false → accepted pick ws = [] → Forall (quiet_wake pick) ws.
Proof.
  induction ws as [|w ws IH]; intros Hst Hacc; [done|]. cbn in Hst. apply orb_false_iff in Hst as [Hw Hst].
  destruct w as [ev| | | |]; try done; cbn in Hacc; [|constructor; by auto..].
  apply app_eq_nil in Hacc as [Hev Hacc]. constructor; [cbn; by destruct (pick ev)|auto].
Qed.

Lemma accepted_app {K} (pick : SubstrateEvent V → option K) ws1 ws2 :
  existsb stops ws1 = false → accepted pick (ws1 ++ ws2) = accepted pick ws1 ++ accepted pick ws2.
Proof.
  induction ws1 as [|w ws1 IH]; intros Hst; [done|]. cbn in Hst. apply orb_false_iff in Hst as [Hw Hst].
  destruct w; try done; cbn; rewrite IH by done; [|done..]. by rewrite app_assoc.
Qed.

Lemma accepted_tail {K} (pick : SubstrateEvent V → option K) ws ws' :
  existsb stops (ws ++ ws') = false → accepted pick ws' = [] →
  accepted pick (ws ++ ws' ++ [Tick]) = accepted pick ws.
Proof.
  rewrite existsb_app. intros [Hst1 Hst2]%orb_false_iff Hq.
  rewrite !accepted_app by done. rewrite Hq. cbn. by rewrite app_nil_r.
Qed.

Lemma run_task_app g ws1 ws2 s :
  run_task g (ws1 ++ ws2) s = (run_task g ws1;; run_task g ws2) s.
Proof. apply for_each_app. Qed.

Lemma running_task g ws s :
  existsb stops ws = false → running s = true → wp (run_task g ws) (λ _ s', running s' = true) s.
Proof.
  intros Hst Hr. eapply wp_mono; [apply (wp_for_each (wake g) (λ ws s', existsb stops ws = false ∧ running s' = true))|].
  - clear dependent s. intros w ws' s [[Hw Hst']%orb_false_iff Hr].
    eapply wp_mono; [by apply wake_conserves|]. intros u s' (_ & _ & Hrun & _). by rewrite Hrun, Hw.
  - done.
  - by intros u s' [_ ?].
Qed.

Lemma stamped_new {K P} (b : Buffer K P) T : buf b corr_new = ∅ → stamped b T corr_new.
Proof. intros Hb kx. rewrite Hb, contents_empty. by intros ?%not_elem_of_nil. Qed.

Lemma bounded_new :
  (pending_total (pending corr_new) ≤ MAX_PENDING_CONNECTS)%nat ∧
  (file_pending_total (file_pending corr_new) ≤ MAX_PENDING_FILE_WRITES)%nat ∧
  (read_pending_total (read_pending corr_new) ≤ MAX_PENDING_FILE_READS)%nat.
Proof.
  unfold pending_total, file_pending_total, read_pending_total. rewrite !total_contents.
  cbn [pending file_pending read_pending corr_new]. rewrite !contents_empty. cbn [length]. lia.
Qed.

(** Nothing stamped [g] before a tick survives it. *)
Lemma tick_clears g T s :
  stamped conn_buffer T s → stamped write_buffer T s → g ≤ instant (seen s) - T →
  wp (tick g) (λ _ s', contents (pending s') = [] ∧ contents (file_pending s') = []) s.
Proof.
  intros Hc Hw Hg. eapply wp_mono; [apply wp_and; [apply tick_fresh_conn|apply tick_fresh_write]|].
  intros u s' [[Hsc Hfc] [Hsw Hfw]]. split.
  - destruct (contents (pending s')) as [|kx l] eqn:Heq; [done|exfalso].
    pose proof (Hfc kx ltac:(by left)) as Hf. unfold fresh, elapsed_at in Hf.
    assert (kx ∈ contents (pending s)) as Hin by (eapply elem_of_submseteq; [|exact Hsc]; cbn; rewrite Heq; by left).
    specialize (Hc kx Hin). cbn in Hc, Hf. lia.
  - destruct (contents (file_pending s')) as [|kx l] eqn:Heq; [done|exfalso].
    pose proof (Hfw kx ltac:(by left)) as Hf. unfold fresh, elapsed_at in Hf.
    assert (kx ∈ contents (file_pending s)) as Hin by (eapply elem_of_submseteq; [|exact Hsw]; cbn; rewrite Heq; by left).
    specialize (Hw kx Hin). cbn in Hw, Hf. lia.
Qed.

(** The three stretches of the history, as runs. *)
Lemma quiet_history g ws ws' :
  existsb stops (ws ++ ws') = false → accepted connect_of ws' = [] → accepted write_of ws' = [] →
  ∃ s1 s2, run_task g ws corr_new = (s1, Ok tt) ∧ run_task g (ws ++ ws') corr_new = (s2, Ok tt) ∧
    running s2 = true ∧ stamped conn_buffer (instant (seen s1)) s2 ∧
    stamped write_buffer (instant (seen s1)) s2.
Proof.
  intros Hst Hq1 Hq2. pose proof Hst as Hst'. rewrite existsb_app in Hst'.
  apply orb_false_iff in Hst' as [_ Hst2]. destruct bounded_new as (B1 & B2 & B3).
  destruct (wp_ok _ _ _ (task_bounded g ws corr_new B1 B2 B3 (stamped_new conn_buffer _ eq_refl)
    (stamped_new write_buffer _ eq_refl))) as ([] & s1 & Hr1 & _ & _ & _ & Hc1 & Hw1).
  destruct (wp_ok _ _ _ (task_quiet g ws' _ _ s1 (accepted_quiet _ _ Hst2 Hq1) (accepted_quiet _ _ Hst2 Hq2)
    Hc1 Hw1)) as ([] & s2 & Hr2 & Hc2 & Hw2).
  assert (run_task g (ws ++ ws') corr_new = (s2, Ok tt)) as Hr12
    by (rewrite run_task_app; by rewrite (bind_ok _ _ _ _ _ Hr1)).
  exists s1, s2. split_and!; [done..| |done|done].
  pose proof (running_task g (ws ++ ws') corr_new Hst eq_refl) as Hrun. unfold wp in Hrun. by rewrite Hr12 in Hrun.
Qed.

(** C13: over a quiet period no event waits past its grace.  Let [ws] be any history
    of the task and [ws'] a continuation in which no connection and no file write is
    accepted (other events and ticks may come in); if the clock moved by at least a
    grace period over [ws'], the next tick leaves no connection and no file write
    waiting: each one accepted in [ws] has been reported, or was evicted by the cap
    and is counted.  The quiet period is a hypothesis: an event that is accepted
    during it starts a grace period of its own. *)
Theorem no_event_waits_past_its_grace (g : Z) ws ws' :
  existsb stops (ws ++ ws') = false →
  accepted connect_of ws' = [] → accepted write_of ws' = [] →
  let s1 := (run_task g ws corr_new).1 in
  let s2 := (run_task g (ws ++ ws') corr_new).1 in
  let s3 := (run_task g (ws ++ ws' ++ [Tick]) corr_new).1 in
  g ≤ instant (seen s2) - instant (seen s1) →
  conn_waiting s3 = [] ∧ write_waiting s3 = [] ∧
  (∃ lost, conn_reported s3 ++ lost ≡ₚ accepted connect_of ws ∧
     pending_evicted (counters s3) = wrap_u64 (Z.of_nat (length lost))) ∧
  (∃ lost, write_reported s3 ++ lost ≡ₚ accepted write_of ws ∧
     file_pending_evicted (counters s3) = wrap_u64 (Z.of_nat (length lost))).
Proof.
  intros Hst Hq1 Hq2 s1 s2 s3 Hg.
  destruct (quiet_history g ws ws' Hst Hq1 Hq2) as (t1 & t2 & Hr1 & Hr2 & Hrun & Hc & Hw).
  unfold s1, s2 in Hg. rewrite Hr1, Hr2 in Hg. cbn [fst] in Hg.
  destruct (wp_ok _ _ _ (tick_clears g _ t2 Hc Hw Hg)) as ([] & t3 & Htick & Hp & Hf).
  assert (run_task g (ws ++ ws' ++ [Tick]) corr_new = (t3, Ok tt)) as Hr3.
  { rewrite app_assoc, run_task_app, (bind_ok _ _ _ _ _ Hr2). cbn. unfold m_bind, wake, mbind, M_bind, m_bind, gets.
    rewrite Hrun. cbn [negb]. by rewrite Htick. }
  assert (s3 = t3) as -> by (unfold s3; by rewrite Hr3).
  assert (conn_waiting t3 = [] ∧ write_waiting t3 = []) as [Hcw Hww]
    by (unfold conn_waiting, write_waiting, waiting; cbn [buf conn_buffer write_buffer]; by rewrite Hp, Hf).
  destruct (wp_ok _ _ _ (task_conserves g (ws ++ ws' ++ [Tick]) corr_new eq_refl)) as ([] & t & Hr & Hbc & Hbw & _).
  assert (t = t3) as -> by congruence.
  rewrite accepted_tail in Hbc by done. rewrite accepted_tail in Hbw by done.
  split_and!; [done|done| |].
  - destruct Hbc as (lost & Hl & He). exists lost. rewrite <-count_up_0. split; [|done].
    unfold stock in Hl. unfold conn_waiting in Hcw. cbn [buf conn_buffer] in Hl. rewrite Hcw, app_nil_r in Hl.
    unfold waiting in Hl. cbn in Hl. by rewrite contents_empty in Hl.
  - destruct Hbw as (lost & Hl & He). exists lost. rewrite <-count_up_0. split; [|done].
    unfold stock in Hl. unfold write_waiting in Hww. cbn [buf write_buffer] in Hl. rewrite Hww, app_nil_r in Hl.
    unfold waiting in Hl. cbn in Hl. by rewrite contents_empty in Hl.
Qed.
End task.
