(* ===== verification/CorrMemory.v ===== *)
(** * The correlator's memory is bounded

    Every map of the task stays within its cap, whatever the bus delivers. *)

From Stdlib Require Import ZArith.
From stdpp Require Import base tactics gmap strings list.
From S2P Require Import Prelude Transport Keys Version CveSource Ocsf Substrate.
From S2P Require Import ProcMon NetMon FileMon Corr CorrFacts CorrConserve CorrBounds.

Local Open Scope Z_scope.

Record small (s : Corr) : Prop := {
  sm_contexts : (size (contexts s) ≤ MAX_TRACKED)%nat;
  sm_exited : (size (recently_exited s) ≤ MAX_RECENTLY_EXITED)%nat;
  sm_chain : (size (chain s) ≤ MAX_CHAIN_TRACKED)%nat;
}.

Definition maps_view (s : Corr) := (contexts s, recently_exited s, chain s).
Arguments maps_view /.

Lemma small_view s s' : maps_view s' = maps_view s → small s → small s'.
Proof. intros [= Hc Hr Hch] [? ? ?]. split; by rewrite ?Hc, ?Hr, ?Hch. Qed.

Lemma small_forget s s' :
  contexts s' ⊆ contexts s → recently_exited s' ⊆ recently_exited s → chain s' ⊆ chain s →
  small s → small s'.
Proof.
  intros Hc%map_subseteq_size Hr%map_subseteq_size Hch%map_subseteq_size [? ? ?]. split; lia.
Qed.

Lemma min_key_size {T} (f : Z * T → Z) (m : gmap Z T) l :
  l ≡ₚ map_to_list m →
  match min_by_key f l with
  | Some (k, _) => size (delete k m) = pred (size m)
  | None => size m = 0%nat
  end.
Proof.
  intros Hl. destruct (min_by_key f l) as [[k v]|] eqn:Hmin.
  - apply min_by_key_spec in Hmin as [Hin _]. rewrite Hl in Hin. apply elem_of_map_to_list in Hin.
    apply map_size_delete_Some. by eexists.
  - destruct l as [|x l]; [|done]. symmetry in Hl. apply Permutation_nil_r, map_to_list_empty_iff in Hl. by subst.
Qed.

Lemma insert_fits {T} (m : gmap Z T) k v cap :
  (size m ≤ cap)%nat → (m !! k = None → size m < cap)%nat → (size (<[k := v]> m) ≤ cap)%nat.
Proof.
  intros Hm Hroom. rewrite map_size_insert. destruct (m !! k); [done|]. specialize (Hroom eq_refl). lia.
Qed.

Lemma cap_positive : (0 < MAX_TRACKED ∧ 0 < MAX_RECENTLY_EXITED ∧ 0 < MAX_CHAIN_TRACKED)%nat.
Proof. unfold MAX_TRACKED, MAX_RECENTLY_EXITED, MAX_CHAIN_TRACKED. lia. Qed.

Section memory.
Context `{Host, !HostLaws}.

Lemma maps_now : rel_m (keeps maps_view) now.
Proof. by intros s. Qed.
Lemma maps_walk {T} (m : gmap Z T) : rel_m (keeps maps_view) (walk m).
Proof. by intros s. Qed.
Lemma maps_emit sev d : rel_m (keeps maps_view) (emit sev d).
Proof. by intros s. Qed.
Hint Resolve maps_now maps_walk maps_emit : torda.
Lemma maps_elapsed t : rel_m (keeps maps_view) (elapsed t).
Proof. unfold elapsed. solve_keeps. Qed.
Hint Resolve maps_elapsed : torda.
Lemma maps_emits pid a img sev dets daddr dport proto path :
  rel_m (keeps maps_view) (emit_correlated pid a img sev dets daddr dport proto) ∧
  rel_m (keeps maps_view) (emit_correlated_file pid a img sev dets path).
Proof. unfold emit_correlated, emit_correlated_file. split; solve_keeps. Qed.
Lemma maps_fires cs pid img dets :
  rel_m (keeps maps_view) (maybe_fire_chain cs pid img dets) ∧
  rel_m (keeps maps_view) (maybe_fire_exfil cs pid img dets).
Proof.
  unfold maybe_fire_chain, maybe_fire_exfil, both_fresh, emit_correlated_chain, emit_correlated_exfil.
  split; solve_keeps.
Qed.
Lemma maps_with_stamps l : rel_m (keeps maps_view) (with_stamps l).
Proof. induction l as [|[k cs] l IH]; cbn [with_stamps]; unfold oldest_stamp; solve_keeps. Qed.
Lemma maps_attribution key : rel_m (keeps maps_view) (attribution key).
Proof. unfold attribution. solve_keeps. Qed.
Lemma maps_buffering key img path daddr dport proto :
  rel_m (keeps maps_view) (buffer_connect key img daddr dport proto) ∧
  rel_m (keeps maps_view) (buffer_write key img path) ∧ rel_m (keeps maps_view) (buffer_read key path).
Proof.
  unfold buffer_write, buffer_read, buffer_connect, evict_oldest_file_pending,
    evict_oldest_read_pending, evict_oldest_pending. split_and!; solve_keeps.
Qed.

(** Evictions make room. *)
Lemma evict_context_room s :
  wp evict_oldest_context (λ _ s', size (contexts s') = pred (size (contexts s)) ∧
    recently_exited s' = recently_exited s ∧ chain s' = chain s) s.
Proof.
  unfold evict_oldest_context. apply wp_bind, wp_gets, wp_bind. eapply wp_intro; [done|].
  pose proof (min_key_size (λ kc, exec_ts kc.2) (contexts s) _ (hash_order_perm (seen s) _ _)) as Hm.
  destruct (min_by_key _ _) as [[k c]|]; [by apply wp_modify|]. apply wp_mret. cbn. split_and!; [lia|done|done].
Qed.
Lemma evict_exited_room s :
  wp evict_oldest_exited (λ _ s', size (recently_exited s') = pred (size (recently_exited s)) ∧
    contexts s' = contexts s ∧ chain s' = chain s) s.
Proof.
  unfold evict_oldest_exited. apply wp_bind, wp_gets, wp_bind. eapply wp_intro; [done|].
  pose proof (min_key_size (λ kct, kct.2.2) (recently_exited s) _ (hash_order_perm (seen s) _ _)) as Hm.
  destruct (min_by_key _ _) as [[k c]|]; [by apply wp_modify|]. apply wp_mret. cbn. split_and!; [lia|done|done].
Qed.

(** The stamps carry the keys of the walk. *)
Lemma with_stamps_keys l s :
  wp (with_stamps l) (λ ts s', ts.*1 = l.*1 ∧ maps_view s' = maps_view s) s.
Proof.
  revert s. induction l as [|[k cs] l IH]; intros s; cbn [with_stamps]; [by apply wp_mret|].
  apply wp_bind. eapply wp_mono; [apply (wp_total _ (keeps maps_view)); [apply total_oldest_stamp|]|].
  { unfold oldest_stamp. solve_keeps. }
  intros t s1 Hv1. apply wp_bind. eapply wp_mono; [apply IH|]. intros ts s2 [Hk Hv2]. apply wp_mret.
  cbn. rewrite Hk. split; [done|]. by transitivity (maps_view s1).
Qed.
Lemma evict_chain_room s :
  wp evict_oldest_chain (λ _ s', size (chain s') = pred (size (chain s)) ∧
    contexts s' = contexts s ∧ recently_exited s' = recently_exited s) s.
Proof.
  unfold evict_oldest_chain. apply wp_bind, wp_gets, wp_bind. eapply wp_intro; [done|].
  set (l := hash_order _ _ _). assert (l ≡ₚ map_to_list (chain s)) as Hl by apply hash_order_perm.
  apply wp_bind. eapply wp_mono; [apply with_stamps_keys|]. intros ts s1 [Hk Hv]. injection Hv as Hc Hr Hch.
  destruct (min_by_key snd ts) as [[k t]|] eqn:Hmin.
  - apply wp_modify. cbn. split_and!; [|done|done]. apply map_size_delete_Some.
    apply min_by_key_spec in Hmin as [Hin _].
    assert (k ∈ l.*1) as Hkl by (rewrite <-Hk; apply list_elem_of_fmap; by exists (k, t)).
    apply list_elem_of_fmap in Hkl as ([k' cs] & -> & Hkl). rewrite Hl in Hkl.
    apply elem_of_map_to_list in Hkl. by eexists.
  - apply wp_mret. split_and!; [|done|done]. rewrite Hch.
    destruct ts; [|done]. destruct l; [|done]. symmetry in Hl.
    apply Permutation_nil_r, map_to_list_empty_iff in Hl. by rewrite Hl.
Qed.

Lemma small_quiet {A} (m : M Corr A) : total_m m → rel_m (keeps maps_view) m → preserves small m.
Proof. intros Hm HR. eapply preserves_total; [done|exact HR|]. intros s s' Hv. by apply small_view. Qed.
Lemma small_modify (f : Corr → Corr) : (∀ s, maps_view (f s) = maps_view s) → preserves small (modify f).
Proof. intros Hf. apply preserves_modify. intros s. apply small_view, Hf. Qed.
Lemma small_drop (f : Corr → Corr) :
  (∀ s, contexts (f s) ⊆ contexts s ∧ recently_exited (f s) ⊆ recently_exited s ∧
     chain (f s) ⊆ chain s) → preserves small (modify f).
Proof. intros Hf. apply preserves_modify. intros s. destruct (Hf s) as (? & ? & ?). by apply small_forget. Qed.

(** A tracker is put back only where there is room for it. *)
Definition room (key : Z) (s : Corr) : Prop :=
  small s ∧ (chain s !! key = None → size (chain s) < MAX_CHAIN_TRACKED)%nat.

Lemma chain_entry_room key s : small s → wp (chain_entry key) (λ _ s', room key s') s.
Proof.
  intros Hs. unfold chain_entry. apply wp_bind, wp_gets, wp_bind.
  eapply (wp_mono _ (λ _ s', room key s')); [|intros u s' Hs'; by apply wp_bind, wp_gets, wp_mret].
  destruct Hs as [H1 H2 H3]. pose proof cap_positive.
  destruct (bool_decide _ && bool_decide _) eqn:Hfull.
  - eapply wp_mono; [apply evict_chain_room|]. intros u s' (Hlen & Hc & Hr).
    split; [split; rewrite ?Hc, ?Hr; lia|]. intros _. lia.
  - apply wp_mret. split; [done|]. intros Hk. apply andb_false_iff in Hfull as [Hb|Hb];
      apply bool_decide_eq_false in Hb; [done|lia].
Qed.

Lemma room_view key s s' : maps_view s' = maps_view s → room key s → room key s'.
Proof. intros Hv [Hs Hr]. split; [by eapply small_view|]. injection Hv as _ _ Hch. by rewrite Hch. Qed.

Lemma room_quiet key {A} (m : M Corr A) : total_m m → rel_m (keeps maps_view) m → preserves (room key) m.
Proof. intros Hm HR. eapply preserves_total; [done|exact HR|]. intros s s' Hv. by apply room_view. Qed.

Lemma chain_put_small key cs s : room key s → wp (chain_put key cs) (λ _ s', small s') s.
Proof. intros [[H1 H2 H3] Hr]. apply wp_modify. split; [done|done|]. by apply insert_fits. Qed.

Ltac room_step := cbn beta in *; apply wp_bind; eapply wp_mono;
  [apply room_quiet; [solve [eauto with torda]|solve [eauto with torda|apply maps_fires]|eassumption]|].

Lemma records_small pid img dets daddr dport proto path ds :
  preserves small (record_connect_and_maybe_chain pid img dets daddr dport proto ds) ∧
  preserves small (record_file_and_maybe_chain pid img dets path ds) ∧
  preserves small (record_read_and_maybe_exfil pid img dets path ds).
Proof.
  unfold record_connect_and_maybe_chain, record_file_and_maybe_chain, record_read_and_maybe_exfil.
  split_and!; intros s Hs; apply wp_bind; (eapply wp_mono; [by apply chain_entry_room|]);
    intros cs s1 Hs1; room_step; intros t s2 Hs2; room_step; intros cs3 s3 Hs3.
  - room_step. intros cs4 s4 Hs4. by apply chain_put_small.
  - by eapply chain_put_small.
  - by eapply chain_put_small.
Qed.

Ltac small_drop_prim := apply small_drop; intros ?; cbn;
  split_and!; first [reflexivity|apply delete_subseteq].
Ltac small_leaf :=
  first [ solve [eauto 2 with torda nocore]
        | solve [apply small_quiet; eauto 3 with torda nocore]
        | apply preserves_bind; [|intros ?]
        | apply preserves_for_each; intros ?
        | solve [apply small_modify; intros ?; reflexivity]
        | solve [small_drop_prim] ].
Ltac solve_small := walk_body small_leaf.
Hint Resolve preserves_mret preserves_gets : torda.

Lemma attributed_small pid img sev dets daddr dport proto path :
  preserves small (connect_attributed pid img sev dets daddr dport proto) ∧
  preserves small (write_attributed pid img sev dets path).
Proof.
  destruct (maps_emits pid true img sev dets daddr dport proto path) as [He1 He2].
  pose proof (λ ds, proj1 (records_small pid img dets daddr dport proto "" ds)).
  pose proof (λ ds, proj1 (proj2 (records_small pid img dets "" 0 "" path ds))).
  unfold connect_attributed, write_attributed. split; solve_small.
Qed.

Lemma drains_small pid key img sev dets :
  preserves small (drain_connects pid key img sev dets;; drain_writes pid key img sev dets;;
                   drain_reads pid key img dets).
Proof.
  pose proof (λ daddr dport proto, proj1 (attributed_small pid img sev dets daddr dport proto "")).
  pose proof (λ path, proj2 (attributed_small pid img sev dets "" 0 "" path)).
  pose proof (λ path ds, proj2 (proj2 (records_small pid img dets "" 0 "" path ds))).
  unfold drain_connects, drain_writes, drain_reads. solve_small.
Qed.

Context {V : Type} `{JsonValue V, JsonGet V}.
Implicit Type ev : SubstrateEvent V.

Lemma handle_exec_small ev : preserves small (handle_exec ev).
Proof.
  unfold handle_exec. destruct (get_u64 _ _) as [pid|]; [|apply preserves_mret].
  destruct (get_str _ _) as [img|]; [|apply preserves_mret].
  apply preserves_bind; [small_drop_prim|intros _]. apply preserves_bind; [|intros _].
  { apply small_drop. intros s. destruct (chain s !! _); cbn; split_and!;
      first [reflexivity|apply delete_subseteq]. }
  apply preserves_bind; [apply preserves_gets|]. intros inh. destruct (inherit _ inh) as [sev dets].
  intros s Hs. apply wp_bind, wp_gets, wp_bind. pose proof cap_positive.
  eapply (wp_mono _ (λ _ s', small s' ∧
    (contexts s' !! wrap_u32 pid = None → size (contexts s') < MAX_TRACKED)%nat)).
  { destruct (bool_decide _ && bool_decide _) eqn:Hfull.
    - destruct Hs as [H1' H2' H3']. eapply wp_mono; [apply evict_context_room|]. intros u s' (Hlen & Hr & Hc).
      split; [split; rewrite ?Hc, ?Hr; lia|]. intros _. lia.
    - apply wp_mret. split; [done|]. intros Hk. apply andb_false_iff in Hfull as [Hb|Hb];
        apply bool_decide_eq_false in Hb; [done|lia]. }
  intros u s' [[H1' H2' H3'] Hroom]. apply wp_bind, wp_modify, wp_bind, wp_modify. apply drains_small.
  split; [by apply insert_fits|done|done].
Qed.

Lemma handle_exit_small ev : preserves small (handle_exit ev).
Proof.
  unfold handle_exit. destruct (get_u64 _ _) as [pid|]; [|apply preserves_mret].
  intros s Hs. apply wp_bind, wp_gets, wp_bind.
  eapply (wp_mono _ (λ _, small)); [|intros u s' Hs'; by apply wp_modify, (small_view s')].
  destruct (contexts s !! wrap_u32 pid) as [ctx|] eqn:Hctx; [|by apply wp_mret].
  apply wp_bind, wp_modify, wp_bind, wp_gets, wp_bind. pose proof cap_positive.
  assert (small (set_contexts (delete (wrap_u32 pid) (contexts s)) s)) as [H1' H2' H3']
    by (eapply small_forget; [..|exact Hs]; try done; apply delete_subseteq).
  eapply (wp_mono _ (λ _ s', small s' ∧
    (recently_exited s' !! wrap_u32 pid = None → size (recently_exited s') < MAX_RECENTLY_EXITED)%nat)).
  { destruct (bool_decide _ && bool_decide _) eqn:Hfull.
    - eapply wp_mono; [apply evict_exited_room|]. intros u s' (Hlen & Hr & Hc).
      split; [split; rewrite ?Hc, ?Hr; first [done|lia]|]. intros _. lia.
    - apply wp_mret. split; [done|]. intros Hk. apply andb_false_iff in Hfull as [Hb|Hb];
        apply bool_decide_eq_false in Hb; [done|cbn in *; lia]. }
  intros u s' [[] Hroom]. apply wp_bind. eapply wp_intro; [done|]. apply wp_modify.
  split; [done| |done]. by apply insert_fits.
Qed.

Lemma handle_event_small ev : preserves small (handle_event ev).
Proof.
  pose proof (λ pid img sev dets daddr dport proto, proj1 (attributed_small pid img sev dets daddr dport proto "")).
  pose proof (λ pid img sev dets path, proj2 (attributed_small pid img sev dets "" 0 "" path)).
  pose proof (λ pid img dets path ds, proj2 (proj2 (records_small pid img dets "" 0 "" path ds))).
  destruct total_evictions as (T1 & T2 & T3 & _).
  assert (∀ key, preserves small (attribution key)) by
    (intros key; apply small_quiet; [apply total_attribution|apply maps_attribution]).
  assert (∀ key img daddr dport proto, preserves small (buffer_connect key img daddr dport proto)) by
    (intros key img daddr dport proto; apply small_quiet; [unfold buffer_connect; solve_total|];
     by apply (maps_buffering key img "")).
  assert (∀ key img path, preserves small (buffer_write key img path)) by
    (intros key img path; apply small_quiet; [unfold buffer_write; solve_total|];
     by apply (maps_buffering key img path "" 0 "")).
  assert (∀ key path, preserves small (buffer_read key path)) by
    (intros key path; apply small_quiet; [unfold buffer_read; solve_total|];
     by apply (maps_buffering key "" path "" 0 "")).
  unfold handle_event. destruct (kind ev); [apply handle_exec_small|apply handle_exit_small|..];
    unfold handle_file_open, handle_file_write, handle_connect; solve_small.
Qed.

Lemma tick_small g : preserves small (tick g).
Proof.
  assert (∀ pid vec, preserves small (flush_connects g pid vec)) by
    (intros pid vec; apply small_quiet; [apply total_flush_connects|];
     pose proof (λ pid a img sev dets daddr dport proto, proj1 (maps_emits pid a img sev dets daddr dport proto ""));
     induction vec; cbn [flush_connects]; solve_keeps).
  assert (∀ pid vec, preserves small (flush_writes g pid vec)) by
    (intros pid vec; apply small_quiet; [apply total_flush_writes|];
     pose proof (λ pid a img sev dets path, proj2 (maps_emits pid a img sev dets "" 0 "" path));
     induction vec; cbn [flush_writes]; solve_keeps).
  assert (∀ vec, preserves small (retain_reads g vec)) by
    (intros vec; apply small_quiet; [apply total_retain_reads|];
     induction vec; cbn [retain_reads]; solve_keeps).
  assert (∀ cs, preserves small (is_expired cs)) by
    (intros cs; apply small_quiet; [apply total_is_expired|]; unfold is_expired, half_old; solve_keeps).
  unfold tick, tick_connects, tick_writes, tick_reads, tick_exited, tick_chain. solve_small.
Qed.

Lemma shutdown_small : preserves small shutdown.
Proof.
  pose proof (λ pid a img sev dets daddr dport proto, proj1 (maps_emits pid a img sev dets daddr dport proto "")).
  pose proof (λ pid a img sev dets path, proj2 (maps_emits pid a img sev dets "" 0 "" path)).
  unfold shutdown, flush_pending_on_shutdown, flush_file_pending_on_shutdown. solve_small.
Qed.

Lemma small_new : small corr_new.
Proof. split; cbn [contexts recently_exited chain corr_new]; rewrite map_size_empty; lia. Qed.

Lemma wake_small g (w : Wake V) : preserves small (wake g w).
Proof.
  pose proof handle_event_small. pose proof tick_small. pose proof shutdown_small.
  unfold wake. solve_small.
Qed.

(** C26: the memory of the correlator is bounded: after any history of deliveries,
    however hostile, at most 4096 live processes, 4096 exited ones and 4096 chain
    trackers are kept, and at most 4096 connections, file writes and file reads are
    waiting for their process, over all pids together. *)
Theorem memory_is_bounded (g : Z) (ws : list (Wake V)) :
  let s := (run_task g ws corr_new).1 in
  (size (contexts s) ≤ MAX_TRACKED)%nat ∧ (size (recently_exited s) ≤ MAX_RECENTLY_EXITED)%nat ∧
  (size (chain s) ≤ MAX_CHAIN_TRACKED)%nat ∧
  (pending_total (pending s) ≤ MAX_PENDING_CONNECTS)%nat ∧
  (file_pending_total (file_pending s) ≤ MAX_PENDING_FILE_WRITES)%nat ∧
  (read_pending_total (read_pending s) ≤ MAX_PENDING_FILE_READS)%nat.
Proof.
  intros s. destruct bounded_new as (B1 & B2 & B3).
  pose proof (preserves_for_each small (wake g) ws (wake_small g) corr_new small_new) as Hsm.
  pose proof (task_bounded g ws corr_new B1 B2 B3 (stamped_new conn_buffer _ eq_refl)
    (stamped_new write_buffer _ eq_refl)) as Hb.
  destruct (wp_ok _ _ _ (wp_and _ _ _ _ Hsm Hb)) as ([] & s' & Hrun & [? ? ?] & ? & ? & ? & _).
  assert (s = s') as -> by (unfold s, run_task; by rewrite Hrun). done.
Qed.
End memory.
