(* ===== verification/CorrExec.v ===== *)
(** * An exec and the connections around it

    What a connection is reported as does not depend on whether its exec was
    delivered before or after it, and suspicion follows a lineage of execs. *)

From Stdlib Require Import ZArith.
From stdpp Require Import base tactics gmap strings list.
From S2P Require Import Prelude Transport Keys Version CveSource Ocsf Substrate.
From S2P Require Import ProcMon NetMon FileMon Corr CorrFacts CorrConserve CorrBounds.
From S2P Require Import CorrMemory.

Local Open Scope Z_scope.

(** What was said, without when it was said. *)
Definition said (s : Corr) : list (Z * CorrData) := (λ e, (em_severity e, em_data e)) <$> emitted s.

(** The record a connection is reported with. *)
Definition connect_record (pid : Z) (img : string) (sev : Z) (dets : list RuleHit)
    (daddr : string) (dport : Z) (proto : string) : Z * CorrData :=
  let net := NetMon.assess daddr dport in
  let fired := (SEV_INFORMATIONAL <? sev) && (SEV_INFORMATIONAL <? assessed net) in
  (if fired then SEV_HIGH else Z.max sev (assessed net),
   mkCorrData "process_network" (mkProcessBlock pid img dets true) None
     (Some (mkConnBlock daddr dport proto (hits net)))
     (if fired then [mkRuleHit CORRELATED_RULE
        ("suspicious process '" +:+ img +:+ "' made a suspicious connection to " +:+ daddr
           +:+ ":" +:+ show_Z dport)] else [])).

(** The tracker of [key] has seen no file. *)
Definition no_halves (key : Z) (s : Corr) : Prop :=
  ∀ cs, chain s !! key = Some cs → cs_file cs = None ∧ cs_read cs = None.

Definition rest_view (s : Corr) := (contexts s, recently_exited s, pending s, file_pending s, read_pending s).
Arguments rest_view /.
Definition quiet_view (s : Corr) := (rest_view s, chain s, said s).
Arguments quiet_view /.

#[export] Instance rest_view_blind : ChainBlind rest_view.
Proof. by split. Qed.

Section connect.
Context `{Host}.

Lemma chain_entry_no_halves key s :
  no_halves key s →
  wp (chain_entry key) (λ cs s', cs_file cs = None ∧ cs_read cs = None ∧ no_halves key s' ∧
    rest_view s' = rest_view s ∧ said s' = said s) s.
Proof.
  intros Hs. unfold chain_entry. apply wp_bind, wp_gets, wp_bind.
  eapply (wp_mono _ (λ _ s', no_halves key s' ∧ rest_view s' = rest_view s ∧ said s' = said s)).
  { destruct (_ && _); [|by apply wp_mret]. unfold evict_oldest_chain.
    apply wp_bind, wp_gets, wp_bind. eapply wp_intro; [done|]. apply wp_bind.
    set (l := hash_order _ _ _). eapply wp_mono; [apply (wp_total _ (keeps quiet_view)); [apply total_with_stamps|]|].
    { assert (∀ cs, rel_m (keeps quiet_view) (oldest_stamp cs)) as Ho.
      { intros cs. unfold oldest_stamp. destruct (omap id _); by intros t. }
      clear Hs. induction l as [|[k cs] l IH]; cbn [with_stamps]; solve_keeps. }
    intros ts s1 [= H1 H2 H3 H4 H5 H6 H7]. destruct (min_by_key snd ts) as [[k t]|].
    - apply wp_modify. split_and!; [|cbn; congruence|done]. intros cs Hcs. cbn in Hcs.
      apply lookup_delete_Some in Hcs as [_ Hcs]. by apply Hs.
    - apply wp_mret. split_and!; [|cbn; congruence|done]. intros cs. rewrite H6. apply Hs. }
  intros u s1 (Hs1 & Hv & Hsaid). apply wp_bind, wp_gets, wp_mret.
  destruct (chain s1 !! key) as [cs|] eqn:Hcs; [|done]. by destruct (Hs1 cs Hcs).
Qed.

Lemma put_no_halves key cs n s :
  cs_file cs = None → cs_read cs = None →
  no_halves key (count (put_chain n) (set_chain (<[key := cs]> (chain s)) s)).
Proof. intros Hf Hr cs'. cbn. rewrite lookup_insert_eq. by intros [= <-]. Qed.

(** A process that touched no file: one record per connection. *)
Lemma connect_attributed_said pid img sev dets daddr dport proto s :
  no_halves (wrap_u32 pid) s →
  wp (connect_attributed pid img sev dets daddr dport proto) (λ _ s',
    said s' = said s ++ [connect_record pid img sev dets daddr dport proto] ∧
    no_halves (wrap_u32 pid) s' ∧ rest_view s' = rest_view s) s.
Proof.
  intros Hs. unfold connect_attributed, emit_correlated. apply wp_bind, wp_bind.
  eapply wp_intro; [done|]. apply wp_mret. set (s1 := push_emission _ _).
  assert (said s1 = said s ++ [connect_record pid img sev dets daddr dport proto]) as Hsaid
    by (unfold s1, said; cbn; by rewrite fmap_app).
  destruct (_ && _); [|by apply wp_mret].
  unfold record_connect_and_maybe_chain. apply wp_bind.
  eapply wp_mono; [apply (chain_entry_no_halves (wrap_u32 pid) s1 Hs)|].
  intros cs s2 (Hf & Hr & Hs2 & Hv2 & Hsaid2). apply wp_bind. eapply wp_intro; [done|].
  apply wp_bind. eapply wp_ext; [apply maybe_fire_chain_eq|]. cbn [fired cs_file cs_conn]. rewrite Hf.
  assert (∀ e, cs_file e = None → cs_read e = None → cs_conn e = Some (mkChainConnHalf daddr dport proto
    (hits (NetMon.assess daddr dport)) (instant (seen s2))) →
    wp (maybe_fire_exfil e pid img dets ≫= chain_put (wrap_u32 pid)) (λ _ s',
      said s' = said s ++ [connect_record pid img sev dets daddr dport proto] ∧
      no_halves (wrap_u32 pid) s' ∧ rest_view s' = rest_view s) (bump_seen s2)) as Hput.
  { intros e Hef Her _. apply wp_bind. eapply wp_ext; [apply maybe_fire_exfil_eq|]. rewrite Her.
    destruct (exfil_fired e); apply wp_mret, wp_modify;
      (split_and!; [by rewrite <-Hsaid, <-Hsaid2|by apply put_no_halves|exact Hv2]). }
  destruct (fired cs); apply wp_mret; by apply Hput.
Qed.

(** ** The exec *)

Context {V : Type} `{JsonValue V, JsonGet V}.
Implicit Type (ev : SubstrateEvent V) (ws : list (Wake V)).

(** The context an exec leaves. *)
Definition exec_context (s : Corr) ev (pid : Z) (image : string) : ProcContext :=
  let '(sev, dets) := inherit (ProcMon.assess image)
    (inherited (set_recently_exited (delete (wrap_u32 pid) (recently_exited s)) s)
               (get_u64 (fields ev) "ppid")) in
  mkProcContext image sev dets (ts ev).

Record exec_started (s : Corr) (key : Z) (ctx : ProcContext) (s1 : Corr) : Prop := {
  es_context : contexts s1 !! key = Some ctx;
  es_others : (contexts s !! key ≠ None ∨ size (contexts s) < MAX_TRACKED)%nat →
              contexts s1 = <[key := ctx]> (contexts s);
  es_chain : chain s1 !! key = None;
  es_pending : pending s1 = pending s;
  es_file_pending : file_pending s1 = file_pending s;
  es_read_pending : read_pending s1 = read_pending s;
  es_said : said s1 = said s;
  es_running : running s1 = running s;
}.

Lemma handle_exec_wp ev pid image Q s :
  get_u64 (fields ev) "pid" = Some pid → get_str (fields ev) "image" = Some image →
  (∀ s1, let ctx := exec_context s ev pid image in
    exec_started s (wrap_u32 pid) ctx s1 →
    wp (drain_connects pid (wrap_u32 pid) image (exec_severity ctx) (exec_detections ctx);;
        drain_writes pid (wrap_u32 pid) image (exec_severity ctx) (exec_detections ctx);;
        drain_reads pid (wrap_u32 pid) image (exec_detections ctx)) Q s1) →
  wp (handle_exec ev) Q s.
Proof.
  intros Hp Hi Hk. unfold handle_exec. rewrite Hp, Hi. unfold exec_context in Hk.
  apply wp_bind, wp_modify, wp_bind, wp_modify, wp_bind, wp_gets.
  set (key := wrap_u32 pid) in *. set (s0 := match _ with Some _ => _ | None => _ end).
  assert (inherited s0 (get_u64 (fields ev) "ppid") =
    inherited (set_recently_exited (delete key (recently_exited s)) s) (get_u64 (fields ev) "ppid")) as ->
    by (unfold s0; cbn; by destruct (chain s !! key)).
  assert (contexts s0 = contexts s ∧ pending s0 = pending s ∧ file_pending s0 = file_pending s ∧
    read_pending s0 = read_pending s ∧ said s0 = said s ∧ running s0 = running s ∧ chain s0 !! key = None)
    as (Hc0 & Hp0 & Hf0 & Hr0 & Hs0 & Hrun0 & Hch0).
  { unfold s0. cbn. destruct (chain s !! key) eqn:Hch; split_and!; try done. cbn. apply lookup_delete_eq. }
  clearbody s0. destruct (inherit _ _) as [sev dets]. cbn [exec_severity exec_detections] in Hk.
  apply wp_bind, wp_gets, wp_bind. rewrite Hc0.
  eapply (wp_mono _ (λ _ s1, (contexts s !! key ≠ None ∨ size (contexts s) < MAX_TRACKED →
      contexts s1 = contexts s)%nat ∧ chain s1 = chain s0 ∧ pending s1 = pending s0 ∧
    file_pending s1 = file_pending s0 ∧ read_pending s1 = read_pending s0 ∧ said s1 = said s0 ∧
    running s1 = running s0)).
  { destruct (bool_decide _ && bool_decide _) eqn:Hfull; [|by apply wp_mret].
    apply andb_true_iff in Hfull as [Hn%bool_decide_eq_true Hsz%bool_decide_eq_true].
    unfold evict_oldest_context. apply wp_bind, wp_gets, wp_bind. eapply wp_intro; [done|].
    destruct (min_by_key _ _) as [[k c]|].
    - apply wp_modify. split_and!; try done. intros [?|?]; [done|lia].
    - apply wp_mret. split_and!; try done. }
  intros u s1 (Hc1 & Hch1 & Hp1 & Hf1 & Hr1 & Hs1 & Hrun1).
  apply wp_bind, wp_modify, wp_bind, wp_modify. apply Hk. split; cbn.
  - apply lookup_insert_eq.
  - intros Hroom. by rewrite (Hc1 Hroom).
  - by rewrite Hch1.
  - congruence.
  - congruence.
  - congruence.
  - unfold said in *. cbn. congruence.
  - congruence.
Qed.

Lemma exec_context_ext s s' ev pid image :
  contexts s' = contexts s → recently_exited s' = recently_exited s →
  exec_context s' ev pid image = exec_context s ev pid image.
Proof. intros Hc Hr. unfold exec_context, inherited. cbn. by rewrite Hc, Hr. Qed.

(** ** Connections of one process *)

Section process.
Context (pid : Z) (image : string).
Let key := wrap_u32 pid.

(** A connection event of this process: it carries its pid, and its command name does
    not contradict the image. *)
Definition own ev : Prop :=
  kind ev = EventKind.NetConnect ∧ (∀ p, get_u64 (fields ev) "pid" = Some p → p = pid) ∧
  same_instance image (default "unknown" (get_str (fields ev) "image")) = true.

Definition endpoint ev : list (string * Z * string) :=
  match connect_of ev with Some (_, daddr, dport, proto) => [(daddr, dport, proto)] | None => [] end.
Definition record_of (ctx : ProcContext) (a : string * Z * string) : Z * CorrData :=
  let '(daddr, dport, proto) := a in
  connect_record pid image (exec_severity ctx) (exec_detections ctx) daddr dport proto.
Definition pc_endpoint (pc : PendingConnect) : string * Z * string := (pc_daddr pc, pc_dport pc, pc_proto pc).

(** After the exec, each is reported at once. *)
Lemma tracked_connect ctx ev s :
  own ev → ctx_image ctx = image → contexts s !! key = Some ctx → no_halves key s →
  wp (handle_event ev) (λ _ s', said s' = said s ++ (record_of ctx <$> endpoint ev) ∧
    no_halves key s' ∧ rest_view s' = rest_view s) s.
Proof.
  intros (Hk & Hpid & Hsame) Himg Hctx Hs. unfold handle_event, endpoint, connect_of. rewrite Hk.
  unfold handle_connect. assert (∀ Q : unit → Corr → Prop, Q tt s → wp (mret tt) Q s) as Hnop by done.
  destruct (get_u64 (fields ev) "pid") as [p|]; [|apply Hnop; by rewrite app_nil_r].
  rewrite (Hpid p eq_refl). destruct (get_str (fields ev) "daddr") as [daddr|]; [|apply Hnop; by rewrite app_nil_r].
  cbn [mbind option_bind]. destruct (get_u64 (fields ev) "dport" ≫= u16_try_from) as [dport|];
    [|apply Hnop; by rewrite app_nil_r].
  fold key. unfold attribution. apply wp_bind, wp_bind, wp_gets. rewrite Hctx. apply wp_mret.
  unfold resolve_instance. rewrite Himg, Hsame. by apply connect_attributed_said.
Qed.

Lemma tracked_connects ctx evs s :
  Forall own evs → ctx_image ctx = image → contexts s !! key = Some ctx → no_halves key s →
  wp (for_each handle_event evs) (λ _ s',
    said s' = said s ++ (record_of ctx <$> (evs ≫= endpoint)) ∧ rest_view s' = rest_view s) s.
Proof.
  intros Hown Himg. revert s. induction Hown as [|ev evs Hev Hown IH]; intros s Hctx Hs.
  { apply wp_ret. by rewrite app_nil_r. }
  apply (wp_bind (handle_event ev) (λ _, for_each handle_event evs)).
  eapply wp_mono; [by apply (tracked_connect ctx)|]. intros u s1 (Hsaid & Hs1 & Hv).
  injection Hv as Hc Hr Hp Hf Hrd. eapply wp_mono; [apply IH; [by rewrite Hc|done]|].
  intros u' s2 (Hsaid2 & Hv2). split; [|cbn in *; congruence].
  cbn. by rewrite Hsaid2, Hsaid, fmap_app, app_assoc.
Qed.

(** Before the exec, each is buffered in order. *)
Definition waits (s0 : Corr) (l : list (string * Z * string)) (s : Corr) : Prop :=
  contexts s = contexts s0 ∧ recently_exited s = recently_exited s0 ∧ said s = said s0 ∧
  file_pending s = file_pending s0 ∧ read_pending s = read_pending s0 ∧
  delete key (pending s) = delete key (pending s0) ∧
  pc_endpoint <$> default [] (pending s !! key) = l ∧
  (total (pending s) = total (pending s0) + length l)%nat.

Lemma untracked_connect s0 l ev s :
  own ev → contexts s0 !! key = None → recently_exited s0 !! key = None → waits s0 l s →
  (total (pending s) < MAX_PENDING_CONNECTS)%nat →
  wp (handle_event ev) (λ _ s', waits s0 (l ++ endpoint ev) s') s.
Proof.
  intros (Hk & Hpid & Hsame) Hc0 Hr0 Hw Hroom. unfold handle_event, endpoint, connect_of. rewrite Hk.
  unfold handle_connect. assert (∀ Q : unit → Corr → Prop, Q tt s → wp (mret tt) Q s) as Hnop by done.
  destruct (get_u64 (fields ev) "pid") as [p|]; [|apply Hnop; by rewrite app_nil_r].
  rewrite (Hpid p eq_refl). destruct (get_str (fields ev) "daddr") as [daddr|]; [|apply Hnop; by rewrite app_nil_r].
  cbn [mbind option_bind]. destruct (get_u64 (fields ev) "dport" ≫= u16_try_from) as [dport|];
    [|apply Hnop; by rewrite app_nil_r].
  destruct Hw as (Hc & Hr & Hsaid & Hf & Hrd & Hdel & Hl & Htot).
  fold key. unfold attribution. apply wp_bind, wp_bind, wp_gets. rewrite Hc, Hc0.
  apply wp_bind, wp_gets. rewrite Hr, Hr0. apply wp_mret.
  unfold buffer_connect. apply wp_bind, wp_gets, wp_bind. rewrite bool_decide_false by (unfold pending_total; lia).
  apply wp_mret, wp_bind. eapply wp_intro; [done|]. apply wp_bind, wp_modify, wp_modify.
  unfold waits. cbn. split_and!; try done.
  - unfold push_item. by rewrite delete_insert_eq.
  - unfold push_item. rewrite lookup_insert_eq. cbn. by rewrite fmap_app, Hl.
  - rewrite total_contents, contents_push. cbn. rewrite <-total_contents, Htot, length_app. cbn. lia.
Qed.

Lemma untracked_connects s0 evs l s :
  Forall own evs → contexts s0 !! key = None → recently_exited s0 !! key = None → waits s0 l s →
  (total (pending s) + length evs ≤ MAX_PENDING_CONNECTS)%nat →
  wp (for_each handle_event evs) (λ _ s', waits s0 (l ++ (evs ≫= endpoint)) s') s.
Proof.
  intros Hown Hc0 Hr0. revert l s. induction Hown as [|ev evs Hev Hown IH]; intros l s Hw Hroom.
  { apply wp_ret. by rewrite app_nil_r. }
  apply (wp_bind (handle_event ev) (λ _, for_each handle_event evs)). cbn in Hroom.
  eapply wp_mono; [apply (untracked_connect s0 l ev s); [done..|lia]|]. intros u s1 Hw1.
  eapply wp_mono; [apply IH; [exact Hw1|]|].
  - destruct Hw as (_ & _ & _ & _ & _ & _ & _ & Ht). destruct Hw1 as (_ & _ & _ & _ & _ & _ & _ & ->).
    rewrite Ht in Hroom. rewrite length_app. assert (length (endpoint ev) ≤ 1)%nat.
    { unfold endpoint. destruct (connect_of ev) as [[[[??]?]?]|]; cbn; lia. }
    lia.
  - intros u' s2 Hw2. cbn. by rewrite app_assoc.
Qed.

(** The exec reports what waited. *)
Lemma drain_vec ctx vec s :
  no_halves key s →
  wp (for_each (λ pc, connect_attributed pid image (exec_severity ctx) (exec_detections ctx)
                        (pc_daddr pc) (pc_dport pc) (pc_proto pc)) vec) (λ _ s',
    said s' = said s ++ (record_of ctx <$> (pc_endpoint <$> vec)) ∧ no_halves key s' ∧
    rest_view s' = rest_view s) s.
Proof.
  revert s. induction vec as [|pc vec IH]; intros s Hs; [apply wp_ret; by rewrite app_nil_r|].
  apply (wp_bind (connect_attributed _ _ _ _ _ _ _) (λ _, for_each _ vec)).
  eapply wp_mono; [by apply connect_attributed_said|]. intros u s1 (Hsaid & Hs1 & Hv1).
  eapply wp_mono; [by apply IH|]. intros u' s2 (Hsaid2 & Hs2 & Hv2).
  split_and!; [|done|by transitivity (rest_view s1)]. by rewrite Hsaid2, Hsaid, <-app_assoc.
Qed.

Lemma exec_drains s0 l ev s :
  get_u64 (fields ev) "pid" = Some pid → get_str (fields ev) "image" = Some image →
  file_pending s0 !! key = None → read_pending s0 !! key = None → waits s0 l s →
  let ctx := exec_context s0 ev pid image in
  wp (handle_exec ev) (λ _ s', said s' = said s0 ++ (record_of ctx <$> l) ∧
    contexts s' !! key = Some ctx ∧ no_halves key s' ∧ pending s' = delete key (pending s0)) s.
Proof.
  intros Hp Hi Hf0 Hr0 (Hc & Hr & Hsaid & Hf & Hrd & Hdel & Hl & _) ctx.
  apply (handle_exec_wp ev pid image); [done..|]. rewrite (exec_context_ext s0 s) by done.
  fold ctx key. intros s1. cbn zeta. intros [Hc1 _ Hch1 Hp1 Hf1 Hr1 Hs1 _].
  assert (no_halves key s1) as Hno by (intros cs; by rewrite Hch1).
  apply wp_bind. eapply (wp_mono _ (λ _ s2, said s2 = said s0 ++ (record_of ctx <$> l) ∧ no_halves key s2 ∧
    contexts s2 = contexts s1 ∧ pending s2 = delete key (pending s0) ∧ file_pending s2 !! key = None ∧
    read_pending s2 !! key = None)).
  - unfold drain_connects. apply wp_bind, wp_gets. rewrite Hp1.
    destruct (pending s !! key) as [vec|] eqn:Hvec; cbn in Hl.
    + apply wp_bind, wp_modify, wp_bind. eapply wp_mono; [by apply drain_vec|].
      intros u s2 (Hsaid2 & Hno2 & Hv2). injection Hv2 as Hc2 _ Hp2 Hf2 Hr2. apply wp_modify. cbn.
      rewrite Hc2, Hp2, Hf2, Hr2, Hf1, Hr1, Hf, Hrd, Hl in *. split_and!; try done.
      change (said s2 = said s0 ++ (record_of ctx <$> l)). rewrite Hsaid2.
      change (said s1 ++ (record_of ctx <$> l) = said s0 ++ (record_of ctx <$> l)). congruence.
    + apply wp_mret. rewrite <-Hl, app_nil_r. split_and!; [congruence|done|done| |congruence|congruence].
      by rewrite Hp1, <-Hdel, delete_id.
  - intros u s2 (Hsaid2 & Hno2 & Hc2 & Hp2 & Hf2 & Hr2). unfold drain_writes, drain_reads.
    apply wp_bind, wp_bind, wp_gets. rewrite Hf2. apply wp_mret, wp_bind, wp_gets. rewrite Hr2. apply wp_mret.
    split_and!; [done|congruence|done|done].
Qed.
End process.

(** Deliveries to a running task are its handlers. *)
Lemma run_events g evs s :
  running s = true → run_task g (Recv <$> evs) s = for_each handle_event evs s.
Proof.
  revert s. induction evs as [|ev evs IH]; intros s Hr; [done|]. cbn. unfold m_bind.
  assert (wake g (Recv ev) s = handle_event ev s) as ->
    by (unfold wake, mbind, M_bind, m_bind, gets; by rewrite Hr).
  pose proof (running_event ev s) as Hrun. unfold keeps in Hrun.
  destruct (handle_event ev s) as [s' [a|e|]]; [|done..]. apply IH. cbn in Hrun. congruence.
Qed.

(** The process is new to the task. *)
Definition unknown (key : Z) (s : Corr) : Prop :=
  contexts s !! key = None ∧ recently_exited s !! key = None ∧ pending s !! key = None ∧
  file_pending s !! key = None ∧ read_pending s !! key = None.

(** C14: an exec may be delivered before or after the connections of its process.
    Take a process new to the task and a run of connections of that process alone,
    nothing else delivered in between, whose command names match the image of its
    exec and which together with what already waits fit the buffer of 4096.  Then
    their records are the same, in the same order, whether the exec comes before all
    of them or after all of them; the same process context and the same waiting
    buffer are left.  More connections than the buffer has room for, an exec in the
    middle of them, and other traffic in between are outside the statement. *)
Theorem exec_order_does_not_matter (g : Z) (pid : Z) (image : string) ex evs s :
  running s = true → unknown (wrap_u32 pid) s →
  kind ex = EventKind.ProcessExec →
  get_u64 (fields ex) "pid" = Some pid → get_str (fields ex) "image" = Some image →
  Forall (own pid image) evs →
  (pending_total (pending s) + length evs ≤ MAX_PENDING_CONNECTS)%nat →
  let before := (run_task g (Recv <$> ex :: evs) s).1 in
  let after := (run_task g (Recv <$> evs ++ [ex]) s).1 in
  said before = said after ∧
  contexts before !! wrap_u32 pid = contexts after !! wrap_u32 pid ∧
  pending before = pending after ∧ pending before = pending s.
Proof.
  intros Hrun (Hc & Hr & Hp & Hf & Hrd) Hk Hpid Himg Hown Hroom before after.
  assert (waits pid s [] s) as Hw.
  { unfold waits. rewrite Hp. split_and!; try done. }
  assert (handle_event ex = handle_exec ex) as Hex by (unfold handle_event; by rewrite Hk).
  set (ctx := exec_context s ex pid image).
  assert (ctx_image ctx = image) as Hci by (unfold ctx, exec_context; by destruct (inherit _ _)).
  assert (wp (for_each handle_event (ex :: evs)) (λ _ s', said s' = said s ++ (record_of pid image ctx <$> (evs ≫= endpoint)) ∧
    contexts s' !! wrap_u32 pid = Some ctx ∧ pending s' = pending s) s) as Hbef.
  { apply (wp_bind (handle_event ex) (λ _, for_each handle_event evs)). rewrite Hex.
    eapply wp_mono; [by apply (exec_drains pid image s [])|]. intros u s1 (Hs1 & Hc1 & Hno1 & Hp1).
    eapply wp_mono; [by apply (tracked_connects pid image ctx)|]. intros u' s2 (Hs2 & Hv2).
    injection Hv2 as Hc2 _ Hp2 _ _. rewrite Hs2, Hs1, Hc2, Hp2, Hp1, app_nil_r, delete_id by done. done. }
  assert (wp (for_each handle_event (evs ++ [ex])) (λ _ s', said s' = said s ++ (record_of pid image ctx <$> (evs ≫= endpoint)) ∧
    contexts s' !! wrap_u32 pid = Some ctx ∧ pending s' = pending s) s) as Haft.
  { eapply wp_ext; [apply for_each_app|]. apply wp_bind.
    eapply wp_mono; [by apply (untracked_connects pid image s evs [])|]. intros u s1 Hw1.
    apply (wp_bind (handle_event ex) (λ _, for_each handle_event [])). rewrite Hex.
    eapply wp_mono; [by apply (exec_drains pid image s (evs ≫= endpoint))|].
    intros u' s2 (Hs2 & Hc2 & _ & Hp2). apply wp_ret. rewrite Hp2, delete_id by done. done. }
  unfold before, after. rewrite !run_events by done. unfold wp in Hbef, Haft.
  destruct (for_each handle_event (ex :: evs) s) as [s1 [a1|e|]]; [|done..].
  destruct (for_each handle_event (evs ++ [ex]) s) as [s2 [a2|e|]]; [|done..].
  cbn [fst].
  destruct Hbef as (-> & -> & ->), Haft as (-> & -> & ->). done.
Qed.

(** ** Lineages *)

(** What was said stays said. *)
Definition says_more (s s' : Corr) : Prop := emitted s `prefix_of` emitted s'.
#[local] Instance says_more_preorder : PreOrder says_more.
Proof. split; [by intros s; unfold says_more|]. intros s1 s2 s3. unfold says_more. apply transitivity. Qed.

Ltac more_prim := intros ?; unfold says_more; cbn; first [reflexivity|by apply prefix_app_r].
Ltac solve_more := walk_body ltac:(first [rel_leaf|solve [more_prim]]).

Lemma more_record_connect pid img dets daddr dport proto ds :
  rel_m says_more (record_connect_and_maybe_chain pid img dets daddr dport proto ds).
Proof.
  assert (∀ t, rel_m says_more (elapsed t)) by (intros t; unfold elapsed, now; solve_more).
  assert (∀ l, rel_m says_more (with_stamps l)).
  { intros l. induction l as [|[k cs] l IH]; cbn [with_stamps]; unfold oldest_stamp; solve_more. }
  unfold record_connect_and_maybe_chain, chain_entry, chain_put, evict_oldest_chain, maybe_fire_chain,
    maybe_fire_exfil, both_fresh, emit_correlated_chain, emit_correlated_exfil. solve_more.
Qed.

#[local] Instance contexts_blind : ChainBlind contexts.
Proof. by split. Qed.
Lemma contexts_drains pid key img sev dets :
  rel_m (keeps contexts) (drain_connects pid key img sev dets;; drain_writes pid key img sev dets;;
                          drain_reads pid key img dets).
Proof.
  unfold drain_connects, drain_writes, drain_reads, connect_attributed, write_attributed,
    emit_correlated, emit_correlated_file. solve_keeps.
Qed.

Lemma exec_leaves_context ev pid image s :
  get_u64 (fields ev) "pid" = Some pid → get_str (fields ev) "image" = Some image →
  wp (handle_exec ev) (λ _ s', contexts s' !! wrap_u32 pid = Some (exec_context s ev pid image)) s.
Proof.
  intros Hp Hi. apply (handle_exec_wp ev pid image); [done..|]. intros s1. cbn zeta. intros [Hc1 _ _ _ _ _ _ _].
  destruct (total_drains pid (wrap_u32 pid) image (exec_severity (exec_context s ev pid image))
    (exec_detections (exec_context s ev pid image))) as (T1 & T2 & T3).
  eapply wp_mono; [apply (wp_total _ (keeps contexts)); [solve_total|apply contexts_drains]|].
  intros u s2 Hk. unfold keeps in Hk. by rewrite Hk.
Qed.

(** [lineage p evs q]: the execs [evs] descend from process [p] down to [q], each the
    child of the one before. *)
Inductive lineage : Z → list (SubstrateEvent V) → Z → Prop :=
  | lineage_nil p : lineage p [] p
  | lineage_cons p ev pid image evs q :
      kind ev = EventKind.ProcessExec → get_u64 (fields ev) "pid" = Some pid →
      get_str (fields ev) "image" = Some image → get_u64 (fields ev) "ppid" = Some p →
      lineage pid evs q → lineage p (ev :: evs) q.

(** An exec under a suspicious live parent. *)
Lemma exec_inherits s ev pid image p c :
  get_u64 (fields ev) "ppid" = Some p → contexts s !! wrap_u32 p = Some c →
  SEV_INFORMATIONAL < exec_severity c →
  exec_severity c ≤ exec_severity (exec_context s ev pid image) ∧
  ANCESTRY_RULE ∈ hit_rule <$> exec_detections (exec_context s ev pid image).
Proof.
  intros Hpp Hc Hsev. unfold exec_context, inherited. rewrite Hpp. cbn [mbind option_bind contexts set_recently_exited].
  rewrite Hc. cbn [mbind option_bind]. rewrite (proj2 (Z.ltb_lt _ _) Hsev). cbn [inherit].
  cbn [exec_severity exec_detections]. split; [lia|]. rewrite fmap_app. apply elem_of_app. right. by left.
Qed.

Lemma lineage_inherits p evs q c s :
  lineage p evs q → contexts s !! wrap_u32 p = Some c → SEV_INFORMATIONAL < exec_severity c →
  wp (for_each handle_event evs) (λ _ s', ∃ c', contexts s' !! wrap_u32 q = Some c' ∧
    exec_severity c ≤ exec_severity c' ∧
    (c' = c ∧ evs = [] ∨ ANCESTRY_RULE ∈ hit_rule <$> exec_detections c')) s.
Proof.
  intros Hlin. revert c s. induction Hlin as [p|p ev pid image evs q Hk Hp Hi Hpp Hlin IH]; intros c s Hc Hsev.
  { apply wp_ret. exists c. split_and!; [done..|by left]. }
  apply (wp_bind (handle_event ev) (λ _, for_each handle_event evs)).
  assert (handle_event ev = handle_exec ev) as -> by (unfold handle_event; by rewrite Hk).
  destruct (exec_inherits s ev pid image p c Hpp Hc Hsev) as [Hle Hanc].
  eapply wp_mono; [by apply (exec_leaves_context ev pid image)|]. intros u s1 Hc1.
  eapply wp_mono; [apply (IH _ s1 Hc1); lia|]. intros u' s2 (c' & Hc' & Hle' & Hanc').
  exists c'. split_and!; [done|lia|]. right. destruct Hanc' as [[-> _]|?]; [exact Hanc|done].
Qed.

(** The report of a connection by a known process. *)
Lemma connect_is_reported ev pid daddr dport c s :
  kind ev = EventKind.NetConnect → get_u64 (fields ev) "pid" = Some pid →
  get_str (fields ev) "daddr" = Some daddr → get_u64 (fields ev) "dport" ≫= u16_try_from = Some dport →
  contexts s !! wrap_u32 pid = Some c →
  same_instance (ctx_image c) (default "unknown" (get_str (fields ev) "image")) = true →
  wp (handle_event ev) (λ _ s', connect_record pid (ctx_image c) (exec_severity c) (exec_detections c) daddr dport
    (default "tcp" (get_str (fields ev) "proto")) ∈ said s') s.
Proof.
  intros Hk Hp Hd Hport Hc Hsame. unfold handle_event. rewrite Hk. unfold handle_connect. rewrite Hp, Hd, Hport.
  unfold attribution. apply wp_bind, wp_bind, wp_gets. rewrite Hc. apply wp_mret.
  unfold resolve_instance. rewrite Hsame. unfold connect_attributed, emit_correlated. apply wp_bind, wp_bind.
  eapply wp_intro; [done|]. apply wp_mret. set (s1 := push_emission _ _). set (r := connect_record _ _ _ _ _ _ _).
  assert (r ∈ said s1) as Hin by (unfold s1, said; cbn; rewrite fmap_app; apply elem_of_app; right; by left).
  destruct (_ && _); [|by apply wp_mret].
  eapply wp_mono; [apply (wp_total _ says_more); [eauto with torda|apply more_record_connect]|].
  intros u s2 [l Hl]. unfold said. rewrite Hl, fmap_app. apply elem_of_app. by left.
Qed.

(** Suspicion follows a lineage.  Whatever the bus delivered before, if a live
    process is suspicious, every process that descends from it by a chain of execs
    is tracked with at least its severity and says so (the ancestry rule); and when
    such a descendant, however benign its own image, connects to a suspicious
    endpoint, the correlator reports a high-severity correlated detection. *)
Theorem suspicion_follows_lineage (g : Z) p0 c0 evs q s :
  running s = true → contexts s !! wrap_u32 p0 = Some c0 → SEV_INFORMATIONAL < exec_severity c0 →
  lineage p0 evs q →
  ∃ c, contexts (run_task g (Recv <$> evs) s).1 !! wrap_u32 q = Some c ∧
    exec_severity c0 ≤ exec_severity c ∧
    (c = c0 ∧ evs = [] ∨ ANCESTRY_RULE ∈ hit_rule <$> exec_detections c) ∧
    ∀ ev daddr dport, kind ev = EventKind.NetConnect → get_u64 (fields ev) "pid" = Some q →
      get_str (fields ev) "daddr" = Some daddr → get_u64 (fields ev) "dport" ≫= u16_try_from = Some dport →
      same_instance (ctx_image c) (default "unknown" (get_str (fields ev) "image")) = true →
      SEV_INFORMATIONAL < assessed (NetMon.assess daddr dport) →
      ∃ e, e ∈ emitted (run_task g (Recv <$> evs ++ [ev]) s).1 ∧ em_severity e = SEV_HIGH ∧
        pb_pid (process (em_data e)) = q ∧ pb_detections (process (em_data e)) = exec_detections c ∧
        hit_rule <$> detections (em_data e) = [CORRELATED_RULE].
Proof.
  intros Hrun Hc0 Hsev Hlin.
  destruct (wp_ok _ _ _ (lineage_inherits p0 evs q c0 s Hlin Hc0 Hsev)) as ([] & s1 & Hev & c & Hc & Hle & Hanc).
  rewrite run_events, Hev by done. exists c. split_and!; [done..|].
  intros ev daddr dport Hk Hp Hd Hport Hsame Hnet.
  destruct (wp_ok _ _ _ (connect_is_reported ev q daddr dport c s1 Hk Hp Hd Hport Hc Hsame)) as ([] & s2 & Hev2 & Hin).
  assert (run_task g (Recv <$> evs ++ [ev]) s = (s2, Ok tt)) as ->.
  { rewrite run_events by done. rewrite for_each_app, (bind_ok _ _ _ _ _ Hev). cbn. unfold m_bind. by rewrite Hev2. }
  unfold said in Hin. apply list_elem_of_fmap in Hin as (e & Heq & Hin). exists e.
  unfold connect_record in Heq. rewrite (proj2 (Z.ltb_lt _ _) Hnet), (proj2 (Z.ltb_lt _ _) (Z.lt_le_trans _ _ _ Hsev Hle)) in Heq.
  injection Heq as Hse Hda. rewrite <-Hse, <-Hda. done.
Qed.
End connect.
