(* ===== verification/CorrTrace.v ===== *)
(** * Every record is justified by what came before it

    An attributed record names a process that exec'd; a chain record follows the
    component records it joins; an un-attributed record accuses nobody. *)

From Stdlib Require Import ZArith.
From stdpp Require Import base tactics gmap strings list.
From S2P Require Import Prelude Transport Keys Version CveSource Ocsf Substrate.
From S2P Require Import ProcMon NetMon FileMon Corr CorrFacts CorrConserve.

Local Open Scope Z_scope.

(** ** Records *)

(** The process an attributed event is charged to: the image exec'd under that key,
    or the event's own command name when it contradicts that image. *)
Definition named (execs : list (Z * string)) (k : Z) (img : string) : Prop :=
  ∃ i, (k, i) ∈ execs ∧ (img = i ∨ same_instance i img = false).

Definition rec_key (e : Emission) : Z := wrap_u32 (pb_pid (process (em_data e))).
Definition rules (e : Emission) : list string := hit_rule <$> detections (em_data e).

(** A fired component record. *)
Definition fired_connect (k : Z) (daddr : string) (dport : Z) (proto : string) (e : Emission) : Prop :=
  activity (em_data e) = "process_network" ∧ pb_attributed (process (em_data e)) = true ∧
  rec_key e = k ∧ rules e = [CORRELATED_RULE] ∧
  ∃ dets, connection (em_data e) = Some (mkConnBlock daddr dport proto dets).
Definition fired_write (k : Z) (path : string) (e : Emission) : Prop :=
  activity (em_data e) = "process_file" ∧ pb_attributed (process (em_data e)) = true ∧
  rec_key e = k ∧ rules e = [CORRELATED_FILE_RULE] ∧
  ∃ dets, file (em_data e) = Some (mkFileBlock path "write" dets).

(** What a chain record joins. *)
Definition chain_joined (pre : list Emission) (e : Emission) : Prop :=
  ∃ f c, file (em_data e) = Some f ∧ connection (em_data e) = Some c ∧
    em_severity e = SEV_HIGH ∧
    (∃ e2, e2 ∈ pre ∧ fired_connect (rec_key e) (cb_daddr c) (cb_dport c) (cb_proto c) e2) ∧
    ((fb_op f = "write" ∧ rules e = [CORRELATED_CHAIN_RULE] ∧
      ∃ e1, e1 ∈ pre ∧ fired_write (rec_key e) (fb_path f) e1) ∨
     (fb_op f = "read" ∧ last (rules e) = Some CORRELATED_EXFIL_RULE ∧
      judge_read (fb_path f) = Some (fb_detections f))).

(** Only these kinds of record name a connection. *)
Definition names_connection (d : CorrData) : Prop :=
  match connection d with
  | Some _ => in_table ["process_network"; "process_file_network"] (activity d) = true
  | None => True
  end.

Definition justified (execs : list (Z * string)) (pre : list Emission) (e : Emission) : Prop :=
  (pb_attributed (process (em_data e)) = true →
     named execs (rec_key e) (pb_image (process (em_data e)))) ∧
  (pb_attributed (process (em_data e)) = false → rules e = []) ∧
  (activity (em_data e) = "process_file_network" →
     pb_attributed (process (em_data e)) = true ∧ chain_joined pre e) ∧
  names_connection (em_data e).

(** ** The invariant *)

Definition half_ok (es : list Emission) (k : Z) (cs : ChainState) : Prop :=
  (∀ f, cs_file cs = Some f → ∃ e, e ∈ es ∧ fired_write k (fh_path f) e) ∧
  (∀ c, cs_conn cs = Some c → ∃ e, e ∈ es ∧ fired_connect k (ch_daddr c) (ch_dport c) (ch_proto c) e) ∧
  (∀ rd, cs_read cs = Some rd → judge_read (rh_path rd) = Some (rh_detections rd)).

Record traced (execs : list (Z * string)) (s : Corr) : Prop := {
  tr_contexts k c : contexts s !! k = Some c → (k, ctx_image c) ∈ execs;
  tr_exited k c t : recently_exited s !! k = Some (c, t) → (k, ctx_image c) ∈ execs;
  tr_chain k cs : chain s !! k = Some cs → half_ok (emitted s) k cs;
  tr_emitted pre e post : emitted s = pre ++ e :: post → justified execs pre e;
}.

Definition trace_view (s : Corr) := (contexts s, recently_exited s, chain s, emitted s).
Arguments trace_view /.

Lemma traced_view execs s s' : trace_view s' = trace_view s → traced execs s → traced execs s'.
Proof.
  intros [= Hc Hr Hch He] [H1 H2 H3 H4]. split; rewrite ?Hc, ?Hr, ?Hch, ?He; auto.
Qed.

(** Forgetting is harmless. *)
Lemma traced_forget execs s s' :
  contexts s' ⊆ contexts s → recently_exited s' ⊆ recently_exited s → chain s' ⊆ chain s →
  emitted s' = emitted s → traced execs s → traced execs s'.
Proof.
  intros Hc Hr Hch He [H1 H2 H3 H4]. split; rewrite ?He; [..|done].
  - intros k c Hk. by eapply H1, lookup_weaken.
  - intros k c t Hk. by eapply H2, lookup_weaken.
  - intros k cs Hk. by eapply H3, lookup_weaken.
Qed.

(** Nothing already said becomes wrong when more processes are known. *)
Lemma traced_more execs execs' s :
  (∀ x, x ∈ execs → x ∈ execs') → traced execs s → traced execs' s.
Proof.
  intros Hsub [H1 H2 H3 H4]. split; [by eauto..|done|].
  intros pre e post Heq. destruct (H4 _ _ _ Heq) as (Hn & Hu & Hj & Hc). split_and!; [|done..].
  intros Ha. destruct (Hn Ha) as (i & Hi & ?). exists i. auto.
Qed.

Lemma half_ok_mono es es' k cs : half_ok es k cs → (∀ e, e ∈ es → e ∈ es') → half_ok es' k cs.
Proof.
  intros (Hf & Hc & Hr) Hin. split_and!; [| |done].
  - intros f Hs. destruct (Hf f Hs) as (e & He & ?). eauto.
  - intros c Hs. destruct (Hc c Hs) as (e & He & ?). eauto.
Qed.

Lemma half_ok_default es k : half_ok es k chain_default.
Proof. by repeat split. Qed.

Lemma app_cons_inv {A} (l pre post : list A) x e :
  l ++ [x] = pre ++ e :: post → (pre = l ∧ e = x ∧ post = []) ∨ ∃ post', l = pre ++ e :: post'.
Proof.
  intros Heq. destruct post as [|y post _] using rev_ind.
  - apply app_inj_tail in Heq as [-> ->]. by left.
  - right. exists post. rewrite app_comm_cons, app_assoc in Heq. by apply app_inj_tail in Heq as [-> _].
Qed.

(** Adding a justified record. *)
Lemma traced_push execs e s :
  traced execs s → justified execs (emitted s) e → traced execs (push_emission e s).
Proof.
  intros [H1 H2 H3 H4] Hj. split; cbn; [done|done| |].
  - intros k cs Hk. eapply half_ok_mono; [by apply H3|]. set_solver.
  - intros pre e' post [(-> & -> & ->)|(post' & Heq)]%app_cons_inv; [done|by eapply H4].
Qed.

Section trace.
Context `{Host} (execs : list (Z * string)).

(** *** Quiet steps *)

Definition keeps_trace {A} (m : M Corr A) : Prop :=
  ∀ s, traced execs s → wp m (λ _ s', traced execs s' ∧ emitted s' = emitted s) s.

Lemma keeps_trace_view {A} (m : M Corr A) :
  total_m m → rel_m (keeps trace_view) m → keeps_trace m.
Proof.
  intros Hm HR s Hs. eapply wp_mono; [by apply (wp_total m (keeps trace_view))|].
  intros a s' Hv. split; [exact (traced_view execs s s' Hv Hs)|]. by injection Hv as ? ? ? ?.
Qed.

Lemma trace_now : rel_m (keeps trace_view) now.
Proof. by intros s. Qed.
Lemma trace_walk {T} (m : gmap Z T) : rel_m (keeps trace_view) (walk m).
Proof. by intros s. Qed.
Hint Resolve trace_now trace_walk : torda.
Lemma trace_elapsed t : rel_m (keeps trace_view) (elapsed t).
Proof. unfold elapsed. walk_body rel_leaf. Qed.
Hint Resolve trace_elapsed : torda.
Lemma trace_both_fresh a b : rel_m (keeps trace_view) (both_fresh a b).
Proof. unfold both_fresh. walk_body rel_leaf. Qed.
Lemma trace_oldest_stamp cs : rel_m (keeps trace_view) (oldest_stamp cs).
Proof. unfold oldest_stamp. walk_body rel_leaf. Qed.
Hint Resolve trace_oldest_stamp : torda.
Lemma trace_with_stamps l : rel_m (keeps trace_view) (with_stamps l).
Proof. induction l as [|[k cs] l IH]; cbn [with_stamps]; walk_body rel_leaf. Qed.

(** *** Attribution names a process that exec'd *)

Lemma attribution_named key s :
  traced execs s →
  wp (attribution key) (λ o s', traced execs s' ∧ emitted s' = emitted s ∧
    ∀ c, o = Some c → (key, ctx_image c) ∈ execs) s.
Proof.
  intros Hs. unfold attribution. apply wp_bind, wp_gets.
  destruct (contexts s !! key) as [c|] eqn:Hc.
  { apply wp_mret. split_and!; [done|done|]. intros ? [= <-]. by eapply tr_contexts. }
  apply wp_bind, wp_gets. destruct (recently_exited s !! key) as [[c t]|] eqn:Hr; [|by apply wp_mret].
  apply wp_bind. eapply wp_mono; [apply (keeps_trace_view (elapsed t)); [apply total_elapsed|apply trace_elapsed|done]|].
  intros e s' [Hs' He]. destruct (e <? EXITED_RETENTION).
  - apply wp_bind. eapply wp_unwrap; [done|]. apply wp_mret. split_and!; [done|done|].
    intros ? [= <-]. exact (tr_exited execs s Hs key c t Hr).
  - by apply wp_mret.
Qed.

Lemma resolve_named key c comm img sev dets :
  (key, ctx_image c) ∈ execs → resolve_instance c comm = (img, sev, dets) → named execs key img.
Proof.
  intros Hin. unfold resolve_instance. destruct (same_instance (ctx_image c) comm) eqn:Hsame;
    intros [= <- <- <-]; exists (ctx_image c); auto.
Qed.

(** *** Component records *)

Lemma emit_traced sev d s :
  traced execs s → justified execs (emitted s) (mkEmission (wall_millis (seen s)) sev d) →
  wp (emit sev d) (λ _ s', traced execs s' ∧
    emitted s' = emitted s ++ [mkEmission (wall_millis (seen s)) sev d]) s.
Proof. intros Hs Hj. eapply wp_intro; [done|]. split; [apply (traced_push execs _ (bump_seen s)); [by apply (traced_view execs s)|done]|done]. Qed.

Lemma emit_correlated_traced pid img sev dets daddr dport proto s :
  traced execs s → named execs (wrap_u32 pid) img →
  wp (emit_correlated pid true img sev dets daddr dport proto) (λ o s', traced execs s' ∧
    ∀ ds, o = Some ds → ∃ e, e ∈ emitted s' ∧ fired_connect (wrap_u32 pid) daddr dport proto e) s.
Proof.
  intros Hs Hn. unfold emit_correlated. apply wp_bind.
  eapply wp_mono; [apply emit_traced; [done|by split_and!]|].
  intros [] s' [Hs' He]. apply wp_mret. split; [done|]. intros ds Hds.
  eexists. split; [rewrite He; apply elem_of_app; right; by left|].
  destruct (_ && _); [|done]. split_and!; [done..|by eexists].
Qed.

Lemma emit_correlated_file_traced pid img sev dets path s :
  traced execs s → named execs (wrap_u32 pid) img →
  wp (emit_correlated_file pid true img sev dets path) (λ o s', traced execs s' ∧
    ∀ ds, o = Some ds → ∃ e, e ∈ emitted s' ∧ fired_write (wrap_u32 pid) path e) s.
Proof.
  intros Hs Hn. unfold emit_correlated_file. apply wp_bind.
  eapply wp_mono; [apply emit_traced; [done|by split_and!]|].
  intros [] s' [Hs' He]. apply wp_mret. split; [done|]. intros ds Hds.
  eexists. split; [rewrite He; apply elem_of_app; right; by left|].
  destruct (_ && _); [|done]. split_and!; [done..|by eexists].
Qed.

(** A record without a process accuses nobody. *)
Lemma emit_unattributed_traced pid img daddr dport proto s :
  traced execs s →
  wp (emit_correlated pid false img SEV_INFORMATIONAL [] daddr dport proto) (λ _ s', traced execs s') s.
Proof.
  intros Hs. unfold emit_correlated. apply wp_bind.
  eapply wp_mono; [apply emit_traced; [done|by split_and!]|]. intros [] s' [Hs' _]. by apply wp_mret.
Qed.
Lemma emit_unattributed_file_traced pid img path s :
  traced execs s →
  wp (emit_correlated_file pid false img SEV_INFORMATIONAL [] path) (λ _ s', traced execs s') s.
Proof.
  intros Hs. unfold emit_correlated_file. apply wp_bind.
  eapply wp_mono; [apply emit_traced; [done|by split_and!]|]. intros [] s' [Hs' _]. by apply wp_mret.
Qed.

(** *** Chains *)

Lemma fire_chain_traced cs pid img dets s :
  traced execs s → named execs (wrap_u32 pid) img → half_ok (emitted s) (wrap_u32 pid) cs →
  wp (maybe_fire_chain cs pid img dets) (λ cs' s', traced execs s' ∧
    half_ok (emitted s') (wrap_u32 pid) cs') s.
Proof.
  intros Hs Hn Hok. unfold wp. rewrite maybe_fire_chain_eq. change (wp (match fired cs, cs_file cs, cs_conn cs with
   | false, Some f, Some c =>
       within ← both_fresh (fh_stamp f) (ch_stamp c);
       if (within : bool) then emit_correlated_chain pid img dets f c;; mret (set_fired cs)
       else mret cs
   | _, _, _ => mret cs
   end) (λ cs' s', traced execs s' ∧ half_ok (emitted s') (wrap_u32 pid) cs') s).
  destruct (fired cs) eqn:Hfd, (cs_file cs) as [f|] eqn:Hf, (cs_conn cs) as [c|] eqn:Hc; try by apply wp_mret.
  apply wp_bind. eapply wp_mono; [apply keeps_trace_view; [apply total_both_fresh|apply trace_both_fresh|done]|].
  intros w s1 [Hs1 He1]. destruct w; [|apply wp_mret; by rewrite He1].
  destruct (proj1 Hok f Hf) as (e1 & He1in & Hw). destruct (proj1 (proj2 Hok) c Hc) as (e2 & He2in & Hcn).
  apply wp_bind. eapply wp_mono; [apply emit_traced; [done|]|].
  - split_and!; [done|done| |done]. intros _. split; [done|]. eexists _, _. split_and!; [done..| |].
    + exists e2. by rewrite He1.
    + left. split_and!; [done|done|]. exists e1. by rewrite He1.
  - intros [] s2 [Hs2 He2]. apply wp_mret. split; [done|].
    eapply (half_ok_mono (emitted s) _ _ (set_fired cs)); [done|]. rewrite He2, He1. set_solver.
Qed.

Lemma fire_exfil_traced cs pid img dets s :
  traced execs s → named execs (wrap_u32 pid) img → half_ok (emitted s) (wrap_u32 pid) cs →
  wp (maybe_fire_exfil cs pid img dets) (λ cs' s', traced execs s' ∧
    half_ok (emitted s') (wrap_u32 pid) cs') s.
Proof.
  intros Hs Hn Hok. unfold wp. rewrite maybe_fire_exfil_eq. change (wp (match exfil_fired cs, cs_read cs, cs_conn cs with
   | false, Some rd, Some c =>
       within ← both_fresh (rh_stamp rd) (ch_stamp c);
       if (within : bool) then emit_correlated_exfil pid img dets rd c;; mret (set_exfil_fired cs)
       else mret cs
   | _, _, _ => mret cs
   end) (λ cs' s', traced execs s' ∧ half_ok (emitted s') (wrap_u32 pid) cs') s).
  destruct (exfil_fired cs) eqn:Hfd, (cs_read cs) as [rd|] eqn:Hf, (cs_conn cs) as [c|] eqn:Hc; try by apply wp_mret.
  apply wp_bind. eapply wp_mono; [apply keeps_trace_view; [apply total_both_fresh|apply trace_both_fresh|done]|].
  intros w s1 [Hs1 He1]. destruct w; [|apply wp_mret; by rewrite He1].
  pose proof (proj2 (proj2 Hok) rd Hf) as Hj. destruct (proj1 (proj2 Hok) c Hc) as (e2 & He2in & Hcn).
  apply wp_bind. eapply wp_mono; [apply emit_traced; [done|]|].
  - split_and!; [done|done| |done]. intros _. split; [done|]. eexists _, _. split_and!; [done..| |].
    + exists e2. by rewrite He1.
    + right. split_and!; [done| |done]. unfold rules. cbn. rewrite !fmap_app, app_assoc. apply last_snoc.
  - intros [] s2 [Hs2 He2]. apply wp_mret. split; [done|].
    eapply (half_ok_mono (emitted s) _ _ (set_exfil_fired cs)); [done|]. rewrite He2, He1. set_solver.
Qed.

(** *** The chain trackers *)

Ltac quiet_step := eapply wp_mono; [apply keeps_trace_view; [solve [eauto with torda]|solve [eauto with torda]|done]|].
Hint Resolve trace_both_fresh trace_with_stamps : torda.

Lemma evict_chain_traced s :
  traced execs s → wp evict_oldest_chain (λ _ s', traced execs s' ∧ emitted s' = emitted s) s.
Proof.
  intros Hs. unfold evict_oldest_chain. apply wp_bind, wp_gets, wp_bind.
  eapply wp_mono; [apply (wp_total (walk (chain s)) (keeps trace_view)); eauto with torda|].
  intros l s1 Hv1. apply wp_bind.
  eapply wp_mono; [apply (wp_total (with_stamps l) (keeps trace_view)); eauto with torda|].
  intros ts s2 Hv2. assert (trace_view s2 = trace_view s) as Hv by (unfold keeps in *; congruence).
  pose proof (traced_view execs _ _ Hv Hs) as Hs2. injection Hv as Hc Hr Hch He.
  destruct (min_by_key snd ts) as [[k t]|]; [|by apply wp_mret].
  apply wp_modify. split; [|done]. eapply traced_forget; [..|exact Hs2]; try done.
  cbn. rewrite Hch. apply delete_subseteq.
Qed.

Lemma chain_entry_traced key s :
  traced execs s → wp (chain_entry key) (λ cs s', traced execs s' ∧ emitted s' = emitted s ∧
    half_ok (emitted s') key cs) s.
Proof.
  intros Hs. unfold chain_entry. apply wp_bind, wp_gets, wp_bind.
  assert (wp (if bool_decide (chain s !! key = None) && bool_decide (MAX_CHAIN_TRACKED ≤ size (chain s))%nat
    then evict_oldest_chain else mret tt) (λ _ s', traced execs s' ∧ emitted s' = emitted s) s) as Hev.
  { destruct (_ && _); [by apply evict_chain_traced|by apply wp_mret]. }
  eapply wp_mono; [exact Hev|]. intros u s1 [Hs1 He1]. apply wp_bind, wp_gets, wp_mret.
  split_and!; [done|done|]. destruct (chain s1 !! key) as [cs|] eqn:Hcs; [|apply half_ok_default].
  by apply (tr_chain execs).
Qed.

Lemma chain_put_traced key cs s :
  traced execs s → half_ok (emitted s) key cs → wp (chain_put key cs) (λ _ s', traced execs s') s.
Proof.
  intros [H1 H2 H3 H4] Hok. apply wp_modify. split; [done|done| |done]. cbn. intros k c.
  destruct (decide (k = key)) as [->|Hne]; [rewrite lookup_insert_eq; by intros [= <-]|].
  rewrite lookup_insert_ne by done. apply H3.
Qed.

Lemma record_connect_traced pid img dets daddr dport proto cds s :
  traced execs s → named execs (wrap_u32 pid) img →
  (∃ e, e ∈ emitted s ∧ fired_connect (wrap_u32 pid) daddr dport proto e) →
  wp (record_connect_and_maybe_chain pid img dets daddr dport proto cds) (λ _ s', traced execs s') s.
Proof.
  intros Hs Hn Hf. unfold record_connect_and_maybe_chain. apply wp_bind.
  eapply wp_mono; [by apply chain_entry_traced|]. intros cs s1 (Hs1 & He1 & Hok). apply wp_bind.
  quiet_step. intros t s2 [Hs2 He2]. apply wp_bind.
  eapply wp_mono; [apply fire_chain_traced; [done|done|]|].
  { destruct Hok as (Hw & _ & Hr). split_and!; cbn.
    - rewrite He2. exact Hw.
    - intros c [= <-]. by rewrite He2, He1.
    - exact Hr. }
  intros cs3 s3 [Hs3 Hok3]. apply wp_bind.
  eapply wp_mono; [by apply fire_exfil_traced|]. intros cs4 s4 [Hs4 Hok4]. by apply chain_put_traced.
Qed.

Lemma record_file_traced pid img dets path fds s :
  traced execs s → named execs (wrap_u32 pid) img →
  (∃ e, e ∈ emitted s ∧ fired_write (wrap_u32 pid) path e) →
  wp (record_file_and_maybe_chain pid img dets path fds) (λ _ s', traced execs s') s.
Proof.
  intros Hs Hn Hf. unfold record_file_and_maybe_chain. apply wp_bind.
  eapply wp_mono; [by apply chain_entry_traced|]. intros cs s1 (Hs1 & He1 & Hok). apply wp_bind.
  quiet_step. intros t s2 [Hs2 He2]. apply wp_bind.
  eapply wp_mono; [apply fire_chain_traced; [done|done|]|].
  { destruct Hok as (_ & Hc & Hr). split_and!; cbn.
    - intros f [= <-]. by rewrite He2, He1.
    - rewrite He2. exact Hc.
    - exact Hr. }
  intros cs3 s3 [Hs3 Hok3]. by apply chain_put_traced.
Qed.

Lemma record_read_traced pid img dets path rds s :
  traced execs s → named execs (wrap_u32 pid) img → judge_read path = Some rds →
  wp (record_read_and_maybe_exfil pid img dets path rds) (λ _ s', traced execs s') s.
Proof.
  intros Hs Hn Hj. unfold record_read_and_maybe_exfil. apply wp_bind.
  eapply wp_mono; [by apply chain_entry_traced|]. intros cs s1 (Hs1 & He1 & Hok). apply wp_bind.
  quiet_step. intros t s2 [Hs2 He2]. apply wp_bind.
  eapply wp_mono; [apply fire_exfil_traced; [done|done|]|].
  { destruct Hok as (Hw & Hc & _). rewrite He2. split_and!; [exact Hw|exact Hc|]. by intros rd [= <-]. }
  intros cs3 s3 [Hs3 Hok3]. by apply chain_put_traced.
Qed.

Lemma connect_attributed_traced pid img sev dets daddr dport proto s :
  traced execs s → named execs (wrap_u32 pid) img →
  wp (connect_attributed pid img sev dets daddr dport proto) (λ _ s', traced execs s') s.
Proof.
  intros Hs Hn. unfold connect_attributed. apply wp_bind.
  eapply wp_mono; [by apply emit_correlated_traced|]. intros [ds|] s1 [Hs1 Hf]; [|by apply wp_mret].
  by eapply record_connect_traced; eauto.
Qed.

Lemma write_attributed_traced pid img sev dets path s :
  traced execs s → named execs (wrap_u32 pid) img →
  wp (write_attributed pid img sev dets path) (λ _ s', traced execs s') s.
Proof.
  intros Hs Hn. unfold write_attributed. apply wp_bind.
  eapply wp_mono; [by apply emit_correlated_file_traced|]. intros [ds|] s1 [Hs1 Hf]; [|by apply wp_mret].
  by eapply record_file_traced; eauto.
Qed.

(** *** Whole operations *)

Abbreviation stays := (preserves (traced execs)).

Lemma stays_quiet {A} (m : M Corr A) : total_m m → rel_m (keeps trace_view) m → stays m.
Proof. intros Hm HR. eapply preserves_total; [done|exact HR|]. intros s s' Hv. by apply traced_view. Qed.
Lemma stays_modify (f : Corr → Corr) : (∀ s, trace_view (f s) = trace_view s) → stays (modify f).
Proof. intros Hf. apply preserves_modify. intros s. apply traced_view, Hf. Qed.
Lemma stays_walk {T} (m : gmap Z T) : stays (walk m).
Proof. apply stays_quiet; eauto with torda. Qed.
Lemma stays_elapsed t : stays (elapsed t).
Proof. apply stays_quiet; eauto with torda. Qed.
Lemma stays_now : stays now.
Proof. apply stays_quiet; eauto with torda. Qed.
Lemma stays_unattributed pid img daddr dport proto :
  stays (emit_correlated pid false img SEV_INFORMATIONAL [] daddr dport proto).
Proof. intros s Hs. by apply emit_unattributed_traced. Qed.
Lemma stays_unattributed_file pid img path :
  stays (emit_correlated_file pid false img SEV_INFORMATIONAL [] path).
Proof. intros s Hs. by apply emit_unattributed_file_traced. Qed.
Hint Resolve preserves_mret preserves_gets stays_walk stays_elapsed stays_now stays_unattributed
  stays_unattributed_file : torda.

(** Forgetting entries. *)
Lemma stays_forget (f : Corr → Corr) :
  (∀ s, contexts (f s) ⊆ contexts s ∧ recently_exited (f s) ⊆ recently_exited s ∧
     chain (f s) ⊆ chain s ∧ emitted (f s) = emitted s) → stays (modify f).
Proof.
  intros Hf s Hs. apply wp_modify. destruct (Hf s) as (? & ? & ? & ?). by eapply traced_forget.
Qed.

Ltac forget_prim := apply stays_forget; intros ?; cbn;
  split_and!; first [reflexivity|apply delete_subseteq].
Ltac stays_leaf :=
  first [ solve [eauto 2 with torda nocore]
        | apply preserves_bind; [|intros ?]
        | apply preserves_for_each; intros ?
        | solve [apply stays_modify; intros ?; reflexivity]
        | solve [forget_prim] ].
Ltac solve_stays := walk_body stays_leaf.

Lemma evict_context_traced : stays evict_oldest_context.
Proof.
  intros s Hs. unfold evict_oldest_context. apply wp_bind, wp_gets, wp_bind.
  eapply wp_mono; [apply (wp_total (walk (contexts s)) (keeps trace_view)); eauto with torda|].
  intros l s1 Hv. pose proof (traced_view execs _ _ Hv Hs) as Hs1. injection Hv as Hc _ _ _.
  destruct (min_by_key _ l) as [[k c]|]; [|by apply wp_mret]. apply wp_modify.
  eapply traced_forget; [..|exact Hs1]; try done. cbn. rewrite Hc. apply delete_subseteq.
Qed.
Lemma evict_exited_traced :
  ∀ s, traced execs s → wp evict_oldest_exited (λ _ s', traced execs s' ∧ contexts s' = contexts s) s.
Proof.
  intros s Hs. unfold evict_oldest_exited. apply wp_bind, wp_gets, wp_bind.
  eapply wp_mono; [apply (wp_total (walk (recently_exited s)) (keeps trace_view)); eauto with torda|].
  intros l s1 Hv. pose proof (traced_view execs _ _ Hv Hs) as Hs1. injection Hv as Hc Hr _ _.
  destruct (min_by_key _ l) as [[k c]|]; [|by apply wp_mret]. apply wp_modify. split; [|done].
  eapply traced_forget; [..|exact Hs1]; try done. cbn. rewrite Hr. apply delete_subseteq.
Qed.

Lemma drains_traced pid key img sev dets :
  named execs (wrap_u32 pid) img →
  stays (drain_connects pid key img sev dets) ∧ stays (drain_writes pid key img sev dets) ∧
  stays (drain_reads pid key img dets).
Proof.
  intros Hn. unfold drain_connects, drain_writes, drain_reads. split_and!.
  - assert (∀ daddr dport proto, stays (connect_attributed pid img sev dets daddr dport proto))
      by (intros ??? s Hs; by apply connect_attributed_traced).
    solve_stays.
  - assert (∀ path, stays (write_attributed pid img sev dets path))
      by (intros ? s Hs; by apply write_attributed_traced).
    solve_stays.
  - assert (∀ path rds, judge_read path = Some rds → stays (record_read_and_maybe_exfil pid img dets path rds))
      by (intros ??? s Hs; by apply record_read_traced).
    solve_stays.
Qed.

Context {V : Type} `{JsonValue V, JsonGet V}.
Implicit Type ev : SubstrateEvent V.

Lemma handle_exec_traced ev :
  (∀ pid img, get_u64 (fields ev) "pid" = Some pid → get_str (fields ev) "image" = Some img →
     (wrap_u32 pid, img) ∈ execs) →
  stays (handle_exec ev).
Proof.
  intros Hex. unfold handle_exec. destruct (get_u64 _ _) as [pid|]; [|apply preserves_mret].
  destruct (get_str _ _) as [img|]; [|apply preserves_mret]. specialize (Hex _ _ eq_refl eq_refl).
  assert (named execs (wrap_u32 pid) img) as Hn by (exists img; auto).
  apply preserves_bind; [forget_prim|intros _]. apply preserves_bind; [|intros _].
  { apply stays_forget. intros s. destruct (chain s !! _); cbn; split_and!;
      first [reflexivity|apply delete_subseteq]. }
  apply preserves_bind; [apply preserves_gets|]. intros inh. destruct (inherit _ inh) as [sev dets].
  destruct (drains_traced pid (wrap_u32 pid) img sev dets Hn) as (Hd1 & Hd2 & Hd3).
  apply preserves_bind; [apply preserves_gets|]. intros m.
  apply preserves_bind; [destruct (_ && _); [apply evict_context_traced|apply preserves_mret]|intros _].
  apply preserves_bind; [|intros _; solve_stays].
  intros s [H1' H2' H3' H4']. apply wp_modify. split; [|done..]. cbn. intros k c.
  destruct (decide (k = wrap_u32 pid)) as [->|Hne]; [rewrite lookup_insert_eq; by intros [= <-]|].
  rewrite lookup_insert_ne by done. apply H1'.
Qed.

Lemma handle_exit_traced ev : stays (handle_exit ev).
Proof.
  unfold handle_exit. destruct (get_u64 _ _) as [pid|]; [|apply preserves_mret].
  intros s Hs. apply wp_bind, wp_gets, wp_bind.
  eapply (wp_mono _ (λ _, traced execs)); [|intros u s' Hs'; by apply wp_modify, (traced_view execs s')].
  destruct (contexts s !! wrap_u32 pid) as [ctx|] eqn:Hctx; [|by apply wp_mret].
  pose proof (tr_contexts execs s Hs _ _ Hctx) as Hin. apply wp_bind, wp_modify.
  assert (traced execs (set_contexts (delete (wrap_u32 pid) (contexts s)) s)) as Hs1
    by (eapply traced_forget; [..|exact Hs]; try done; apply delete_subseteq).
  apply wp_bind, wp_gets, wp_bind. eapply (wp_mono _ (λ _, traced execs)).
  { destruct (_ && _); [|by apply wp_mret]. eapply wp_mono; [by apply evict_exited_traced|].
    by intros u s' [? _]. }
  intros u s2 Hs2. apply wp_bind. eapply wp_mono; [by apply stays_now|].
  intros t s3 [H1' H2' H3' H4']. apply wp_modify. split; [done| |done..]. cbn. intros k c t'.
  destruct (decide (k = wrap_u32 pid)) as [->|Hne]; [rewrite lookup_insert_eq; by intros [= <- <-]|].
  rewrite lookup_insert_ne by done. apply H2'.
Qed.

Lemma evictions_traced :
  stays evict_oldest_pending ∧ stays evict_oldest_file_pending ∧ stays evict_oldest_read_pending.
Proof.
  unfold evict_oldest_pending, evict_oldest_file_pending, evict_oldest_read_pending.
  split_and!; solve_stays.
Qed.

(** Attribute an event, or keep it. *)
Lemma attribute_traced key (on : ProcContext → M Corr unit) (off : M Corr unit) :
  (∀ c s, (key, ctx_image c) ∈ execs → traced execs s → wp (on c) (λ _ s', traced execs s') s) →
  stays off →
  stays (o ← attribution key; match o with Some c => on c | None => off end).
Proof.
  intros Hon Hoff s Hs. apply wp_bind. eapply wp_mono; [by apply attribution_named|].
  intros [c|] s' (Hs' & _ & Hc); [apply Hon; auto|by apply Hoff].
Qed.

Lemma handle_event_traced ev :
  (∀ pid img, kind ev = EventKind.ProcessExec →
     get_u64 (fields ev) "pid" = Some pid → get_str (fields ev) "image" = Some img →
     (wrap_u32 pid, img) ∈ execs) →
  stays (handle_event ev).
Proof.
  intros Hex. destruct evictions_traced as (Hev1 & Hev2 & Hev3). unfold handle_event.
  destruct (kind ev) eqn:Hk;
    [apply handle_exec_traced; eauto|apply handle_exit_traced| | | |apply preserves_mret].
  - unfold handle_file_open. destruct (get_u64 _ _) as [pid|]; [|apply preserves_mret].
    destruct (get_str _ "path") as [path|]; [|apply preserves_mret].
    destruct (negb _); [apply preserves_mret|]. destruct (judge_read path) as [rds|] eqn:Hj; [|apply preserves_mret].
    apply attribute_traced; [|unfold buffer_read; solve_stays]. intros c s Hc Hs.
    destruct (resolve_instance c _) as [[img sev] dets] eqn:Hr.
    apply record_read_traced; [done|by eapply resolve_named|done].
  - unfold handle_file_write. destruct (get_u64 _ _) as [pid|]; [|apply preserves_mret].
    destruct (get_str _ "path") as [path|]; [|apply preserves_mret].
    destruct (negb _); [apply preserves_mret|].
    apply attribute_traced; [|unfold buffer_write; solve_stays]. intros c s Hc Hs.
    destruct (resolve_instance c _) as [[img sev] dets] eqn:Hr.
    apply write_attributed_traced; [done|by eapply resolve_named].
  - unfold handle_connect. destruct (get_u64 _ "pid") as [pid|]; [|apply preserves_mret].
    destruct (get_str _ "daddr") as [daddr|]; [|apply preserves_mret].
    destruct (_ ≫= u16_try_from) as [dport|]; [|apply preserves_mret].
    apply attribute_traced; [|unfold buffer_connect; solve_stays]. intros c s Hc Hs.
    destruct (resolve_instance c _) as [[img sev] dets] eqn:Hr.
    apply connect_attributed_traced; [done|by eapply resolve_named].
Qed.

Lemma flush_traced g pid vec vec' :
  stays (flush_connects g pid vec) ∧ stays (flush_writes g pid vec').
Proof.
  split; [induction vec; cbn [flush_connects]; solve_stays|induction vec'; cbn [flush_writes]; solve_stays].
Qed.
Lemma retain_traced g vec : stays (retain_reads g vec).
Proof. induction vec; cbn [retain_reads]; solve_stays. Qed.
Lemma is_expired_traced cs : stays (is_expired cs).
Proof. unfold is_expired, half_old. solve_stays. Qed.

Lemma tick_traced g : stays (tick g).
Proof.
  pose proof (λ pid v, proj1 (flush_traced g pid v [])). pose proof (λ pid v, proj2 (flush_traced g pid [] v)).
  pose proof retain_traced. pose proof is_expired_traced.
  unfold tick, tick_connects, tick_writes, tick_reads, tick_exited, tick_chain. solve_stays.
Qed.

Lemma shutdown_traced : stays shutdown.
Proof. unfold shutdown, flush_pending_on_shutdown, flush_file_pending_on_shutdown. solve_stays. Qed.
End trace.

(** ** The whole task *)

Section task.
Context `{Host} {V : Type} `{JsonValue V, JsonGet V}.
Implicit Type (ev : SubstrateEvent V) (ws : list (Wake V)).

(** The process an exec event announces. *)
Definition exec_of ev : option (Z * string) :=
  match kind ev with
  | EventKind.ProcessExec =>
      pid ← get_u64 (fields ev) "pid"; image ← get_str (fields ev) "image"; Some (wrap_u32 pid, image)
  | _ => None
  end.

Lemma wake_traced execs g (w : Wake V) :
  (∀ x, x ∈ accepted exec_of [w] → x ∈ execs) → preserves (traced execs) (wake g w).
Proof.
  intros Hin. unfold wake. apply preserves_bind; [apply preserves_gets|]. intros r.
  destruct (negb r); [apply preserves_mret|]. destruct w as [ev| | | |]; 
    [|apply preserves_mret|apply tick_traced|apply shutdown_traced..].
  apply handle_event_traced. intros pid img Hk Hp Hi. apply Hin. cbn. unfold exec_of.
  rewrite Hk, Hp, Hi. cbn. by left.
Qed.

Lemma shutdown_halts s : wp shutdown (λ _ s', running s' = false) s.
Proof.
  unfold shutdown, flush_pending_on_shutdown, flush_file_pending_on_shutdown. apply wp_bind.
  eapply wp_mono; [apply (wp_total _ (λ _ _, True)); [solve_total|done]|]. intros u s1 _. apply wp_bind.
  eapply wp_mono; [apply (wp_total _ (λ _ _, True)); [solve_total|done]|]. intros u' s2 _.
  by apply wp_modify.
Qed.

Lemma wake_halts g (w : Wake V) s :
  running s = true → stops w = true → wp (wake g w) (λ _ s', running s' = false) s.
Proof.
  intros Hr Hst. unfold wake. apply wp_bind, wp_gets. rewrite Hr.
  destruct w; try done; apply shutdown_halts.
Qed.

Lemma task_traced execs g ws s :
  (∀ x, x ∈ accepted exec_of ws → x ∈ execs) → traced execs s → running s = true →
  wp (run_task g ws) (λ _ s', traced execs s') s.
Proof.
  revert s. induction ws as [|w ws IH]; intros s Hin Hs Hrun; [done|].
  apply (wp_bind (wake g w) (λ _, run_task g ws)). destruct (stops w) eqn:Hst.
  - eapply wp_mono; [apply wp_and; [apply (wake_traced execs)|by apply wake_halts]|].
    { destruct w; try done; by intros x ?%not_elem_of_nil. }
    { done. }
    intros u s1 [Hs1 Hr1]. eapply wp_intro; [by apply halted_task|done].
  - assert (∀ x, x ∈ accepted exec_of [w] → x ∈ execs) as Hw.
    { intros x Hx. apply Hin. destruct w; try done; cbn in Hx |- *;
        [|by apply not_elem_of_nil in Hx..]. rewrite app_nil_r in Hx. set_solver. }
    eapply wp_mono; [apply wp_and; [by apply (wake_traced execs)|]|].
    { apply (wp_total _ (λ s s', running s = true → running s' = true)); [apply total_wake|].
      intros s0 Hr0. unfold wake, mbind, M_bind, m_bind, gets. cbn. rewrite Hr0. cbn [negb].
      destruct w as [ev| | | |]; try done;
        [rewrite (running_event ev s0)|rewrite (running_tick g s0)]; done. }
    intros u s1 [Hs1 Hr1]. apply IH; [|done|auto]. intros x Hx. apply Hin.
    destruct w; try done; cbn. set_solver.
Qed.

Lemma traced_new : traced [] corr_new.
Proof. split; cbn; try done. by intros [] ? ?. Qed.

(** C12: every record the correlator ever emits is justified by what it saw before.
    A record marked attributed names the image exec'd under that pid, or the
    command name of the event itself when that contradicts the image; a record that
    is not attributed carries no detection of the correlator; and a
    file-and-network record is attributed, rated high, and follows a fired
    connection record for the same pid and endpoint and, for a written file, a
    fired write record for the same pid and path, for a read one, a path the file
    rules flag as sensitive.  (Applied to every prefix of a history: the processes
    are those announced by then.) *)
Theorem records_are_justified (g : Z) ws pre e post :
  emitted (run_task g ws corr_new).1 = pre ++ e :: post →
  justified (accepted exec_of ws) pre e.
Proof.
  destruct (wp_ok _ _ _ (task_traced (accepted exec_of ws) g ws corr_new
    (λ _ Hx, Hx) (traced_more [] _ _ ltac:(by intros x ?%not_elem_of_nil) traced_new) eq_refl))
    as ([] & s' & Hrun & Hs).
  rewrite Hrun. apply (tr_emitted _ _ Hs).
Qed.
End task.
