(* ===== verification/EndToEnd.v ===== *)
(** * From a bus event to a finding

    The agent's monitors and the server's mappers composed: what the sensors see on
    the host is what the console shows. *)

From Stdlib Require Import ZArith.
From stdpp Require Import base tactics gmap strings list.
From S2P Require Import Prelude Float32 Order Transport Keys Version Findings Engine ScoreProps.
From S2P Require Import CveSource Ocsf Ingest ActivityProps Substrate ProcMon NetMon FileMon Corr CorrFacts.
From S2P Require Import CorrConserve CorrBounds CorrMemory CorrExec CorrTrace.

Local Open Scope Z_scope.

(** [#[derive(Deserialize)]] on the two-field [Detection] reads what [json!] wrote. *)
Class DetectionLaws (V : Type) `{JsonBuild V, !Deserialize V Detection} : Prop :=
  from_hit h : from_value (hit_json h) = Some (mkDetection (hit_rule h) (hit_reason h)).

Section render.
Context {V : Type} `{JsonLaws V, !Deserialize V Detection, !DetectionLaws V}.

Lemma parse_hits (hs : list RuleHit) :
  parse_lenient (T := Detection) (json_arr (hit_json <$> hs)) =
  (λ h, mkDetection (hit_rule h) (hit_reason h)) <$> hs.
Proof.
  unfold parse_lenient. rewrite as_array_arr. cbn.
  induction hs as [|h hs IH]; [done|]. cbn. rewrite from_hit. cbn. by rewrite IH.
Qed.

(** The strongest weight among the hits of a record. *)
Definition hits_weight (weight : string → f32) (hs : list RuleHit) : option f32 :=
  fold_max ((λ h, weight (hit_rule h)) <$> hs).

Lemma max_rule_weight_hits weight (env : OcsfEnvelope V) hs :
  json_index (data env) "detections" = json_arr (hit_json <$> hs) →
  max_rule_weight weight env = hits_weight weight hs.
Proof.
  intros Hd. rewrite max_rule_weight_fold. unfold rule_weights, hits_weight. rewrite Hd, parse_hits.
  by rewrite <-list_fmap_compose.
Qed.
End render.

(** ** Connections *)

Section net.
Context `{Host} {V A : Type} `{JsonLaws V, !Deserialize V Detection, !DetectionLaws V, AssetContextSource A}.
Context (meta : Metadata) (dev : Device).
Implicit Type ev : SubstrateEvent V.

(** A connection event the sensor reports: the destination it names. *)
Definition net_dest ev : option (string * Z) :=
  match kind ev with
  | EventKind.NetConnect =>
      daddr ← get_str (fields ev) "daddr";
      dport ← get_u64 (fields ev) "dport" ≫= u16_try_from;
      pid ← get_u64 (fields ev) "pid";
      image ← get_str (fields ev) "image";
      Some (daddr, dport)
  | _ => None
  end.

(** What the server is to make of it. *)
Definition net_key ev : option ((string * string) * f32) :=
  '(daddr, dport) ← net_dest ev;
  if existsb (Z.eqb dport) SUSPICIOUS_PORTS
  then Some ((hostname dev, dest_key daddr dport),
             if is_external daddr then f32_lit 7 10 else f32_lit 4 10)
  else None.

Definition net_envelope (daddr : string) (dport : Z) (proto : string) (pid : Z) (image : string) (t : Z) :
    OcsfEnvelope V :=
  let a := NetMon.assess daddr dport in
  set_severity (assessed a) (envelope_new NETWORK_ACTIVITY "Network Activity" meta dev
    (json_obj
      [("activity", json_str "connect");
       ("connection", json_obj [("daddr", json_str daddr); ("dport", json_num dport);
                                ("proto", json_str proto)]);
       ("process", json_obj [("pid", json_num pid); ("image", json_str image)]);
       ("detections", json_arr (hit_json <$> hits a))]) t).

Lemma net_envelope_contribution daddr dport proto pid image t :
  0 ≤ dport < 65536 →
  network_contribution (net_envelope daddr dport proto pid image t) =
  if existsb (Z.eqb dport) SUSPICIOUS_PORTS
  then Some ((hostname dev, dest_key daddr dport),
             if is_external daddr then f32_lit 7 10 else f32_lit 4 10)
  else None.
Proof.
  intros Hp. unfold network_contribution.
  rewrite (max_rule_weight_hits _ _ (hits (NetMon.assess daddr dport)))
    by (unfold net_envelope; cbn [data set_severity envelope_new]; json_field; done).
  assert (json_index (data (net_envelope daddr dport proto pid image t)) "connection" =
    json_obj [("daddr", json_str daddr); ("dport", json_num dport); ("proto", json_str proto)]) as ->
    by (unfold net_envelope; cbn [data set_severity envelope_new]; json_field; done).
  do 2 json_field. rewrite as_str_str, as_u64_num by (unfold is_u64, u64_modulus; lia).
  assert (as_u16 dport = dport) as Hu by (by apply Z.mod_small). unfold net_envelope, NetMon.assess.
  cbn [class_uid set_severity envelope_new hits device]. change (negb _) with false. cbv iota.
  destruct (existsb _ _); cbn [andb app]; [|done].
  destruct (is_external daddr); cbn -[dest_key]; by rewrite Hu.
Qed.

Lemma netmon_event ev (s : Outbox V) :
  wp (NetMon.handle_event meta dev ev) (λ _ s', ∃ es, out_emitted s' = out_emitted s ++ es ∧
    omap network_contribution es = option_list (net_key ev)) s.
Proof.
  unfold NetMon.handle_event, net_key, net_dest. destruct (kind ev); cbn [negb bool_decide decide];
    try (apply wp_mret; exists []; by rewrite app_nil_r).
  rewrite bool_decide_true by done. cbn [negb].
  assert (∀ Q : unit → Outbox V → Prop, Q tt s → wp (mret tt) Q s) as Hnop by done.
  destruct (get_str (fields ev) "daddr") as [daddr|]; [|apply Hnop; exists []; by rewrite app_nil_r].
  cbn [mbind option_bind]. destruct (get_u64 (fields ev) "dport") as [raw|] eqn:Hraw;
    [|apply Hnop; exists []; by rewrite app_nil_r].
  cbn [mbind option_bind]. destruct (u16_try_from raw) as [dport|] eqn:Hport;
    [|apply Hnop; exists []; by rewrite app_nil_r].
  destruct (get_u64 (fields ev) "pid") as [pid|]; [|apply Hnop; exists []; by rewrite app_nil_r].
  destruct (get_str (fields ev) "image") as [image|]; [|apply Hnop; exists []; by rewrite app_nil_r].
  apply wp_modify. eexists [net_envelope daddr dport _ pid image _]. split; [done|]. cbn [omap list_omap].
  assert (0 ≤ dport < 65536) as Hrange.
  { unfold u16_try_from in Hport. destruct (Z.ltb_spec raw 65536); [|done]. injection Hport as <-.
    unfold get_u64 in Hraw. destruct (json_get (fields ev) "dport") as [v|]; [|done].
    apply as_u64_range in Hraw as [? _]. lia. }
  rewrite net_envelope_contribution by done. cbn [mbind option_bind].
  by destruct (existsb _ _).
Qed.

Lemma netmon_events evs (s : Outbox V) :
  wp (for_each (NetMon.handle_event meta dev) evs) (λ _ s', ∃ es, out_emitted s' = out_emitted s ++ es ∧
    omap network_contribution es = omap net_key evs) s.
Proof.
  revert s. induction evs as [|ev evs IH]; intros s; [apply wp_ret; exists []; by rewrite app_nil_r|].
  apply (wp_bind (NetMon.handle_event meta dev ev) (λ _, for_each _ evs)).
  eapply wp_mono; [apply netmon_event|]. intros u s1 (es1 & He1 & Ho1).
  eapply wp_mono; [apply IH|]. intros u' s2 (es2 & He2 & Ho2). exists (es1 ++ es2).
  rewrite He2, He1, app_assoc, omap_app, Ho1, Ho2. split; [done|]. cbn. by destruct (net_key ev).
Qed.

(** A contribution names its destination, and the destination fixes its weight. *)
Lemma net_key_elem (evs : list (SubstrateEvent V)) k w :
  (k, w) ∈ omap net_key evs ↔ ∃ ev daddr dport, ev ∈ evs ∧ net_dest ev = Some (daddr, dport) ∧
    dport ∈ SUSPICIOUS_PORTS ∧ k = (hostname dev, dest_key daddr dport) ∧
    w = if is_external daddr then f32_lit 7 10 else f32_lit 4 10.
Proof.
  assert (∀ dport, existsb (Z.eqb dport) SUSPICIOUS_PORTS = true ↔ dport ∈ SUSPICIOUS_PORTS) as Hex.
  { intros dport. rewrite existsb_exists, list_elem_of_In. split.
    - by intros (x & Hx & ->%Z.eqb_eq).
    - intros Hx. exists dport. split; [done|apply Z.eqb_refl]. }
  rewrite list_elem_of_omap. split.
  - intros (ev & Hev & Hk). unfold net_key in Hk. destruct (net_dest ev) as [[daddr dport]|] eqn:Hd;
      cbn -[f32_lit SUSPICIOUS_PORTS existsb] in Hk; [|done]. destruct (existsb (Z.eqb dport) SUSPICIOUS_PORTS) eqn:Hs; [|done]. injection Hk as <- <-.
    exists ev, daddr, dport. by rewrite <-Hex.
  - intros (ev & daddr & dport & Hev & Hd & Hs & -> & ->). exists ev. split; [done|].
    unfold net_key. rewrite Hd. cbn -[f32_lit SUSPICIOUS_PORTS existsb]. by rewrite (proj2 (Hex dport) Hs).
Qed.

Lemma net_dest_range ev daddr dport : net_dest ev = Some (daddr, dport) → 0 ≤ dport.
Proof.
  unfold net_dest. destruct (kind ev); try done. destruct (get_str _ "daddr"); [|done].
  cbn [mbind option_bind]. destruct (get_u64 (fields ev) "dport") as [raw|] eqn:Hraw; [|done].
  cbn [mbind option_bind]. unfold u16_try_from. destruct (raw <? 65536); [|done].
  cbn [mbind option_bind]. destruct (get_u64 (fields ev) "pid"); [|done]. destruct (get_str (fields ev) "image"); [|done].
  intros [= <- <-]. unfold get_u64 in Hraw. destruct (json_get (fields ev) "dport") as [v|]; [|done].
  by apply as_u64_range in Hraw as [? _].
Qed.

(** What the network sensor sees is what the console shows.  Whatever the bus
    delivers, the records of the network monitor, mapped by the server, give exactly
    one finding for each destination with a suspicious port that a well-formed
    connection event named, for the host, under its address; its score is the
    recomputed score of weight 0.7 when the address is external and 0.4 when it is
    not, whatever else is in the batch. *)
Theorem sensed_connections_become_findings (evs : list (SubstrateEvent V)) (assets : A) :
  let envs := out_emitted (for_each (NetMon.handle_event meta dev) evs (mkOutbox [] 0)).1 in
  let fs := aggregate_network_findings envs assets in
  NoDup (identity <$> fs) ∧
  (∀ i, i ∈ identity <$> fs ↔ ∃ ev daddr dport, ev ∈ evs ∧ net_dest ev = Some (daddr, dport) ∧
     dport ∈ SUSPICIOUS_PORTS ∧
     i = mkIdentity (hostname dev) ("network:" +:+ dest_key daddr dport) daddr "network") ∧
  (∀ f, f ∈ fs → score f = recompute_compliance_score
     (if is_external (component (identity f)) then f32_lit 7 10 else f32_lit 4 10)
     (asset_context assets (hostname dev))).
Proof.
  destruct (wp_ok _ _ _ (netmon_events evs (mkOutbox [] 0))) as ([] & s' & Hrun & es & He & Ho).
  intros envs fs. assert (envs = es) as Henvs by (unfold envs; by rewrite Hrun).
  unfold fs, aggregate_network_findings. rewrite Henvs, Ho.
  destruct (aggregate_spec (network_finding assets) network_identity (omap net_key evs))
    as [Hnd Hin]; [intros [[? ?] ?]; apply weighted_finding_identity|apply _|].
  split_and!; [done| |].
  - intros i. rewrite Hin. setoid_rewrite list_elem_of_fmap. split.
    + intros (k & ([k' w] & -> & (ev & daddr & dport & Hev & Hd & Hs & -> & _)%net_key_elem) & ->).
      exists ev, daddr, dport. unfold network_identity. cbn [fst snd].
      by rewrite before_last_colon_dest by (by eapply net_dest_range).
    + intros (ev & daddr & dport & Hev & Hd & Hs & ->). exists (hostname dev, dest_key daddr dport).
      split; [|unfold network_identity; cbn [fst snd]; by rewrite before_last_colon_dest by (by eapply net_dest_range)].
      eexists (_, _). split; [done|]. apply net_key_elem. by exists ev, daddr, dport.
  - intros f ([[host dest] w] & -> & Hkw)%list_elem_of_fmap. unfold network_finding.
    rewrite weighted_finding_identity, weighted_finding_score. cbn [component].
    destruct (max_weights_spec (omap net_key evs)) as [Hok Hget].
    apply (bt_get_elem pair_cmp) in Hkw; [|done]. rewrite Hget in Hkw.
    assert (∀ w', w' ∈ weights_for (host, dest) (omap net_key evs) → host = hostname dev ∧
      w' = if is_external (before_last_colon dest) then f32_lit 7 10 else f32_lit 4 10) as Hall.
    { unfold weights_for. intros w' ([k w''] & -> & [Hk Hc]%list_elem_of_filter)%list_elem_of_fmap.
      cbn in Hk. subst k. apply net_key_elem in Hc as (ev & daddr & dport & _ & Hd & _ & [= -> ->] & ->).
      by rewrite before_last_colon_dest by (by eapply net_dest_range). }
    assert (Forall not_nan (weights_for (host, dest) (omap net_key evs))) as Hnn.
    { apply Forall_forall. intros w' [_ ->]%Hall. by destruct (is_external _). }
    pose proof (fold_max_greatest _ Hnn) as Hg. rewrite Hkw in Hg. destruct Hg as (_ & Hw & _).
    by apply Hall in Hw as [-> ->].
Qed.
End net.

(** ** Correlated activity *)

Section corr.
Context `{Host, !HostLaws} {V A : Type} `{JsonLaws V, !Deserialize V Detection, !DetectionLaws V}.
Context `{AssetContextSource A} (meta : Metadata) (dev : Device).
Implicit Type (ev : SubstrateEvent V) (ws : list (Wake V)).

(** The ports a record can name fit a [u16]. *)
Lemma accepted_elem {K} (pick : SubstrateEvent V → option K) ws x :
  x ∈ accepted pick ws → ∃ ev, pick ev = Some x.
Proof.
  induction ws as [|w ws IH]; [by intros ?%not_elem_of_nil|].
  destruct w as [ev| | | |]; cbn; try done; try by intros ?%not_elem_of_nil.
  intros [Hx|Hx]%elem_of_app; [|auto]. exists ev. destruct (pick ev) as [y|]; cbn in Hx; [|by apply not_elem_of_nil in Hx].
  by apply list_elem_of_singleton in Hx as ->.
Qed.

Lemma connect_of_range ev k daddr dport proto :
  connect_of ev = Some (k, daddr, dport, proto) → 0 ≤ dport < 65536.
Proof.
  unfold connect_of. destruct (kind ev); try done. destruct (get_u64 (fields ev) "pid"); [|done].
  cbn [mbind option_bind]. destruct (get_str (fields ev) "daddr"); [|done]. cbn [mbind option_bind].
  destruct (get_u64 (fields ev) "dport") as [raw|] eqn:Hraw; [|done]. cbn [mbind option_bind].
  unfold u16_try_from. destruct (Z.ltb_spec raw 65536) as [Hlt|]; [|done]. cbn [mbind option_bind].
  intros [= _ _ <- _]. unfold get_u64 in Hraw. destruct (json_get (fields ev) "dport") as [v|]; [|done].
  apply as_u64_range in Hraw as [? _]. lia.
Qed.

Lemma ports_in_range g ws e c :
  e ∈ emitted (run_task g ws corr_new).1 → connection (em_data e) = Some c → 0 ≤ cb_dport c < 65536.
Proof.
  destruct (wp_ok _ _ _ (wp_and _ _ _ _ (task_conserves g ws corr_new eq_refl)
    (task_traced (accepted exec_of ws) g ws corr_new (λ _ Hx, Hx)
      (traced_more [] _ _ ltac:(by intros x ?%not_elem_of_nil) traced_new) eq_refl)))
    as ([] & s & Hrun & (Hbal & _ & _) & Htr). rewrite Hrun. cbn [fst].
  assert (∀ e k daddr dport proto, e ∈ emitted s → net_record e = Some (k, daddr, dport, proto) → 0 ≤ dport < 65536) as Hnet.
  { intros e0 k daddr dport proto Hin Hrec. destruct Hbal as (lost & Hp & _).
    assert ((k, daddr, dport, proto) ∈ accepted connect_of ws) as Hacc.
    { unfold stock, waiting in Hp. cbn [buf conn_buffer pending corr_new out emitted omap list_omap] in Hp.
      rewrite contents_empty in Hp. cbn [fmap list_fmap app] in Hp. rewrite <-Hp.
      rewrite !elem_of_app. left. left. apply list_elem_of_omap. by exists e0. }
    apply accepted_elem in Hacc as [ev Hev]. by eapply connect_of_range. }
  intros Hin Hc. apply list_elem_of_split in Hin as (pre & post & Heq).
  destruct (tr_emitted _ _ Htr pre e post Heq) as (_ & _ & Hchain & Hshape).
  unfold names_connection in Hshape. rewrite Hc in Hshape. cbn in Hshape.
  destruct (decide (activity (em_data e) = "process_network")) as [Ha|Ha].
  - apply (Hnet e (wrap_u32 (pb_pid (process (em_data e)))) (cb_daddr c) _ (cb_proto c)); [rewrite Heq; set_solver|].
    unfold net_record. rewrite bool_decide_true by done. by rewrite Hc.
  - rewrite bool_decide_false in Hshape by done. cbn in Hshape. rewrite orb_false_r in Hshape.
    apply bool_decide_eq_true in Hshape. symmetry in Hshape.
    destruct (Hchain Hshape) as [_ (f & c' & _ & Hc' & _ & (e2 & Hin2 & Hf2) & _)].
    rewrite Hc in Hc'. injection Hc' as <-. destruct Hf2 as (Ha2 & _ & _ & _ & dets & Hconn).
    apply (Hnet e2 (wrap_u32 (pb_pid (process (em_data e2)))) (cb_daddr c) _ (cb_proto c)); [rewrite Heq; set_solver|].
    unfold net_record. rewrite bool_decide_true by done. by rewrite Hconn.
Qed.

(** What the server is to make of a record. *)
Definition edge (img daddr : string) (dport : Z) : string := img +:+ "->" +:+ dest_key daddr dport.
Definition corr_key (e : Emission) : option ((string * string) * f32) :=
  w ← hits_weight correlation_rule_weight (detections (em_data e));
  c ← connection (em_data e);
  Some ((hostname dev, edge (pb_image (process (em_data e))) (cb_daddr c) (cb_dport c)), w).

Ltac corr_field := unfold corr_json, detections_json; cbn [file connection app]; json_field.

Lemma corr_envelope_contribution (e : Emission) :
  (∀ c, connection (em_data e) = Some c → 0 ≤ cb_dport c < 65536) →
  correlation_contribution (corr_envelope meta dev e : OcsfEnvelope V) = corr_key e.
Proof.
  destruct e as [t sev [act [pid img pdets att] f c dets]]. cbn [em_data connection]. intros Hport.
  unfold correlation_contribution, corr_key, edge. cbn [em_data detections connection process pb_image].
  rewrite (max_rule_weight_hits _ _ dets)
    by (unfold corr_envelope; cbn [data set_severity envelope_new em_data]; destruct f, c; corr_field; done).
  unfold corr_envelope. cbn [class_uid data device set_severity envelope_new em_data].
  change (negb _) with false. cbv iota. destruct (hits_weight _ dets) as [w|]; [|done]. cbn [mbind option_bind].
  assert (json_index (corr_json (mkCorrData act (mkProcessBlock pid img pdets att) f c dets)) "process" =
    json_obj [("pid", json_num pid); ("image", json_str img); ("detections", detections_json pdets);
              ("attributed", json_bool att)]) as ->
    by (destruct f, c; corr_field; done).
  json_field. rewrite as_str_str. cbn [mbind option_bind]. destruct c as [c|].
  - specialize (Hport c eq_refl).
    assert (json_index (corr_json (mkCorrData act (mkProcessBlock pid img pdets att) f (Some c) dets)) "connection" =
      json_obj [("daddr", json_str (cb_daddr c)); ("dport", json_num (cb_dport c));
        ("proto", json_str (cb_proto c)); ("detections", detections_json (cb_detections c))]) as ->
      by (destruct f; corr_field; done).
    do 2 json_field. rewrite as_str_str, as_u64_num by (unfold is_u64, u64_modulus; lia).
    cbn [mbind option_bind]. unfold as_u16. by rewrite Z.mod_small.
  - assert (json_index (corr_json (mkCorrData act (mkProcessBlock pid img pdets att) f None dets)) "connection" =
      json_null) as -> by (destruct f; corr_field; done).
    by rewrite !index_null, as_str_null.
Qed.

Definition correlation_identity (k : string * string) : Identity :=
  mkIdentity k.1 ("correlation:" +:+ k.2) (before_arrow k.2) "correlation".
#[local] Instance correlation_identity_inj : Inj (=) (=) correlation_identity.
Proof. intros [h d] [h' d'] Heq. unfold correlation_identity in Heq. by simplify_eq/=. Qed.

Lemma omap_fmap {X Y Z'} (f : X → Y) (g : Y → option Z') (l : list X) : omap g (f <$> l) = omap (g ∘ f) l.
Proof. induction l as [|x l IH]; [done|]. cbn. by rewrite IH. Qed.

Lemma hits_weight_some weight hs : is_Some (hits_weight weight hs) ↔ hs ≠ [].
Proof.
  unfold hits_weight. split.
  - intros Hs ->. by destruct Hs.
  - intros Hne. apply fold_max_some. by destruct hs.
Qed.

(** C15: the console shows the correlator's verdicts.  For every history of the
    agent's bus, the records of the correlator, mapped by the server, give exactly
    one finding for each pair of process image and destination that some record
    with a correlator detection joins, for the host.  (A record without a
    connection, such as a fired process-and-file-write record, gives none.) *)
Theorem correlated_records_become_findings (g : Z) ws (assets : A) :
  let s := (run_task g ws corr_new).1 in
  let envs := corr_envelope meta dev <$> emitted s in
  let fs := aggregate_correlation_findings (V := V) envs assets in
  NoDup (identity <$> fs) ∧
  ∀ i, i ∈ identity <$> fs ↔ ∃ e c, e ∈ emitted s ∧ detections (em_data e) ≠ [] ∧
    connection (em_data e) = Some c ∧
    i = correlation_identity (hostname dev,
          edge (pb_image (process (em_data e))) (cb_daddr c) (cb_dport c)).
Proof.
  intros s envs fs. unfold fs, aggregate_correlation_findings.
  assert (omap (correlation_contribution (V := V)) envs = omap corr_key (emitted s)) as ->.
  { unfold envs. rewrite omap_fmap. pose proof (λ e c, ports_in_range g ws e c) as Hp. fold s in Hp.
    induction (emitted s) as [|e es IH]; [done|]. cbn [omap list_omap]. rewrite IH by set_solver.
    unfold compose. rewrite corr_envelope_contribution; [done|]. intros c. apply Hp. by left. }
  destruct (aggregate_spec (correlation_finding assets) correlation_identity (omap corr_key (emitted s)))
    as [Hnd Hin]; [intros [[? ?] ?]; apply weighted_finding_identity|apply _|].
  split; [done|]. intros i. rewrite Hin. setoid_rewrite list_elem_of_fmap. split.
  - intros (k & ([k' w] & -> & (e & He & Hk)%list_elem_of_omap) & ->). unfold corr_key in Hk.
    destruct (hits_weight _ _) as [w'|] eqn:Hw; cbn [mbind option_bind] in Hk; [|done].
    destruct (connection (em_data e)) as [c|] eqn:Hc; cbn [mbind option_bind] in Hk; [|done].
    injection Hk as <- <-. exists e, c. split_and!; [done| |done|done].
    apply (hits_weight_some correlation_rule_weight). by eexists.
  - intros (e & c & He & Hd & Hc & ->).
    destruct (proj2 (hits_weight_some correlation_rule_weight _) Hd) as [w Hw].
    eexists. split; [|done]. eexists (_, w). split; [done|]. apply list_elem_of_omap. exists e. split; [done|].
    unfold corr_key. by rewrite Hw, Hc.
Qed.
End corr.
