(* ===== verification/MonitorProps.v ===== *)
(** * The monitors

    Which addresses are external, what the process rules amount to, and how an exit
    is joined with its exec. *)

From Stdlib Require Import ZArith.
From stdpp Require Import base tactics gmap strings list.
From S2P Require Import Prelude Transport Keys Version CveSource Ocsf Substrate ProcMon NetMon.

Local Open Scope Z_scope.

(** ** Dotted quads *)

Definition dotted_quad (ip : Ipv4Addr) : string :=
  let '(a, b, c, d) := ip in
  show_Z a +:+ "." +:+ show_Z b +:+ "." +:+ show_Z c +:+ "." +:+ show_Z d.
Definition is_octet (z : Z) : Prop := 0 ≤ z < 256.
Definition is_ipv4 (ip : Ipv4Addr) : Prop :=
  let '(a, b, c, d) := ip in is_octet a ∧ is_octet b ∧ is_octet c ∧ is_octet d.

(** What the reader needs of a printed octet, checked for all 256. *)
Definition octet_ok (a : Z) : bool :=
  let bs := as_bytes (show_Z a) in
  let ds := (λ c, c - 48) <$> bs in
  forallb (λ c, bool_decide (to_digit 10 c = Some (c - 48))) bs &&
  bool_decide (length ds ≤ 3)%nat && negb (bool_decide (ds = [])) &&
  negb (bool_decide (head ds = Some 0) && bool_decide (1 < length ds)%nat) &&
  (foldl (λ v d, v * 10 + d) 0 ds =? a).

Lemma octets_ok a : is_octet a → octet_ok a = true.
Proof.
  intros [H0 H1]. assert (forallb octet_ok (Z.of_nat <$> seq 0 256) = true) as Hall by (vm_compute; reflexivity).
  rewrite forallb_forall in Hall. apply Hall. apply list_elem_of_In, list_elem_of_fmap.
  exists (Z.to_nat a). split; [lia|]. apply elem_of_seq. lia.
Qed.

Lemma read_digits_app bs rest :
  forallb (λ c, bool_decide (to_digit 10 c = Some (c - 48))) bs = true →
  (∀ c r, rest = c :: r → to_digit 10 c = None) →
  read_digits 10 (bs ++ rest) = ((λ c, c - 48) <$> bs, rest).
Proof.
  intros Hbs Hrest. induction bs as [|c bs IH]; cbn [app fmap list_fmap].
  - destruct rest as [|c r]; [done|]. cbn. by rewrite (Hrest c r eq_refl).
  - cbn [forallb] in Hbs. apply andb_true_iff in Hbs as [Hc%bool_decide_eq_true Hbs]. cbn [read_digits].
    rewrite Hc, (IH Hbs). done.
Qed.

Lemma read_octet_number a rest :
  is_octet a → (∀ c r, rest = c :: r → to_digit 10 c = None) →
  read_number 10 3 false 255 (as_bytes (show_Z a) ++ rest) = Some (a, rest).
Proof.
  intros Ha Hrest. pose proof (octets_ok a Ha) as Hok. unfold octet_ok in Hok.
  apply andb_true_iff in Hok as [Hok Hval%Z.eqb_eq]. apply andb_true_iff in Hok as [Hok Hzero].
  apply andb_true_iff in Hok as [Hok Hne]. apply andb_true_iff in Hok as [Hdig Hlen%bool_decide_eq_true].
  unfold read_number. rewrite (read_digits_app _ rest Hdig Hrest).
  rewrite bool_decide_false by lia. apply negb_true_iff in Hne, Hzero. rewrite Hne. cbn [negb andb].
  rewrite Hzero, Hval. destruct Ha. by rewrite (proj2 (Z.leb_le a 255)) by lia.
Qed.

Lemma read_dot (r : Reader Z) rest : read_separator 46 1 r (46 :: rest) = r rest.
Proof. done. Qed.

Lemma parse_dotted_quad ip : is_ipv4 ip → parse_ip (dotted_quad ip) = Some (V4 ip).
Proof.
  destruct ip as [[[a b] c] d]. intros (Ha & Hb & Hc & Hd). unfold dotted_quad, parse_ip, read_ip_addr, read_ipv4_addr.
  rewrite !as_bytes_app. change (as_bytes ".") with [46].
  assert (∀ (z : Z) l c r, z :: l = c :: r → z = 46 → to_digit 10 c = None) as Hdot
    by (intros z l c' r [= <- _] ->; reflexivity).
  unfold read_octet. cbn [read_separator].
  rewrite (read_octet_number a) by (first [done|intros; by eapply Hdot]). cbn [mbind option_bind app].
  cbn [read_given_char]. change (46 =? 46) with true. cbv iota. cbn [mbind option_bind].
  rewrite (read_octet_number b) by (first [done|intros; by eapply Hdot]). cbn [mbind option_bind app].
  cbn [read_given_char]. change (46 =? 46) with true. cbv iota. cbn [mbind option_bind].
  rewrite (read_octet_number c) by (first [done|intros; by eapply Hdot]). cbn [mbind option_bind app].
  cbn [read_given_char]. change (46 =? 46) with true. cbv iota. cbn [mbind option_bind].
  rewrite <-(app_nil_r (as_bytes (show_Z d))).
  rewrite (read_octet_number d) by done. done.
Qed.

(** The network rules tell local destinations from external ones exactly: an
    IPv4 address in its dotted form is parsed back to itself and is external unless
    it is private, loopback, link-local or unspecified. *)
Theorem external_addresses (ip : Ipv4Addr) :
  is_ipv4 ip →
  parse_ip (dotted_quad ip) = Some (V4 ip) ∧
  (is_external (dotted_quad ip) = false ↔
   let '(a, b, _, _) := ip in
   a = 10 ∨ a = 172 ∧ 16 ≤ b ≤ 31 ∨ a = 192 ∧ b = 168 ∨ a = 127 ∨ a = 169 ∧ b = 254 ∨ ip = (0, 0, 0, 0)).
Proof.
  intros Hip. split; [by apply parse_dotted_quad|]. unfold is_external. rewrite parse_dotted_quad by done.
  destruct ip as [[[a b] c] d]. rewrite negb_false_iff. unfold ipv4_is_local, is_private, is_loopback, is_link_local,
    is_unspecified. rewrite !orb_true_iff, !andb_true_iff, !Z.eqb_eq, !Z.leb_le, bool_decide_eq_true. tauto.
Qed.

(** ** The process rules *)

Section procmon.
Context `{Host}.

Definition from_lolbin (ctx : ProcCtx) : bool := in_table LOLBINS (basename (image ctx)).
Definition from_suspicious_dir (ctx : ProcCtx) : bool :=
  negb (bool_decide (image_trusted ctx = Some true)) &&
  existsb (λ p, str_contains p (to_lowercase (image ctx))) SUSPICIOUS_PATHS.
Definition with_suspicious_args (ctx : ProcCtx) : bool :=
  match cmdline ctx with
  | Some cmd => existsb (λ t, str_contains t (to_lowercase cmd)) SUSPICIOUS_CMDLINE
  | None => false
  end.

Lemma find_existsb {T} (f : T → bool) l :
  existsb f l = match List.find f l with Some _ => true | None => false end.
Proof. induction l as [|x l IH]; [done|]. cbn. by destruct (f x). Qed.

(** The verdict of the process rules: high for a dual-use binary that runs from
    a suspicious directory (unless the image is known to be trusted) or with
    suspicious arguments; medium for one of the first two signs alone; otherwise
    informational, and then no rule fires.  Suspicious arguments alone do not
    count. *)
Theorem process_verdict (ctx : ProcCtx) :
  let a := assess_ctx ctx in
  assessed a =
    (if from_lolbin ctx && (from_suspicious_dir ctx || with_suspicious_args ctx) then SEV_HIGH
     else if from_lolbin ctx || from_suspicious_dir ctx then SEV_MEDIUM
     else SEV_INFORMATIONAL) ∧
  (hits a = [] ↔ assessed a = SEV_INFORMATIONAL).
Proof.
  unfold assess_ctx, from_lolbin, from_suspicious_dir, with_suspicious_args. rewrite find_existsb.
  destruct (in_table LOLBINS _), (bool_decide (image_trusted ctx = Some true)),
    (List.find _ SUSPICIOUS_PATHS) as [pat|], (cmdline ctx) as [cmd|]; cbn [negb andb orb];
    try rewrite find_existsb; try destruct (List.find _ SUSPICIOUS_CMDLINE) as [tok|].
  all: split; [lazy; reflexivity|cbn [hits assessed app]; split; intros Hh].
  all: first [reflexivity | discriminate Hh | lazy in Hh; discriminate Hh].
Qed.

(** ** Exec and exit *)

Context {V : Type} `{JsonValue V, JsonBuild V, JsonGet V}.
Context (meta : Metadata) (dev : Device).
Implicit Type (ev : SubstrateEvent V) (s : ProcMon V).

(** An event of another process. *)
Definition other (key : Z) ev : Prop :=
  ∀ p, get_u64 (fields ev) "pid" = Some p → wrap_u32 p ≠ key.

Definition awaits (key : Z) (pe : PendingExec) (n : nat) s : Prop :=
  pending s !! key = Some pe ∧ (size (pending s) ≤ n)%nat.

Lemma exec_awaits ev pid img n s :
  get_u64 (fields ev) "pid" = Some pid → get_str (fields ev) "image" = Some img →
  (size (pending s) ≤ n)%nat → (n < MAX_PENDING)%nat →
  wp (ProcMon.handle_exec meta dev ev) (λ _ s', pending s' = <[wrap_u32 pid := mkPendingExec img (ts ev)]> (pending s)) s.
Proof.
  intros Hp Hi Hsz Hn. unfold ProcMon.handle_exec, ProcMon.emit. rewrite Hp, Hi.
  apply wp_bind, wp_bind. eapply wp_intro; [done|]. apply wp_modify, wp_bind, wp_gets, wp_bind. cbn [pending].
  rewrite (bool_decide_false (MAX_PENDING ≤ _)%nat) by lia. rewrite andb_false_r.
  apply wp_mret, wp_bind, wp_gets, wp_bind, wp_modify, wp_modify. done.
Qed.

Lemma other_awaits key pe n ev s :
  other key ev → awaits key pe n s → (n < MAX_PENDING)%nat →
  wp (ProcMon.handle_event meta dev ev) (λ _ s', awaits key pe (S n) s') s.
Proof.
  intros Ho [Hk Hsz] Hn. unfold ProcMon.handle_event.
  assert (awaits key pe (S n) s) as Hsame by (split; [done|lia]).
  destruct (kind ev); try by apply wp_mret.
  - destruct (get_u64 (fields ev) "pid") as [p|] eqn:Hp;
      [|unfold ProcMon.handle_exec; rewrite Hp; by apply wp_mret].
    destruct (get_str (fields ev) "image") as [img|] eqn:Hi;
      [|unfold ProcMon.handle_exec; rewrite Hp, Hi; by apply wp_mret].
    eapply wp_mono; [by apply (exec_awaits ev p img n)|]. intros u s' Hs'. unfold awaits. rewrite Hs'.
    specialize (Ho p Hp). rewrite lookup_insert_ne by done. split; [done|].
    rewrite map_size_insert. destruct (pending s !! wrap_u32 p); cbn; lia.
  - unfold ProcMon.handle_exit. destruct (get_u64 (fields ev) "pid") as [p|] eqn:Hp; [|by apply wp_mret].
    destruct (get_str (fields ev) "image") as [img|]; [|by apply wp_mret]. specialize (Ho p Hp).
    apply wp_bind, wp_gets, wp_bind, wp_modify. destruct (match pending s !! wrap_u32 p with Some _ => _ | None => _ end)
      as [[[im lt] hit] sev].
    apply wp_bind, wp_modify. unfold ProcMon.emit. apply wp_bind. eapply wp_intro; [done|]. apply wp_modify.
    unfold awaits. cbn [pending]. rewrite lookup_delete_ne by done. split; [done|].
    rewrite map_size_delete. destruct (pending s !! wrap_u32 p); cbn; lia.
Qed.

Lemma others_await key pe n evs s :
  Forall (other key) evs → awaits key pe n s → (n + length evs ≤ MAX_PENDING)%nat →
  wp (for_each (ProcMon.handle_event meta dev) evs) (λ _ s', awaits key pe (n + length evs) s') s.
Proof.
  intros Ho. revert n s. induction Ho as [|ev evs Hev Ho IH]; intros n s Hs Hn.
  { apply wp_ret. by rewrite Nat.add_0_r. }
  apply (wp_bind (ProcMon.handle_event meta dev ev) (λ _, for_each _ evs)). cbn [length] in *.
  eapply wp_mono; [apply (other_awaits key pe n); [done..|lia]|]. intros u s1 Hs1.
  eapply wp_mono; [apply (IH (S n)); [done|lia]|]. intros u' s2 Hs2. by rewrite Nat.add_succ_r.
Qed.

(** The record of an exit. *)
Definition exit_record (pid : Z) (img : string) (lifetime : V) (hs : list RuleHit) : V :=
  json_obj [("activity", json_str "exit");
            ("process", json_obj [("pid", json_num pid); ("image", json_str img)]);
            ("lifetime_ms", lifetime);
            ("detections", json_arr (hit_json <$> hs))].

(** An exit is joined with its exec.  When a process is exec'd and later exits,
    with any events of other processes in between (as many as the buffer has room
    for), the exit record names the image of the exec, whatever the exit event says,
    and the lifetime between the two timestamps; it carries the short-lived
    detection, and at least medium severity, exactly when the image is suspicious
    and the lifetime is under 500 ms; and the process is no longer awaited. *)
Theorem exit_joins_its_exec s ex evs xt pid img xpid ximg :
  kind ex = EventKind.ProcessExec →
  get_u64 (fields ex) "pid" = Some pid → get_str (fields ex) "image" = Some img →
  kind xt = EventKind.ProcessExit →
  get_u64 (fields xt) "pid" = Some xpid → get_str (fields xt) "image" = Some ximg →
  wrap_u32 xpid = wrap_u32 pid → Forall (other (wrap_u32 pid)) evs →
  (size (pending s) + length evs < MAX_PENDING)%nat →
  let lifetime := Z.max 0 (wrap_i64 (ts xt - ts ex)) in
  let short := (SEV_INFORMATIONAL <? assessed (ProcMon.assess img)) && (lifetime <? SHORT_LIVED_MS) in
  let s' := (run_events meta dev (ex :: evs ++ [xt]) s).1 in
  pending s' !! wrap_u32 pid = None ∧
  ∃ env hs, last (emitted s') = Some env ∧
    data env = exit_record xpid img (json_num lifetime) hs ∧
    hit_rule <$> hs = (if short then ["short_lived_suspicious"] else []) ∧
    severity_id env = Z.max (assessed (ProcMon.assess img)) (if short then SEV_MEDIUM else SEV_INFORMATIONAL).
Proof.
  intros Hkx Hpid Himg Hkt Hxp Hxi Hkey Hother Hroom lifetime short s'.
  assert (wp (run_events meta dev (ex :: evs ++ [xt])) (λ _ s', pending s' !! wrap_u32 pid = None ∧
    ∃ env hs, last (emitted s') = Some env ∧ data env = exit_record xpid img (json_num lifetime) hs ∧
      hit_rule <$> hs = (if short then ["short_lived_suspicious"] else []) ∧
      severity_id env = Z.max (assessed (ProcMon.assess img)) (if short then SEV_MEDIUM else SEV_INFORMATIONAL)) s) as Hwp.
  2: { unfold s'. unfold wp in Hwp. by destruct (run_events meta dev _ s) as [t [a|e|]]. }
  apply (wp_bind (ProcMon.handle_event meta dev ex) (λ _, for_each _ (evs ++ [xt]))).
  unfold ProcMon.handle_event at 1. rewrite Hkx.
  eapply wp_mono; [apply (exec_awaits ex pid img (size (pending s))); [done..|lia]|]. intros u s1 Hs1.
  eapply wp_ext; [apply for_each_app|]. apply wp_bind.
  eapply wp_mono; [apply (others_await (wrap_u32 pid) (mkPendingExec img (ts ex)) (S (size (pending s))));
    [done| |lia]|].
  { unfold awaits. rewrite Hs1, lookup_insert_eq, map_size_insert. split; [done|]. destruct (_ !! _); cbn; lia. }
  intros u' s2 [Hk2 _]. apply (wp_bind (ProcMon.handle_event meta dev xt) (λ _, for_each _ [])).
  unfold ProcMon.handle_event, ProcMon.handle_exit. rewrite Hkt, Hxp, Hxi, Hkey.
  apply wp_bind, wp_gets, wp_bind, wp_modify. rewrite Hk2. cbn [pe_image pe_exec_ts]. fold lifetime.
  apply wp_bind, wp_modify. unfold ProcMon.emit. apply wp_bind. eapply wp_intro; [done|]. apply wp_modify, wp_ret.
  cbn [pending emitted]. split; [apply lookup_delete_eq|]. rewrite last_snoc.
  unfold assess_lifecycle. fold short. destruct short; eexists _, (_ : list RuleHit);
    (split; [done|]); cbn [data severity_id set_severity envelope_new].
  - split; [by rewrite <-(list_fmap_singleton hit_json)|]. done.
  - split; [by instantiate (1 := [])|]. done.
Qed.
End procmon.
