(* ===== verification/Posture.v ===== *)
(** * Posture: compliance controls, configuration drift, file integrity

    [crates/compliance/src]: the controls and their evaluation ([control.rs],
    [controls.rs]), the baseline comparison ([drift.rs]), the watchlist
    ([fim.rs]), the framework crosswalk ([framework.rs]), an organisation's policy
    ([policy.rs]) and the wire records ([record.rs]); the change gate of
    [crates/core/src/lib.rs]; and the collection of the three modules
    ([crates/modules/compliance], [drift], [fim]). *)

From Stdlib Require Import ZArith.
From stdpp Require Import base tactics gmap strings list.
From S2P Require Import Prelude Float32 Transport Keys Version CveSource Action Bridge Findings Engine.
From S2P Require Import Ocsf Ingest Substrate.

Local Open Scope Z_scope.

(** [serde_json::to_value], as [json!] applies it to a record; the text of a value. *)
Class Serialize (V T : Type) := to_value : T → V.
Class JsonText (V : Type) := json_to_string : V → string.

(** [DefaultHasher] over a string. *)
Class DefaultHasher := default_hash : string → Z.

(** [str::parse::<i64>]: an optional sign, then digits that fit. *)
Definition parse_i64 (s : string) : option Z :=
  let '(negative, ds) :=
    match as_bytes s with
    | 45 :: ds => (true, ds)
    | 43 :: ds => (false, ds)
    | ds => (false, ds)
    end in
  if bool_decide (ds = []) || negb (forallb is_digit ds) then None
  else
    let z := if negative then - digits_value ds else digits_value ds in
    if (- 2 ^ 63 <=? z) && (z <? 2 ^ 63) then Some z else None.

Section posture.
Context {V : Type} `{JsonValue V, JsonBuild V, JsonGet V}.
Abbreviation Row := V.
(** [HashMap<String, Vec<Value>>]: the tables the provider could serve. *)
Abbreviation Snapshot := (gmap string (list Row)).

(** ** Controls (control.rs, controls.rs) *)

Record Control := mkControl {
  ctl_id : string; ctl_title : string; ctl_table : string; ctl_subject : string;
  ctl_location : string; ctl_weight : f32; ctl_remediation_key : string;
  check : list Row → bool;
}.

Record ControlResult := mkControlResult {
  res_control_id : string; res_passed : bool; res_weight : f32; res_subject : string;
  res_location : string; res_remediation_key : string;
}.

Definition table (s : Snapshot) (name : string) : option (list Row) := s !! name.

Definition evaluate (controls : list Control) (snapshot : Snapshot) : list ControlResult :=
  omap (λ c,
    rows ← table snapshot (ctl_table c);
    Some (mkControlResult (ctl_id c) (check c rows) (ctl_weight c) (ctl_subject c)
            (ctl_location c) (ctl_remediation_key c))) controls.

(** [r\[k\] == "lit"]. *)
Definition field_is (r : Row) (k lit : string) : bool :=
  bool_decide (json_as_str (json_index r k) = Some lit).

Definition sshd_root_login_disabled (rows : list Row) : bool :=
  existsb (λ r, field_is r "key" "PermitRootLogin" && field_is r "value" "no") rows.

Definition telnet_not_installed (rows : list Row) : bool :=
  negb (existsb (λ r, field_is r "name" "telnet") rows).

Definition value_as_i64 (v : V) : option Z :=
  match json_as_i64 v with
  | Some n => Some n
  | None => json_as_str v ≫= parse_i64
  end.

Definition password_max_days_ok (rows : list Row) : bool :=
  default false
    (r ← List.find (λ r, field_is r "key" "PASS_MAX_DAYS") rows;
     days ← value_as_i64 (json_index r "value");
     Some (days <=? 365)).

Definition builtin_controls : list Control :=
  [ mkControl "sshd-root-login-disabled" "SSH root login disabled" "sshd_config" "sshd_config"
      "/etc/ssh/sshd_config" (f32_lit 8 10) "set:PermitRootLogin=no" sshd_root_login_disabled;
    mkControl "telnet-not-installed" "telnet package not installed" "packages" "telnet"
      "package-manager" (f32_lit 6 10) "remove:telnet" telnet_not_installed;
    mkControl "password-max-days" "Password max age <= 365 days" "login_defs" "login.defs"
      "/etc/login.defs" (f32_lit 5 10) "set:PASS_MAX_DAYS<=365" password_max_days_ok ].

(** ** Drift (drift.rs) *)

Inductive Expectation :=
  | ValueEquals (value_field expected : string)
  | Absent.

Record BaselineEntry := mkBaselineEntry {
  be_id : string; be_table : string; selector_field : string; selector_value : string;
  be_subject : string; be_location : string; be_weight : f32; expectation : Expectation;
  be_remediation_key : string;
}.

Record DriftResult := mkDriftResult {
  dres_entry_id : string; dres_drifted : bool; dres_subject : string; dres_location : string;
  dres_weight : f32; dres_expected : string; dres_actual : option string;
  dres_remediation_key : string;
}.

Definition detect_drift (baseline : list BaselineEntry) (snapshot : Snapshot) : list DriftResult :=
  omap (λ e,
    rows ← table snapshot (be_table e);
    let matched := List.find (λ r, bool_decide (get_str r (selector_field e) =
                                                Some (selector_value e))) rows in
    let '(drifted, expected, actual) :=
      match expectation e with
      | ValueEquals value_field expected =>
          let actual := matched ≫= λ r, get_str r value_field in
          (negb (bool_decide (actual = Some expected)), expected, actual)
      | Absent =>
          let present := bool_decide (is_Some matched) in
          (present, "absent", if present then Some "present" else None)
      end in
    Some (mkDriftResult (be_id e) drifted (be_subject e) (be_location e) (be_weight e)
            expected actual (be_remediation_key e))) baseline.

Definition to_drift_records (results : list DriftResult) : list DriftRecord :=
  (λ r, mkDriftRecord (dres_entry_id r) (dres_drifted r) (dres_subject r) (dres_location r)
          (dres_weight r) (dres_expected r) (dres_actual r) (dres_remediation_key r)) <$> results.

Definition builtin_baseline : list BaselineEntry :=
  [ mkBaselineEntry "openssl-pinned" "packages" "name" "openssl" "openssl" "packages"
      (f32_lit 7 10) (ValueEquals "version" "3.0.14") "upgrade:openssl=3.0.14";
    mkBaselineEntry "telnet-absent" "packages" "name" "telnet" "telnet" "packages"
      (f32_lit 6 10) Absent "remove:telnet" ].

(** ** File integrity (fim.rs) *)

Record WatchEntry := mkWatchEntry {
  we_id : string; we_path : string; expected_sha256 : string; we_weight : f32;
  we_remediation_key : string;
}.

Record IntegrityResult := mkIntegrityResult {
  ir_entry_id : string; ir_violated : bool; ir_path : string; ir_weight : f32;
  ir_expected_sha256 : string; ir_actual_sha256 : option string; ir_remediation_key : string;
}.

Definition DELETED : string := "<deleted>".

Definition check_integrity (watchlist : list WatchEntry) (snapshot : Snapshot) :
    list IntegrityResult :=
  omap (λ w,
    rows ← table snapshot "files";
    let '(violated, actual) :=
      match List.find (λ r, bool_decide (get_str r "path" = Some (we_path w))) rows with
      | None => (true, None)
      | Some r =>
          if negb (default true (get_bool r "exists")) then (true, Some DELETED)
          else
            let actual := get_str r "sha256" in
            (negb (bool_decide (actual = Some (expected_sha256 w))), actual)
      end in
    Some (mkIntegrityResult (we_id w) violated (we_path w) (we_weight w) (expected_sha256 w)
            actual (we_remediation_key w))) watchlist.

Definition to_fim_records (results : list IntegrityResult) : list FimRecord :=
  (λ r, mkFimRecord (ir_entry_id r) (ir_violated r) (ir_path r) (ir_weight r)
          (ir_expected_sha256 r) (ir_actual_sha256 r) (ir_remediation_key r)) <$> results.

Definition builtin_watchlist : list WatchEntry :=
  [ mkWatchEntry "fim-sshd-config" "/etc/ssh/sshd_config"
      "1111111111111111111111111111111111111111111111111111111111111111" (f32_lit 8 10)
      "restore:/etc/ssh/sshd_config";
    mkWatchEntry "fim-passwd" "/etc/passwd"
      "2222222222222222222222222222222222222222222222222222222222222222" (f32_lit 9 10)
      "investigate:/etc/passwd" ].

(** ** Frameworks (framework.rs) *)

Record ControlMapping := mkControlMapping { check_id : string; framework_control_id : string }.
Record FrameworkProfile := mkFrameworkProfile {
  fp_framework : string; mappings : list ControlMapping;
}.

Definition framework_ids_for (p : FrameworkProfile) (id : string) : list string :=
  framework_control_id <$> filter (λ m, check_id m = id) (mappings p).

Definition profile (name : string) (rows : list (string * string)) : FrameworkProfile :=
  mkFrameworkProfile name ((λ r, mkControlMapping r.1 r.2) <$> rows).

Definition cis_profile : FrameworkProfile :=
  let map check cis := mkControlMapping check cis in
  mkFrameworkProfile "CIS"
    [ map "sshd-root-login-disabled" "CIS-5.2.8"; map "sshd-root-login-disabled" "CIS-5.2.10";
      map "telnet-not-installed" "CIS-2.3.1"; map "password-max-days" "CIS-5.4.1.1" ].
Definition nist_800_53_profile : FrameworkProfile := profile "NIST 800-53"
  [ ("sshd-root-login-disabled", "AC-6"); ("sshd-root-login-disabled", "AC-17");
    ("telnet-not-installed", "CM-7"); ("password-max-days", "IA-5") ].
Definition pci_dss_profile : FrameworkProfile := profile "PCI-DSS"
  [ ("sshd-root-login-disabled", "7.2.1"); ("telnet-not-installed", "2.2.4");
    ("password-max-days", "8.3.9") ].
Definition hipaa_profile : FrameworkProfile := profile "HIPAA"
  [ ("sshd-root-login-disabled", "164.312(a)(1)"); ("telnet-not-installed", "164.312(e)(1)");
    ("password-max-days", "164.308(a)(5)") ].
Definition soc2_profile : FrameworkProfile := profile "SOC 2"
  [ ("sshd-root-login-disabled", "CC6.1"); ("telnet-not-installed", "CC6.6");
    ("password-max-days", "CC6.1") ].
Definition iso_27001_profile : FrameworkProfile := profile "ISO 27001"
  [ ("sshd-root-login-disabled", "A.8.2"); ("telnet-not-installed", "A.8.20");
    ("password-max-days", "A.5.17") ].
Definition disa_stig_profile : FrameworkProfile := profile "DISA STIG"
  [ ("sshd-root-login-disabled", "SRG-OS-000480"); ("telnet-not-installed", "SRG-OS-000095");
    ("password-max-days", "SRG-OS-000076") ].

Definition all_frameworks : list FrameworkProfile :=
  [ cis_profile; nist_800_53_profile; pci_dss_profile; hipaa_profile; soc2_profile;
    iso_27001_profile; disa_stig_profile ].

Definition profile_by_name (name : string) : option FrameworkProfile :=
  List.find (λ p, bool_decide (fp_framework p = name)) all_frameworks.

(** ** Policy (policy.rs) *)

Record ControlOverride := mkControlOverride {
  ov_control_id : string; enabled : option bool; ov_weight : option f32;
}.
Record Policy := mkPolicy { frameworks : list string; overrides : list ControlOverride }.

Definition default_policy : Policy := mkPolicy (fp_framework <$> all_frameworks) [].

Definition set_weight (w : f32) (c : Control) : Control :=
  mkControl (ctl_id c) (ctl_title c) (ctl_table c) (ctl_subject c) (ctl_location c) w
    (ctl_remediation_key c) (check c).

Definition apply_overrides (controls : list Control) (ovs : list ControlOverride) : list Control :=
  omap (λ c,
    match List.find (λ o, bool_decide (ov_control_id o = ctl_id c)) ovs with
    | Some o =>
        if bool_decide (enabled o = Some false) then None
        else Some (match ov_weight o with Some w => set_weight w c | None => c end)
    | None => Some c
    end) controls.

(** ** Wire records (record.rs) *)

Definition to_records (results : list ControlResult) (profiles : list FrameworkProfile) :
    list ComplianceRecord :=
  (λ r, mkComplianceRecord (res_control_id r) (res_passed r) (res_weight r) (res_subject r)
          (res_location r) (res_remediation_key r)
          (omap (λ p,
             let ids := framework_ids_for p (res_control_id r) in
             if bool_decide (ids = []) then None
             else Some (mkFrameworkMapping (fp_framework p) ids)) profiles)) <$> results.

(** ** The change gate (core/src/lib.rs) *)

Record ChangeGate := mkChangeGate { last_hash : option Z }.
Definition gate_new : ChangeGate := mkChangeGate None.

Context `{!JsonText V, !DefaultHasher, Host}.

Definition stable_hash (data : V) : Z := default_hash (json_to_string data).

(** What a snapshot module keeps: its gate, and the records it has emitted. *)
Definition Collector : Type := ChangeGate * Outbox V.
Definition collector_new : Collector := (gate_new, mkOutbox [] 0).

Section emit.
Context (meta : Metadata) (dev : Device).

Definition emit_if_changed (class : Z) (name : string) (data : V) : M Collector bool :=
  let h := stable_hash data in
  g ← gets (λ s, last_hash s.1);
  if bool_decide (g = Some h) then mret false
  else
    modify (λ s, (mkChangeGate (Some h),
      mkOutbox (out_emitted s.2 ++ [envelope_new class name meta dev data (wall_millis (out_seen s.2))])
        (S (out_seen s.2))));;
    mret true.

(** ** The three modules *)

(** Each table once, in order; a table the provider cannot serve is left out. *)
Definition gather_step (query : string → option (list Row)) (acc : Snapshot * gset string)
    (t : string) : Snapshot * gset string :=
  if bool_decide (t ∈ acc.2) then acc
  else (match query t with Some rows => <[t := rows]> acc.1 | None => acc.1 end, {[t]} ∪ acc.2).
Definition gather (query : string → option (list Row)) (tables : list string) : Snapshot :=
  (foldl (gather_step query) (∅, ∅) tables).1.

Context `{!Serialize V ComplianceRecord, !Serialize V DriftRecord, !Serialize V FimRecord}.

(** [json!({ key: { "records": records } })]. *)
Definition records_json {T} `{Serialize V T} (key : string) (records : list T) : V :=
  json_obj [(key, json_obj [("records", json_arr (to_value <$> records))])].

Definition compliance_payload (policy : Policy) (query : string → option (list Row)) : V :=
  let controls := apply_overrides builtin_controls (overrides policy) in
  let snap := gather query (ctl_table <$> controls) in
  let profiles := omap profile_by_name (frameworks policy) in
  records_json "compliance" (to_records (evaluate controls snap) profiles).
Definition compliance_collect (policy : Policy) (query : string → option (list Row)) :
    M Collector bool :=
  emit_if_changed COMPLIANCE_FINDING "Compliance Finding" (compliance_payload policy query).

Definition drift_payload (query : string → option (list Row)) : V :=
  let snap := gather query (be_table <$> builtin_baseline) in
  records_json "drift" (to_drift_records (detect_drift builtin_baseline snap)).
Definition drift_collect (query : string → option (list Row)) : M Collector bool :=
  emit_if_changed DEVICE_CONFIG_STATE "Device Config State" (drift_payload query).

Definition fim_payload (query : string → option (list Row)) : V :=
  let snap : Snapshot := match query "files" with Some rows => <["files" := rows]> ∅ | None => ∅ end in
  records_json "fim" (to_fim_records (check_integrity builtin_watchlist snap)).
Definition fim_collect (query : string → option (list Row)) : M Collector bool :=
  emit_if_changed FILE_INTEGRITY_FINDING "File Integrity Finding" (fim_payload query).
End emit.
End posture.
Arguments Control : clear implicits.
Arguments Collector : clear implicits.
