(* ===== verification/PostureProps.v ===== *)
(** * Posture: theorems

    What the three snapshot modules report over a history of refreshes, and what the
    server makes of it: the console shows exactly the controls that fail, the
    settings that drifted and the files that changed on the host now. *)

From Stdlib Require Import ZArith Floats.SpecFloat.
From stdpp Require Import base tactics gmap strings list.
From S2P Require Import Prelude Float32 Transport Keys Version CveSource Action Bridge Findings Engine.
From S2P Require Import Ocsf Ingest Substrate Posture.

Local Open Scope Z_scope.

(** ** What [serde] promises *)

(** A number that JSON can carry: [serde_json] writes the others as [null]. *)
Definition finite (x : f32) : Prop :=
  match x with S754_zero _ | S754_finite _ _ _ => True | _ => False end.

Class SerdeRoundTrip (V T : Type) `{Serialize V T, Deserialize V T} (weight : T → f32) : Prop :=
  from_to r : finite (weight r) → from_value (to_value r) = Some r.

Section records.
Context {V T : Type} `{JsonLaws V, !Serialize V T, !Deserialize V T} (weight : T → f32).
Context `{!SerdeRoundTrip V T weight}.

Lemma parse_records (rs : list T) :
  Forall (λ r, finite (weight r)) rs → parse_lenient (json_arr (to_value <$> rs)) = rs.
Proof.
  unfold parse_lenient. rewrite as_array_arr. cbn.
  induction 1 as [|r rs Hr _ IH]; [done|]. cbn. rewrite from_to by done. cbn. by rewrite IH.
Qed.

Lemma read_records key (rs : list T) :
  Forall (λ r, finite (weight r)) rs →
  parse_lenient (json_index (json_index (records_json (V := V) key rs) key) "records") = rs.
Proof.
  intros Hrs. unfold records_json. rewrite index_obj by apply NoDup_singleton.
  cbn [assoc]. rewrite bool_decide_true by done. cbn [default from_option id].
  rewrite index_obj by apply NoDup_singleton. cbn [assoc]. rewrite bool_decide_true by done.
  by apply parse_records.
Qed.
End records.

(** ** The snapshot of a collection *)

Section gather.
Context {V : Type}.
Implicit Type (q : string → option (list V)).

Lemma gather_steps q ts acc t :
  (∀ t, t ∈ acc.2 → acc.1 !! t = q t) → (∀ t, t ∉ acc.2 → acc.1 !! t = None) →
  t ∈ ts ∨ t ∈ acc.2 → (foldl (gather_step q) acc ts).1 !! t = q t.
Proof.
  revert acc. induction ts as [|x ts IH]; intros [m seen] Hin Hout Ht; cbn [foldl].
  { apply Hin. destruct Ht as [[]%not_elem_of_nil|]; done. }
  unfold gather_step at 2. cbn [fst snd] in *. case_bool_decide as Hx.
  { apply IH; [done..|]. destruct Ht as [[->|]%elem_of_cons|]; auto. }
  apply IH; cbn [fst snd]; [| |set_solver].
  - intros t0 [->%elem_of_singleton|Ht0]%elem_of_union.
    + destruct (q x) eqn:Hq; [by rewrite lookup_insert_eq|]. by apply Hout.
    + assert (t0 ≠ x) by set_solver. destruct (q x); [rewrite lookup_insert_ne by done|]; auto.
  - intros t0 Ht0. assert (t0 ≠ x ∧ t0 ∉ seen) as [? ?] by set_solver.
    destruct (q x); [rewrite lookup_insert_ne by done|]; auto.
Qed.

Lemma gather_lookup q tables t : t ∈ tables → table (gather q tables) t = q t.
Proof. intros Ht. apply gather_steps; set_solver. Qed.
End gather.

(** ** The gate *)

Section gate.
Context {V : Type} `{!JsonText V, !DefaultHasher, Host} (meta : Metadata) (dev : Device).
Context (class : Z) (name : string).
Implicit Type (s : Collector V) (d : V).

(** The payloads [ds] have been offered to the gate. *)
Record gated (ds : list V) s : Prop := {
  gated_class : Forall (λ env, class_uid env = class ∧ class_name env = name ∧ device env = dev)
    (out_emitted s.2);
  gated_last : last_hash s.1 = stable_hash <$> last ds;
  gated_shown : last_hash s.1 = (λ env, stable_hash (data env)) <$> last (out_emitted s.2);
  gated_from : (data <$> out_emitted s.2) `sublist_of` ds;
  gated_differ i a b : out_emitted s.2 !! i = Some a → out_emitted s.2 !! S i = Some b →
    stable_hash (data a) ≠ stable_hash (data b);
}.

Lemma gated_new : gated [] collector_new.
Proof. split; cbn; [by constructor|done..]. Qed.

Lemma emit_gated ds d s :
  gated ds s → wp (emit_if_changed meta dev class name d) (λ _, gated (ds ++ [d])) s.
Proof.
  intros [Hc Hl Hs Hf Hd]. unfold emit_if_changed. apply wp_bind, wp_gets.
  case_bool_decide as Heq.
  { apply wp_mret. split; [done| |done| |done].
    - by rewrite last_snoc.
    - etrans; [done|]. by apply sublist_inserts_r. }
  apply wp_bind, wp_modify, wp_mret. split; cbn [fst snd last_hash out_emitted].
  - apply Forall_app. by split; [|repeat constructor].
  - by rewrite last_snoc.
  - by rewrite last_snoc.
  - rewrite fmap_app. by apply sublist_app.
  - intros i a b Ha Hb. destruct (decide (S i = length (out_emitted s.2))) as [Hi|Hi].
    + rewrite lookup_app_r, Hi, Nat.sub_diag in Hb by lia. injection Hb as <-.
      rewrite lookup_app_l in Ha by lia. cbn [data envelope_new].
      intros He. apply Heq. rewrite Hs, last_lookup, <-Hi. cbn [pred]. rewrite Ha. cbn. by rewrite He.
    + pose proof (lookup_lt_Some _ _ _ Hb) as Hlt. rewrite length_app in Hlt. cbn [length] in Hlt.
      rewrite lookup_app_l in Ha, Hb by lia. by apply (Hd i).
Qed.
End gate.

(** ** A history of refreshes *)

Section history.
Context {V : Type} `{!JsonText V, !DefaultHasher, Host} (meta : Metadata) (dev : Device).
Context (class : Z) (name : string) (payload : (string → option (list V)) → V).

(** [start] and every [refresh], each with the tables the provider serves then. *)
Definition refreshes (collect : (string → option (list V)) → M (Collector V) bool)
    (qs : list (string → option (list V))) : M (Collector V) unit :=
  for_each (λ q, collect q;; mret tt) qs.

(** The hash tells the payloads of the history apart. *)
Definition no_collision (qs : list (string → option (list V))) : Prop :=
  ∀ a b, a ∈ payload <$> qs → b ∈ payload <$> qs → stable_hash a = stable_hash b → a = b.

Lemma refreshes_gated qs ds s :
  gated dev class name ds s →
  wp (refreshes (λ q, emit_if_changed meta dev class name (payload q)) qs)
    (λ _, gated dev class name (ds ++ (payload <$> qs))) s.
Proof.
  revert ds s. induction qs as [|q qs IH]; intros ds s Hg; [apply wp_ret; by rewrite app_nil_r|].
  apply (wp_bind (_;; mret tt) (λ _, refreshes _ qs)). apply wp_bind.
  eapply wp_mono; [by apply emit_gated|]. intros b s1 Hg1. apply wp_mret.
  eapply wp_mono; [apply (IH _ _ Hg1)|]. intros [] s2. cbn [fmap list_fmap]. by rewrite <-app_assoc.
Qed.

(** The last record emitted shows the tables as they are now. *)
Lemma refreshes_current qs q :
  no_collision (qs ++ [q]) →
  let s := (refreshes (λ q, emit_if_changed meta dev class name (payload q)) (qs ++ [q]) collector_new).1 in
  ∃ env, last (out_emitted s.2) = Some env ∧ class_uid env = class ∧ device env = dev ∧
    data env = payload q.
Proof.
  intros Hnc. destruct (wp_ok _ _ _ (refreshes_gated (qs ++ [q]) [] collector_new (gated_new _ _ _)))
    as ([] & s & Hrun & [Hc Hl Hs Hf _]). rewrite Hrun. cbn [fst].
  rewrite Hs, app_nil_l, fmap_last, last_snoc in Hl. destruct (last (out_emitted s.2)) as [env|] eqn:He; [|done].
  cbn in Hl. injection Hl as Hh. exists env. apply last_Some in He as [l Hl].
  rewrite Hl in Hc, Hf. apply Forall_app in Hc as [_ Hc]. apply Forall_singleton in Hc as (Hcl & _ & Hd).
  split_and!; [done..|]. apply Hnc; [|set_solver|done].
  eapply elem_of_sublist; [|exact Hf]. rewrite fmap_app. set_solver.
Qed.
End history.

(** ** Assessment *)

Section assess.
Context {V A : Type} `{JsonLaws V, AssetContextSource A}.
Context `{!Deserialize V ComplianceRecord, !Deserialize V DriftRecord, !Deserialize V FimRecord}.
Context `{!Serialize V ComplianceRecord, !Serialize V DriftRecord, !Serialize V FimRecord}.
Context `{!SerdeRoundTrip V ComplianceRecord cr_weight, !SerdeRoundTrip V DriftRecord dr_weight}.
Context `{!SerdeRoundTrip V FimRecord fr_weight}.
Implicit Type (q : string → option (list V)) (env : OcsfEnvelope V) (assets : A).

(** What fails on the host, read off the tables it serves. *)
Definition control_fails q (c : Control V) : bool :=
  match q (ctl_table c) with Some rows => negb (check c rows) | None => false end.

Definition row_where (k v : string) (rows : list V) : option V :=
  List.find (λ r, bool_decide (get_str r k = Some v)) rows.

Definition entry_drifts q (e : BaselineEntry) : bool :=
  match q (be_table e) with
  | Some rows =>
      let row := row_where (selector_field e) (selector_value e) rows in
      match expectation e with
      | ValueEquals k v => negb (bool_decide (row ≫= (λ r, get_str r k) = Some v))
      | Absent => bool_decide (is_Some row)
      end
  | None => false
  end.

(** Intact: collected, not deleted, and with the expected digest. *)
Definition file_intact (rows : list V) (w : WatchEntry) : bool :=
  match row_where "path" (we_path w) rows with
  | Some r => default true (get_bool r "exists") &&
              bool_decide (get_str r "sha256" = Some (expected_sha256 w))
  | None => false
  end.
Definition file_violated q (w : WatchEntry) : bool :=
  match q "files" with Some rows => negb (file_intact rows w) | None => false end.

(** The finding each of them is to become. *)
Definition control_finding host assets (c : Control V) : Finding :=
  weighted_finding host (ctl_id c) (ctl_subject c) (ctl_location c) (ctl_weight c)
    (ctl_remediation_key c) assets.
Definition drift_finding host assets (e : BaselineEntry) : Finding :=
  weighted_finding host (be_id e) (be_subject e) (be_location e) (be_weight e)
    (be_remediation_key e) assets.
Definition fim_finding host assets (w : WatchEntry) : Finding :=
  weighted_finding host (we_id w) (we_path w) FILESYSTEM (we_weight w) (we_remediation_key w) assets.

(** Judging each entry, keeping the bad ones and rendering them. *)
Lemma judged {X Y R F} (judge : X → option Y) (wire : Y → R) (bad : R → bool) (render : R → F)
    (fails : X → bool) (expect : X → F) (l : list X) :
  (∀ x, x ∈ l → match judge x with
    | Some y => bad (wire y) = fails x ∧ render (wire y) = expect x
    | None => fails x = false
    end) →
  render <$> filter bad (wire <$> omap judge l) = expect <$> filter fails l.
Proof.
  induction l as [|x l IH]; intros Hl; [done|]. cbn [omap list_omap].
  pose proof (Hl x ltac:(by left)) as Hx. destruct (judge x) as [y|] eqn:Hj; cbn [fmap list_fmap].
  - destruct Hx as [Hb Hr]. rewrite !filter_cons. rewrite Hb.
    destruct (fails x); cbn [Is_true decide]; case_decide; try done; cbn [fmap list_fmap];
      rewrite ?Hr, IH by set_solver; done.
  - rewrite filter_cons, Hx. case_decide; [done|]. apply IH. set_solver.
Qed.

Lemma Forall_omap_fmap {X Y R} (judge : X → option Y) (wire : Y → R) (P : R → Prop) (Q : X → Prop) (l : list X) :
  (∀ x y, judge x = Some y → Q x → P (wire y)) → Forall Q l → Forall P (wire <$> omap judge l).
Proof.
  intros Hj Hl. apply Forall_fmap, Forall_forall. intros y (x & Hx & Hy)%list_elem_of_omap.
  eapply Hj; [done|]. by eapply Forall_forall.
Qed.

Lemma overrides_finite (ovs : list ControlOverride) (cs : list (Control V)) :
  Forall (λ o, from_option finite True (ov_weight o)) ovs → Forall (λ c, finite (ctl_weight c)) cs →
  Forall (λ c, finite (ctl_weight c)) (apply_overrides cs ovs).
Proof.
  intros Hov Hcs. apply Forall_forall. intros c' (c & Hc & Hf)%list_elem_of_omap.
  rewrite Forall_forall in Hov. rewrite Forall_forall in Hcs. specialize (Hcs _ Hc).
  destruct (List.find _ ovs) as [o|] eqn:Ho; [|by injection Hf as <-].
  apply find_some in Ho as [Ho _]. specialize (Hov o ltac:(by apply list_elem_of_In)).
  destruct (bool_decide _); [done|]. injection Hf as <-. by destruct (ov_weight o).
Qed.

Lemma compliance_assessed q policy env assets :
  Forall (λ o, from_option finite True (ov_weight o)) (overrides policy) →
  class_uid env = COMPLIANCE_FINDING → data env = compliance_payload policy q →
  compliance_findings_from_envelope env assets =
  control_finding (hostname (device env)) assets <$>
    filter (control_fails q) (apply_overrides builtin_controls (overrides policy)).
Proof.
  intros Hov Hcl Hdata. unfold compliance_findings_from_envelope. rewrite Hcl, Hdata, Z.eqb_refl. cbn [negb].
  unfold compliance_payload, to_records, evaluate.
  assert (Forall (λ c : Control V, finite (ctl_weight c)) (apply_overrides builtin_controls (overrides policy)))
    as Hfin by (apply overrides_finite; [done|]; by repeat constructor).
  set (controls := apply_overrides builtin_controls (overrides policy)) in *.
  rewrite (read_records cr_weight) by (eapply Forall_omap_fmap, Hfin; intros c r;
    destruct (table _ _); [|done]; by intros [= <-]).
  apply (judged _ _ (λ r, negb (cr_passed r))). intros c Hc. rewrite gather_lookup by set_solver.
  unfold control_fails. by destruct (q (ctl_table c)).
Qed.

Lemma drift_assessed q env assets :
  class_uid env = DEVICE_CONFIG_STATE → data env = drift_payload q →
  drift_findings_from_envelope env assets =
  drift_finding (hostname (device env)) assets <$> filter (entry_drifts q) builtin_baseline.
Proof.
  intros Hcl Hdata. unfold drift_findings_from_envelope. rewrite Hcl, Hdata, Z.eqb_refl. cbn [negb].
  unfold drift_payload, to_drift_records, detect_drift.
  rewrite (read_records dr_weight).
  2: { eapply (Forall_omap_fmap _ _ _ (λ e, finite (be_weight e))); [|by repeat constructor].
       intros e r. destruct (table _ _); [|done]. cbn [mbind option_bind].
       destruct (expectation e); by intros [= <-]. }
  apply judged. intros e He. rewrite gather_lookup by set_solver.
  unfold entry_drifts, row_where. destruct (q (be_table e)); [|done]. cbn [mbind option_bind].
  by destruct (expectation e).
Qed.

Lemma fim_assessed q env assets :
  class_uid env = FILE_INTEGRITY_FINDING → data env = fim_payload q →
  fim_findings_from_envelope env assets =
  fim_finding (hostname (device env)) assets <$> filter (file_violated q) builtin_watchlist.
Proof.
  intros Hcl Hdata. unfold fim_findings_from_envelope. rewrite Hcl, Hdata, Z.eqb_refl. cbn [negb].
  unfold fim_payload, to_fim_records, check_integrity.
  rewrite (read_records fr_weight).
  2: { eapply (Forall_omap_fmap _ _ _ (λ w, finite (we_weight w))); [|by repeat constructor].
       intros w r. destruct (table _ _); [|done]. cbn [mbind option_bind].
       destruct (List.find _ _) as [row|]; [destruct (negb (default _ _))|]; by intros [= <-]. }
  apply judged. intros w _. unfold file_violated, file_intact, row_where, table.
  destruct (q "files") as [rows|]; [|done]. rewrite lookup_insert_eq. cbn [mbind option_bind].
  destruct (List.find _ _) as [row|]; [|done]. by destruct (default true (get_bool row "exists")).
Qed.

(** ** The console *)

Context `{!JsonText V, !DefaultHasher, Host} (meta : Metadata) (dev : Device).

(** C24: the console follows the host's posture.  After the start and any number of
    refreshes of the compliance, drift and integrity modules, with any tables served
    at each, the last record of each module, mapped by the server, gives exactly the
    findings of now, in order: the enabled controls whose table is served and whose
    check fails, with the weight the policy gives them; the baseline entries that
    drifted; the watched files that are missing, deleted or changed.  An entry whose
    table is not served gives none.  (The policy's weights are numbers; the hash of
    the change gate tells the payloads of the history apart.) *)
Theorem posture_findings_are_current policy qs q assets :
  Forall (λ o, from_option finite True (ov_weight o)) (overrides policy) →
  no_collision (compliance_payload policy) (qs ++ [q]) →
  no_collision drift_payload (qs ++ [q]) → no_collision fim_payload (qs ++ [q]) →
  let sent collect := last (out_emitted (refreshes collect (qs ++ [q]) collector_new).1.2) in
  let host := hostname dev in
  (λ env, compliance_findings_from_envelope env assets) <$> sent (compliance_collect meta dev policy) =
    Some (control_finding host assets <$>
            filter (control_fails q) (apply_overrides builtin_controls (overrides policy))) ∧
  (λ env, drift_findings_from_envelope env assets) <$> sent (drift_collect meta dev) =
    Some (drift_finding host assets <$> filter (entry_drifts q) builtin_baseline) ∧
  (λ env, fim_findings_from_envelope env assets) <$> sent (fim_collect meta dev) =
    Some (fim_finding host assets <$> filter (file_violated q) builtin_watchlist).
Proof.
  intros Hov Hc Hd Hf sent host.
  destruct (refreshes_current meta dev COMPLIANCE_FINDING "Compliance Finding" _ qs q Hc)
    as (env1 & He1 & Hcl1 & Hdev1 & Hdata1).
  destruct (refreshes_current meta dev DEVICE_CONFIG_STATE "Device Config State" _ qs q Hd)
    as (env2 & He2 & Hcl2 & Hdev2 & Hdata2).
  destruct (refreshes_current meta dev FILE_INTEGRITY_FINDING "File Integrity Finding" _ qs q Hf)
    as (env3 & He3 & Hcl3 & Hdev3 & Hdata3).
  unfold sent, host. split_and!.
  - etrans; [apply (f_equal (fmap _) He1)|]. cbn. f_equal. rewrite <-Hdev1. by apply compliance_assessed.
  - etrans; [apply (f_equal (fmap _) He2)|]. cbn. f_equal. rewrite <-Hdev2. by apply drift_assessed.
  - etrans; [apply (f_equal (fmap _) He3)|]. cbn. f_equal. rewrite <-Hdev3. by apply fim_assessed.
Qed.
End assess.
