(* ===== verification/AgentExec.v ===== *)
(** * The agent's executors

    [crates/agent/src/apply.rs]: the opt-in executor that runs a remediation payload
    under the platform shell, bounded in time; [crates/agent/src/lib.rs]: the dry-run
    executor and verifier, and the choice between them.  Child processes and the
    passing of time are an oracle of numbered observations.  The threads that drain
    the child's output return nothing and are not modelled.  A timeout so large that the
    deadline overflows [Instant] panics after the payload was started; the executor of
    such a connection is then [Unwinding]. *)

From Stdlib Require Import ZArith.
From stdpp Require Import base tactics gmap strings list.
From S2P Require Import Prelude Float32 Action Bridge Substrate.

Local Open Scope Z_scope.

(** ** Child processes *)

(** [Child::try_wait]; an exit without a code was a signal. *)
Inductive WaitStatus :=
  | Running
  | Exited (code : option Z)
  | WaitFailed.

(** At the [n]-th observation: whether a spawn succeeds, what the child's status is,
    how much time passes. *)
Class Processes := {
  spawns : nat → string → bool;
  try_wait : nat → WaitStatus;
  passes : nat → N;
}.

Inductive HostEvent := Spawned (payload : string) | Killed.
#[export] Instance HostEvent_eq_dec : EqDecision HostEvent.
Proof. solve_decision. Defined.

(** The host as the executor changes it: its clock, what was observed, and the
    processes started and killed. *)
Record HostState := mkHostState {
  clock_now : Z;
  observed : nat;
  host_log : list HostEvent;
}.

Definition POLL : Z := from_millis 50.

Section run.
Context `{Processes}.

(** An observation takes its time, and [d] on top when it is a sleep. *)
Definition observe {T} (d : Z) (f : nat → T) : M HostState T := λ s,
  (mkHostState (clock_now s + d + Z.of_N (passes (observed s))) (S (observed s)) (host_log s),
   Ok (f (observed s))).
Definition now : M HostState Z := observe 0 (λ _, tt);; gets clock_now.
Definition note (e : HostEvent) : M HostState unit :=
  modify (λ s, mkHostState (clock_now s) (observed s) (host_log s ++ [e])).

(** ** A bounded run *)

(** The whole process group; nothing outlives it. *)
Definition kill_tree : M HostState unit := note Killed.

(** The polling loop; [None] is a child that had to be killed. *)
Fixpoint wait_loop (fuel : nat) (deadline : Z) : M HostState (option (option Z)) :=
  match fuel with
  | O => panic
  | S fuel =>
      status ← observe 0 try_wait;
      match status with
      | Exited code => mret (Some code)
      | Running =>
          t ← now;
          if deadline <=? t then kill_tree;; mret None
          else observe POLL (λ _, tt);; wait_loop fuel deadline
      | WaitFailed => kill_tree;; mret None
      end
  end.

(** Every round but the last sleeps for [POLL]. *)
Definition rounds (timeout : Z) : nat := Z.to_nat (timeout / POLL) + 2.

Definition run_bounded (payload : string) (timeout max_bytes : Z) : M HostState unit :=
  ok ← observe 0 (λ n, spawns n payload);
  if negb ok then bail "spawn failed"
  else
    note (Spawned payload);;
    t ← now;
    deadline ← unwrap (instant_add t timeout);
    status ← wait_loop (rounds timeout) deadline;
    match status with
    | Some code =>
        if bool_decide (code = Some 0) then mret tt
        else bail ("exit " +:+ match code with Some c => show_Z c | None => "signal" end)
    | None => bail "timed out"
    end.

(** ** The real executor *)

Record ApplyConfig := mkApplyConfig {
  apply_enabled : bool;
  host_id : string;
  allowed_methods : list Method;
  exec_timeout_secs : Z;
  max_output_bytes : Z;
}.
Definition default_exec_timeout_secs : Z := 300.
Definition default_max_output_bytes : Z := 65536.

Definition permitted (cfg : ApplyConfig) (action : RemediationAction) : M HostState unit :=
  if negb (bool_decide (action_method action = Method.Shell))
     || negb (bool_decide (action_method action ∈ allowed_methods cfg))
  then bail "method not permitted" else mret tt.

Definition host_targeted (cfg : ApplyConfig) (target : string) : M HostState unit :=
  if bool_decide (host_id cfg = "") || negb (bool_decide (target = host_id cfg))
  then bail "target not permitted for this host" else mret tt.

Definition run (cfg : ApplyConfig) (payload : string) : M HostState unit :=
  run_bounded payload (from_secs (exec_timeout_secs cfg)) (max_output_bytes cfg).

Definition real_preview (action : RemediationAction) : string :=
  "[apply:" +:+ match action_method action with
    | Method.Shell => "Shell" | Method.PackageMgr => "PackageMgr" | Method.Ansible => "Ansible"
    | Method.CustomTool => "CustomTool" | Method.Webhook => "Webhook" end +:+ "] "
  +:+ show_nat (length (targets_of action)) +:+ " target(s)".

Definition real_apply (cfg : ApplyConfig) (action : RemediationAction) (target : string) :
    M HostState unit :=
  permitted cfg action;;
  host_targeted cfg target;;
  run cfg (action_payload action).

Definition real_rollback (cfg : ApplyConfig) (action : RemediationAction) (target : string) :
    M HostState unit :=
  permitted cfg action;;
  host_targeted cfg target;;
  match action_rollback action with Some p => run cfg p | None => mret tt end.

(** ** The executor of a connection *)

(** [Unwinding] is the real executor once a run has panicked: the thread that owns it
    is on its way out, and no further call reaches the host. *)
Inductive AgentExecutor :=
  | DryRunExecutor (applied : list string) (host : HostState)
  | RealExecutor (cfg : ApplyConfig) (host : HostState)
  | Unwinding (cfg : ApplyConfig) (host : HostState).

Definition executor_host (x : AgentExecutor) : HostState :=
  match x with DryRunExecutor _ s | RealExecutor _ s | Unwinding _ s => s end.
Definition unwinding (x : AgentExecutor) : bool :=
  match x with Unwinding _ _ => true | _ => false end.

(** A method's error as the bridge sees it; a panic leaves nobody to see it. *)
Definition on_host (cfg : ApplyConfig) (m : M HostState unit) (s : HostState) :
    AgentExecutor * option string :=
  match m s with
  | (s', Ok _) => (RealExecutor cfg s', None)
  | (s', Err e) => (RealExecutor cfg s', Some e)
  | (s', Panicked) => (Unwinding cfg s', Some "panicked")
  end.

#[export] Instance AgentExecutor_executor : Executor AgentExecutor := {|
  exec_preview x action :=
    match x with
    | DryRunExecutor _ _ => "[dry-run] would run: " +:+ action_payload action
    | RealExecutor _ _ | Unwinding _ _ => real_preview action
    end;
  exec_apply x action target :=
    match x with
    | DryRunExecutor applied s => (DryRunExecutor (applied ++ [target]) s, None)
    | RealExecutor cfg s => on_host cfg (real_apply cfg action target) s
    | Unwinding _ _ => (x, Some "panicked")
    end;
  exec_rollback x action target :=
    match x with
    | DryRunExecutor applied s => (x, None)
    | RealExecutor cfg s => on_host cfg (real_rollback cfg action target) s
    | Unwinding _ _ => (x, Some "panicked")
    end;
|}.
End run.

Inductive AgentVerifier := DryRunVerifier | RealVerifier.
#[export] Instance AgentVerifier_verifier : Verifier AgentVerifier := λ v _ applied,
  match v with
  | DryRunVerifier => VerifyOutcome.NotFixed
  | RealVerifier =>
      match applied with [] => VerifyOutcome.NotFixed | _ :: _ => VerifyOutcome.Fixed end
  end.

Definition select_executor (apply : option ApplyConfig) (s : HostState) :
    AgentExecutor * AgentVerifier :=
  match apply with
  | Some a => if apply_enabled a then (RealExecutor a s, RealVerifier)
              else (DryRunExecutor [] s, DryRunVerifier)
  | None => (DryRunExecutor [] s, DryRunVerifier)
  end.

(** ** What a run does *)

Section facts.
Context `{Processes}.

(** The texts a caller can see: no part of the payload or of its output. *)
Inductive category : string → Prop :=
  | cat_spawn : category "spawn failed"
  | cat_timeout : category "timed out"
  | cat_signal : category "exit signal"
  | cat_exit c : category ("exit " +:+ show_Z c).

(** What [n] rounds after observation [k] saw: the child was still running. *)
Definition running_until (k n : nat) : Prop :=
  ∀ j, (j < n)%nat → try_wait (k + 3 * j) = Running.

Definition same_log_but (es : list HostEvent) (s s' : HostState) : Prop :=
  host_log s' = host_log s ++ es.

(** How the loop ends: by an exit it saw, or by killing the child, after the deadline
    or when its status could not be read. *)
Definition loop_ends (deadline : Z) (s : HostState) (r : option (option Z)) (s' : HostState) : Prop :=
  ∃ n, running_until (observed s) n ∧ (observed s' ≤ observed s + 3 * n + 2)%nat ∧
    clock_now s + POLL * Z.of_nat n ≤ clock_now s' ∧
    (n = 0%nat ∨ clock_now s + POLL * (Z.of_nat n - 1) < deadline) ∧
    match r with
    | Some code => try_wait (observed s + 3 * n) = Exited code ∧ host_log s' = host_log s
    | None => (try_wait (observed s + 3 * n) = Running ∧ deadline ≤ clock_now s' ∨
               try_wait (observed s + 3 * n) = WaitFailed) ∧ host_log s' = host_log s ++ [Killed]
    end.

Lemma running_until_cons k n :
  try_wait k = Running → running_until (k + 3) n → running_until k (S n).
Proof.
  intros Hk Hn [|j] Hj; [by rewrite Nat.mul_0_r, Nat.add_0_r|].
  replace (k + 3 * S j)%nat with (k + 3 + 3 * j)%nat by lia. apply Hn. lia.
Qed.

Lemma wait_loop_ends fuel deadline s :
  deadline - clock_now s ≤ POLL * (Z.of_nat fuel - 1) → (0 < fuel)%nat →
  wp (wait_loop fuel deadline) (loop_ends deadline s) s.
Proof.
  revert s. induction fuel as [|fuel IH]; intros s Hd Hf; [lia|].
  pose proof (N2Z.is_nonneg (passes (observed s))). pose proof (N2Z.is_nonneg (passes (S (observed s)))).
  cbn [wait_loop]. apply wp_bind. unfold observe, wp at 1.
  destruct (try_wait (observed s)) as [|code|] eqn:Hw.
  - apply wp_bind. unfold now. apply wp_bind. unfold observe, wp at 1. apply wp_gets. cbn [clock_now observed].
    destruct (Z.leb_spec deadline (clock_now s + 0 + Z.of_N (passes (observed s)) + 0
      + Z.of_N (passes (S (observed s))))) as [Hle|Hgt].
    + apply wp_bind, wp_modify, wp_mret. exists 0%nat. cbn [observed clock_now host_log].
      rewrite Nat.mul_0_r, Nat.add_0_r. split_and!; [intros j ?; lia|lia|lia|by left| |done]. left. split; [done|lia].
    + apply wp_bind. unfold observe, wp at 1. eapply wp_mono; [apply IH; cbn [clock_now]|].
      * pose proof (N2Z.is_nonneg (passes (S (S (observed s))))). unfold POLL, from_millis in *. lia.
      * destruct fuel; [|lia]. unfold POLL, from_millis in *. lia.
      * intros r s' (n & Hrun & Hobs & Hclk & Hn & Hr). exists (S n). cbn [observed clock_now host_log] in *.
        replace (observed s + 3 * S n)%nat with (S (S (S (observed s))) + 3 * n)%nat by lia.
        pose proof (N2Z.is_nonneg (passes (S (S (observed s))))).
        split_and!; [|lia|unfold POLL, from_millis in *; lia|right; unfold POLL, from_millis in *; lia|done].
        apply running_until_cons; [done|]. by replace (observed s + 3)%nat with (S (S (S (observed s)))) by lia.
  - cbn. exists 0%nat. rewrite Nat.mul_0_r, Nat.add_0_r. cbn. split_and!; [intros j ?; lia|lia|lia|by left|done..].
  - apply wp_bind, wp_modify, wp_mret. exists 0%nat. cbn [observed clock_now host_log].
    rewrite Nat.mul_0_r, Nat.add_0_r. split_and!; [intros j ?; lia|lia|lia|by left|by right|done].
Qed.

Lemma rounds_enough timeout : 0 ≤ timeout → timeout ≤ POLL * (Z.of_nat (rounds timeout) - 1).
Proof.
  intros Ht. unfold rounds. rewrite Nat2Z.inj_add, Z2Nat.id by (apply Z.div_pos; unfold POLL, from_millis; lia).
  pose proof (Z.mul_succ_div_gt timeout POLL ltac:(unfold POLL, from_millis; lia)). lia.
Qed.

(** The clock as the deadline is computed: a spawn and a reading after [s]. *)
Definition started_at (s : HostState) : Z :=
  clock_now s + Z.of_N (passes (observed s)) + Z.of_N (passes (S (observed s))).

(** The deadline of a run that starts its payload is past the end of [Instant]. *)
Definition overflows (payload : string) (timeout : Z) (s : HostState) : Prop :=
  spawns (observed s) payload = true ∧ instant_max < started_at s + timeout.

(** How a whole run ends, from the state [s]: [n] rounds found the child running. *)
Definition run_ends (payload : string) (timeout : Z) (s : HostState) (r : Result unit)
    (s' : HostState) : Prop :=
  let k := (observed s + 2)%nat in
  spawns (observed s) payload = false ∧ r = Err "spawn failed" ∧ host_log s' = host_log s ∨
  spawns (observed s) payload = true ∧ ∃ n, running_until k n ∧ (Z.of_nat n - 1) * POLL < timeout ∧
    ((∃ code, try_wait (k + 3 * n) = Exited code ∧ host_log s' = host_log s ++ [Spawned payload] ∧
        r = if bool_decide (code = Some 0) then Ok tt
            else Err ("exit " +:+ match code with Some c => show_Z c | None => "signal" end)) ∨
     (try_wait (k + 3 * n) = Running ∧ clock_now s + timeout ≤ clock_now s' ∨
      try_wait (k + 3 * n) = WaitFailed) ∧
     host_log s' = host_log s ++ [Spawned payload; Killed] ∧ r = Err "timed out").

Lemma run_bounded_overflows payload timeout max_bytes s :
  overflows payload timeout s →
  let res := run_bounded payload timeout max_bytes s in
  res.2 = Panicked ∧ host_log res.1 = host_log s ++ [Spawned payload].
Proof.
  intros [Hs Hover]. unfold run_bounded, started_at in *.
  erewrite bind_ok by (unfold observe; reflexivity). rewrite Hs. cbn [negb].
  erewrite bind_ok by reflexivity. erewrite bind_ok by reflexivity.
  unfold instant_add. cbn [clock_now observed]. rewrite (proj2 (Z.leb_gt _ _)) by lia. done.
Qed.

Lemma run_bounded_ends payload timeout max_bytes s :
  0 ≤ timeout → ¬ overflows payload timeout s →
  let res := run_bounded payload timeout max_bytes s in run_ends payload timeout s res.2 res.1.
Proof.
  intros Ht Hfit. unfold run_bounded. pose proof (N2Z.is_nonneg (passes (observed s))).
  pose proof (N2Z.is_nonneg (passes (S (observed s)))).
  erewrite bind_ok by (unfold observe; reflexivity). destruct (spawns (observed s) payload) eqn:Hs; cbn [negb].
  2: { left. done. }
  assert (started_at s + timeout ≤ instant_max) as Hle.
  { destruct (Z.le_gt_cases (started_at s + timeout) instant_max); [done|by destruct Hfit]. }
  set (s2 := mkHostState (clock_now s + 0 + Z.of_N (passes (observed s)) + 0
    + Z.of_N (passes (S (observed s)))) (S (S (observed s))) (host_log s ++ [Spawned payload])).
  erewrite bind_ok by reflexivity.
  rewrite (bind_ok now _ _ s2 (clock_now s2)) by reflexivity.
  assert (instant_add (clock_now s2) timeout = Some (clock_now s2 + timeout)) as ->.
  { unfold instant_add. rewrite (proj2 (Z.leb_le _ _)); [done|]. unfold s2, started_at in *. cbn [clock_now]. lia. }
  erewrite bind_ok by reflexivity.
  assert (wp (wait_loop (rounds timeout) (clock_now s2 + timeout)) (loop_ends (clock_now s2 + timeout) s2) s2)
    as Hwp by (apply wait_loop_ends; [pose proof (rounds_enough timeout Ht); lia|unfold rounds; lia]).
  apply wp_ok in Hwp as (r & s' & Hrun & n & Hr).
  erewrite bind_ok by exact Hrun.
  destruct Hr as (Hru & _ & _ & Hn & Hend). unfold s2 in Hru, Hn, Hend; cbn [observed clock_now host_log] in *.
  right. split; [done|]. exists n. replace (observed s + 2)%nat with (S (S (observed s))) by lia.
  split_and!; [done|destruct Hn as [->|Hn]; unfold POLL, from_millis in *; lia|].
  destruct r as [code|].
  - left. exists code. destruct Hend as [Hw Hlog]. case_bool_decide; done.
  - right. destruct Hend as [Hw Hlog]. rewrite <-app_assoc in Hlog. split_and!; [|done..].
    cbn [bail fst]. destruct Hw as [[? ?]|?]; [left; split; [done|lia]|by right].
Qed.
End facts.
