(* ===== verification/AgentService.v ===== *)
(** * The agent's control service

    [crates/agent/src/lib.rs]: the role policy from the configuration and the accept
    loop that serves one connection after another on a shared bridge.  A connection
    is its session, its transport, and the readings of the system clock at the
    checks of the shutdown flag before the flag is seen set; sockets and the TLS
    handshake are not modelled (a peer refused there is [NotServed]). *)

From Stdlib Require Import ZArith.
From stdpp Require Import base tactics gmap strings list.
From S2P Require Import Prelude Float32 Action Bridge Substrate AgentExec Control Scheduler Transport Keys.
From S2P Require Import ControlPlane.

(** ** Roles *)

Record RoleEntry := mkRoleEntry { entry_actor : string; entry_role : string }.

Definition parse_role (s : string) : Result Role :=
  if bool_decide (s = "operator") then Ok Role.Operator
  else if bool_decide (s = "approver") then Ok Role.Approver
  else if bool_decide (s = "responder") then Ok Role.Responder
  else if bool_decide (s = "admin") then Ok Role.Admin
  else Err ("unknown role '" +:+ s +:+ "' (expected operator|approver|responder|admin)").

Fixpoint assign_all (entries : list RoleEntry) (policy : RolePolicy) : Result RolePolicy :=
  match entries with
  | [] => Ok policy
  | e :: entries =>
      match parse_role (entry_role e) with
      | Ok role => assign_all entries (assign (entry_actor e) role policy)
      | Err e => Err e
      | Panicked => Panicked
      end
  end.
Definition build_policy (entries : list RoleEntry) : Result RolePolicy :=
  assign_all entries policy_new.

(** ** Serving *)

Section service.
Context {A S Z' T : Type} `{!AuditSink A} `{!SignatureVerifier S} `{!Authorizer Z'} `{!Transport T}.
Context `{!PayloadEncoder} `{!ResultEncoder} `{!FrameCodec} `{!Ed25519} `{!Hex} `{!Processes}.
Context (h : AgentControlHandler S Z').
(** The error's kind is [WouldBlock] or [TimedOut]. *)
Context (is_idle : string → bool).

(** [serve_one] on the agent's executor.  A call of the executor that panicked unwinds
    it before the answer is written: the frame is taken in, nothing is sent, and the
    control thread ends.  The bridge is that thread's own and goes with it. *)
Definition serve_frame (v : AgentVerifier) (t : Z) :
    M (T * (Bridge A * AgentControlLoop AgentExecutor)) bool := λ s,
  let '(s', r) := serve_one h v (mkFakeClock t) s in
  if unwinding (loop_executor s'.2.2) then (((recv s.1).1, s'.2), Panicked) else (s', r).

Fixpoint serve_connection (v : AgentVerifier) (checks : list Z) :
    M (T * (Bridge A * AgentControlLoop AgentExecutor)) unit :=
  match checks with
  | [] => mret tt
  | t :: checks =>
      r ← inspect (serve_frame v t);
      match r with
      | inl true => serve_connection v checks
      | inl false => mret tt
      | inr e => if is_idle e then serve_connection v checks else mret tt
      end
  end.

Inductive Accepted :=
  | Connected (session : string) (transport : T) (checks : list Z)
  | NotServed.

(** The executor, the replay guard and the scheduler are made anew for a connection;
    the bridge and the host stay. *)
Definition serve_accepted (apply : option ApplyConfig) (c : Accepted) :
    M (Bridge A * HostState) unit := λ s,
  match c with
  | NotServed => (s, Ok tt)
  | Connected session transport checks =>
      let '(x, v) := select_executor apply s.2 in
      let '((_, (b, l)), r) :=
        serve_connection v checks (transport, (s.1, loop_with_session session 0 x)) in
      ((b, executor_host (loop_executor l)), r)
  end.

Definition control_accept_loop (apply : option ApplyConfig) (cs : list Accepted) :
    M (Bridge A * HostState) unit :=
  for_each (serve_accepted apply) cs.
End service.
