(* ===== verification/AgentProps.v ===== *)
(** * What the agent does to its host

    A payload runs bounded in time; over any sequence of connections the agent runs
    nothing but the payload or the rollback of an approved action on which a signed,
    authorized, unscheduled command arrived, and only where its configuration allows
    it. *)

From Stdlib Require Import ZArith.
From stdpp Require Import base tactics gmap strings list.
From S2P Require Import Prelude Float32 Action Bridge BridgeSpec BridgeFacts BridgeProps Substrate AgentExec.
From S2P Require Import Control ControlProps Scheduler SchedulerProps Transport Keys KeysProps.
From S2P Require Import ControlPlane ControlPlaneProps AgentService.

(** ** One run *)

Section run.
Context `{!Processes}.
Local Open Scope Z_scope.

(** C25: a payload runs bounded in time, whatever the child does, when its deadline
    can be represented.  Then the run always comes back: it polls the child at most
    [timeout / 50ms] times plus a constant, reports success exactly when the shell
    exited with 0, the exit otherwise, and kills the process group when the deadline
    has passed or the status cannot be read; no error text depends on the payload.
    A timeout that takes the deadline past the end of [Instant] panics, after the
    payload was started and without killing it. *)
Theorem run_is_bounded payload timeout max_bytes s :
  0 ≤ timeout →
  let res := run_bounded payload timeout max_bytes s in
  (¬ overflows payload timeout s →
     run_ends payload timeout s res.2 res.1 ∧ res.2 ≠ Panicked ∧ (∀ e, res.2 = Err e → category e)) ∧
  (overflows payload timeout s →
     res.2 = Panicked ∧ host_log res.1 = host_log s ++ [Spawned payload]).
Proof.
  intros Ht res. split; [|apply run_bounded_overflows]. intros Hfit.
  pose proof (run_bounded_ends payload timeout max_bytes s Ht Hfit) as Hends.
  fold res in Hends. split; [done|].
  destruct Hends as [(_ & -> & _)|(_ & n & _ & _ & [(code & _ & _ & ->)|(_ & _ & ->)])].
  - split; [done|]. intros e [= <-]. constructor.
  - case_bool_decide; (split; [done|]); [done|]. intros e [= <-]. destruct code as [c|]; constructor.
  - split; [done|]. intros e [= <-]. constructor.
Qed.

(** The host after a run of [p]: only that process was started, or killed. *)
Definition ran (p : string) (s s' : HostState) : Prop :=
  ∃ new, host_log s' = host_log s ++ new ∧ Forall (λ e, e = Spawned p ∨ e = Killed) new.
#[local] Instance ran_preorder p : PreOrder (ran p).
Proof.
  split; [intros s; exists []; by rewrite app_nil_r|].
  intros s1 s2 s3 (n1 & H1 & F1) (n2 & H2 & F2). exists (n1 ++ n2).
  rewrite H2, H1, app_assoc. by split; [|apply Forall_app].
Qed.

Lemma ran_observe {R} p d (f : nat → R) : rel_m (ran p) (observe d f).
Proof. intros s. exists []. by rewrite app_nil_r. Qed.
Lemma ran_note p e : e = Spawned p ∨ e = Killed → rel_m (ran p) (note e).
Proof. intros He s. exists [e]. split; [done|by apply Forall_singleton]. Qed.
Lemma ran_now p : rel_m (ran p) AgentExec.now.
Proof. apply (rel_m_bind (ran p)); [apply ran_observe|]. intros ?. apply (rel_m_gets (ran p)). Qed.

Lemma ran_wait p fuel deadline : rel_m (ran p) (wait_loop fuel deadline).
Proof.
  induction fuel as [|fuel IH]; [apply (rel_m_panic (ran p))|]. cbn [wait_loop].
  apply (rel_m_bind (ran p)); [apply ran_observe|]. intros [| |].
  - apply (rel_m_bind (ran p)); [apply ran_now|]. intros t. destruct (deadline <=? t).
    + apply (rel_m_bind (ran p)); [apply ran_note; by right|]. intros ?. apply (rel_m_mret (ran p)).
    + apply (rel_m_bind (ran p)); [apply ran_observe|]. by intros ?.
  - apply (rel_m_mret (ran p)).
  - apply (rel_m_bind (ran p)); [apply ran_note; by right|]. intros ?. apply (rel_m_mret (ran p)).
Qed.

Lemma ran_bounded p timeout max_bytes : rel_m (ran p) (run_bounded p timeout max_bytes).
Proof.
  apply (rel_m_bind (ran p)); [apply ran_observe|]. intros [|]; [|apply (rel_m_bail (ran p))].
  apply (rel_m_bind (ran p)); [apply ran_note; by left|]. intros ?.
  apply (rel_m_bind (ran p)); [apply ran_now|]. intros t.
  apply (rel_m_bind (ran p)); [apply (rel_m_unwrap (ran p))|]. intros deadline.
  apply (rel_m_bind (ran p)); [apply ran_wait|]. intros [code|]; [|apply (rel_m_bail (ran p))].
  case_bool_decide; [apply (rel_m_mret (ran p))|apply (rel_m_bail (ran p))].
Qed.

(** ** The calls of a stage *)

(** The configuration lets [p] of action [a] run on this host; undoing an action
    runs its rollback only. *)
Definition allows (cfg : ApplyConfig) (undo : bool) (a : RemediationAction) (p : string) : Prop :=
  action_method a = Method.Shell ∧ Method.Shell ∈ allowed_methods cfg ∧
  host_id cfg ≠ "" ∧ host_id cfg ∈ targets_of a ∧
  (undo = false ∧ p = action_payload a ∨ action_rollback a = Some p).

Definition acts (cfg : ApplyConfig) (undo : bool) (a : RemediationAction) (s s' : HostState) : Prop :=
  ∃ new, host_log s' = host_log s ++ new ∧ ∀ p, Spawned p ∈ new → allows cfg undo a p.
#[local] Instance acts_preorder cfg undo a : PreOrder (acts cfg undo a).
Proof.
  split; [intros s; exists []; rewrite app_nil_r; split; [done|by intros p ?%not_elem_of_nil]|].
  intros s1 s2 s3 (n1 & H1 & F1) (n2 & H2 & F2). exists (n1 ++ n2).
  rewrite H2, H1, app_assoc. split; [done|]. intros p [?|?]%elem_of_app; auto.
Qed.

Lemma ran_acts cfg undo a p s s' : allows cfg undo a p → ran p s s' → acts cfg undo a s s'.
Proof.
  intros Ha (new & Hl & Hf). exists new. split; [done|]. intros q Hq.
  rewrite Forall_forall in Hf. destruct (Hf _ Hq) as [[= ->]|[=]]. done.
Qed.

(** Behind both gates, a run is allowed. *)
Lemma gated_acts cfg undo a t (m : M HostState unit) :
  t ∈ targets_of a →
  ((∀ p, undo = false ∧ p = action_payload a ∨ action_rollback a = Some p → allows cfg undo a p) →
   rel_m (acts cfg undo a) m) →
  rel_m (acts cfg undo a) (AgentExec.permitted cfg a;; host_targeted cfg t;; m).
Proof.
  intros Ht Hm s. unfold AgentExec.permitted.
  destruct (bool_decide (action_method a = Method.Shell)) eqn:H1; cbn [negb orb]; [|done].
  destruct (bool_decide (action_method a ∈ allowed_methods cfg)) eqn:H2; cbn [negb]; [|done].
  rewrite mret_bind. unfold host_targeted.
  destruct (bool_decide (host_id cfg = "")) eqn:H3; cbn [orb]; [done|].
  destruct (bool_decide (t = host_id cfg)) eqn:H4; cbn [negb]; [|done].
  rewrite mret_bind. apply bool_decide_eq_true in H1, H2, H4. apply bool_decide_eq_false in H3.
  rewrite H1 in H2. apply Hm. intros p Hp. split_and!; [done..|by rewrite <-H4|done].
Qed.

Lemma real_apply_acts cfg a t : t ∈ targets_of a → rel_m (acts cfg false a) (real_apply cfg a t).
Proof.
  intros Ht. apply gated_acts; [done|]. intros Ha s.
  apply (ran_acts cfg false a (action_payload a)); [apply Ha; by left|apply ran_bounded].
Qed.
Lemma real_rollback_acts cfg undo a t : t ∈ targets_of a → rel_m (acts cfg undo a) (real_rollback cfg a t).
Proof.
  intros Ht. apply gated_acts; [done|]. intros Ha.
  destruct (action_rollback a) as [p|]; [|intros s; cbn; reflexivity]. intros s.
  apply (ran_acts cfg undo a p); [apply Ha; by right|apply ran_bounded].
Qed.

(** The host before and after calls about one action, on some of its targets; when
    it is being undone, calls of [rollback] only. *)
Inductive called (undo : bool) (a : RemediationAction) : AgentExecutor → AgentExecutor → Prop :=
  | called_none x : called undo a x x
  | called_apply x t x' :
      undo = false → t ∈ targets_of a → called undo a (exec_apply x a t).1 x' → called undo a x x'
  | called_rollback x t x' :
      t ∈ targets_of a → called undo a (exec_rollback x a t).1 x' → called undo a x x'.

Lemma called_trans undo a x y z : called undo a x y → called undo a y z → called undo a x z.
Proof. induction 1; eauto using called. Qed.

Lemma apply_ref_called a ts x : ts ⊆ targets_of a → called false a x (apply_ref x a ts).1.1.
Proof.
  revert x. induction ts as [|t ts IH]; intros x Hts; [constructor|]. cbn [apply_ref].
  destruct (exec_apply x a t) as [x1 r] eqn:Hx. specialize (IH x1 ltac:(set_solver)).
  destruct (apply_ref x1 a ts) as [[x2 ok] n]. eapply (called_apply false a x t); [done|set_solver|].
  rewrite Hx. destruct r; exact IH.
Qed.
Lemma rollback_ref_called undo a ts x : ts ⊆ targets_of a → called undo a x (rollback_ref x a ts).1.
Proof.
  revert x. induction ts as [|t ts IH]; intros x Hts; [constructor|]. cbn [rollback_ref].
  destruct (exec_rollback x a t) as [x1 r] eqn:Hx. specialize (IH x1 ltac:(set_solver)).
  destruct (rollback_ref x1 a ts) as [x2 failed]. eapply (called_rollback undo a x t); [set_solver|].
  rewrite Hx. destruct r; exact IH.
Qed.

(** The configuration an executor runs payloads under. *)
Definition executor_cfg (x : AgentExecutor) : option ApplyConfig :=
  match x with DryRunExecutor _ _ => None | RealExecutor cfg _ | Unwinding cfg _ => Some cfg end.

(** What calls leave alone, and what they do to the host. *)
Definition bounded_by (undo : bool) (a : RemediationAction) (x x' : AgentExecutor) : Prop :=
  executor_cfg x' = executor_cfg x ∧
  match executor_cfg x with
  | None => executor_host x' = executor_host x
  | Some cfg => acts cfg undo a (executor_host x) (executor_host x')
  end.
#[local] Instance bounded_by_preorder undo a : PreOrder (bounded_by undo a).
Proof.
  split; [intros x; split; [done|by destruct (executor_cfg x)]|].
  intros x y z [Hc1 H1] [Hc2 H2]. split; [congruence|]. rewrite Hc1 in H2.
  destruct (executor_cfg x); [by etrans|congruence].
Qed.

Lemma on_host_bounded cfg undo a (m : M HostState unit) s :
  rel_m (acts cfg undo a) m → bounded_by undo a (RealExecutor cfg s) (on_host cfg m s).1.
Proof.
  intros Hm. specialize (Hm s). unfold on_host, bounded_by.
  by destruct (m s) as [s' [[]|e|]].
Qed.

Lemma called_acts undo a x x' : called undo a x x' → bounded_by undo a x x'.
Proof.
  induction 1 as [x|x t x' -> Ht _ IH|x t x' Ht _ IH]; [done|etrans; [|exact IH]..].
  - destruct x as [applied s|cfg s|cfg s]; [done| |done]. apply on_host_bounded, real_apply_acts, Ht.
  - destruct x as [applied s|cfg s|cfg s]; [done| |done]. apply on_host_bounded, real_rollback_acts, Ht.
Qed.
End run.

(** ** One command *)

Section service.
Context {A S Z' T : Type} `{!AuditSink A} `{!AuditLog A} `{!SignatureVerifier S} `{!Authorizer Z'}.
Context `{!Transport T} `{!PayloadEncoder} `{!ResultEncoder} `{!FrameCodec} `{!Ed25519} `{!Hex} `{!Processes}.
Context (h : AgentControlHandler S Z') (apply : option ApplyConfig).
Abbreviation reachable := (reachable (A := A) (E := AgentExecutor) (V := AgentVerifier)).
Implicit Types (b : Bridge A) (l : AgentControlLoop AgentExecutor) (v : AgentVerifier).

(** Applying to some targets, then rolling back what was applied. *)
Lemma staged_called (a : RemediationAction) (ts applied : list string) x x1 ok n :
  ts ⊆ targets_of a → applied ⊆ targets_of a → apply_ref x a ts = (x1, ok, n) →
  called false a x x1 ∧ called false a x (rollback_ref x1 a (applied ++ ok)).1.
Proof.
  intros Hts Happ Href. pose proof (apply_ref_called a ts x Hts) as Hc. rewrite Href in Hc.
  split; [done|]. eapply called_trans; [done|]. apply rollback_ref_called.
  pose proof (apply_ref_sublist _ _ _ _ _ _ Href) as Hsub. intros t [Ht|Ht]%elem_of_app; [auto|].
  by eapply Hts, elem_of_sublist.
Qed.

(** The kinds that only undo. *)
Definition undoes (k : CommandKind) : bool :=
  match k with CommandKind.Rollback => true | _ => false end.
Definition op_undoes (op : BridgeOp AgentVerifier) : bool :=
  match op with OpRollback _ _ => true | _ => false end.

(** A stage calls the executor about its own action, on its own targets. *)
Lemma stage_called op b x b' x' out :
  reachable b → stage_effect op b x b' x' out →
  x' = x ∨ ∃ r, actions b !! op_id op = Some r ∧ called (op_undoes op) (rec_action r) x x'.
Proof.
  intros Hb Heff. pose proof (reachable_records_ok b Hb) as Hok.
  destruct Heff as [b' e|v id actor r x' r' out b' -> Hr _ Href|v id actor r x' r' out b' -> Hr _ Href
    |id actor r x' r' out b' -> Hr _ Href]; [by left|right; exists r; split; [done|]..].
  all: pose proof (rok_applied _ _ (Hok _ _ Hr)) as Happ; cbn [op_undoes].
  - unfold canary_ref in Href. destruct (apply_ref _ _ _) as [[x1 ok] n] eqn:Hap.
    apply (staged_called _ _ (rec_applied r)) in Hap as [Hc1 Hc2]; [|apply subseteq_take|done].
    destruct (_ || _); [|by simplify_eq]. destruct (rollback_ref _ _ _). by simplify_eq.
  - unfold rollout_ref in Href. destruct (apply_ref _ _ _) as [[x1 ok] n] eqn:Hap.
    apply (staged_called _ _ (rec_applied r)) in Hap as [Hc1 Hc2];
      [|by intros t [_ ?]%list_elem_of_filter|done].
    destruct (f32_gt _ _); [destruct (rollback_ref _ _ _); by simplify_eq|].
    destruct (bool_decide _); by simplify_eq.
  - unfold operator_rollback_ref in Href.
    pose proof (rollback_ref_called true (rec_action r) (rollback_set r) x) as Hc.
    destruct (rollback_ref _ _ _) as [x1 failed]. cbn in Hc.
    assert (called true (rec_action r) x x1) by (apply Hc; unfold rollback_set; by case_bool_decide).
    destruct failed; by simplify_eq.
Qed.

(** What a command and the state it meets must be for it to start the process [p]. *)
Record commanded (cmd : ControlCommand) (b : Bridge A) (g : ReplayGuard) (p : string) : Prop := {
  com_gates : signed (handler_verifier h) cmd = true ∧ fresh cmd g = true ∧
    ControlProps.permitted (handler_authz h) cmd = true ∧
    CommandKind.is_execution (cmd_kind cmd) = true ∧ cmd_schedule cmd = None;
  com_allowed : ∃ cfg r, apply = Some cfg ∧ apply_enabled cfg = true ∧
    actions b !! cmd_action_id cmd = Some r ∧ allows cfg (undoes (cmd_kind cmd)) (rec_action r) p;
  com_approved :
    [ActionState.Drafted; ActionState.DryRun; ActionState.PendingApproval; ActionState.Approved]
      `sublist_of` (milestones (cmd_action_id cmd) (events (audit b))).*1;
}.

(** The executor of a connection: a real one only where the configuration enables it. *)
Definition serving (x : AgentExecutor) : Prop :=
  ∀ cfg, executor_cfg x = Some cfg → apply = Some cfg ∧ apply_enabled cfg = true.

(** What was started and killed on the host between two of its states. *)
Definition ran_since (s s' : HostState) : list HostEvent := drop (length (host_log s)) (host_log s').

(** From [s] to [s'], the host grew by what it was commanded to run. *)
Definition obeys (cmd : ControlCommand) (b : Bridge A) (g : ReplayGuard) (s s' : HostState) : Prop :=
  host_log s' = host_log s ++ ran_since s s' ∧
  ∀ p, Spawned p ∈ ran_since s s' → commanded cmd b g p.

Lemma grew_by s s' new : host_log s' = host_log s ++ new → ran_since s s' = new.
Proof. intros Hl. unfold ran_since. by rewrite Hl, drop_app_length. Qed.

Lemma obeys_same cmd b g s : obeys cmd b g s s.
Proof.
  unfold obeys. rewrite (grew_by s s []) by (by rewrite app_nil_r). rewrite app_nil_r.
  split; [done|]. by intros p ?%not_elem_of_nil.
Qed.

(** The executor after an execution command, by its stage. *)
Lemma execution_op_effect cmd v op b x :
  execution_op cmd v = Some op →
  op_id op = cmd_action_id cmd ∧ op_undoes op = undoes (cmd_kind cmd) ∧
  ∃ out, stage_effect op b x (run_op op (b, x)).1.1 (run_op op (b, x)).1.2 out.
Proof.
  unfold execution_op. destruct (cmd_kind cmd); intros [= <-]; (split; [done|]); (split; [done|]);
    unfold run_op; rewrite !ignore_fst; eexists;
    [apply run_canary_effect|apply run_rollout_effect|apply run_rollback_effect].
Qed.

Lemma bounded_serving undo a x x' : bounded_by undo a x x' → serving x → serving x'.
Proof. intros [Hc _] Hx cfg. rewrite Hc. apply Hx. Qed.

Lemma execution_tended cmd v b g x :
  reachable b → serving x →
  let res := deliver (handler_verifier h) (handler_authz h) (ToExecution cmd v) (b, g, x) in
  serving res.1.2 ∧ obeys cmd b g (executor_host x) (executor_host res.1.2).
Proof.
  intros Hb Hx res.
  pose proof (deliver_effect (handler_verifier h) (handler_authz h) (ToExecution cmd v) b g x) as Heff.
  fold res in Heff. cbn [fst snd] in Heff.
  assert (serving x ∧ obeys cmd b g (executor_host x) (executor_host x)) as Hsame
    by (split; [done|apply obeys_same]).
  destruct Heff as [| | | |cmd' v' op b' x' out [= <- <-] Hs Hf Hp Hw Hop Hrun|]; [exact Hsame..| |done].
  destruct (execution_op_effect cmd v op b x Hop) as (Hid & Hun & out' & Heff). rewrite Hrun in Heff.
  pose proof (run_op_exec op b x) as Hen. rewrite Hrun in Hen. cbn [fst snd] in Heff, Hen.
  destruct (stage_called op b x b' x' out' Hb Heff) as [->|(r & Hr & Hc)]; [exact Hsame|].
  pose proof (called_acts _ _ _ _ Hc) as Hbd. split; [by eapply bounded_serving|].
  destruct Hen as [[= ->]|(st & Hst & Hstage)]; [apply obeys_same|].
  destruct Hbd as [_ Hbd]. destruct (executor_cfg x) as [cfg|] eqn:Hcfg.
  2:{ rewrite Hbd. apply obeys_same. }
  destruct Hbd as (new & Hlog & Hnew). unfold obeys. rewrite (grew_by _ _ new Hlog). split; [done|].
  intros p Hp'. destruct (Hx cfg Hcfg) as [Happ Hena]. split.
  - split_and!; try done. unfold execution_op in Hop. by destruct (cmd_kind cmd).
  - exists cfg, r. rewrite <-Hid, <-Hun. split_and!; [done..|by apply Hnew].
  - rewrite <-Hid. pose proof (reachable_gates b (op_id op) st Hb Hst) as Hg.
    by rewrite (stage_enabled_gates op st Hstage) in Hg.
Qed.

(** ** Any step of the loop *)

Lemma rejected_reachable b id actor detail :
  reachable b → reachable (log_event b id None ActionState.Aborted actor Outcome.Rejected detail).
Proof. apply (reachable_audit_rejected b (DryRunExecutor [] (mkHostState 0 0 []))). Qed.

Lemma enqueue_reachable cmd (clock : FakeClock) b g sch :
  reachable b →
  reachable (enqueue cmd (handler_verifier h) (handler_authz h) clock (b, g, sch)).1.1.1.
Proof.
  intros Hb. pose proof (gate_execution_outcome cmd (handler_verifier h) (handler_authz h) b g) as Hgate.
  unfold enqueue. destruct (gate_execution cmd _ _ (b, g)) as [[b1 g1] r] eqn:Hg.
  pose proof (on_fst_run _ _ sch _ _ Hg) as Hrun. simpl in Hgate.
  destruct Hgate as [b' e ? (? & ? & ->)|b' e ?? (? & ? & ->)|b' e ??? (? & ? & ->)|e ????|????];
    [erewrite bind_err by done; cbn [fst]; by try apply rejected_reachable..|].
  erewrite bind_ok by done. destruct (cmd_schedule cmd) as [w|].
  - destruct (not_after w <? now clock)%Z; [by apply rejected_reachable|done].
  - by apply rejected_reachable.
Qed.

Lemma cancel_reachable id b sch : reachable b → reachable (cancel id (b, sch)).1.1.
Proof.
  intros Hb. unfold cancel. erewrite bind_ok by reflexivity. cbn [snd].
  assert (∀ ps b, reachable b → reachable (audit_cancelled ps b).1) as Hps.
  { induction ps as [|p ps IH]; intros b0 Hb0; [done|]. apply IH. by apply rejected_reachable. }
  destruct (audit_cancelled_run (filter (λ p, cmd_action_id (pend_cmd p) = id) (pending sch)) b)
    as (b' & Hb' & _). pose proof (Hps (filter (λ p, cmd_action_id (pend_cmd p) = id) (pending sch)) b Hb) as Hr.
  rewrite Hb' in Hr.
  erewrite bind_ok by (by apply on_fst_run). done.
Qed.

(** The steps that leave the executor alone. *)
Definition silent (st : SchedStep AgentVerifier) : Prop :=
  match st with STick _ _ | SDeliver (ToExecution _ _) => False | _ => True end.

Lemma step_silent st w :
  silent st → reachable (sw_bridge w) →
  reachable (sw_bridge (sched_step (handler_verifier h) (handler_authz h) st w)) ∧
  sw_exec (sched_step (handler_verifier h) (handler_authz h) st w) = sw_exec w.
Proof.
  destruct st as [cmd t|t v|id|d]; intros Hst Hb; [|done|..]; unfold sched_step.
  - pose proof (enqueue_reachable cmd (mkFakeClock t) (sw_bridge w) (sw_guard w) (sw_sched w) Hb) as Hr.
    by destruct (enqueue _ _ _ _ _) as [[[b g] sch] out].
  - pose proof (cancel_reachable id (sw_bridge w) (sw_sched w) Hb) as Hr.
    by destruct (cancel _ _) as [[b sch] out].
  - pose proof (deliver_reachable (handler_verifier h) (handler_authz h) d (sw_bridge w) (sw_guard w) (sw_exec w) Hb) as Hr.
    pose proof (deliver_effect (handler_verifier h) (handler_authz h) d (sw_bridge w) (sw_guard w) (sw_exec w)) as Heff.
    destruct (deliver _ _ _ _) as [[[b g] x] out]. cbn in *. split; [done|].
    destruct Heff as [| | | |cmd v op b' x' out ->|]; done.
Qed.

Lemma steps_silent steps w :
  Forall silent steps → reachable (sw_bridge w) →
  reachable (sw_bridge (run_steps h steps w)) ∧ sw_exec (run_steps h steps w) = sw_exec w.
Proof.
  revert w. induction steps as [|st steps IH]; intros w Hst Hb; [done|].
  apply Forall_cons in Hst as [Hs Hst]. destruct (step_silent st w Hs Hb) as [Hb1 Hx1].
  destruct (IH _ Hst Hb1) as [Hb2 Hx2]. split; [done|]. by rewrite <-Hx1.
Qed.

(** Serving a command keeps the bridge reachable, and the host grows by what that
    very command, on that bridge and guard, lets run. *)
Lemma serve_command_tended v (clock : FakeClock) cmd b l :
  reachable b → serving (loop_executor l) →
  let res := serve_command h v clock cmd (b, l) in
  reachable res.1.1 ∧ serving (loop_executor res.1.2) ∧
  obeys cmd b (loop_guard l) (executor_host (loop_executor l)) (executor_host (loop_executor res.1.2)).
Proof.
  intros Hb Hx res. destruct (serve_command_run h v clock cmd b l) as (b' & l' & r & Hrun & _ & Hw).
  unfold res. rewrite Hrun. cbn [fst snd]. clear Hrun res.
  set (steps := required_steps h v (now clock) cmd b (loop_guard l)) in *.
  assert (sw_bridge (run_steps h steps (world_of b l)) = b') as Hb' by by rewrite <-Hw.
  assert (sw_exec (run_steps h steps (world_of b l)) = loop_executor l') as Hx' by by rewrite <-Hw.
  rewrite <-Hb', <-Hx'. clear Hw Hb' Hx'.
  assert (Forall silent steps ∨ steps = [SDeliver (ToExecution cmd v)]) as [Hs| ->].
  { unfold steps, required_steps. destruct (CommandKind.is_execution _); [destruct (cmd_schedule cmd); [left|by right]|left];
      repeat first [constructor|case_match]; done. }
  - destruct (steps_silent steps (world_of b l) Hs Hb) as [Hr ->]. split_and!; [done..|apply obeys_same].
  - unfold run_steps, world_of. cbn [foldl sched_step sw_bridge sw_guard sw_sched sw_exec].
    pose proof (deliver_reachable (handler_verifier h) (handler_authz h) (ToExecution cmd v) b (loop_guard l) (loop_executor l) Hb) as Hr.
    destruct (execution_tended cmd v b (loop_guard l) (loop_executor l) Hb Hx) as [Hsv Ho].
    destruct (deliver _ _ _ _) as [[[b1 g1] x1] out]. by split_and!.
Qed.

(** ** A connection, and the service *)

(** A command the service took in: its frame, the bridge and the replay guard it met,
    and what was started and killed on the host while it was served. *)
Record Served := mkServed {
  sv_input : bytes;
  sv_command : ControlCommand;
  sv_bridge : Bridge A;
  sv_guard : ReplayGuard;
  sv_ran : list HostEvent;
}.

Definition conn_host (s : T * (Bridge A * AgentControlLoop AgentExecutor)) : HostState :=
  executor_host (loop_executor s.2.2).

(** The command in the next frame of a connection, if there is one. *)
Definition frame_journal (v : AgentVerifier) (t : Z) (s : T * (Bridge A * AgentControlLoop AgentExecutor)) :
    list Served :=
  match (recv s.1).2 with
  | Ok (Some input) =>
      match frame_from_slice input with
      | Some (FCommand cmd) =>
          [mkServed input cmd s.2.1 (loop_guard s.2.2) (ran_since (conn_host s) (conn_host (serve_frame h v t s).1))]
      | _ => []
      end
  | _ => []
  end.

Context (is_idle : string → bool).

(** The commands of a connection, of a peer, of the whole service, in order: the
    frames are taken from the states the service goes through. *)
Fixpoint connection_journal (v : AgentVerifier) (checks : list Z)
    (s : T * (Bridge A * AgentControlLoop AgentExecutor)) : list Served :=
  match checks with
  | [] => []
  | t :: checks =>
      frame_journal v t s ++
      match serve_frame h v t s with
      | (s', Ok true) => connection_journal v checks s'
      | (s', Err e) => if is_idle e then connection_journal v checks s' else []
      | _ => []
      end
  end.
Definition peer_journal (c : Accepted) (s : Bridge A * HostState) : list Served :=
  match c with
  | NotServed => []
  | Connected session transport checks =>
      let '(x, v) := select_executor apply s.2 in
      connection_journal v checks (transport, (s.1, loop_with_session session 0 x))
  end.
Fixpoint journal (cs : list Accepted) (s : Bridge A * HostState) : list Served :=
  match cs with
  | [] => []
  | c :: cs =>
      peer_journal c s ++
      match serve_accepted h is_idle apply c s with (s', Ok _) => journal cs s' | _ => [] end
  end.

(** Every process of an entry was commanded by that entry. *)
Definition justified (e : Served) : Prop :=
  reachable (sv_bridge e) ∧
  ∀ p, Spawned p ∈ sv_ran e → commanded (sv_command e) (sv_bridge e) (sv_guard e) p.

(** From one host to another by the processes of [js], all of them justified. *)
Definition accounted (js : list Served) (s s' : HostState) : Prop :=
  host_log s' = host_log s ++ (js ≫= sv_ran) ∧ Forall justified js.

Lemma accounted_nil s s' : host_log s' = host_log s → accounted [] s s'.
Proof. intros Hl. split; [by rewrite Hl, app_nil_r|constructor]. Qed.
Lemma accounted_app js1 js2 s1 s2 s3 :
  accounted js1 s1 s2 → accounted js2 s2 s3 → accounted (js1 ++ js2) s1 s3.
Proof.
  intros [E1 F1] [E2 F2]. split; [|by apply Forall_app]. by rewrite bind_app, app_assoc, <-E1.
Qed.

Lemma serve_one_executor v (clock : FakeClock) s :
  reachable s.2.1 → serving (loop_executor s.2.2) →
  let s' := (serve_one h v clock s).1 in
  (∃ input cmd, (recv s.1).2 = Ok (Some input) ∧ frame_from_slice input = Some (FCommand cmd) ∧
     s'.2 = (serve_command h v clock cmd s.2).1) ∨
  (∀ input cmd, (recv s.1).2 = Ok (Some input) → frame_from_slice input ≠ Some (FCommand cmd)) ∧ s'.2 = s.2.
Proof.
  intros Hb Hx s'. unfold s', serve_one, mbind, M_bind, m_bind, on_fst. destruct s as [t [b l]]. cbn [fst snd].
  destruct (recv t) as [t1 [[input|]|e|]]; cbn [fst snd]; [|by right..].
  destruct (frame_from_slice input) as [[cmd|r]|] eqn:Hf; cbn [fst snd]; [|right; split; [|done]; naive_solver..].
  left. exists input, cmd. split; [done|]. split; [done|]. unfold zoom. cbn [fst snd].
  destruct (serve_command h v clock cmd (b, l)) as [[b' l'] [r|e|]]; [|done..].
  unfold lift. destruct (frame_to_vec _) as [out|e|]; [|done..]. cbn [fst snd].
  by destruct (send out t1) as [t2 [[]|e|]].
Qed.

Lemma serve_frame_accounted v t s :
  reachable s.2.1 → serving (loop_executor s.2.2) →
  let s' := (serve_frame h v t s).1 in
  reachable s'.2.1 ∧ serving (loop_executor s'.2.2) ∧
  accounted (frame_journal v t s) (conn_host s) (conn_host s').
Proof.
  intros Hb Hx s'. pose proof (serve_one_executor v (mkFakeClock t) s Hb Hx) as Hone.
  assert (s'.2 = (serve_one h v (mkFakeClock t) s).1.2) as Hs'.
  { unfold s', serve_frame. destruct (serve_one _ _ _ s) as [s1 r]. by destruct (unwinding _). }
  unfold frame_journal. fold s'. destruct Hone as [(input & cmd & Hr & Hf & Hcmd)|[Hno Hsame]].
  - rewrite Hr, Hf. destruct (serve_command_tended v (mkFakeClock t) cmd s.2.1 s.2.2 Hb Hx) as (Hb' & Hx' & Ho & Hc).
    rewrite <-surjective_pairing, <-Hcmd, <-Hs' in Hb', Hx', Ho, Hc. split; [done|]. split; [done|].
    split; [cbn; by rewrite app_nil_r|]. apply Forall_singleton. by split.
  - assert (s'.2 = s.2) as Heq by congruence. unfold conn_host. rewrite Heq. split; [done|]. split; [done|].
    assert (match (recv s.1).2 with
      | Ok (Some input) => match frame_from_slice input with
          | Some (FCommand cmd) => [mkServed input cmd s.2.1 (loop_guard s.2.2)
              (ran_since (executor_host (loop_executor s.2.2)) (executor_host (loop_executor s.2.2)))]
          | _ => [] end
      | _ => [] end = []) as ->; [|by apply accounted_nil].
    destruct (recv s.1).2 as [[input|]|e|] eqn:Hr; try done.
    destruct (frame_from_slice input) as [[cmd|r]|] eqn:Hf; [|done..]. by destruct (Hno input cmd).
Qed.

Lemma serve_connection_accounted v checks s :
  reachable s.2.1 → serving (loop_executor s.2.2) →
  let s' := (serve_connection h is_idle v checks s).1 in
  reachable s'.2.1 ∧ accounted (connection_journal v checks s) (conn_host s) (conn_host s').
Proof.
  revert s. induction checks as [|t checks IH]; intros s Hb Hx s'.
  { split; [done|by apply accounted_nil]. }
  destruct (serve_frame_accounted v t s Hb Hx) as (Hb1 & Hx1 & Hacc).
  unfold s'. cbn [serve_connection connection_journal]. unfold inspect, mbind, M_bind, m_bind.
  destruct (serve_frame h v t s) as [s1 r]. cbn [fst] in *.
  assert (reachable s1.2.1 ∧ accounted (frame_journal v t s ++ []) (conn_host s) (conn_host s1)) as Hend
    by (split; [done|by rewrite app_nil_r]).
  destruct (IH s1 Hb1 Hx1) as [Hb2 Hacc2].
  assert (reachable (serve_connection h is_idle v checks s1).1.2.1 ∧
    accounted (frame_journal v t s ++ connection_journal v checks s1) (conn_host s)
      (conn_host (serve_connection h is_idle v checks s1).1)) as Hgo
    by (split; [done|by eapply accounted_app]).
  destruct r as [[|]|e|]; [exact Hgo|exact Hend| |exact Hend].
  cbn [fst snd]. destruct (is_idle e); [exact Hgo|exact Hend].
Qed.

Lemma select_serving s : serving (select_executor apply s).1 ∧ executor_host (select_executor apply s).1 = s.
Proof.
  unfold serving, select_executor. destruct apply as [a|]; [|done].
  destruct (apply_enabled a) eqn:He; [|done]. split; [|done]. by intros cfg [= <-].
Qed.

Lemma serve_accepted_accounted c s :
  reachable s.1 →
  let s' := (serve_accepted h is_idle apply c s).1 in
  reachable s'.1 ∧ accounted (peer_journal c s) s.2 s'.2.
Proof.
  destruct c as [session transport checks|]; [|intros Hb; split; [done|by apply accounted_nil]].
  destruct s as [b s]. intros Hb. unfold serve_accepted, peer_journal. destruct (select_serving s) as [Hx Hs]. cbn [snd fst].
  destruct (select_executor apply s) as [x v]. cbn [fst] in *.
  pose proof (serve_connection_accounted v checks (transport, (b, loop_with_session session 0 x)) Hb Hx) as Ht.
  unfold conn_host in Ht. cbn [fst snd loop_executor loop_with_session loop_open_session loop_new] in Ht. rewrite Hs in Ht.
  by destruct (serve_connection _ _ _ _ _) as [[t [b' l]] r].
Qed.

(** The whole service: a chain of accounted connections. *)
Lemma service_accounted cs s :
  reachable s.1 →
  accounted (journal cs s) s.2 (control_accept_loop h is_idle apply cs s).1.2.
Proof.
  revert s. induction cs as [|c cs IH]; intros s Hb; [by apply accounted_nil|].
  destruct (serve_accepted_accounted c s Hb) as [Hb1 Hacc].
  unfold control_accept_loop in *. cbn [for_each journal]. unfold mbind, M_bind, m_bind.
  destruct (serve_accepted h is_idle apply c s) as [s1 [[]|e|]]; cbn [fst] in *;
    [|by rewrite app_nil_r..]. eapply accounted_app; [exact Hacc|]. by apply IH.
Qed.

(** C9: the agent runs nothing it was not commanded to.  Over any sequence of
    connections, with any bytes on them, take the commands in the frames the service
    reads, one by one, with the bridge and the replay guard each of them meets.  The
    processes of the host are exactly those started while these commands were served,
    in order, and a process started while a command was served was commanded by it:
    the command was signed, fresh, authorized, of an executing kind and without a
    window; the action it names was on that bridge, drafted, dry-run, submitted and
    approved in that order; real execution was enabled, the method is the shell and is
    allow-listed, the action targets this very host; and the process is that action's
    payload or its rollback, for a rollback command its rollback only. *)
Theorem agent_runs_only_what_is_commanded (sink : A) (s : HostState) cs :
  events sink = [] →
  let s' := (control_accept_loop h is_idle apply cs (bridge_new sink, s)).1 in
  let js := journal cs (bridge_new sink, s) in
  host_log s'.2 = host_log s ++ (js ≫= sv_ran) ∧
  ∀ e p, e ∈ js → Spawned p ∈ sv_ran e →
    reachable (sv_bridge e) ∧ commanded (sv_command e) (sv_bridge e) (sv_guard e) p.
Proof.
  intros Hsink s' js. destruct (service_accounted cs (bridge_new sink, s)) as [Hlog Hall]; [by apply reachable_new|].
  split; [done|]. intros e p He Hp. rewrite Forall_forall in Hall. destruct (Hall e He) as [Hr Hc]. auto.
Qed.
End service.
