(* ===== verification/Fs.v ===== *)
(** * Files, faults and crashes

    What the stores use of [std::fs].  A disk maps a path to a directory or to the
    bytes of a file.  Every operation may fail, and one that is not atomic passes
    through a torn state; the state keeps every disk that a crash of the process
    could leave behind.  Only the process dies: an operation that returned is on the
    disk, and what a loss of power does to data that was not synced is not modelled.
    Programs are reasoned about in a Hoare logic with a crash condition.
    [replace_file] is the temporary-file-and-rename idiom that
    [crates/feed/src/store.rs] and [server/ingest/src/store.rs] share. *)

From Stdlib Require Import ZArith.
From stdpp Require Import base tactics gmap strings list.
From S2P Require Import Prelude Transport Scheduler.

(** ** Disks *)

Inductive Node := Dir | File (b : bytes).
Abbreviation Path := (list string).
Abbreviation Disk :=
  (@gmap (list string) _ (@list_countable string String.eq_dec String.countable) Node).

Definition file_at (d : Disk) (p : Path) : option bytes :=
  match d !! p with Some (File b) => Some b | _ => None end.
Definition is_file (p : Path) (d : Disk) : bool := bool_decide (is_Some (file_at d p)).
Definition under (dir p : Path) : bool := bool_decide (dir `prefix_of` p).
(** A path exists as soon as something is at it or under it. *)
Definition path_exists (p : Path) (d : Disk) : bool :=
  existsb (λ kv, under p kv.1) (map_to_list d).
Definition is_dir (p : Path) (d : Disk) : bool :=
  bool_decide (p = []) || (path_exists p d && negb (is_file p d)).
Definition parent (p : Path) : Path := take (length p - 1) p.

Definition prefixes (p : Path) : list Path := (λ n, take n p) <$> seq 1 (length p).
Definition make_dirs (p : Path) (d : Disk) : Disk :=
  foldl (λ d q, <[q := Dir]> d) d (prefixes p).
Definition drop_dir (dir : Path) (d : Disk) : Disk :=
  filter (λ kv : Path * Node, under dir kv.1 = false) d.
Definition rename_key (a b : Path) (kv : Path * Node) : option (Path * Node) :=
  if under a kv.1 then Some (b ++ drop (length a) kv.1, kv.2) else None.
Definition renamed (a b : Path) (d : Disk) : Disk :=
  list_to_map (omap (rename_key a b) (map_to_list d)).
Definition move_dir (a b : Path) (d : Disk) : Disk := renamed a b d ∪ drop_dir a d.

(** What goes wrong at the [n]-th operation: whether it fails, what an interrupted
    write left ([None]: it had not begun), how many levels of directories were
    made, and which files an interrupted removal got to. *)
Class Faults := {
  fails : nat → bool;
  torn : nat → bytes → option bytes;
  made : nat → nat;
  removed : nat → Path → bool;
}.

Record FsState := mkFs {
  disk : Disk;
  op_count : nat;
  counter : Z;
  history : list Disk;
}.

Section fs.
Context `{Faults}.

(** ** Operations *)

Definition put (d : Disk) : M FsState unit :=
  modify (λ s, mkFs d (op_count s) (counter s) (history s ++ [d])).
Definition next_op : M FsState nat := λ s,
  (mkFs (disk s) (S (op_count s)) (counter s) (history s), Ok (op_count s)).

(** An operation: impossible, or through [part] and then to [fin] unless it fails. *)
Definition attempt (possible : Disk → bool) (part : nat → Disk → Disk) (fin : Disk → Disk)
    (err : string) : M FsState unit :=
  n ← next_op;
  d ← gets disk;
  if possible d
  then put (part n d);; if fails n then bail err else put (fin d)
  else bail err.

Definition always (d : Disk) : bool := true.
Definition same (n : nat) (d : Disk) : Disk := d.
Definition tear (n : nat) (p : Path) (b : bytes) (d : Disk) : Disk :=
  match torn n b with Some b => <[p := File b]> d | None => d end.

(** A read that may fail; [None] is [ErrorKind::NotFound]. *)
Definition read (p : Path) : M FsState (option bytes) :=
  n ← next_op;
  d ← gets disk;
  if fails n || is_dir p d then bail "read" else mret (file_at d p).
Definition read_found (p : Path) : M FsState bytes :=
  o ← read p; ok_or o "not found".
Definition metadata_len (p : Path) : M FsState Z :=
  b ← read_found p; mret (Z.of_nat (length b)).

Definition create_dir_all (p : Path) : M FsState unit :=
  attempt (λ d, forallb (λ q, negb (is_file q d)) (prefixes p))
    (λ n, make_dirs (take (made n) p)) (make_dirs p) "create_dir_all".
Definition can_create (p : Path) (d : Disk) : bool := is_dir (parent p) d && negb (is_dir p d).
(** [File::create] makes an empty file, or truncates. *)
Definition create_file (p : Path) : M FsState unit :=
  attempt (can_create p) same <[p := File []]> "create".
Definition write_all (p : Path) (b : bytes) : M FsState unit :=
  attempt always (λ n, tear n p b) <[p := File b]> "write".
(** Every write is on the disk at once, so a sync can only fail. *)
Definition sync_all (p : Path) : M FsState unit := attempt always same id "sync".
Definition remove_file (p : Path) : M FsState unit :=
  attempt (is_file p) same (delete p) "remove_file".
Definition rename_file (a b : Path) : M FsState unit :=
  attempt (λ d, is_file a d && can_create b d) same
    (λ d, <[b := File (default [] (file_at d a))]> (delete a d)) "rename".
Definition copy (a b : Path) : M FsState unit :=
  attempt (λ d, is_file a d && can_create b d)
    (λ n d, tear n b (default [] (file_at d a)) d)
    (λ d, <[b := File (default [] (file_at d a))]> d) "copy".
Definition remove_dir_all (p : Path) : M FsState unit :=
  attempt (is_dir p)
    (λ n, filter (λ kv : Path * Node, under p kv.1 && removed n kv.1 = false))
    (drop_dir p) "remove_dir_all".
(** Not onto something that is there. *)
Definition rename_dir (a b : Path) : M FsState unit :=
  attempt (λ d, is_dir a d && negb (path_exists b d)) same (move_dir a b) "rename".

(** A static [AtomicU64]. *)
Definition next_counter : M FsState Z := λ s,
  (mkFs (disk s) (op_count s) (wrap_u64 (counter s + 1)) (history s), Ok (counter s)).

(** ** Replacing a file *)

(** The process and the labels of its errors. *)
Definition tmp_name (name : string) (pid c : Z) : string :=
  name +:+ "." +:+ show_Z pid +:+ "." +:+ show_Z c +:+ ".tmp".

Definition write_tmp (tmp : Path) (b : bytes) : M FsState unit :=
  create_file tmp;; write_all tmp b;; sync_all tmp.

Definition replace_file (pid : Z) (dir : Path) (name : string) (b : bytes) : M FsState unit :=
  c ← next_counter;
  let tmp := dir ++ [tmp_name name pid c] in
  written ← inspect (write_tmp tmp b);
  match written with
  | inr e => inspect (remove_file tmp);; bail ("writing temp file: " +:+ e)
  | inl _ =>
      swapped ← inspect (rename_file tmp (dir ++ [name]));
      match swapped with
      | inr e => inspect (remove_file tmp);; bail ("atomically replacing: " +:+ e)
      | inl _ => mret tt
      end
  end.
End fs.

(** * A Hoare logic with a crash condition

    Rules of the logic, the rule of every file operation, and what replacing a file
    guarantees at every point a crash can come. *)

(** From a disk with [P], [m] ends with [Q], and every disk on the way has [C]. *)
Definition chl {A : Type} (C P : Disk → Prop) (m : M FsState A) (Q : Result A → Disk → Prop) : Prop :=
  ∀ s, P (disk s) → ∃ new, history (m s).1 = history s ++ new ∧ Forall C new ∧
    Q (m s).2 (disk (m s).1).

(** What is expected of a call that returns [A]: [Q] of its value, [E] of an error,
    and that it does not panic. *)
Definition ends {A : Type} (Q : A → Disk → Prop) (E : Disk → Prop) (r : Result A) (d : Disk) : Prop :=
  match r with Ok a => Q a d | Err _ => E d | Panicked => False end.

Section chl.
Context (C : Disk → Prop) (E : Disk → Prop).

Lemma chl_pure {A : Type} (m : M FsState A) (r : FsState → Result A) (P : Disk → Prop) Q :
  (∀ s, history (m s).1 = history s ∧ disk (m s).1 = disk s ∧ (m s).2 = r s) →
  (∀ s, P (disk s) → Q (r s) (disk s)) → chl C P m Q.
Proof.
  intros Hm HQ s Hs. destruct (Hm s) as (-> & -> & ->). exists [].
  rewrite app_nil_r. split_and!; [done..|by apply HQ].
Qed.

Lemma chl_ret {A : Type} (a : A) (P : Disk → Prop) Q : (∀ d, P d → Q a d) → chl C P (mret a) (ends Q E).
Proof. intros HQ. by apply (chl_pure _ (λ _, Ok a)); [|intros s Hs; apply HQ]. Qed.
Lemma chl_bail {A : Type} e (P : Disk → Prop) (Q : A → Disk → Prop) :
  (∀ d, P d → E d) → chl C P (bail e) (ends Q E).
Proof. intros HQ. by apply (chl_pure _ (λ _, Err e)); [|intros s Hs; apply HQ]. Qed.
Lemma chl_gets {A : Type} (f : Disk → A) (P : Disk → Prop) Q :
  (∀ d, P d → Q (f d) d) → chl C P (gets (λ s, f (disk s))) (ends Q E).
Proof. intros HQ. by apply (chl_pure _ (λ s, Ok (f (disk s)))); [|intros s Hs; apply HQ]. Qed.
Lemma chl_counter (P : Disk → Prop) Q :
  (∀ c d, P d → Q c d) → chl C P next_counter (ends Q E).
Proof. intros HQ. by apply (chl_pure _ (λ s, Ok (counter s))); [|intros s Hs; apply HQ]. Qed.
Lemma chl_ok_or {A : Type} (o : option A) e (P : Disk → Prop) (Q : A → Disk → Prop) :
  (∀ a d, o = Some a → P d → Q a d) → (∀ d, o = None → P d → E d) →
  chl C P (ok_or o e) (ends Q E).
Proof. intros HQ HE. destruct o; [apply chl_ret|apply chl_bail]; eauto. Qed.

Lemma chl_bind {A B : Type} (m : M FsState A) (k : A → M FsState B) (P : Disk → Prop) R Q :
  chl C P m (ends R E) → (∀ a, chl C (R a) (k a) (ends Q E)) → chl C P (m ≫= k) (ends Q E).
Proof.
  intros Hm Hk s Hs. destruct (Hm s Hs) as (n1 & Hh1 & HC1 & HR).
  unfold mbind, M_bind, m_bind. destruct (m s) as [s1 [a|e|]]; cbn [fst snd ends] in *; [|by eauto..].
  destruct (Hk a s1 HR) as (n2 & Hh2 & HC2 & HQ). exists (n1 ++ n2).
  rewrite Hh2, Hh1, app_assoc. split_and!; [done|by apply Forall_app|done].
Qed.

Lemma chl_inspect {A : Type} (m : M FsState A) (P F : Disk → Prop) Q R :
  chl C P m (ends Q F) → (∀ a d, Q a d → R (inl a) d) → (∀ e d, F d → R (inr e) d) →
  chl C P (inspect m) (ends R E).
Proof.
  intros Hm Ho He s Hs. destruct (Hm s Hs) as (n & Hh & HC & HQ). exists n.
  unfold inspect. destruct (m s) as [s' [a|e|]]; cbn [fst snd ends] in *; split_and!; auto.
Qed.

Lemma chl_case {A : Type} (m : M FsState A) (P : Disk → Prop) Q :
  (∀ d0, P d0 → chl C (λ d, d = d0) m Q) → chl C P m Q.
Proof. intros Hm s Hs. by apply (Hm (disk s)). Qed.

Section ops.
Context `{Faults}.

(** The rule of every operation. *)
Lemma chl_attempt possible part fin err (P : Disk → Prop) (Q : unit → Disk → Prop) :
  (∀ n d, P d → possible d = true → C (part n d) ∧ E (part n d)) →
  (∀ d, P d → possible d = true → C (fin d) ∧ Q tt (fin d)) →
  (∀ d, P d → E d) →
  chl C P (attempt possible part fin err) (ends Q E).
Proof.
  intros Hp Hd He s Hs. unfold attempt, next_op, put, mbind, M_bind, m_bind. cbn.
  destruct (possible (disk s)) eqn:Hps; cbn; [|exists []; rewrite app_nil_r; by eauto].
  destruct (Hp (op_count s) _ Hs Hps), (Hd _ Hs Hps).
  destruct (fails (op_count s)); cbn.
  - by exists [part (op_count s) (disk s)]; split_and!; [|apply Forall_singleton|].
  - exists [part (op_count s) (disk s); fin (disk s)]. rewrite <-app_assoc.
    by split_and!; [|repeat constructor|].
Qed.

Lemma chl_read p (P : Disk → Prop) Q :
  (∀ d, P d → Q (file_at d p) d) → (∀ d, P d → E d) → chl C P (read p) (ends Q E).
Proof.
  intros HQ HE s Hs. exists []. rewrite app_nil_r. unfold read, next_op, mbind, M_bind, m_bind. cbn.
  destruct (_ || _); cbn; by eauto.
Qed.
Lemma chl_read_found p (P : Disk → Prop) Q :
  (∀ b d, P d → file_at d p = Some b → Q b d) → (∀ d, P d → E d) →
  chl C P (read_found p) (ends Q E).
Proof.
  intros HQ HE. eapply chl_bind; [apply (chl_read p P (λ o d, o = file_at d p ∧ P d)); by eauto|].
  intros o. apply chl_ok_or; [intros b d -> [? ?]; by apply HQ|intros d _ [_ ?]; by eauto].
Qed.
End ops.
End chl.

Lemma chl_conseq {A : Type} (C C' P P' : Disk → Prop) (m : M FsState A) Q Q' :
  chl C P m Q → (∀ d, C d → C' d) → (∀ d, P' d → P d) → (∀ r d, Q r d → Q' r d) → chl C' P' m Q'.
Proof.
  intros Hm HC HP HQ s Hs. destruct (Hm s (HP _ Hs)) as (n & ? & ? & ?). exists n.
  split_and!; [done|by eapply Forall_impl|auto].
Qed.

(** ** Files under the disk operations *)

Lemma file_at_insert d p n q :
  file_at (<[p := n]> d) q =
  if bool_decide (p = q) then match n with File b => Some b | Dir => None end else file_at d q.
Proof.
  unfold file_at. case_bool_decide; [subst; by rewrite lookup_insert_eq|by rewrite lookup_insert_ne].
Qed.
Lemma file_at_eq d d' p : d !! p = d' !! p → file_at d p = file_at d' p.
Proof. unfold file_at. by intros ->. Qed.

Lemma file_at_make_dirs p d q :
  (∀ r, r ∈ prefixes p → file_at d r = None) → file_at (make_dirs p d) q = file_at d q.
Proof.
  unfold make_dirs. generalize (prefixes p) as l. clear p. intros l. revert d.
  induction l as [|r l IH]; intros d Hd; cbn; [done|].
  assert (∀ q, file_at (<[r := Dir]> d) q = file_at d q) as Hr.
  { intros q'. rewrite file_at_insert. case_bool_decide; [subst|done]. symmetry. apply Hd. by left. }
  rewrite IH; [apply Hr|]. intros r' Hr'. rewrite Hr. apply Hd. by right.
Qed.

Lemma prefixes_take n p r : r ∈ prefixes (take n p) → r ∈ prefixes p.
Proof.
  unfold prefixes. rewrite !list_elem_of_fmap. intros (k & -> & Hk%elem_of_seq).
  rewrite length_take in Hk. exists k. split; [|apply elem_of_seq; lia].
  by rewrite take_take, Nat.min_l by lia.
Qed.

(** ** Replacing a file *)

Definition eq_except (t : Path) (d d' : Disk) : Prop := ∀ q, q ≠ t → d !! q = d' !! q.

Lemma eq_except_refl t d : eq_except t d d.
Proof. by intros q. Qed.
Lemma eq_except_insert t n d d' : eq_except t d d' → eq_except t (<[t := n]> d) d'.
Proof. intros Hd q Hq. rewrite lookup_insert_ne by done. by apply Hd. Qed.
Lemma eq_except_delete t d d' : eq_except t d d' → eq_except t (delete t d) d'.
Proof. intros Hd q Hq. rewrite lookup_delete_ne by done. by apply Hd. Qed.
#[export] Hint Resolve eq_except_refl eq_except_insert eq_except_delete : torda.

Lemma append_longer s a t : s +:+ String a t ≠ s.
Proof. induction s as [|x s IH]; [done|]. intros Heq. by injection Heq. Qed.

Section replace.
Context `{Faults} (pid : Z) (dir : Path) (name : string) (b : bytes) (d0 : Disk).

Definition is_tmp (t : Path) : Prop := ∃ c, t = dir ++ [tmp_name name pid c].
(** Nothing changed, except for a temporary file. *)
Definition kept (d : Disk) : Prop := ∃ t, is_tmp t ∧ eq_except t d d0.
(** The target has the new content, and all else is as it was. *)
Definition replaced (d : Disk) : Prop :=
  ∃ t, is_tmp t ∧ eq_except t d (<[dir ++ [name] := File b]> d0).
Definition kept_or_replaced (d : Disk) : Prop := kept d ∨ replaced d.

Lemma tmp_is_not_target t : is_tmp t → t ≠ dir ++ [name].
Proof.
  intros [c ->] Heq%(inj (app dir)). injection Heq. apply append_longer.
Qed.

Lemma write_tmp_spec t :
  chl (λ d, eq_except t d d0) (λ d, eq_except t d d0) (write_tmp t b)
    (ends (λ _ d, eq_except t d d0 ∧ file_at d t = Some b) (λ d, eq_except t d d0)).
Proof.
  unfold write_tmp. eapply chl_bind; [apply (chl_attempt _ _ _ _ _ _ _ (λ _ d, eq_except t d d0))|intros []];
    [by eauto with torda..|].
  eapply chl_bind; [apply (chl_attempt _ _ _ _ _ _ _ (λ _ d, eq_except t d d0 ∧ file_at d t = Some b))|intros []].
  - intros n d Hd _. unfold tear. destruct (torn n b); eauto with torda.
  - intros d Hd _. rewrite file_at_insert, bool_decide_eq_true_2 by done. eauto with torda.
  - done.
  - apply chl_attempt; unfold same; naive_solver.
Qed.

Lemma remove_tmp_spec {A : Type} t e (Q : A → Disk → Prop) : is_tmp t →
  chl kept_or_replaced (λ d, eq_except t d d0) (inspect (remove_file t);; bail e) (ends Q kept).
Proof.
  intros Ht. eapply (chl_bind _ _ _ _ _ (λ _ d, eq_except t d d0)); [|intros; apply chl_bail; by exists t].
  eapply (chl_inspect _ _ _ _ (λ d, eq_except t d d0) (λ _ d, eq_except t d d0)); [|done..].
  apply chl_attempt; unfold same, kept_or_replaced, kept; eauto 10 with torda.
Qed.

Lemma rename_tmp_spec t : is_tmp t →
  chl kept_or_replaced (λ d, eq_except t d d0 ∧ file_at d t = Some b) (rename_file t (dir ++ [name]))
    (ends (λ _, replaced) (λ d, eq_except t d d0)).
Proof.
  intros Ht. apply chl_attempt; [|intros d [Hd ->] _|naive_solver].
  - unfold same, kept_or_replaced, kept. naive_solver.
  - cbn. assert (replaced (<[dir ++ [name] := File b]> (delete t d))) as Hr; [|by split; [right|]].
    exists t. split; [done|]. intros q Hq. rewrite !lookup_insert. case_decide; [done|].
    rewrite lookup_delete_ne by done. by apply Hd.
Qed.

(** At every point the target is as it was or has all of the new content; it has the
    new content exactly when the call succeeds. *)
Lemma replace_file_spec :
  chl kept_or_replaced (λ d, d = d0) (replace_file pid dir name b) (ends (λ _, replaced) kept).
Proof.
  unfold replace_file.
  eapply (chl_bind _ _ _ _ _ (λ _ d, d = d0)); [by apply chl_counter|]. intros c.
  assert (is_tmp (dir ++ [tmp_name name pid c])) as Ht by by exists c.
  set (t := dir ++ [tmp_name name pid c]) in *.
  eapply (chl_bind _ _ _ _ _ (λ w d, eq_except t d d0 ∧ ∀ u, w = inl u → file_at d t = Some b)).
  { eapply chl_inspect; [eapply chl_conseq; [apply (write_tmp_spec t)|..]| |].
    - intros d ?. left. by exists t.
    - intros d ->. apply eq_except_refl.
    - intros r d Hr. exact Hr.
    - naive_solver.
    - naive_solver. }
  intros [[]|e].
  2: { eapply chl_conseq; [by apply (remove_tmp_spec t)|naive_solver..]. }
  eapply (chl_bind _ _ _ _ _ (λ w d, match w with inl _ => replaced d | inr _ => eq_except t d d0 end)).
  { eapply chl_inspect; [eapply chl_conseq; [by apply (rename_tmp_spec t)|naive_solver..]|done..]. }
  intros [[]|e]; [by apply chl_ret|by apply remove_tmp_spec].
Qed.
End replace.

(** ** Disks that agree on some files *)

Definition agree (K : Path → Prop) (d d' : Disk) : Prop := ∀ q, K q → file_at d q = file_at d' q.

Section agree.
Context (K : Path → Prop).
Implicit Types (d : Disk).

Lemma agree_refl d : agree K d d.
Proof. by intros q. Qed.
Lemma agree_trans d1 d2 d3 : agree K d1 d2 → agree K d2 d3 → agree K d1 d3.
Proof. intros H1 H2 q Hq. by rewrite H1, H2. Qed.
Lemma agree_insert p n d : (K p → False) → agree K (<[p := n]> d) d.
Proof. intros Hp q Hq. rewrite file_at_insert. case_bool_decide; [|done]. by subst. Qed.
Lemma agree_tear `{Faults} n p b d : (K p → False) → agree K (tear n p b d) d.
Proof. intros Hp. unfold tear. destruct (torn n b); [by apply agree_insert|apply agree_refl]. Qed.

Lemma agree_make_dirs p q d :
  forallb (λ r, negb (is_file r d)) (prefixes p) = true → (∀ r, r ∈ prefixes q → r ∈ prefixes p) →
  agree K (make_dirs q d) d.
Proof.
  intros Hf Hq x Hx. apply file_at_make_dirs. intros r Hr%Hq.
  rewrite forallb_forall in Hf. apply list_elem_of_In, Hf in Hr. unfold is_file in Hr.
  by apply negb_true_iff, bool_decide_eq_false, eq_None_not_Some in Hr.
Qed.

Lemma agree_filter (P : Path * Node → Prop) `{!∀ x, Decision (P x)} d :
  (∀ q n, K q → P (q, n)) → agree K (filter P d) d.
Proof.
  intros HP q Hq. apply file_at_eq. destruct (d !! q) as [n|] eqn:Hd.
  - apply map_lookup_filter_Some. eauto.
  - apply map_lookup_filter_None. auto.
Qed.
End agree.

Lemma under_spec dir p : under dir p = true ↔ dir `prefix_of` p.
Proof. unfold under. apply bool_decide_eq_true. Qed.
Lemma not_under dir p : under dir p = false ↔ ¬ dir `prefix_of` p.
Proof. unfold under. apply bool_decide_eq_false. Qed.

Lemma path_exists_false p d : path_exists p d = false ↔ ∀ q, p `prefix_of` q → d !! q = None.
Proof.
  unfold path_exists. rewrite <-not_true_iff_false, existsb_exists. split.
  - intros Hn q Hq. apply eq_None_not_Some. intros [n Hd]. apply Hn. exists (q, n).
    split; [by apply list_elem_of_In, elem_of_map_to_list|by apply under_spec].
  - intros Hall ([q n] & Hin%list_elem_of_In%elem_of_map_to_list & Hq%under_spec).
    by rewrite Hall in Hin.
Qed.

(** ** Moving a directory *)

Lemma rename_key_Some a b kv kv' :
  rename_key a b kv = Some kv' → ∃ r, kv.1 = a ++ r ∧ kv' = (b ++ r, kv.2).
Proof.
  unfold rename_key. destruct (under a kv.1) eqn:Hu; [|done]. intros [= <-].
  apply under_spec in Hu as [r ->]. exists r. by rewrite drop_app_length.
Qed.

Lemma renamed_spec a b d q n :
  renamed a b d !! q = Some n ↔ ∃ r, q = b ++ r ∧ d !! (a ++ r) = Some n.
Proof.
  unfold renamed. rewrite <-elem_of_list_to_map.
  - rewrite list_elem_of_omap. split.
    + intros ([k n'] & Hin%elem_of_map_to_list & (r & Hk & Heq)%rename_key_Some). cbn in *.
      simplify_eq. eauto.
    + intros (r & -> & Hd). exists (a ++ r, n). split; [by apply elem_of_map_to_list|].
      unfold rename_key. cbn. rewrite (proj2 (under_spec _ _)) by (by exists r).
      by rewrite drop_app_length.
  - pose proof (NoDup_fst_map_to_list d) as Hnd.
    induction (map_to_list d) as [|kv l IH]; cbn; [constructor|].
    apply NoDup_cons in Hnd as [Hk Hnd]. destruct (rename_key a b kv) as [kv'|] eqn:Hkv; [|by apply IH].
    cbn. constructor; [|by apply IH]. apply rename_key_Some in Hkv as (r & Hr & ->). cbn.
    intros ([q' n'] & Hq & Hin)%list_elem_of_fmap. apply list_elem_of_omap in Hin as (kv2 & Hin & Hkv2).
    apply rename_key_Some in Hkv2 as (r2 & Hr2 & Heq). simplify_eq/=.
    apply Hk, list_elem_of_fmap. exists kv2. by rewrite Hr, Hr2.
Qed.

Lemma file_at_moved a b d r :
  path_exists b d = false → file_at (move_dir a b d) (b ++ r) = file_at d (a ++ r).
Proof.
  intros Hb. assert (move_dir a b d !! (b ++ r) = d !! (a ++ r)) as Heq; [|unfold file_at; by rewrite Heq].
  unfold move_dir. destruct (d !! (a ++ r)) as [n|] eqn:Hd.
  - apply lookup_union_Some_l. apply renamed_spec. eauto.
  - apply lookup_union_None. split.
    + apply eq_None_not_Some. intros [n (r' & Heq & Hr)%renamed_spec].
      apply (inj (app b)) in Heq as ->. congruence.
    + apply map_lookup_filter_None. left. rewrite path_exists_false in Hb. apply Hb. by exists r.
Qed.

Lemma agree_move (K : Path → Prop) a b d :
  (∀ q, K q → under a q = false ∧ under b q = false) → agree K (move_dir a b d) d.
Proof.
  intros HK q Hq. destruct (HK q Hq) as [Ha Hb]. apply file_at_eq. unfold move_dir.
  rewrite lookup_union_r.
  - destruct (d !! q) as [n|] eqn:Hd; [by apply map_lookup_filter_Some|apply map_lookup_filter_None; auto].
  - apply eq_None_not_Some. intros [n (r & -> & _)%renamed_spec].
    apply not_under in Hb. apply Hb. by exists r.
Qed.

(** ** Loops *)

Lemma chl_for_each {A : Type} (C E : Disk → Prop) (f : A → M FsState unit) (I : list A → Disk → Prop) l :
  (∀ done x, x ∈ l → chl C (I done) (f x) (ends (λ _, I (done ++ [x])) E)) →
  ∀ done, chl C (I done) (for_each f l) (ends (λ _, I (done ++ l)) E).
Proof.
  intros Hf. induction l as [|x l IH]; intros done; cbn.
  - apply (chl_ret C E). intros d. by rewrite app_nil_r.
  - eapply (chl_bind C E (f x)); [apply Hf; by left|]. intros [].
    change (x :: l) with ([x] ++ l). rewrite app_assoc. apply IH. intros. apply Hf. by right.
Qed.

(** A removal, complete or not, keeps every file that is not under the directory. *)
Lemma chl_remove_dir_all `{Faults} (C E P : Disk → Prop) Q p :
  (∀ (keep : Path * Node → Prop) `{!∀ x, Decision (keep x)} d,
     P d → (∀ q n, under p q = false → keep (q, n)) →
     C (filter keep d) ∧ E (filter keep d) ∧ Q tt (filter keep d)) →
  (∀ d, P d → E d) →
  chl C P (remove_dir_all p) (ends Q E).
Proof.
  intros HP HE. apply chl_attempt; [intros n d Hd _|intros d Hd _|done].
  - destruct (HP (λ kv : Path * Node, under p kv.1 && removed n kv.1 = false) _ d Hd) as (? & ? & _);
      [|done]. intros q k Hq. cbn. by rewrite Hq.
  - by destruct (HP (λ kv : Path * Node, under p kv.1 = false) _ d Hd) as (? & ? & ?).
Qed.
