(* ===== verification/JsonStore.v ===== *)
(** * The JSON file store

    [server/ingest/src/store.rs]: [JsonFileStore], the findings store the ingest
    binaries use.  It implements the same interface as the in-memory store, over a
    disk that can fail and crash.  [serde_json] at [Vec<Finding>] is an interface. *)

From Stdlib Require Import ZArith SpecFloat Sorting.Sorted.
From stdpp Require Import base tactics gmap strings list sorting.
From S2P Require Import Prelude Float32 Transport Scheduler Findings Ingest Fs Order IngestProps.


(** [serde_json::to_vec_pretty], [serde_json::from_slice]. *)
Class FindingsJson := {
  findings_to_vec : list Finding → bytes + string;
  findings_from_slice : bytes → list Finding + string;
}.

(** JSON has no NaN and no infinities. *)
Definition f32_finite (x : f32) : bool :=
  match x with S754_zero _ | S754_finite _ _ _ => true | _ => false end.
Definition opt_finite (o : option f32) : bool := match o with Some x => f32_finite x | None => true end.
Definition storable (f : Finding) : bool :=
  forallb (λ p, f32_finite (p_confidence p)) (provenance f)
  && opt_finite (cvss_env (enrichment f)) && opt_finite (epss (enrichment f))
  && opt_finite (epss_pct (enrichment f))
  && let e := explain (score f) in
     forallb f32_finite [sev e; likelihood e; exposure e; crit e; reach e].

(** What is written reads back. *)
Class FindingsJsonLaws `{FindingsJson} := {
  findings_round_trip l b :
    forallb storable l = true → findings_to_vec l = inl b → findings_from_slice b = inl l;
}.

(** [path.file_name()]. *)
Definition file_name (p : Path) : option string :=
  match last p with
  | Some n => if bool_decide (n = "..") then None else Some n
  | None => None
  end.

Section store.
Context `{!Faults} `{!FindingsJson} (pid : Z) (path : Path).

Definition store_write_atomic (b : bytes) : M FsState unit :=
  name ← ok_or (file_name path) "store path has no file name";
  replace_file pid (parent path) name b.

(** A missing file is an empty set; any other failure is an error. *)
Definition json_load : M FsState (list Finding) :=
  o ← read path;
  match o with
  | None => mret []
  | Some b =>
      match findings_from_slice b with
      | inl fs => mret fs
      | inr e => bail ("parsing findings store: " +:+ e)
      end
  end.

(** Merge onto what is stored, by [finding_id]. *)
Definition json_upsert (fs : list Finding) : M FsState unit :=
  loaded ← json_load;
  let by_id := insert_all (insert_all [] loaded) fs in
  match findings_to_vec by_id.*2 with
  | inr e => bail e
  | inl b =>
      (if bool_decide (parent path = []) then mret (inl tt)
       else inspect (create_dir_all (parent path)));;
      store_write_atomic b
  end.

Definition JsonFileStore_store : FindingsStore FsState := {|
  store_load := json_load;
  store_upsert := json_upsert;
|}.
End store.

(** * The file store implements the in-memory store

    A disk represents an in-memory store when the file holds its findings.  Every
    operation of the file store either does on the represented store what the
    in-memory store does, or fails and leaves it; a crash leaves one of the two. *)

(** ** Re-keying what was stored *)

Lemma bt_insert_max {V} k (v : V) m :
  Forall (λ x, string_cmp x.1 k = Lt) m → bt_insert string_cmp k v m = m ++ [(k, v)].
Proof.
  unfold bt_insert. induction 1 as [|[k' v'] m Hk _ IH]; [done|]. cbn [bt_alter fst] in *.
  rewrite (cmp_opp string_cmp k' k), Hk. cbn [CompOpp]. by rewrite IH.
Qed.

Lemma insert_all_values m1 m2 :
  bt_ok string_cmp (m1 ++ m2) → Forall (λ p, finding_id p.2 = p.1) m2 →
  insert_all m1 m2.*2 = m1 ++ m2.
Proof.
  revert m1. induction m2 as [|[k f] m2 IH]; intros m1 Hok Hids; [by rewrite app_nil_r|].
  apply Forall_cons in Hids as [Hk Hids]. cbn in Hk. subst.
  change (m1 ++ ?x :: m2) with (m1 ++ [x] ++ m2) in *. rewrite app_assoc in *.
  rewrite <-IH by done. cbn. f_equal. apply bt_insert_max.
  apply StronglySorted_app_1_l in Hok. apply Forall_forall. intros x Hx.
  apply (StronglySorted_app_1_elem_of _ _ _ _ (finding_id f, f) Hok Hx). by left.
Qed.

Lemma rekey_stored s : store_ok s → insert_all [] (by_id s).*2 = by_id s.
Proof. intros [Hok Hids]. by apply (insert_all_values []). Qed.

(** ** Refinement *)

Section props.
Context `{!FindingsJson} `{!FindingsJsonLaws} (path : Path).
Implicit Types (m : InMemoryStore) (fs : list Finding).

Definition loads (d : Disk) (l : list Finding) : Prop :=
  match file_at d path with None => l = [] | Some b => findings_from_slice b = inl l end.

Definition stores (d : Disk) (m : InMemoryStore) : Prop :=
  store_ok m ∧ Forall storable (by_id m).*2 ∧ loads d (by_id m).*2.

Definition merged (fs : list Finding) (m : InMemoryStore) : InMemoryStore := (store_upsert fs m).1.

Lemma loads_eq d d' l : file_at d path = file_at d' path → loads d l → loads d' l.
Proof. unfold loads. by intros ->. Qed.
Lemma stores_eq d d' m : file_at d path = file_at d' path → stores d m → stores d' m.
Proof. intros Heq (? & ? & ?). split_and!; [done..|by eapply loads_eq]. Qed.

Lemma insert_all_storable l fs :
  Forall storable l.*2 → Forall storable fs → Forall storable (insert_all l fs).*2.
Proof.
  rewrite !Forall_fmap. intros Hl Hfs. unfold insert_all. induction fs as [|f fs IH] using rev_ind; [done|].
  apply Forall_app in Hfs as [Hfs Hf]. apply Forall_cons_1 in Hf as [Hf _]. rewrite foldl_app. cbn.
  apply bt_alter_values; [done|by intros|by apply IH].
Qed.

Lemma merged_stores m fs d0 d b :
  stores d0 m → Forall storable fs → findings_to_vec (by_id (merged fs m)).*2 = inl b →
  file_at d path = Some b → stores d (merged fs m).
Proof.
  intros (Hok & Hst & _) Hfs Hb Hd.
  assert (Forall storable (by_id (merged fs m)).*2) as Hst' by by apply insert_all_storable.
  split_and!; [destruct m; by apply insert_all_ok|done|]. unfold loads. rewrite Hd.
  apply findings_round_trip; [|done]. by apply Is_true_true, forallb_True.
Qed.

Section ops.
Context `{!Faults} (pid : Z).

Lemma json_load_spec C m :
  chl C (λ d, stores d m) (json_load path) (ends (λ l d, stores d m ∧ l = (by_id m).*2) (λ d, stores d m)).
Proof.
  eapply chl_bind; [apply (chl_read _ _ _ _ (λ o d, stores d m ∧ o = file_at d path)); naive_solver|].
  intros [b|].
  - destruct (findings_from_slice b) as [l|e] eqn:Hl.
    + apply chl_ret. intros d [Hd Heq]. split; [done|]. destruct Hd as (_ & _ & Hd).
      unfold loads in Hd. rewrite <-Heq in Hd. congruence.
    + apply chl_bail. naive_solver.
  - apply chl_ret. intros d [Hd Heq]. split; [done|]. destruct Hd as (_ & _ & Hd).
    unfold loads in Hd. by rewrite <-Heq in Hd.
Qed.

Lemma file_name_path name : file_name path = Some name → path = parent path ++ [name].
Proof.
  unfold file_name, parent. destruct (last path) as [n|] eqn:Hl; [|done]. case_bool_decide; [done|].
  intros [= ->]. apply last_Some in Hl as [l ->]. rewrite length_app. cbn.
  by rewrite Nat.add_sub, take_app_length.
Qed.

Definition old_or_new (m m' : InMemoryStore) (d : Disk) : Prop := stores d m ∨ stores d m'.

Lemma store_write_spec m fs b :
  Forall storable fs → findings_to_vec (by_id (merged fs m)).*2 = inl b →
  chl (old_or_new m (merged fs m)) (λ d, stores d m) (store_write_atomic pid path b)
    (ends (λ _ d, stores d (merged fs m)) (λ d, stores d m)).
Proof.
  intros Hfs Hb. apply chl_case. intros d0 Hd0.
  unfold store_write_atomic. eapply chl_bind; [apply chl_ok_or with (Q := λ n d, file_name path = Some n ∧ d = d0)|];
    [naive_solver..|]. intros name. apply chl_case. intros ? [Hn%file_name_path ->].
  assert (∀ d, kept pid (parent path) name d0 d → stores d m) as Hkept.
  { intros d (t & Ht & Hd). eapply stores_eq, Hd0. symmetry. apply file_at_eq, Hd.
    rewrite Hn. intros <-. by eapply tmp_is_not_target. }
  assert (∀ d, replaced pid (parent path) name b d0 d → stores d (merged fs m)) as Hrep.
  { intros d (t & Ht & Hd). eapply merged_stores; [done..|].
    rewrite (file_at_eq _ (<[parent path ++ [name] := File b]> d0)).
    - rewrite file_at_insert, bool_decide_eq_true_2; done.
    - apply Hd. rewrite Hn. intros <-. by eapply tmp_is_not_target. }
  eapply chl_conseq; [apply replace_file_spec| |by intros d ->|].
  - intros d [?|?]; [left|right]; auto.
  - intros [[]|e|] d; cbn; auto.
Qed.

Lemma make_parent_spec (C : Disk → Prop) m :
  (∀ d, stores d m → C d) →
  chl C (λ d, stores d m) (if bool_decide (parent path = []) then mret (inl tt)
       else inspect (create_dir_all (parent path))) (ends (λ _ d, stores d m) (λ d, stores d m)).
Proof.
  intros HC. case_bool_decide; [by apply chl_ret|].
  eapply (chl_inspect _ _ _ _ (λ d, stores d m) (λ _ d, stores d m)); [|done..].
  assert (∀ d q, stores d m → (∀ r, r ∈ prefixes q → r ∈ prefixes (parent path)) →
    forallb (λ q, negb (is_file q d)) (prefixes (parent path)) = true → stores (make_dirs q d) m) as Hmk.
  { intros d q Hd Hq Hf. eapply stores_eq, Hd. symmetry. apply file_at_make_dirs. intros r Hr%Hq.
    rewrite forallb_forall in Hf. apply list_elem_of_In, Hf in Hr. unfold is_file in Hr.
    apply negb_true_iff, bool_decide_eq_false, eq_None_not_Some in Hr. done. }
  apply chl_attempt.
  - intros n d Hd Hf. assert (stores (make_dirs (take (made n) (parent path)) d) m); [|by auto].
    apply Hmk; [done|apply prefixes_take|done].
  - intros d Hd Hf. assert (stores (make_dirs (parent path) d) m); [|by auto]. by apply Hmk.
  - done.
Qed.

Lemma json_upsert_spec m fs :
  Forall storable fs →
  chl (old_or_new m (merged fs m)) (λ d, stores d m) (json_upsert pid path fs)
    (ends (λ _ d, stores d (merged fs m)) (λ d, stores d m)).
Proof.
  intros Hfs. eapply chl_bind; [apply json_load_spec|]. intros l.
  apply chl_case. intros d0 [Hd0 ->]. rewrite rekey_stored by apply Hd0.
  change (insert_all (by_id m) fs) with (by_id (merged fs m)).
  cbn zeta. destruct (findings_to_vec (by_id (merged fs m)).*2) as [b|e] eqn:Hb; [|apply chl_bail; by intros d ->].
  apply (chl_conseq (old_or_new m (merged fs m)) _ (λ d, stores d m) _ _ (ends (λ _ d, stores d (merged fs m)) (λ d, stores d m)));
    [|done|by intros d ->|done].
  eapply chl_bind; [apply make_parent_spec; by left|]. intros ?. by apply store_write_spec.
Qed.
End ops.

(** ** Runs, with crashes and restarts *)

(** A batch and how its call ended: with a result, or in a crash. *)
Abbreviation Attempt := (list Finding * option (Result unit))%type.

(** Each call meets its own faults; after a crash the next process finds one of the
    disks the call passed through. *)
Inductive runs (pid : Z) : Disk → list Attempt → Disk → Prop :=
  | runs_done d : runs pid d [] d
  | runs_returned `{F : !Faults} s s' fs r ops d' :
      json_upsert pid path fs s = (s', r) → runs pid (disk s') ops d' →
      runs pid (disk s) ((fs, Some r) :: ops) d'
  | runs_crashed `{F : !Faults} s s' fs r ops new d d' :
      json_upsert pid path fs s = (s', r) → history s' = history s ++ new → d ∈ disk s :: new →
      runs pid d ops d' →
      runs pid (disk s) ((fs, None) :: ops) d'.

(** The batches of a run that are in: those that returned [Ok], none that returned
    an error, and of those that crashed, some. *)
Fixpoint committed (ops : list Attempt) (batches : list (list Finding)) : Prop :=
  match ops with
  | [] => batches = []
  | (fs, Some (Ok _)) :: ops => ∃ rest, batches = fs :: rest ∧ committed ops rest
  | (fs, Some _) :: ops => committed ops batches
  | (fs, None) :: ops =>
      (∃ rest, batches = fs :: rest ∧ committed ops rest) ∨ committed ops batches
  end.

(** C19: batches that were acknowledged survive.  After any sequence of upserts into the
    JSON file store, each with its own file failures and each possibly cut short by a
    crash, the file holds what the in-memory store would hold after the committed
    batches: every batch that returned [Ok], no batch that returned an error, and of a
    batch that was cut short, all or nothing. *)
Theorem acknowledged_batches_survive pid d ops d' m :
  runs pid d ops d' → Forall (λ op, Forall storable op.1) ops → stores d m →
  ∃ batches, committed ops batches ∧ stores d' (foldl (λ m fs, merged fs m) m batches).
Proof.
  intros Hr. revert m. induction Hr as [d|F s s' fs r ops d' Hc Hr IH|F s s' fs r ops new d d' Hc Hh Hd Hr IH];
    intros m Hops Hm; [by exists []|apply Forall_cons in Hops as [Hfs Hops]..];
    destruct (json_upsert_spec pid m fs Hfs s Hm) as (new' & Hn & HC & Hend); rewrite Hc in *; cbn in *.
  - destruct r as [[]|e|]; [|by apply IH|done].
    destruct (IH _ Hops Hend) as (bs & ? & ?). exists (fs :: bs). naive_solver.
  - rewrite Hh in Hn. apply (inj (app _)) in Hn as <-.
    assert (stores d m ∨ stores d (merged fs m)) as [Hm'|Hm'].
    { apply elem_of_cons in Hd as [->|Hd]; [by left|]. rewrite Forall_forall in HC. by apply HC. }
    + destruct (IH _ Hops Hm') as (bs & ? & ?). exists bs. auto.
    + destruct (IH _ Hops Hm') as (bs & ? & ?). exists (fs :: bs). naive_solver.
Qed.

(** ** What the ingest pipeline sees *)

(** What a run reports on top of the findings in [m]. *)
Definition report_after (run : list Finding → IngestReport) m : IngestReport :=
  mkIngestReport (persisted_fresh run m) (remediation_items (run (by_id m).*2)).

Lemma persisted_ingest_spec `{!Faults} pid run m :
  Forall storable (persisted_fresh run m) →
  chl (old_or_new m (merged (persisted_fresh run m) m)) (λ d, stores d m)
    (persisted_ingest (H := JsonFileStore_store pid path) run)
    (ends (λ rep d, rep = report_after run m ∧ stores d (merged (persisted_fresh run m) m)) (λ d, stores d m)).
Proof.
  intros Hst. unfold persisted_ingest. eapply chl_bind; [apply json_load_spec|]. intros l.
  apply chl_case. intros d0 [Hd0 ->]. eapply chl_bind.
  - eapply chl_conseq; [by apply json_upsert_spec|done|by intros d ->|]. intros r d Hr. exact Hr.
  - intros ?. by apply chl_ret.
Qed.

(** The ingest pipeline over the file store does what it does over the in-memory
    store: the same report and the same stored findings when it succeeds, and the
    stored findings unchanged when it fails. *)
Theorem file_backed_ingest_refines_memory `{!Faults} pid run m s :
  Forall storable (persisted_fresh run m) → stores (disk s) m →
  let '(s', r) := persisted_ingest (H := JsonFileStore_store pid path) run s in
  match r with
  | Ok report => Ok report = (persisted_ingest run m).2 ∧ stores (disk s') (persisted_ingest run m).1
  | Err _ => stores (disk s') m
  | Panicked => False
  end.
Proof.
  intros Hst Hm. rewrite persisted_ingest_run. cbn [fst snd].
  destruct (persisted_ingest_spec pid run m Hst s Hm) as (_ & _ & _ & Hq).
  destruct (persisted_ingest (H := JsonFileStore_store pid path) run s) as [s' [rep|e|]]; cbn in *; [|done..].
  by destruct Hq as [-> ?].
Qed.
End props.
