(* ===== verification/Feed.v ===== *)
(** * The signed feed

    [crates/feed/src]: the manifest of a bundle, its signature, the fail-closed
    verification of a bundle directory, the builder, and the local store with its
    install.  [serde_json] and SHA-256 are interfaces; the signature scheme and the
    hex codec are those of the control plane. *)

From Stdlib Require Import ZArith.
From stdpp Require Import base tactics gmap strings list.
From S2P Require Import Prelude Transport Scheduler Keys CveSource Text ProcMon Fs JsonStore.

(** ** The manifest (manifest.rs) *)

Inductive FeedTier := Community | Enterprise.
Inductive FeedContentKind := Osv | Nvd | Epss | Kev.
Record FeedEntry := mkFeedEntry { fe_name : string; fe_sha256 : string; fe_kind : FeedContentKind }.
Record FeedManifest := mkFeedManifest {
  fm_version : string; fm_created_at : Z; fm_source : string; fm_tier : FeedTier;
  fm_entries : list FeedEntry;
}.
Record FeedState := mkFeedState {
  st_version : string; st_source : string; st_tier : FeedTier; st_created_at : Z; st_applied_at : Z;
}.

(** [serde_json] at the two structs, and [ring::digest]. *)
Class FeedCodec := {
  to_canonical_json_bytes : FeedManifest → bytes;
  manifest_to_vec_pretty : FeedManifest → bytes;
  manifest_from_str : bytes → FeedManifest + string;
  state_to_vec_pretty : FeedState → bytes;
  state_from_slice : bytes → FeedState + string;
  sha256 : bytes → bytes;
}.

(** What the code relies on: a struct reads back from its pretty form, which is
    text, and a digest is bytes. *)
Class FeedCodecLaws `{FeedCodec} := {
  manifest_round_trip m : manifest_from_str (manifest_to_vec_pretty m) = inl m;
  manifest_utf8 m : utf8_valid (manifest_to_vec_pretty m) = true;
  state_round_trip st : state_from_slice (state_to_vec_pretty st) = inl st;
  sha256_bytes b : Forall is_byte (sha256 b);
}.

(** The alphabet of [hex::encode]. *)
Definition lower_hex_digit (b : Z) : bool := in_range 48 57 b || in_range 97 102 b.
Class HexAlphabet `{Hex} :=
  hex_lower b : Forall is_byte b → Forall lower_hex_digit (as_bytes (hex_encode b)).

Section feed.
Context `{!FeedCodec} `{!Ed25519} `{!Hex}.

(** ** Signatures (sign.rs) *)

Definition sha256_hex (b : bytes) : string := hex_encode (sha256 b).

Definition sign_manifest (key : SigningKey) (m : FeedManifest) : string :=
  hex_encode (sig_to_bytes (sk_sign key (to_canonical_json_bytes m))).

Record FeedVerifier := mkFeedVerifier { trusted_keys : list VerifyingKey }.
Definition feed_verifier_new : FeedVerifier := mkFeedVerifier [].
Definition verifier_is_empty (v : FeedVerifier) : bool := bool_decide (length (trusted_keys v) = 0).

(** Keys are compared by their encoding. *)
Definition feed_trust (key : VerifyingKey) (v : FeedVerifier) : FeedVerifier :=
  if existsb (λ k, bool_decide (vk_to_bytes k = vk_to_bytes key)) (trusted_keys v) then v
  else mkFeedVerifier (trusted_keys v ++ [key]).

Definition trust_from_hex (hex_key : bytes) : M FeedVerifier unit :=
  match hex_decode (trim hex_key) with
  | inr e => bail ("decoding trusted feed key hex: " +:+ e)
  | inl b =>
      if bool_decide (length b = 32) then
        match vk_from_bytes b with
        | inr e => bail ("invalid ed25519 public key: " +:+ e)
        | inl key => modify (feed_trust key)
        end
      else bail ("ed25519 public key must be 32 bytes, got " +:+ show_nat (length b))
  end.

Definition verify_manifest (v : FeedVerifier) (m : FeedManifest) (sig_hex : bytes) : bool :=
  match hex_decode (trim sig_hex) with
  | inr _ => false
  | inl b =>
      match sig_from_slice b with
      | None => false
      | Some sig => existsb (λ k, verify_strict k (to_canonical_json_bytes m) sig) (trusted_keys v)
      end
  end.

(** ** Verifying a bundle (bundle.rs) *)

Definition MANIFEST_NAME : string := "manifest.json".
Definition SIGNATURE_NAME : string := "manifest.json.sig".
Definition MAX_MANIFEST_ENTRIES : nat := Z.to_nat 1024.
Definition MAX_CONTENT_FILE_BYTES : Z := 256 * 1024 * 1024.

Definition is_plain_file_name (name : string) : bool :=
  bool_decide (name ≠ "") && bool_decide (name ≠ ".") && bool_decide (name ≠ "..")
  && bool_decide (47%Z ∉ as_bytes name) && bool_decide (92%Z ∉ as_bytes name)
  && bool_decide (0%Z ∉ as_bytes name).

Definition digest_matches (b : bytes) (e : FeedEntry) : bool :=
  eq_ignore_ascii_case (as_bytes (sha256_hex b)) (trim (as_bytes (fe_sha256 e))).

Context `{!Faults}.

Definition read_to_string (p : Path) : M FsState bytes :=
  b ← read_found p;
  if utf8_valid b then mret b else bail "stream did not contain valid UTF-8".

Definition verify_entry (dir : Path) (e : FeedEntry) : M FsState unit :=
  len ← metadata_len (dir ++ [fe_name e]);
  if (MAX_CONTENT_FILE_BYTES <? len)%Z then bail "feed content file is over the cap"
  else
    b ← read_found (dir ++ [fe_name e]);
    if digest_matches b e then mret tt else bail "feed content file digest mismatch".

Fixpoint verify_entries (dir : Path) (seen : list string) (entries : list FeedEntry) : M FsState unit :=
  match entries with
  | [] => mret tt
  | e :: entries =>
      if negb (is_plain_file_name (fe_name e)) then bail "feed entry name is not a plain file name"
      else if bool_decide (fe_name e ∈ seen) then bail "feed manifest lists a name more than once"
      else verify_entry dir e;; verify_entries dir (fe_name e :: seen) entries
  end.

Definition verify_bundle (dir : Path) (v : FeedVerifier) : M FsState FeedManifest :=
  if verifier_is_empty v then
    bail "refusing to verify a feed bundle with no trusted keys configured"
  else
    manifest_text ← read_to_string (dir ++ [MANIFEST_NAME]);
    sig_hex ← read_to_string (dir ++ [SIGNATURE_NAME]);
    match manifest_from_str manifest_text with
    | inr e => bail ("parsing feed manifest: " +:+ e)
    | inl manifest =>
        if negb (verify_manifest v manifest sig_hex) then
          bail "feed manifest signature is not valid for any trusted key"
        else if MAX_MANIFEST_ENTRIES <? length (fm_entries manifest) then
          bail "feed manifest lists too many entries"
        else verify_entries dir [] (fm_entries manifest);; mret manifest
    end.

(** ** Building a bundle (builder.rs) *)

Definition KNOWN_CONTENT : list (string * FeedContentKind) :=
  [("osv-bundle.json", Osv); ("nvd-bundle.json", Nvd); ("epss-sample.csv", Epss);
   ("kev-sample.json", Kev)].

Fixpoint known_entries (content_dir : Path) (known : list (string * FeedContentKind)) :
    M FsState (list FeedEntry) :=
  match known with
  | [] => mret []
  | (name, kind) :: known =>
      there ← gets (λ s, is_file (content_dir ++ [name]) (disk s));
      if negb there then known_entries content_dir known
      else
        b ← read_found (content_dir ++ [name]);
        es ← known_entries content_dir known;
        mret (mkFeedEntry name (sha256_hex b) kind :: es)
  end.

Definition manifest_from_content_dir (content_dir : Path) (version : string) (created_at : Z)
    (source : string) (tier : FeedTier) : M FsState FeedManifest :=
  entries ← known_entries content_dir KNOWN_CONTENT;
  if bool_decide (length entries = 0) then bail "no known feed content files"
  else mret (mkFeedManifest version created_at source tier entries).

(** [std::fs::write]. *)
Definition write_file (p : Path) (b : bytes) : M FsState unit := create_file p;; write_all p b.

(** For a manifest whose names are plain. *)
Definition write_signed_bundle (content_dir out_dir : Path) (m : FeedManifest) (key : SigningKey) :
    M FsState unit :=
  create_dir_all out_dir;;
  for_each (λ e, copy (content_dir ++ [fe_name e]) (out_dir ++ [fe_name e])) (fm_entries m);;
  write_file (out_dir ++ [MANIFEST_NAME]) (manifest_to_vec_pretty m);;
  write_file (out_dir ++ [SIGNATURE_NAME]) (as_bytes (sign_manifest key m)).

(** ** Sources (source.rs) *)

(** The static source hands out its own directory. *)
Definition static_fetch_bundle (dir : Path) : M FsState Path :=
  there ← gets (λ s, is_file (dir ++ [MANIFEST_NAME]) (disk s));
  if (there : bool) then mret dir else bail "community static feed source: no feed bundle".

(** ** The store (store.rs) *)

Section store.
Context (pid : Z) (root : Path).

Definition content_dir : Path := root ++ ["content"].
Definition state_path : Path := root ++ ["state.json"].
Definition staging_dir (c : Z) : Path :=
  root ++ [".content-new-" +:+ show_Z pid +:+ "-" +:+ show_Z c].

Definition feed_state : M FsState (option FeedState) :=
  o ← read state_path;
  match o with
  | None => mret None
  | Some b =>
      match state_from_slice b with
      | inl st => mret (Some st)
      | inr e => bail ("parsing feed state: " +:+ e)
      end
  end.

(** [.ok().flatten()]. *)
Definition feed_state_ok : M FsState (option FeedState) :=
  r ← inspect feed_state; mret (match r with inl o => o | inr _ => None end).
Definition active_version : M FsState (option string) :=
  o ← feed_state_ok; mret (st_version <$> o).
Definition staleness_ms (now_ms : Z) : M FsState (option Z) :=
  o ← feed_state_ok;
  mret ((λ st, Z.max 0 (wrap_i64 (now_ms - st_created_at st))) <$> o).

Definition feed_write_atomic (path : Path) (b : bytes) : M FsState unit :=
  if bool_decide (parent path = []) then bail "state path has no parent dir"
  else
    name ← ok_or (file_name path) "state path has no file name";
    replace_file pid (parent path) name b.

Definition stage (bundle_dir staging : Path) (m : FeedManifest) : M FsState unit :=
  for_each (λ e, copy (bundle_dir ++ [fe_name e]) (staging ++ [fe_name e])) (fm_entries m).

Definition state_of (m : FeedManifest) (now_millis : Z) : FeedState :=
  mkFeedState (fm_version m) (fm_source m) (fm_tier m) (fm_created_at m) now_millis.

Definition install (bundle_dir : Path) (v : FeedVerifier) (now_millis : Z) : M FsState FeedManifest :=
  manifest ← verify_bundle bundle_dir v;
  create_dir_all root;;
  c ← next_counter;
  let staging := staging_dir c in
  inspect (remove_dir_all staging);;
  create_dir_all staging;;
  staged ← inspect (stage bundle_dir staging manifest);
  match staged with
  | inr e => inspect (remove_dir_all staging);; bail e
  | inl _ =>
      there ← gets (λ s, path_exists content_dir (disk s));
      (if (there : bool) then remove_dir_all content_dir else mret tt);;
      moved ← inspect (rename_dir staging content_dir);
      match moved with
      | inr e => inspect (remove_dir_all staging);; bail e
      | inl _ =>
          feed_write_atomic state_path (state_to_vec_pretty (state_of manifest now_millis));;
          mret manifest
      end
  end.
End store.
End feed.
