(* ===== verification/FeedProps.v ===== *)
(** * The signed feed: what is verified is what is installed

    The bundles that verification accepts, what an install leaves on disk at every
    point a crash can come, and that what the builder publishes is accepted. *)

From Stdlib Require Import ZArith.
From stdpp Require Import base tactics gmap strings list.
From S2P Require Import Prelude Transport Scheduler Keys CveSource Text Fs JsonStore Feed.

Section feed.
Context `{!FeedCodec} `{!Ed25519} `{!Hex}.

(** ** The bundles that verify *)

Definition entry_ok (dir : Path) (d : Disk) (e : FeedEntry) : Prop :=
  is_plain_file_name (fe_name e) = true ∧
  ∃ b, file_at d (dir ++ [fe_name e]) = Some b ∧
    (Z.of_nat (length b) ≤ MAX_CONTENT_FILE_BYTES)%Z ∧ digest_matches b e = true.

Record verified (dir : Path) (v : FeedVerifier) (m : FeedManifest) (d : Disk) : Prop := {
  ver_manifest : ∃ text, file_at d (dir ++ [MANIFEST_NAME]) = Some text ∧
    utf8_valid text = true ∧ manifest_from_str text = inl m;
  ver_signature : ∃ sig, file_at d (dir ++ [SIGNATURE_NAME]) = Some sig ∧
    utf8_valid sig = true ∧ verify_manifest v m sig = true;
  ver_fan_out : length (fm_entries m) ≤ MAX_MANIFEST_ENTRIES;
  ver_names : NoDup (fe_name <$> fm_entries m);
  ver_entries : Forall (entry_ok dir d) (fm_entries m);
}.

Lemma verify_manifest_key v m sig :
  verify_manifest v m sig = true →
  ∃ k s, k ∈ trusted_keys v ∧ verify_strict k (to_canonical_json_bytes m) s = true.
Proof.
  unfold verify_manifest. destruct (hex_decode _) as [b|]; [|done].
  destruct (sig_from_slice b) as [s|]; [|done]. rewrite existsb_exists.
  intros (k & Hk%list_elem_of_In & Hv). eauto.
Qed.

Lemma verify_manifest_not_empty v m sig :
  verify_manifest v m sig = true → verifier_is_empty v = false.
Proof.
  intros (k & s & Hk & _)%verify_manifest_key. apply bool_decide_eq_false.
  destruct (trusted_keys v); [by apply elem_of_nil in Hk|done].
Qed.

Section verify.
Context `{!Faults}.

(** Verification only reads. *)
Abbreviation reads d0 m Q := (chl (λ _, False) (λ d, d = d0) m (ends (λ r d, d = d0 ∧ Q r) (λ d, d = d0))).

Lemma read_found_spec d0 p : reads d0 (read_found p) (λ b, file_at d0 p = Some b).
Proof. apply chl_read_found; [by intros b d -> ?|done]. Qed.

Lemma read_to_string_spec d0 p :
  reads d0 (read_to_string p) (λ b, file_at d0 p = Some b ∧ utf8_valid b = true).
Proof.
  eapply chl_bind; [apply read_found_spec|]. intros b. destruct (utf8_valid b) eqn:Hu.
  - apply chl_ret. naive_solver.
  - apply chl_bail. naive_solver.
Qed.

Lemma metadata_len_spec d0 p :
  reads d0 (metadata_len p) (λ n, ∃ b, file_at d0 p = Some b ∧ n = Z.of_nat (length b)).
Proof. eapply chl_bind; [apply read_found_spec|]. intros b. apply chl_ret. naive_solver. Qed.

Lemma verify_entry_spec d0 dir e :
  is_plain_file_name (fe_name e) = true → reads d0 (verify_entry dir e) (λ _, entry_ok dir d0 e).
Proof.
  intros Hp. eapply chl_bind; [apply metadata_len_spec|]. intros n.
  apply chl_case. intros ? (-> & b & Hb & ->).
  destruct (MAX_CONTENT_FILE_BYTES <? _)%Z eqn:Hlen; [by apply chl_bail|apply Z.ltb_ge in Hlen].
  eapply chl_bind; [apply read_found_spec|]. intros b'. destruct (digest_matches b' e) eqn:Hd.
  - apply chl_ret. intros d [-> Hb']. split; [done|]. split; [done|]. exists b'. naive_solver.
  - apply chl_bail. naive_solver.
Qed.

Lemma verify_entries_spec d0 dir seen es :
  reads d0 (verify_entries dir seen es)
    (λ _, Forall (entry_ok dir d0) es ∧ NoDup (fe_name <$> es) ∧ Forall (λ e, fe_name e ∉ seen) es).
Proof.
  revert seen. induction es as [|e es IH]; intros seen; cbn [verify_entries].
  { apply chl_ret. intros d ->. split; [done|]. repeat constructor. }
  destruct (is_plain_file_name (fe_name e)) eqn:Hp; [cbn [negb]|by apply chl_bail].
  case_bool_decide as Hseen; [by apply chl_bail|].
  eapply chl_bind; [by apply verify_entry_spec|]. intros ?. apply chl_case. intros ? [-> He].
  eapply chl_conseq; [apply (IH (fe_name e :: seen))|done..|].
  intros [[]|err|] d; cbn; [|done..]. intros (-> & Hall & Hnd & Hns). split_and!; [done|by constructor| |].
  - constructor; [|done]. intros (e' & Heq & Hin)%list_elem_of_fmap.
    rewrite Forall_forall in Hns. apply (Hns e' Hin). rewrite Heq. by left.
  - constructor; [done|]. eapply Forall_impl; [exact Hns|]. cbn. set_solver.
Qed.

Lemma verify_bundle_spec d0 dir v : reads d0 (verify_bundle dir v) (λ m, verified dir v m d0).
Proof.
  unfold verify_bundle. destruct (verifier_is_empty v); [by apply chl_bail|].
  eapply chl_bind; [apply read_to_string_spec|]. intros text. apply chl_case. intros ? (-> & Ht & Hut).
  eapply chl_bind; [apply read_to_string_spec|]. intros sig. apply chl_case. intros ? (-> & Hs & Hus).
  destruct (manifest_from_str text) as [m|e] eqn:Hm; [|by apply chl_bail].
  destruct (verify_manifest v m sig) eqn:Hv; [cbn [negb]|by apply chl_bail].
  destruct (MAX_MANIFEST_ENTRIES <? _) eqn:Hl; [by apply chl_bail|apply Nat.ltb_ge in Hl].
  eapply chl_bind; [apply verify_entries_spec|]. intros ?. apply chl_ret. intros d (-> & Hall & Hnd & _).
  split; [done|]. split; eauto.
Qed.

(** ** Acceptance when nothing fails *)

Context (no_fault : ∀ n, fails n = false).

Lemma read_found_ok p x b s :
  file_at (disk s) (p ++ [x]) = Some b →
  ∃ s', read_found (p ++ [x]) s = (s', Ok b) ∧ disk s' = disk s.
Proof.
  intros Hb. unfold read_found, read, next_op, mbind, M_bind, m_bind. cbn. rewrite no_fault. cbn [orb].
  assert (is_dir (p ++ [x]) (disk s) = false) as ->.
  { unfold is_dir, is_file. rewrite Hb, bool_decide_eq_false_2 by by destruct p.
    rewrite bool_decide_eq_true_2 by eauto. cbn. apply andb_false_r. }
  cbn. rewrite Hb. cbn. eauto.
Qed.

Lemma verify_entry_ok dir e s :
  entry_ok dir (disk s) e → ∃ s', verify_entry dir e s = (s', Ok tt) ∧ disk s' = disk s.
Proof.
  intros (_ & b & Hb & Hlen & Hd). destruct (read_found_ok _ _ _ s Hb) as (s1 & Hr1 & Hd1).
  rewrite <-Hd1 in Hb. destruct (read_found_ok _ _ _ s1 Hb) as (s2 & Hr2 & Hd2).
  exists s2. split; [|congruence]. unfold verify_entry, metadata_len, mbind, M_bind, m_bind.
  rewrite Hr1. cbn. rewrite (proj2 (Z.ltb_ge _ _)) by done. rewrite Hr2, Hd. done.
Qed.

Lemma verify_entries_ok dir seen es s :
  Forall (entry_ok dir (disk s)) es → NoDup (fe_name <$> es) → Forall (λ e, fe_name e ∉ seen) es →
  ∃ s', verify_entries dir seen es s = (s', Ok tt) ∧ disk s' = disk s.
Proof.
  revert seen s. induction es as [|e es IH]; intros seen s Hall Hnd Hns; [by exists s|].
  apply Forall_cons in Hall as [He Hall]. apply NoDup_cons in Hnd as [Hn Hnd].
  apply Forall_cons in Hns as [Hs Hns]. cbn [verify_entries]. rewrite (proj1 He). cbn [negb].
  rewrite bool_decide_eq_false_2 by done. destruct (verify_entry_ok _ _ _ He) as (s1 & Hr1 & Hd1).
  rewrite <-Hd1 in Hall. destruct (IH (fe_name e :: seen) s1 Hall Hnd) as (s2 & Hr2 & Hd2).
  { apply Forall_forall. intros e' Hin [Heq|Hin']%elem_of_cons.
    - apply Hn. rewrite <-Heq. by apply list_elem_of_fmap_2.
    - rewrite Forall_forall in Hns. by eapply Hns. }
  exists s2. split; [|congruence]. unfold mbind, M_bind, m_bind. by rewrite Hr1.
Qed.

Lemma verify_bundle_ok dir v m s :
  verified dir v m (disk s) → ∃ s', verify_bundle dir v s = (s', Ok m) ∧ disk s' = disk s.
Proof.
  intros [(text & Ht & Hut & Hm) (sig & Hs & Hus & Hv) Hl Hnd Hall].
  unfold verify_bundle. rewrite (verify_manifest_not_empty _ _ _ Hv).
  destruct (read_found_ok _ _ _ s Ht) as (s1 & Hr1 & Hd1). rewrite <-Hd1 in Hs.
  destruct (read_found_ok _ _ _ s1 Hs) as (s2 & Hr2 & Hd2). rewrite <-Hd1, <-Hd2 in Hall.
  destruct (verify_entries_ok dir [] _ s2 Hall Hnd) as (s3 & Hr3 & Hd3);
    [apply Forall_forall; intros; apply not_elem_of_nil|].
  exists s3. split; [|congruence]. unfold read_to_string, mbind, M_bind, m_bind.
  rewrite Hr1, Hut. cbn. rewrite Hr2, Hus. cbn. rewrite Hm, Hv. cbn [negb].
  apply Nat.ltb_ge in Hl. cbn in Hl. by rewrite Hl, Hr3.
Qed.
End verify.

(** ** What an install leaves *)

Section install.
Context `{!Faults} (pid : Z) (root bundle_dir : Path) (v : FeedVerifier) (now : Z) (d0 : Disk).

(** The files of the bundle that [names] lists, by their path in the content. *)
Definition bundle_files (names : list string) (r : Path) : option bytes :=
  match r with
  | [n] => if bool_decide (n ∈ names) then file_at d0 (bundle_dir ++ [n]) else None
  | _ => None
  end.

(** The content is exactly what the manifest lists, and the marker names it. *)
Definition installed (m : FeedManifest) (d : Disk) : Prop :=
  file_at d (state_path root) = Some (state_to_vec_pretty (state_of m now)) ∧
  ∀ r, file_at d (content_dir root ++ r) = bundle_files (fe_name <$> fm_entries m) r.

Definition outside_same (d : Disk) : Prop := ∀ q, ¬ root `prefix_of` q → file_at d q = file_at d0 q.
Definition marker_same (d : Disk) : Prop :=
  outside_same d ∧ file_at d (state_path root) = file_at d0 (state_path root).

Context (Hdisjoint : ¬ root `prefix_of` bundle_dir).

Lemma sibling x y r : x ≠ y → under (root ++ [x]) (root ++ y :: r) = false.
Proof. intros Hxy. apply not_under. intros [k Hk]. rewrite <-app_assoc in Hk. by simplify_list_eq. Qed.
Lemma outside_child x q : ¬ root `prefix_of` q → under (root ++ [x]) q = false.
Proof. intros Hq. apply not_under. intros Hx. apply Hq. by eapply prefix_app_l. Qed.
Lemma bundle_child x n : under (root ++ [x]) (bundle_dir ++ [n]) = false.
Proof.
  apply not_under. intros [k Hk]. destruct k as [|y k _] using rev_ind.
  - rewrite app_nil_r in Hk. apply app_inj_2 in Hk as [-> _]; [|done]. by apply Hdisjoint.
  - rewrite app_assoc in Hk. apply app_inj_2 in Hk as [-> _]; [|done]. apply Hdisjoint.
    rewrite <-app_assoc. by apply prefix_app_r.
Qed.

Lemma staging_not_content c : ".content-new-" +:+ show_Z pid +:+ "-" +:+ show_Z c ≠ "content".
Proof. done. Qed.
Lemma staging_not_state c : ".content-new-" +:+ show_Z pid +:+ "-" +:+ show_Z c ≠ "state.json".
Proof. done. Qed.

Section stages.
Context (c : Z) (m : FeedManifest).
Let t := staging_dir pid root c.
Let names := fe_name <$> fm_entries m.

(** The paths an install does not touch before the marker. *)
Definition quiet (q : Path) : Prop := under (content_dir root) q = false ∧ under t q = false.

Lemma quiet_outside q : ¬ root `prefix_of` q → quiet q.
Proof. intros Hq. split; by apply outside_child. Qed.
Lemma quiet_state : quiet (state_path root).
Proof. split; by apply sibling. Qed.
Lemma quiet_bundle n : quiet (bundle_dir ++ [n]).
Proof. split; apply bundle_child. Qed.

Lemma quiet_marker d : agree quiet d d0 → marker_same d.
Proof. intros Hd. split; [intros q Hq; by apply Hd, quiet_outside|apply Hd, quiet_state]. Qed.

(** The staging directory holds the files staged so far. *)
Definition staged (es : list FeedEntry) (d : Disk) : Prop :=
  agree quiet d d0 ∧ ∀ r, file_at d (t ++ r) = bundle_files (fe_name <$> es) r.

Lemma staged_agree es d d' : agree (λ _, True) d' d → staged es d → staged es d'.
Proof.
  intros Hd [Hq Hs]. split; [intros q Hq'; rewrite Hd by done; by apply Hq|].
  intros r. by rewrite Hd.
Qed.

Lemma file_at_filter (P : Path * Node → Prop) `{!∀ x, Decision (P x)} d q :
  file_at d q = None → file_at (filter P d) q = None.
Proof.
  unfold file_at. destruct (filter P d !! q) as [[|b]|] eqn:Hq; [done| |done].
  apply map_lookup_filter_Some in Hq as [-> _]. done.
Qed.

Lemma quiet_filter (P : Path * Node → Prop) `{!∀ x, Decision (P x)} d :
  (∀ q n, quiet q → P (q, n)) → agree quiet d d0 → agree quiet (filter P d) d0.
Proof. intros HP Hd. eapply agree_trans; [by apply agree_filter|done]. Qed.

Definition may_crash (d : Disk) : Prop := marker_same d ∨ (outside_same d ∧ installed m d).

Lemma quiet_may_crash d : agree quiet d d0 → may_crash d.
Proof. intros. left. by apply quiet_marker. Qed.
Hint Resolve quiet_may_crash quiet_marker : core.

Lemma create_dirs_spec es p :
  chl may_crash (staged es) (create_dir_all p) (ends (λ _, staged es) marker_same).
Proof.
  assert (∀ d q, staged es d → forallb (λ r, negb (is_file r d)) (prefixes p) = true →
    (∀ r, r ∈ prefixes q → r ∈ prefixes p) → staged es (make_dirs q d)) as Hmk.
  { intros d q Hd Hf Hq. eapply staged_agree; [by eapply agree_make_dirs|done]. }
  apply chl_attempt.
  - intros n d Hd Hf. destruct (Hmk d (take (made n) p) Hd Hf) as [Hq _]; [apply prefixes_take|auto].
  - intros d Hd Hf. pose proof (Hmk d p Hd Hf) as [Hq ?]; [done|]. split; [auto|by split].
  - intros d [? _]. auto.
Qed.

Lemma clean_staging_spec :
  chl may_crash (staged []) (inspect (remove_dir_all t)) (ends (λ _, staged []) marker_same).
Proof.
  apply (chl_inspect _ _ _ _ (staged []) (λ _, staged [])); [|done..].
  apply chl_remove_dir_all; [|done]. intros keep ? d [Hq Hs] Hkeep.
  assert (staged [] (filter keep d)) as [? ?]; [|by split_and!; [auto|split..]].
  split; [apply quiet_filter; [by intros q k []; apply Hkeep|done]|].
  intros r. assert (bundle_files (fe_name <$> []) r = None) as Hr by by destruct r as [|? []].
  rewrite Hr. apply file_at_filter. by rewrite Hs.
Qed.

Lemma drop_staging_spec {A : Type} e (Q : A → Disk → Prop) :
  chl may_crash (λ d, agree quiet d d0) (inspect (remove_dir_all t);; bail e) (ends Q marker_same).
Proof.
  eapply (chl_bind _ _ _ _ _ (λ _ d, agree quiet d d0)); [|intros; apply chl_bail; auto].
  apply (chl_inspect _ _ _ _ (λ d, agree quiet d d0) (λ _ d, agree quiet d d0)); [|done..].
  apply chl_remove_dir_all; [|done]. intros keep ? d Hq Hkeep.
  assert (agree quiet (filter keep d) d0); [|auto]. apply quiet_filter; [by intros q k []; apply Hkeep|done].
Qed.

Lemma copy_spec es e :
  chl may_crash (staged es) (copy (bundle_dir ++ [fe_name e]) (t ++ [fe_name e]))
    (ends (λ _, staged (es ++ [e])) (λ d, agree quiet d d0)).
Proof.
  assert (quiet (t ++ [fe_name e]) → False) as Hnq.
  { intros [_ Hu]. apply not_under in Hu. apply Hu. by apply prefix_app_r. }
  apply chl_attempt; [intros n d [Hd Hs] _|intros d [Hd Hs] [Hf _]%andb_true_iff|by intros d [? _]].
  - assert (agree quiet (tear n (t ++ [fe_name e]) (default [] (file_at d (bundle_dir ++ [fe_name e]))) d) d0); [|auto].
    by eapply agree_trans; [apply agree_tear|].
  - unfold is_file in Hf. apply bool_decide_eq_true in Hf as [b Hb]. rewrite Hb. cbn [default].
    assert (agree quiet (<[t ++ [fe_name e] := File b]> d) d0) as Hq by by eapply agree_trans; [apply agree_insert|].
    split; [auto|]. split; [done|]. intros r. rewrite file_at_insert, fmap_app. case_bool_decide as Heq.
    + apply (inj (app t)) in Heq as <-. cbn. rewrite bool_decide_eq_true_2 by set_solver.
      by rewrite <-Hd by apply quiet_bundle.
    + rewrite Hs. destruct r as [|n [|]]; [done| |done]. cbn.
      repeat case_bool_decide; set_solver.
Qed.

Lemma stage_spec :
  chl may_crash (staged []) (stage bundle_dir t m)
    (ends (λ _, staged (fm_entries m)) (λ d, agree quiet d d0)).
Proof. apply (chl_for_each _ _ _ staged (fm_entries m)). intros. apply copy_spec. Qed.

Lemma remove_content_spec :
  chl may_crash (staged (fm_entries m)) (remove_dir_all (content_dir root))
    (ends (λ _, staged (fm_entries m)) marker_same).
Proof.
  apply chl_remove_dir_all; [|by intros d [? _]; auto]. intros keep ? d [Hq Hs] Hkeep.
  assert (staged (fm_entries m) (filter keep d)) as [? ?]; [|by split_and!; [auto..|split]].
  split; [apply quiet_filter; [by intros q k []; apply Hkeep|done]|].
  intros r. rewrite <-Hs. revert r. intros r. apply (agree_filter (λ q, under (content_dir root) q = false)).
  - intros q k. apply Hkeep.
  - unfold t, staging_dir. rewrite <-app_assoc. by apply sibling.
Qed.

(** The content has the bundle's files. *)
Definition swapped (d : Disk) : Prop :=
  agree quiet d d0 ∧ ∀ r, file_at d (content_dir root ++ r) = bundle_files names r.

Lemma swap_spec :
  chl may_crash (staged (fm_entries m)) (rename_dir t (content_dir root))
    (ends (λ _, swapped) (λ d, agree quiet d d0)).
Proof.
  apply chl_attempt; [intros n d [Hd _] _|intros d [Hd Hs] [_ He%negb_true_iff]%andb_true_iff|by intros d [? _]].
  - unfold same. auto.
  - assert (agree quiet (move_dir t (content_dir root) d) d0) as Hq.
    { eapply agree_trans; [|done]. apply agree_move. by intros q []. }
    split; [auto|]. split; [done|]. intros r. by rewrite file_at_moved, Hs.
Qed.

Lemma state_tmp_not_in_content tmp r :
  is_tmp pid root "state.json" tmp → content_dir root ++ r ≠ tmp.
Proof. intros [n ->]. unfold content_dir. rewrite <-app_assoc. intros Heq%(inj (app root)). done. Qed.

Lemma commit_spec d1 :
  swapped d1 →
  chl may_crash (λ d, d = d1)
    (feed_write_atomic pid (state_path root) (state_to_vec_pretty (state_of m now)))
    (ends (λ _ d, outside_same d ∧ installed m d) marker_same).
Proof.
  intros [Hq Hs]. unfold feed_write_atomic.
  case_bool_decide; [apply chl_bail; intros d ->; auto|].
  assert (file_name (state_path root) = Some "state.json") as ->
    by (unfold file_name, state_path; by rewrite last_snoc).
  assert (parent (state_path root) = root) as ->.
  { unfold parent, state_path. by rewrite length_app, Nat.add_sub, take_app_length. }
  apply quiet_marker in Hq as [Hout Hst].
  assert (∀ d d2 tmp, is_tmp pid root "state.json" tmp → eq_except tmp d d2 →
    ∀ q, q ≠ tmp → file_at d q = file_at d2 q) as Hex.
  { intros d d2 tmp _ Hd q Hne. by apply file_at_eq, Hd. }
  assert (∀ tmp q, is_tmp pid root "state.json" tmp → ¬ root `prefix_of` q → q ≠ tmp) as Hot.
  { intros tmp q [n ->] Hn ->. apply Hn. by apply prefix_app_r. }
  assert (∀ d, kept pid root "state.json" d1 d → marker_same d) as Hkept.
  { intros d (tmp & Ht & Hd). split.
    - intros q Hn. rewrite (Hex d d1 tmp) by eauto. by apply Hout.
    - rewrite (Hex d d1 tmp); [done..|]. intros Heq. by eapply tmp_is_not_target. }
  assert (∀ d, replaced pid root "state.json" (state_to_vec_pretty (state_of m now)) d1 d →
    outside_same d ∧ installed m d) as Hrep.
  { intros d (tmp & Ht & Hd). split; [|split].
    - intros q Hn. rewrite (Hex d _ tmp Ht Hd) by eauto. rewrite file_at_insert, bool_decide_eq_false_2; [by apply Hout|].
      intros <-. apply Hn. by apply prefix_app_r.
    - rewrite (Hex d _ tmp Ht Hd) by (intros Heq; by eapply tmp_is_not_target).
      by rewrite file_at_insert, bool_decide_eq_true_2.
    - intros r. rewrite (Hex d _ tmp Ht Hd) by (by apply state_tmp_not_in_content).
      rewrite file_at_insert, bool_decide_eq_false_2; [apply Hs|].
      unfold content_dir. rewrite <-app_assoc. intros Heq%(inj (app root)). done. }
  eapply chl_conseq; [apply (replace_file_spec pid root "state.json" (state_to_vec_pretty (state_of m now)) d1)|..].
  - intros d [?|?]; [left|right]; auto.
  - done.
  - intros [[]|e|] d; cbn; auto.
Qed.
End stages.

(** Everything after verification. *)
Definition swap_in (m : FeedManifest) : M FsState FeedManifest :=
  create_dir_all root;;
  c ← next_counter;
  let staging := staging_dir pid root c in
  inspect (remove_dir_all staging);;
  create_dir_all staging;;
  staged ← inspect (stage bundle_dir staging m);
  match staged with
  | inr e => inspect (remove_dir_all staging);; bail e
  | inl _ =>
      there ← gets (λ s, path_exists (content_dir root) (disk s));
      (if (there : bool) then remove_dir_all (content_dir root) else mret tt);;
      moved ← inspect (rename_dir staging (content_dir root));
      match moved with
      | inr e => inspect (remove_dir_all staging);; bail e
      | inl _ =>
          feed_write_atomic pid (state_path root) (state_to_vec_pretty (state_of m now));; mret m
      end
  end.

Lemma install_split : install pid root bundle_dir v now = verify_bundle bundle_dir v ≫= swap_in.
Proof. done. Qed.

Context (Hfresh : ∀ c, path_exists (staging_dir pid root c) d0 = false).

Lemma fresh_staged c d : agree (λ _, True) d d0 → staged c [] d.
Proof.
  intros Hd. split; [intros q _; by apply Hd|]. intros r. rewrite Hd by done.
  assert (bundle_files (fe_name <$> []) r = None) as -> by by destruct r as [|? []].
  pose proof (proj1 (path_exists_false _ _) (Hfresh c)) as Hn.
  unfold file_at. by rewrite Hn by by apply prefix_app_r.
Qed.

Lemma create_root_spec m :
  chl (may_crash m) (λ d, d = d0) (create_dir_all root)
    (ends (λ _ d, agree (λ _, True) d d0) marker_same).
Proof.
  assert (∀ d, agree (λ _, True) d d0 → marker_same d) as Hm.
  { intros d Hd. split; [intros q _|]; by apply Hd. }
  apply chl_attempt; [intros n d -> Hf|intros d -> Hf|intros d ->; apply Hm, agree_refl].
  - assert (agree (λ _, True) (make_dirs (take (made n) root) d0) d0) as Ha
      by (eapply agree_make_dirs; [done|apply prefixes_take]).
    split; [left|]; by apply Hm.
  - assert (agree (λ _, True) (make_dirs root d0) d0) as Ha by by eapply agree_make_dirs.
    split; [left; by apply Hm|done].
Qed.

Lemma swap_in_spec m :
  chl (may_crash m) (λ d, d = d0) (swap_in m)
    (ends (λ m' d, m' = m ∧ outside_same d ∧ installed m d) marker_same).
Proof.
  unfold swap_in. eapply chl_bind; [apply create_root_spec|]. intros ?.
  eapply (chl_bind _ _ _ _ _ (λ c d, staged c [] d)).
  { apply chl_counter. intros c d. apply fresh_staged. }
  intros c. cbn zeta. eapply chl_bind; [apply clean_staging_spec|]. intros ?.
  eapply chl_bind; [apply create_dirs_spec|]. intros ?.
  eapply (chl_bind _ _ _ _ _ (λ w d, agree (quiet c) d d0 ∧ ∀ u, w = inl u → staged c (fm_entries m) d)).
  { eapply chl_inspect; [apply stage_spec|intros [] d Hd; split; [apply Hd|done]|done]. }
  intros [[]|e]; [|eapply chl_conseq; [apply drop_staging_spec|done|by intros d [? _]|done]].
  eapply chl_bind.
  { apply (chl_gets _ _ (path_exists (content_dir root)) _ (λ _ d, staged c (fm_entries m) d)).
    intros d [_ Hd]. by eapply Hd. }
  intros there. eapply (chl_bind _ _ _ _ _ (λ _ d, staged c (fm_entries m) d)).
  { destruct there; [apply remove_content_spec|by apply chl_ret]. }
  intros ?. eapply (chl_bind _ _ _ _ _ (λ w d, match w with inl _ => swapped c m d | inr _ => agree (quiet c) d d0 end)).
  { eapply chl_inspect; [apply swap_spec|done..]. }
  intros [[]|e]; [|apply drop_staging_spec]. apply chl_case. intros d1 Hd1.
  eapply chl_bind; [by apply (commit_spec c)|]. intros ?. by apply chl_ret.
Qed.

Lemma install_spec s :
  disk s = d0 →
  let '(s', r) := install pid root bundle_dir v now s in
  ∃ new, history s' = history s ++ new ∧
    match r with
    | Ok m => verified bundle_dir v m d0 ∧ Forall (may_crash m) new ∧ outside_same (disk s') ∧
        installed m (disk s')
    | Err _ => (new = [] ∧ disk s' = d0) ∨
        (∃ m, verified bundle_dir v m d0 ∧ Forall (may_crash m) new ∧ marker_same (disk s'))
    | Panicked => False
    end.
Proof.
  intros Hs. rewrite install_split. unfold mbind, M_bind, m_bind.
  destruct (verify_bundle_spec d0 bundle_dir v s Hs) as (n1 & Hh1 & HC1 & Hv).
  destruct n1; [rewrite app_nil_r in Hh1|by apply Forall_inv in HC1].
  destruct (verify_bundle bundle_dir v s) as [s1 [m|e|]]; cbn [fst snd ends] in *.
  2: { exists []. rewrite app_nil_r. auto. }
  2: { done. }
  destruct Hv as [Hd1 Hv]. destruct (swap_in_spec m s1 Hd1) as (n2 & Hh2 & HC2 & Hq). rewrite Hh1 in Hh2.
  destruct (swap_in m s1) as [s2 [m'|e|]]; cbn [fst snd ends] in *; [|by eauto 10|done].
  destruct Hq as (-> & ? & ?). eauto 10.
Qed.
End install.

(** ** Install *)


(** C35: with a file system that does not fail, verification accepts exactly the
    bundles whose manifest parses, is signed by a trusted key, lists at most 1024
    plain and distinct names, each with a file of at most 256 MiB that has the
    digest; and it changes nothing. *)
Theorem verify_bundle_accepts_exactly `{!Faults} dir v m s :
  (∀ n, fails n = false) →
  ((verify_bundle dir v s).2 = Ok m ↔ verified dir v m (disk s)) ∧
  disk (verify_bundle dir v s).1 = disk s ∧ history (verify_bundle dir v s).1 = history s.
Proof.
  intros Hnf. destruct (verify_bundle_spec (disk s) dir v s eq_refl) as (new & Hh & HC & Hv).
  destruct new; [rewrite app_nil_r in Hh|by apply Forall_inv in HC]. split; [split|split; [|done]].
  - intros Hok. rewrite Hok in Hv. by destruct Hv.
  - intros Hm. by destruct (verify_bundle_ok Hnf _ _ _ _ Hm) as (s' & -> & _).
  - by destruct (verify_bundle dir v s) as [s' [m'|e|]]; [destruct Hv|..].
Qed.
End feed.

(** * What the builder publishes verifies

    [crates/feed/src/builder.rs] against [crates/feed/src/bundle.rs]: a bundle built
    from a content directory and signed passes verification under any set of trusted
    keys that has the signer's. *)

(** ** Hex text *)

Definition not_hex_first (p : bytes) : bool :=
  match p with x :: _ => negb (lower_hex_digit x) | [] => false end.

Lemma first_stripped_hex ps l :
  forallb not_hex_first ps = true → Forall lower_hex_digit l → first_stripped l ps = None.
Proof.
  intros Hps Hl. unfold first_stripped. induction ps as [|p ps IH]; [done|]. cbn in Hps.
  apply andb_true_iff in Hps as [Hp Hps]. cbn.
  assert (strip_prefix p l = None) as ->; [|by apply IH].
  unfold strip_prefix. case_bool_decide as Hpre; [|done]. exfalso.
  destruct p as [|x p]; [done|]. destruct l as [|y l]; [done|]. cbn [take length not_hex_first] in Hpre, Hp. simplify_eq.
  apply Forall_cons in Hl as [Hy%Is_true_true _]. by rewrite Hy in Hp.
Qed.

Lemma trim_start_fuel_hex ps fuel l :
  forallb not_hex_first ps = true → Forall lower_hex_digit l → trim_start_fuel ps fuel l = l.
Proof. intros Hps Hl. destruct fuel; [done|]. cbn. by rewrite first_stripped_hex. Qed.

Lemma trim_hex l : Forall lower_hex_digit l → trim l = l.
Proof.
  intros Hl. unfold trim, trim_end, trim_start. rewrite (trim_start_fuel_hex whitespace) by done.
  rewrite trim_start_fuel_hex, reverse_involutive; [done|by vm_compute|by apply Forall_reverse].
Qed.

Lemma utf8_hex l : Forall lower_hex_digit l → utf8_valid l = true.
Proof.
  unfold utf8_valid. induction 1 as [|x l Hx Hl IH]; [done|]. cbn [length utf8_valid_fuel].
  assert (in_range 0 127 x = true) as ->; [|done].
  unfold lower_hex_digit, in_range in *. apply Is_true_true in Hx. lia.
Qed.

Section build.
Context `{!FeedCodec} `{!Ed25519} `{!Hex}.
Context `{!FeedCodecLaws} `{!Ed25519Laws} `{!HexLaws} `{!HexAlphabet}.

Lemma own_digest_matches b name kind : digest_matches b (mkFeedEntry name (sha256_hex b) kind) = true.
Proof.
  unfold digest_matches, sha256_hex. cbn [fe_sha256]. rewrite trim_hex by apply hex_lower, sha256_bytes.
  by apply bool_decide_eq_true_2.
Qed.

Lemma own_signature_verifies v key m :
  sk_verifying_key key ∈ trusted_keys v →
  utf8_valid (as_bytes (sign_manifest key m)) = true ∧
  verify_manifest v m (as_bytes (sign_manifest key m)) = true.
Proof.
  intros Hk. unfold sign_manifest.
  pose proof (hex_lower _ (sig_to_bytes_bytes (sk_sign key (to_canonical_json_bytes m)))) as Hl.
  split; [by apply utf8_hex|]. unfold verify_manifest.
  rewrite trim_hex, hex_round_trip, sig_from_to_bytes by (done || apply sig_to_bytes_bytes).
  apply existsb_exists. exists (sk_verifying_key key). split; [by apply list_elem_of_In|apply sign_verifies].
Qed.

(** ** The manifest describes the content *)

Definition describes (dir : Path) (d : Disk) (e : FeedEntry) : Prop :=
  ∃ b, file_at d (dir ++ [fe_name e]) = Some b ∧ fe_sha256 e = sha256_hex b.

Section built.
Context `{!Faults}.

Lemma known_entries_spec d0 dir known :
  chl (λ _, False) (λ d, d = d0) (known_entries dir known)
    (ends (λ es d, d = d0 ∧ Forall (describes dir d0) es ∧ fe_name <$> es `sublist_of` known.*1) (λ d, d = d0)).
Proof.
  induction known as [|[name kind] known IH]; cbn [known_entries].
  { apply chl_ret. intros d ->. split_and!; [done|constructor|done]. }
  eapply chl_bind; [by apply (chl_gets _ _ (is_file (dir ++ [name])) _ (λ _ d, d = d0))|].
  intros [|]; cbn [negb].
  - eapply chl_bind; [apply read_found_spec|]. intros b. apply chl_case. intros ? [-> Hb].
    eapply chl_bind; [apply IH|]. intros es. apply chl_ret. intros d (-> & Hes & Hsub).
    split_and!; [done| |by apply sublist_skip]. constructor; [by exists b|done].
  - eapply chl_conseq; [apply IH|done..|]. intros [es|e|] d; cbn; [|done..].
    intros (-> & ? & ?). split_and!; [done..|by apply sublist_cons].
Qed.

Lemma built_manifest_spec d0 dir version at_ source tier :
  chl (λ _, False) (λ d, d = d0) (manifest_from_content_dir dir version at_ source tier)
    (ends (λ m d, d = d0 ∧ Forall (describes dir d0) (fm_entries m) ∧
       fe_name <$> fm_entries m `sublist_of` KNOWN_CONTENT.*1) (λ d, d = d0)).
Proof.
  eapply chl_bind; [apply known_entries_spec|]. intros es. case_bool_decide.
  - apply chl_bail. naive_solver.
  - apply chl_ret. naive_solver.
Qed.

(** ** The bundle on disk *)

Lemma chl_write_file (C E P : Disk → Prop) (Q : unit → Disk → Prop) p b :
  (∀ d, P d → ∀ b', C (<[p := File b']> d) ∧ E (<[p := File b']> d)) →
  (∀ d, P d → C d ∧ E d) →
  (∀ d, P d → Q tt (<[p := File b]> d)) →
  chl C P (write_file p b) (ends Q E).
Proof.
  intros Hins Hsame HQ.
  eapply (chl_bind _ _ _ _ _ (λ _ d, ∃ d1, P d1 ∧ d = <[p := File []]> d1)).
  - apply chl_attempt; [intros n d Hd _; by apply Hsame|intros d Hd _|intros d Hd; by apply Hsame].
    split; [by apply Hins|by exists d].
  - intros []. apply chl_attempt; [intros n d (d1 & Hd & ->) _|intros d (d1 & Hd & ->) _|].
    + unfold tear. destruct (torn n b); [rewrite insert_insert_eq|]; by apply Hins.
    + rewrite insert_insert_eq. split; [by apply Hins|by apply HQ].
    + intros d (d1 & Hd & ->). by apply Hins.
Qed.

Section write.
Context (content_dir out_dir : Path) (m : FeedManifest) (key : SigningKey) (d0 : Disk).
Context (Hout : ¬ out_dir `prefix_of` content_dir).
Context (Hname : ∀ e, e ∈ fm_entries m → out_dir ≠ content_dir ++ [fe_name e]).

Let inside (q : Path) : Prop := ¬ out_dir `prefix_of` q.

Lemma content_inside e : e ∈ fm_entries m → inside (content_dir ++ [fe_name e]).
Proof.
  intros He [k Hk]. destruct k as [|y k _] using rev_ind.
  - rewrite app_nil_r in Hk. by apply (Hname e).
  - rewrite app_assoc in Hk. apply app_inj_2 in Hk as [-> _]; [|done]. apply Hout. by apply prefix_app_r.
Qed.

(** The entries copied so far, with the content untouched. *)
Definition copied (es : list FeedEntry) (d : Disk) : Prop :=
  agree inside d d0 ∧
  ∀ e, e ∈ es → is_Some (file_at d0 (content_dir ++ [fe_name e])) ∧
    file_at d (out_dir ++ [fe_name e]) = file_at d0 (content_dir ++ [fe_name e]).

Lemma copy_out_spec es e : e ∈ fm_entries m →
  chl (λ _, True) (copied es) (copy (content_dir ++ [fe_name e]) (out_dir ++ [fe_name e]))
    (ends (λ _, copied (es ++ [e])) (λ _, True)).
Proof.
  intros He. apply chl_attempt; [done|intros d [Hd Hs] [Hf _]%andb_true_iff|done]. split; [done|].
  unfold is_file in Hf. apply bool_decide_eq_true in Hf as [b Hb]. rewrite Hb. cbn [default].
  rewrite Hd in Hb by by apply content_inside. split.
  - eapply agree_trans; [|done]. apply agree_insert. intros Hi. apply Hi. by apply prefix_app_r.
  - intros e' He'. rewrite file_at_insert. case_bool_decide as Heq.
    + apply (inj (app out_dir)) in Heq. injection Heq as <-. rewrite Hb. eauto.
    + apply Hs. apply elem_of_app in He' as [?|He'%list_elem_of_singleton]; [done|by subst].
Qed.

Definition bundle_written (d : Disk) : Prop :=
  copied (fm_entries m) d ∧
  file_at d (out_dir ++ [MANIFEST_NAME]) = Some (manifest_to_vec_pretty m) ∧
  file_at d (out_dir ++ [SIGNATURE_NAME]) = Some (as_bytes (sign_manifest key m)).

Lemma copied_insert es n b d :
  Forall (λ e, fe_name e ≠ n) es → copied es d → copied es (<[out_dir ++ [n] := File b]> d).
Proof.
  intros Hn [Hd Hs]. split.
  - eapply agree_trans; [|done]. apply agree_insert. intros Hi. apply Hi. by apply prefix_app_r.
  - intros e He. rewrite file_at_insert, bool_decide_eq_false_2; [by apply Hs|].
    intros Heq%(inj (app out_dir)). rewrite Forall_forall in Hn. apply (Hn e He). by injection Heq.
Qed.

Lemma write_bundle_spec :
  Forall (λ e, fe_name e ≠ MANIFEST_NAME) (fm_entries m) →
  Forall (λ e, fe_name e ≠ SIGNATURE_NAME) (fm_entries m) →
  chl (λ _, True) (λ d, d = d0) (write_signed_bundle content_dir out_dir m key)
    (ends (λ _, bundle_written) (λ _, True)).
Proof.
  intros Hnm Hns. unfold write_signed_bundle.
  eapply (chl_bind _ _ _ _ _ (λ _, copied [])).
  { apply chl_attempt; [done|intros d -> Hf|done]. split; [done|].
    split; [by eapply agree_make_dirs|intros e He; by apply elem_of_nil in He]. }
  intros ?. eapply chl_bind.
  { apply (chl_for_each _ _ _ copied). intros. by apply copy_out_spec. }
  intros ?. eapply (chl_bind _ _ _ _ _ (λ _ d, copied (fm_entries m) d ∧
    file_at d (out_dir ++ [MANIFEST_NAME]) = Some (manifest_to_vec_pretty m))).
  { apply chl_write_file; [done..|]. intros d Hd. split; [by apply copied_insert|].
    by rewrite file_at_insert, bool_decide_eq_true_2. }
  intros ?. apply chl_write_file; [done..|]. intros d [Hd Hm]. split_and!; [by apply copied_insert| |].
  - rewrite file_at_insert, bool_decide_eq_false_2; [done|]. by intros Heq%(inj (app out_dir)).
  - by rewrite file_at_insert, bool_decide_eq_true_2.
Qed.
End write.
End built.

Lemma known_names :
  NoDup KNOWN_CONTENT.*1 ∧
  Forall (λ n, is_plain_file_name n = true ∧ n ≠ MANIFEST_NAME ∧ n ≠ SIGNATURE_NAME) KNOWN_CONTENT.*1.
Proof. split; [by apply (bool_decide_unpack _)|repeat constructor; done]. Qed.

Lemma written_bundle_verified cdir odir m key v d0 d :
  Forall (describes cdir d0) (fm_entries m) → fe_name <$> fm_entries m `sublist_of` KNOWN_CONTENT.*1 →
  (∀ n b, n ∈ fe_name <$> fm_entries m → file_at d0 (cdir ++ [n]) = Some b →
     (Z.of_nat (length b) ≤ MAX_CONTENT_FILE_BYTES)%Z) →
  sk_verifying_key key ∈ trusted_keys v →
  bundle_written cdir odir m key d0 d → verified odir v m d.
Proof.
  intros Hdesc Hsub Hsize Hkey ([_ Hcopied] & Hm & Hs). destruct known_names as [Hnd Hplain]. split.
  - eexists. split; [done|]. split; [apply manifest_utf8|apply manifest_round_trip].
  - eexists. split; [done|]. by apply own_signature_verifies.
  - apply sublist_length in Hsub. rewrite length_fmap in Hsub. cbn in Hsub.
    unfold MAX_MANIFEST_ENTRIES. lia.
  - by eapply sublist_NoDup.
  - apply Forall_forall. intros e He. rewrite Forall_forall in Hdesc. destruct (Hdesc e He) as (b & Hb & Hsha).
    split.
    + rewrite Forall_forall in Hplain. apply Hplain. eapply elem_of_sublist; [|exact Hsub]. by apply list_elem_of_fmap_2.
    + exists b. destruct (Hcopied e He) as [_ ->]. split; [done|]. split.
      * by eapply Hsize; [apply list_elem_of_fmap_2|].
      * destruct e as [n sha k]. cbn in Hsha. subst. apply own_digest_matches.
Qed.

(** What is published can be consumed.  A manifest built from a content directory
    and written as a signed bundle, in a run where files may fail but both calls came
    back [Ok], is accepted by every verifier that trusts the signer's key, as long as
    no content file is over the size cap. *)
Theorem published_bundle_verifies `{F1 : !Faults} `{F2 : !Faults}
    cdir odir version at_ source tier key v m s s1 s2 :
  ¬ odir `prefix_of` cdir →
  (∀ n, n ∈ KNOWN_CONTENT.*1 → odir ≠ cdir ++ [n]) →
  (∀ n b, n ∈ KNOWN_CONTENT.*1 → file_at (disk s) (cdir ++ [n]) = Some b →
     (Z.of_nat (length b) ≤ MAX_CONTENT_FILE_BYTES)%Z) →
  sk_verifying_key key ∈ trusted_keys v →
  manifest_from_content_dir (H2 := F1) cdir version at_ source tier s = (s1, Ok m) →
  write_signed_bundle (H2 := F1) cdir odir m key s1 = (s2, Ok tt) →
  (∀ n, fails (Faults := F2) n = false) →
  (verify_bundle (H2 := F2) odir v s2).2 = Ok m.
Proof.
  intros Hout Hname Hsize Hkey Hm Hw Hnf.
  destruct (built_manifest_spec (H6 := F1) (disk s) cdir version at_ source tier s eq_refl) as (_ & _ & _ & Hb).
  rewrite Hm in Hb. destruct Hb as (Hd1 & Hdesc & Hsub). cbn in Hd1.
  assert (∀ e, e ∈ fm_entries m → fe_name e ∈ KNOWN_CONTENT.*1) as Hk.
  { intros e He. eapply elem_of_sublist; [|exact Hsub]. by apply list_elem_of_fmap_2. }
  destruct (write_bundle_spec (H6 := F1) cdir odir m key (disk s) Hout) with (s := s1) as (_ & _ & _ & Hwr); [..|done|].
  { intros e He. by apply Hname, Hk. }
  1,2: apply Forall_forall; intros e He; destruct known_names as [_ Hp]; rewrite Forall_forall in Hp;
    by apply Hp, Hk.
  rewrite Hw in Hwr. cbn in Hwr.
  edestruct (verify_bundle_ok Hnf odir v m s2) as (s' & -> & _); [|done].
  eapply written_bundle_verified; [done..| |done|exact Hwr].
  intros n b Hn. apply Hsize. by eapply elem_of_sublist.
Qed.
End build.
