(* ===== verification/FeedLive.v ===== *)
(** * The enterprise feed source

    [server/feed-live/src/lib.rs]: entitlement tokens, their offline verification, and
    the gated source.  Whatever the source hands out still passes the verification of
    the feed store. *)

From Stdlib Require Import ZArith.
From stdpp Require Import base tactics gmap strings list.
From S2P Require Import Prelude Transport Scheduler Keys Version Fs JsonStore Feed FeedProps.

Local Open Scope Z_scope.

#[export] Instance FeedTier_eq_dec : EqDecision FeedTier.
Proof. solve_decision. Defined.

Record Entitlement := mkEntitlement {
  ent_subject : string; ent_tier : FeedTier; ent_issued_at : Z; ent_expires_at : Z;
  ent_feeds : list string;
}.

(** [serde_json] at the struct. *)
Class EntitlementCodec := {
  ent_canonical : Entitlement → bytes;
  ent_from_slice : bytes → Entitlement + string;
}.
Class EntitlementCodecLaws `{EntitlementCodec} := {
  ent_round_trip e : ent_from_slice (ent_canonical e) = inl e;
  ent_canonical_bytes e : Forall is_byte (ent_canonical e);
}.

Section live.
Context `{!EntitlementCodec} `{!Ed25519} `{!Hex}.

(** ** Tokens *)

Definition issue_token (key : SigningKey) (e : Entitlement) : bytes :=
  let claims := ent_canonical e in
  as_bytes (hex_encode claims) ++ [46] ++ as_bytes (hex_encode (sig_to_bytes (sk_sign key claims))).

Definition verify_entitlement (token : bytes) (issuer : VerifyingKey) (now_ms : Z) : Result Entitlement :=
  match split_first 46 token with
  | None => Err "malformed entitlement token (want claims.sig)"
  | Some (claims_hex, sig_hex) =>
      match hex_decode (trim claims_hex) with
      | inr e => Err ("decoding entitlement claims: " +:+ e)
      | inl claims =>
          match hex_decode (trim sig_hex) with
          | inr e => Err ("decoding entitlement signature: " +:+ e)
          | inl sig_bytes =>
              match sig_from_slice sig_bytes with
              | None => Err "entitlement signature must be 64 bytes"
              | Some sig =>
                  if negb (verify_strict issuer claims sig) then
                    Err "entitlement signature is not valid for the issuer key"
                  else
                    match ent_from_slice claims with
                    | inr e => Err ("parsing entitlement claims: " +:+ e)
                    | inl ent =>
                        if ent_expires_at ent <? now_ms then Err "entitlement expired" else Ok ent
                    end
              end
          end
      end
  end.

(** ** The source *)

Record LiveFeedSource := mkLive { live_entitlement : Entitlement; live_bundle_dir : Path }.

Definition connect (token : bytes) (issuer : VerifyingKey) (now_ms : Z) (bundle_dir : Path) :
    Result LiveFeedSource :=
  match verify_entitlement token issuer now_ms with
  | Ok ent =>
      if bool_decide (ent_tier ent = Enterprise) then Ok (mkLive ent bundle_dir)
      else Err "enterprise tier required: this entitlement grants the community tier"
  | Err e => Err ("enterprise tier required: " +:+ e)
  | Panicked => Panicked
  end.

Context `{!FeedCodec} `{!Faults}.

Definition live_fetch_bundle (src : LiveFeedSource) : M FsState Path :=
  there ← gets (λ s, is_file (live_bundle_dir src ++ ["manifest.json"]) (disk s));
  if (there : bool) then mret (live_bundle_dir src) else bail "enterprise feed bundle not found".

(** Connect, fetch, install: the path of an enterprise snapshot into a store. *)
Definition live_install (token : bytes) (issuer : VerifyingKey) (now_ms : Z) (bundle_dir : Path)
    (pid : Z) (root : Path) (v : FeedVerifier) : M FsState FeedManifest :=
  src ← lift (connect token issuer now_ms bundle_dir);
  dir ← live_fetch_bundle src;
  install pid root dir v now_ms.

(** ** The gate *)

(** The claims of a token, with the issuer's signature over them. *)
Definition grants (token : bytes) (issuer : VerifyingKey) (e : Entitlement) : Prop :=
  ∃ ch sh claims sb sig, split_first 46 token = Some (ch, sh) ∧ hex_decode (trim ch) = inl claims ∧
    hex_decode (trim sh) = inl sb ∧ sig_from_slice sb = Some sig ∧
    verify_strict issuer claims sig = true ∧ ent_from_slice claims = inl e.

Lemma verify_entitlement_spec token issuer now e :
  verify_entitlement token issuer now = Ok e ↔ grants token issuer e ∧ now ≤ ent_expires_at e.
Proof.
  unfold verify_entitlement, grants. split.
  - destruct (split_first 46 token) as [[ch sh]|] eqn:Hs; [|done].
    destruct (hex_decode (trim ch)) as [claims|] eqn:Hc; [|done].
    destruct (hex_decode (trim sh)) as [sb|] eqn:Hb; [|done].
    destruct (sig_from_slice sb) as [sig|] eqn:Hg; [|done].
    destruct (verify_strict issuer claims sig) eqn:Hv; [|done].
    destruct (ent_from_slice claims) as [ent|] eqn:He; [|done]. cbn.
    destruct (Z.ltb_spec (ent_expires_at ent) now); [done|]. intros [= <-].
    split; [|done]. exists ch, sh, claims, sb, sig. by split_and!.
  - intros [(ch & sh & claims & sb & sig & -> & -> & -> & -> & -> & ->) Hnow]. cbn.
    by rewrite (proj2 (Z.ltb_ge _ _)).
Qed.

Lemma connect_spec token issuer now dir src :
  connect token issuer now dir = Ok src ↔
  ∃ e, src = mkLive e dir ∧ grants token issuer e ∧ ent_tier e = Enterprise ∧ now ≤ ent_expires_at e.
Proof.
  unfold connect. split.
  - destruct (verify_entitlement token issuer now) as [e|e|] eqn:Hv; [|done..].
    apply verify_entitlement_spec in Hv as [? ?]. case_bool_decide; [|done]. intros [= <-]. by exists e.
  - intros (e & -> & Hg & Ht & Hn).
    rewrite (proj2 (verify_entitlement_spec token issuer now e)) by done.
    by rewrite bool_decide_eq_true_2.
Qed.

(** C21: the enterprise feed is behind both gates.  An install through the live source
    succeeds only with a token that the issuer signed, that grants the enterprise tier
    and has not expired, and only installs a bundle that verifies under the feed's own
    keys; without such a token nothing on disk changes. *)
Theorem enterprise_needs_entitlement_and_signature token issuer now dir pid root v s :
  ¬ root `prefix_of` dir →
  (∀ c, path_exists (staging_dir pid root c) (disk s) = false) →
  let '(s', r) := live_install token issuer now dir pid root v s in
  match r with
  | Ok m =>
      (∃ e, grants token issuer e ∧ ent_tier e = Enterprise ∧ now ≤ ent_expires_at e) ∧
      verified dir v m (disk s) ∧ installed root dir now (disk s) m (disk s')
  | Err _ => file_at (disk s') (state_path root) = file_at (disk s) (state_path root)
  | Panicked => False
  end ∧
  (¬ (∃ e, grants token issuer e ∧ ent_tier e = Enterprise ∧ now ≤ ent_expires_at e) →
   s' = s ∧ is_err r = true).
Proof.
  intros Hdis Hfresh. unfold live_install, lift, live_fetch_bundle, mbind, M_bind, m_bind.
  destruct (connect token issuer now dir) as [src|e|] eqn:Hc.
  - apply connect_spec in Hc as (e & -> & Hg & Ht & Hn). cbn.
    destruct (is_file _ _); cbn; [|split; [done|intros []; by exists e]].
    pose proof (install_spec pid root dir v now _ Hdis Hfresh s eq_refl) as Hi.
    destruct (install pid root dir v now s) as [s' [m|err|]]; destruct Hi as (new & _ & Hr);
      (split; [|intros []; by exists e]); [|destruct Hr as [[_ ->]|(m & _ & _ & [_ ?])]; done|done].
    destruct Hr as (Hv & _ & _ & Hin). split; [by exists e|done].
  - split; done.
  - exfalso. revert Hc. unfold connect, verify_entitlement. repeat (case_match; try done).
Qed.

(** ** Tokens that are issued work until they expire *)

Context `{!EntitlementCodecLaws} `{!Ed25519Laws} `{!HexLaws} `{!HexAlphabet}.

Lemma split_dot_hex a b : Forall lower_hex_digit a → split_first 46 (a ++ [46] ++ b) = Some (a, b).
Proof.
  induction 1 as [|x a Hx Ha IH]; [done|]. cbn.
  destruct (Z.eqb_spec x 46) as [->|_]; [done|]. cbn in IH. by rewrite IH.
Qed.

(** A token that the issuer mints is accepted under the issuer's key, with exactly
    the claims it was minted for, up to and including its last millisecond, and is
    refused from then on. *)
Theorem issued_token_valid_until_expiry key e now :
  verify_entitlement (issue_token key e) (sk_verifying_key key) now =
  if ent_expires_at e <? now then Err "entitlement expired" else Ok e.
Proof.
  unfold verify_entitlement, issue_token. cbn zeta.
  pose proof (hex_lower _ (ent_canonical_bytes e)) as Hc.
  pose proof (hex_lower _ (sig_to_bytes_bytes (sk_sign key (ent_canonical e)))) as Hs.
  rewrite split_dot_hex, !trim_hex, !hex_round_trip by (done || apply ent_canonical_bytes || apply sig_to_bytes_bytes).
  by rewrite sig_from_to_bytes, sign_verifies, ent_round_trip.
Qed.
End live.
