(* ===== verification/Nvd.v ===== *)
(** * The NVD source

    [server/ingest/src/nvd_source.rs]: Windows registry components, matched by
    substrings of their display name and a semantic-version range.  JSON parsing is
    serde's; the model starts from the parsed bundle. *)

From stdpp Require Import base tactics gmap strings list.
From Stdlib Require Import ZArith.
From S2P Require Import Prelude Order Transport Keys Version CveSource Text.

(** ** Bundles *)

Module NvdTier.
Inductive FeedTier := Community | Enterprise.
End NvdTier.

(** [FeedTier::parse]. *)
Definition nvd_tier_parse (s : option string) : NvdTier.FeedTier :=
  match s with
  | Some s =>
      if bool_decide (to_ascii_lowercase (trim (as_bytes s)) = as_bytes "enterprise")
      then NvdTier.Enterprise else NvdTier.Community
  | None => NvdTier.Community
  end.

Record NvdRange := mkNvdRange {
  nr_introduced : option string; nr_fixed : option string; nr_last_affected : option string;
}.
Record NvdAffected := mkNvdAffected {
  na_product : string; na_aliases : list string; na_ranges : list NvdRange;
}.
Record NvdRecord := mkNvdRecord { nr_id : string; nr_affected : list NvdAffected }.
Inductive NvdBundle :=
  | Wrapped (feed_tier snapshot_date : option string) (records : list NvdRecord)
  | Bare (records : list NvdRecord).

Record NvdEntry := mkNvdEntry {
  ne_id : string; ne_product : string; ne_aliases : list bytes; ne_ranges : list NvdRange;
}.
Record NvdSource := mkNvdSource {
  nvd_tier : NvdTier.FeedTier; nvd_snapshot_date : option string; nvd_affected : list NvdEntry;
}.

Definition nvd_entry (id : string) (a : NvdAffected) : NvdEntry :=
  mkNvdEntry id (na_product a) ((λ s, to_ascii_lowercase (as_bytes s)) <$> na_aliases a) (na_ranges a).

Definition nvd_index (records : list NvdRecord) : list NvdEntry :=
  r ← records; nvd_entry (nr_id r) <$> nr_affected r.

(** [NvdSource::from_json], after [serde_json]. *)
Definition nvd_from_bundle (b : NvdBundle) : NvdSource :=
  match b with
  | Wrapped tier date records => mkNvdSource (nvd_tier_parse tier) date (nvd_index records)
  | Bare records => mkNvdSource NvdTier.Community None (nvd_index records)
  end.

(** ** Display names *)

Definition display_junk : list bytes :=
  as_bytes <$> ["(64-bit x64)"; "(32-bit x86)"; "(64-bit)"; "(32-bit)"; "(x64)"; "(x86)"; "(64 bit)"; "(32 bit)"].

Definition normalize_display_name (display : bytes) : bytes :=
  join_space (split_whitespace (foldl (λ s junk, replace junk s) (to_ascii_lowercase display) display_junk)).

(** ** Matching *)

Definition nvd_range_affects (version : string) (r : NvdRange) : bool :=
  match nr_introduced r, nr_fixed r, nr_last_affected r with
  | None, None, None => false
  | _, _, _ =>
      match nr_introduced r with
      | Some i => match semver_compare version i with Some Lt | None => false | Some _ => true end
      | None => true
      end
      && match nr_fixed r with
         | Some f => match semver_compare version f with Some Lt => true | _ => false end
         | None => true
         end
      && match nr_last_affected r with
         | Some l => match semver_compare version l with Some Gt | None => false | Some _ => true end
         | None => true
         end
  end.

Definition nvd_remediation_key (e : NvdEntry) : string :=
  match head (omap nr_fixed (ne_ranges e)) with
  | Some f => "upgrade:" +:+ ne_product e +:+ ">=" +:+ f
  | None => "patch:" +:+ ne_product e +:+ ":" +:+ ne_id e
  end.

(** The entry names the product and has a range with the version. *)
Definition nvd_matches (normalized : bytes) (version : string) (e : NvdEntry) : bool :=
  existsb (λ alias, contains alias normalized) (ne_aliases e)
  && existsb (nvd_range_affects version) (ne_ranges e).

Definition nvd_hit (name version : string) (e : NvdEntry) : CveHit :=
  mkCveHit name version (ne_id e) (nvd_remediation_key e).

(** The body of the loop; [acc] is [(out, seen)]. *)
Definition nvd_hit_entry (name version : string) (normalized : bytes) (acc : list CveHit * list string)
    (e : NvdEntry) : list CveHit * list string :=
  let '(out, seen) := acc in
  if bool_decide (ne_id e ∈ seen) then acc
  else if nvd_matches normalized version e then (out ++ [nvd_hit name version e], seen ++ [ne_id e])
  else acc.

#[export] Instance NvdSource_source : CveSource NvdSource := λ s source _ _ name version,
  if negb (bool_decide (source = "registry")) then []
  else
    let normalized := normalize_display_name (as_bytes name) in
    (foldl (nvd_hit_entry name version normalized) ([], []) (nvd_affected s)).1.

(** ** What the source promises *)

(** The semantic-version interval of a range. *)
Definition in_nvd_range (version : string) (r : NvdRange) : Prop :=
  (is_Some (nr_introduced r) ∨ is_Some (nr_fixed r) ∨ is_Some (nr_last_affected r)) ∧
  (∀ i, nr_introduced r = Some i → ∃ o, semver_compare version i = Some o ∧ o ≠ Lt) ∧
  (∀ f, nr_fixed r = Some f → semver_compare version f = Some Lt) ∧
  (∀ l, nr_last_affected r = Some l → ∃ o, semver_compare version l = Some o ∧ o ≠ Gt).

Lemma nvd_range_affects_spec version r : nvd_range_affects version r = true ↔ in_nvd_range version r.
Proof.
  destruct r as [i f l]. unfold nvd_range_affects, in_nvd_range. cbn. split.
  - destruct i as [i|], f as [f|], l as [l|];
      repeat match goal with |- context [semver_compare ?a ?b] =>
        let o := fresh "o" in destruct (semver_compare a b) as [o|] eqn:?; [destruct o|] end; cbn; try done;
      intros _; split_and!; (naive_solver || (intros ? [= <-]; eauto)).
  - intros (Hb & Hi & Hf & Hl).
    assert ((match i with Some i => match semver_compare version i with Some Lt | None => false | Some _ => true end
      | None => true end) = true) as Hi'.
    { destruct i as [i|]; [|done]. destruct (Hi i eq_refl) as (o & -> & Ho). by destruct o. }
    assert ((match l with Some l => match semver_compare version l with Some Gt | None => false | Some _ => true end
      | None => true end) = true) as Hl'.
    { destruct l as [l|]; [|done]. destruct (Hl l eq_refl) as (o & -> & Ho). by destruct o. }
    assert ((match f with Some f => match semver_compare version f with Some Lt => true | _ => false end
      | None => true end) = true) as Hf' by (destruct f as [f|]; [by rewrite (Hf f eq_refl)|done]).
    rewrite Hi', Hf', Hl'. destruct i, f, l; try done. by destruct Hb as [[]|[[]|[]]].
Qed.

Lemma nvd_fold_spec name version norm es :
  let '(out, seen) := foldl (nvd_hit_entry name version norm) ([], []) es in
  seen = hit_vuln_id <$> out ∧ NoDup seen ∧
  (∀ id, id ∈ seen ↔ ∃ e, e ∈ es ∧ ne_id e = id ∧ nvd_matches norm version e = true) ∧
  (∀ h, h ∈ out → ∃ e, e ∈ es ∧ nvd_matches norm version e = true ∧ h = nvd_hit name version e).
Proof.
  induction es as [|e es IH] using rev_ind; cbn.
  { split_and!; [done|constructor| |]; intros x; rewrite elem_of_nil; [|done].
    split; [done|]. intros (e & He & _). by apply elem_of_nil in He. }
  rewrite foldl_app. cbn. destruct (foldl _ _ es) as [out seen]. destruct IH as (Hs & Hnd & Hid & Hh). cbn.
  assert (∀ P : NvdEntry → Prop, (∃ x, x ∈ es ++ [e] ∧ P x) ↔ (∃ x, x ∈ es ∧ P x) ∨ P e) as Happ.
  { intros P. setoid_rewrite elem_of_app. setoid_rewrite list_elem_of_singleton. naive_solver. }
  case_bool_decide as Hin; [|destruct (nvd_matches norm version e) eqn:Hm].
  - split_and!; [done..| |].
    + intros id. rewrite Happ, Hid. split; [by left|]. intros [?|[<- _]]; [done|]. by apply Hid.
    + intros h [x Hx]%Hh. exists x. rewrite elem_of_app. naive_solver.
  - split_and!.
    + by rewrite Hs, fmap_app.
    + apply NoDup_app. split_and!; [done| |apply NoDup_singleton].
      intros x Hx Heq%list_elem_of_singleton. by subst.
    + intros id. rewrite Happ, elem_of_app, list_elem_of_singleton, Hid. naive_solver.
    + intros h [Hx|Heq%list_elem_of_singleton]%elem_of_app; [|subst h].
      * apply Hh in Hx as [x Hx]. exists x. rewrite elem_of_app. naive_solver.
      * exists e. rewrite elem_of_app, list_elem_of_singleton. naive_solver.
  - split_and!; [done..| |].
    + intros id. rewrite Happ, Hid. split; [by left|]. intros [?|[_ ?]]; [done|congruence].
    + intros h [x Hx]%Hh. exists x. rewrite elem_of_app. naive_solver.
Qed.

Definition bundle_records (b : NvdBundle) : list NvdRecord :=
  match b with Wrapped _ _ rs => rs | Bare rs => rs end.

(** An advisory for the product of that display name, with the version in a range. *)
Definition nvd_clause (b : NvdBundle) (name version : string) (rec : NvdRecord) (a : NvdAffected) : Prop :=
  rec ∈ bundle_records b ∧ a ∈ nr_affected rec ∧
  (∃ alias, alias ∈ na_aliases a ∧
     contains (to_ascii_lowercase (as_bytes alias)) (normalize_display_name (as_bytes name)) = true) ∧
  (∃ r, r ∈ na_ranges a ∧ in_nvd_range version r).

Lemma nvd_matches_spec norm version id a :
  nvd_matches norm version (nvd_entry id a) = true ↔
  (∃ alias, alias ∈ na_aliases a ∧ contains (to_ascii_lowercase (as_bytes alias)) norm = true) ∧
  (∃ r, r ∈ na_ranges a ∧ in_nvd_range version r).
Proof.
  unfold nvd_matches. rewrite andb_true_iff, !existsb_exists. cbn [nvd_entry ne_aliases ne_ranges].
  setoid_rewrite <-list_elem_of_In. setoid_rewrite list_elem_of_fmap. setoid_rewrite nvd_range_affects_spec.
  naive_solver.
Qed.

Lemma nvd_index_elem records e :
  e ∈ nvd_index records ↔ ∃ rec a, rec ∈ records ∧ a ∈ nr_affected rec ∧ e = nvd_entry (nr_id rec) a.
Proof.
  unfold nvd_index. rewrite list_elem_of_bind. setoid_rewrite list_elem_of_fmap. naive_solver.
Qed.

Lemma nvd_registry_hits b os os_version name version :
  let hits := hits_for (nvd_from_bundle b) "registry" os os_version name version in
  NoDup (hit_vuln_id <$> hits) ∧
  ∀ id, id ∈ hit_vuln_id <$> hits ↔ ∃ rec a, nvd_clause b name version rec a ∧ nr_id rec = id.
Proof.
  unfold hits_for, NvdSource_source. rewrite bool_decide_eq_true_2 by done. cbn [negb].
  assert (nvd_affected (nvd_from_bundle b) = nvd_index (bundle_records b)) as -> by by destruct b.
  pose proof (nvd_fold_spec name version (normalize_display_name (as_bytes name)) (nvd_index (bundle_records b))) as Hf.
  destruct (foldl _ _ _) as [out seen]. destruct Hf as (-> & Hnd & Hid & _). cbn. split; [done|].
  intros id. rewrite Hid. setoid_rewrite nvd_index_elem. unfold nvd_clause. split.
  - intros (e & (rec & a & Hr & Ha & ->) & <- & Hm%nvd_matches_spec). by exists rec, a.
  - intros (rec & a & (Hr & Ha & Hm) & <-). exists (nvd_entry (nr_id rec) a).
    split; [eauto|]. split; [done|]. by apply nvd_matches_spec.
Qed.

Lemma push_all_new out l :
  NoDup (hit_vuln_id <$> out ++ l) → foldl push_new out l = out ++ l.
Proof.
  revert out. induction l as [|h l IH]; intros out Hnd; cbn; [by rewrite app_nil_r|].
  rewrite fmap_app in Hnd. apply NoDup_app in Hnd as (Ho & Hd & Hl). unfold push_new at 2.
  assert (existsb (λ h', bool_decide (hit_vuln_id h' = hit_vuln_id h)) out = false) as ->.
  { apply not_true_iff_false. rewrite existsb_exists. intros (x & Hx%list_elem_of_In & Heq%bool_decide_eq_true).
    apply (Hd (hit_vuln_id x)); [by apply list_elem_of_fmap_2|]. rewrite Heq. by left. }
  rewrite IH; [by rewrite <-app_assoc|]. rewrite <-app_assoc, fmap_app. by apply NoDup_app.
Qed.

Lemma osv_hits_nodup records source os os_version name version :
  NoDup (hit_vuln_id <$> hits_for (from_records records) source os os_version name version).
Proof.
  destruct (hits_collected (from_records records) name version (source_families source os os_version))
    as (Hs & Hnd & _). by rewrite Hs in Hnd.
Qed.

(** The two feeds compose without overlap.  The composite of the OSV and the NVD
    source answers for a package manager's component with exactly the OSV hits, and for
    a Windows registry component with each NVD advisory once that names the product by
    an alias in the normalized display name and has the version in a range of parsed
    semantic versions; no vulnerability is reported twice. *)
Theorem composite_feeds_do_not_overlap records b source os os_version name version :
  let c := composite_with (composite_with (mkCompositeCveSource []) (from_records records)) (nvd_from_bundle b) in
  let hits := hits_for c source os os_version name version in
  NoDup (hit_vuln_id <$> hits) ∧
  (source ≠ "registry" → hits = hits_for (from_records records) source os os_version name version) ∧
  (source = "registry" →
     hits_for (from_records records) source os os_version name version = [] ∧
     ∀ id, id ∈ hit_vuln_id <$> hits ↔ ∃ rec a, nvd_clause b name version rec a ∧ nr_id rec = id).
Proof.
  intros c hits.
  assert (hits = foldl push_new (foldl push_new [] (hits_for (from_records records) source os os_version name version))
    (hits_for (nvd_from_bundle b) source os os_version name version)) as Hh by done.
  destruct (decide (source = "registry")) as [->|Hne].
  - assert (hits_for (from_records records) "registry" os os_version name version = []) as Hosv by done.
    destruct (nvd_registry_hits b os os_version name version) as [Hnd Hid].
    rewrite Hosv in Hh. cbn [foldl] in Hh. rewrite push_all_new in Hh by done. rewrite Hh.
    split; [done|]. split; [done|]. intros _. split; [done|]. exact Hid.
  - assert (hits_for (nvd_from_bundle b) source os os_version name version = []) as Hnvd.
    { unfold hits_for, NvdSource_source. by rewrite bool_decide_eq_false_2. }
    pose proof (osv_hits_nodup records source os os_version name version) as Hnd.
    rewrite Hnvd in Hh. cbn [foldl] in Hh. rewrite push_all_new in Hh by done. rewrite Hh. done.
Qed.
