(* ===== verification/Packages.v ===== *)
(** * Package inventory

    [crates/substrate/src/packages.rs]: the parsers of each package manager's output and
    the providers that read it.  What the host gives (the status file, the info
    directory, the output of a command) is an argument; [None] is a read or a command
    that failed. *)

From Stdlib Require Import ZArith.
From stdpp Require Import base tactics gmap strings list.
From S2P Require Import Prelude Transport Scheduler Keys Version CveSource Text Ocsf Substrate.

Local Open Scope Z_scope.

Record Package := mkPackage {
  pk_name : string; pk_version : string; pk_source : string; pk_libraries : list string;
}.
Definition package_new (name version : bytes) (source : string) : Package :=
  mkPackage (string_of_bytes name) (string_of_bytes version) source [].
Definition with_libraries (libs : list string) (p : Package) : Package :=
  mkPackage (pk_name p) (pk_version p) (pk_source p) libs.

(** ** Shared libraries *)

Definition base_name (path : bytes) : bytes := after_last is_separator_char path path.

Definition is_shared_library_path (path : bytes) : bool :=
  let base := to_ascii_lowercase (base_name path) in
  ends_with (as_bytes ".so") base || contains (as_bytes ".so.") base
  || ends_with (as_bytes ".dll") base || ends_with (as_bytes ".dylib") base.

Definition shared_libraries_from_list (list_contents : bytes) : list bytes :=
  filter (λ l, negb (bool_decide (l = [])) && is_shared_library_path l)
    (trim <$> text_lines list_contents).

Definition pkg_name_from_list_filename (file_name : bytes) : option bytes :=
  stem ← strip_suffix (as_bytes ".list") file_name;
  let name := default stem (head (split_on 58 stem)) in
  if bool_decide (name = []) then None else Some name.

(** ** dpkg *)

Record DpkgState := mkDpkg {
  dp_out : list Package; dp_name : option bytes; dp_version : option bytes; dp_installed : bool;
}.

Definition push_dpkg (s : DpkgState) : DpkgState :=
  mkDpkg
    (if dp_installed s then
       match dp_name s with
       | Some n => dp_out s ++ [package_new n (default [] (dp_version s)) "dpkg"]
       | None => dp_out s
       end
     else dp_out s)
    None None false.

Definition dpkg_line (s : DpkgState) (line : bytes) : DpkgState :=
  if bool_decide (trim line = []) then push_dpkg s
  else
    match strip_prefix (as_bytes "Package:") line with
    | Some v => mkDpkg (dp_out s) (Some (trim v)) (dp_version s) (dp_installed s)
    | None =>
        match strip_prefix (as_bytes "Version:") line with
        | Some v => mkDpkg (dp_out s) (dp_name s) (Some (trim v)) (dp_installed s)
        | None =>
            match strip_prefix (as_bytes "Status:") line with
            | Some v => mkDpkg (dp_out s) (dp_name s) (dp_version s)
                (bool_decide (last (split_whitespace v) = Some (as_bytes "installed")))
            | None => s
            end
        end
    end.

Definition parse_dpkg_status (contents : bytes) : list Package :=
  dp_out (push_dpkg (foldl dpkg_line (mkDpkg [] None None false) (text_lines contents))).

(** [out.entry(k).or_default().extend(libs)]. *)
Definition add_libs (out : gmap string (list string)) (name : bytes) (libs : list bytes) :
    gmap string (list string) :=
  <[string_of_bytes name :=
      default [] (out !! string_of_bytes name) ++ (string_of_bytes <$> libs)]> out.

(** The entries of the info directory, each with its contents if it can be read. *)
Abbreviation InfoDir := (list (bytes * option bytes)).

Definition dpkg_list_file (out : gmap string (list string)) (entry : bytes * option bytes) :
    gmap string (list string) :=
  match pkg_name_from_list_filename entry.1, entry.2 with
  | Some pkg, Some contents =>
      let libs := shared_libraries_from_list contents in
      if bool_decide (libs = []) then out else add_libs out pkg libs
  | _, _ => out
  end.
Definition read_dpkg_libraries (info : option InfoDir) : gmap string (list string) :=
  match info with None => ∅ | Some entries => foldl dpkg_list_file ∅ entries end.

Definition attach_libraries (libs : gmap string (list string)) (ps : list Package) : list Package :=
  (λ p, with_libraries (default [] (libs !! pk_name p)) p) <$> ps.

Definition dpkg_packages (status : option bytes) (info : option InfoDir) : list Package :=
  attach_libraries (read_dpkg_libraries info)
    (match status with Some c => parse_dpkg_status c | None => [] end).

(** ** rpm *)

Definition rpm_line (line : bytes) : option Package :=
  '(name, version) ← split_once [9] (trim_end line);
  let name := trim name in
  if bool_decide (name = []) then None else Some (package_new name (trim version) "rpm").
Definition parse_rpm_qa (output : bytes) : list Package := omap rpm_line (text_lines output).

Definition rpm_file_line (out : gmap string (list string)) (line : bytes) : gmap string (list string) :=
  match split_once [9] (trim_end line) with
  | None => out
  | Some (name, path) =>
      let name := trim name in let path := trim path in
      if bool_decide (name = []) || negb (is_shared_library_path path) then out
      else add_libs out name [path]
  end.
Definition parse_rpm_files (output : bytes) : gmap string (list string) :=
  foldl rpm_file_line ∅ (text_lines output).

Definition rpm_packages (qa files : option bytes) : list Package :=
  attach_libraries (match files with Some o => parse_rpm_files o | None => ∅ end)
    (match qa with Some o => parse_rpm_qa o | None => [] end).

(** ** Homebrew *)

Definition brew_line (line : bytes) : option Package :=
  match split_whitespace line with
  | name :: version :: _ =>
      if bool_decide (name = []) then None else Some (package_new name version "homebrew")
  | _ => None
  end.
Definition parse_brew_list (output : bytes) : list Package := omap brew_line (text_lines output).
Definition homebrew_packages (list_versions : option bytes) : list Package :=
  match list_versions with Some o => parse_brew_list o | None => [] end.

(** ** The Windows registry *)

Definition reg_value (line : bytes) (value_name : string) : option bytes :=
  rest ← strip_prefix (as_bytes value_name) line;
  if negb (starts_with_ws rest) then None
  else
    data ← snd <$> split_whitespace_once (trim_start rest);
    if bool_decide (trim data = []) then None else Some (trim data).

Record RegState := mkReg { rg_out : list Package; rg_name : option bytes; rg_version : option bytes }.

Definition push_reg (s : RegState) : RegState :=
  mkReg
    (match rg_name s with
     | Some n => rg_out s ++ [package_new n (default [] (rg_version s)) "registry"]
     | None => rg_out s
     end) None None.

Definition reg_line (s : RegState) (line : bytes) : RegState :=
  let trimmed := trim line in
  if starts_with (as_bytes "HKEY_") trimmed then push_reg s
  else
    match reg_value trimmed "DisplayName" with
    | Some v => mkReg (rg_out s) (Some v) (rg_version s)
    | None =>
        match reg_value trimmed "DisplayVersion" with
        | Some v => mkReg (rg_out s) (rg_name s) (Some v)
        | None => s
        end
    end.
Definition parse_reg_uninstall (output : bytes) : list Package :=
  rg_out (push_reg (foldl reg_line (mkReg [] None None) (text_lines output))).

(** [KEYS], each with the output of [reg query]. *)
Definition registry_packages (outputs : list (option bytes)) : list Package :=
  o ← outputs; match o with Some out => parse_reg_uninstall out | None => [] end.

(** ** The provider of the host *)

(** What the host holds, per operating system. *)
Inductive Inventory :=
  | Linux (dpkg_status : option (option bytes)) (info : option InfoDir) (rpm_qa rpm_files : option bytes)
  | Windows (queries : list (option bytes))
  | Macos (brew : option bytes)
  | OtherOs.

(** [default_package_provider().packages()]: on Linux, dpkg when its status file
    exists, whether or not it can be read. *)
Definition default_packages (h : Inventory) : list Package :=
  match h with
  | Linux (Some status) info _ _ => dpkg_packages status info
  | Linux None _ qa files => rpm_packages qa files
  | Windows outputs => registry_packages outputs
  | Macos brew => homebrew_packages brew
  | OtherOs => []
  end.

(** * Package inventory: theorems

    The dpkg inventory is exactly the installed stanzas of the status file, each with
    the libraries its [.list] files name. *)

Local Open Scope Z_scope.

(** ** Lines *)

(** A line of a text whose lines end in a newline. *)
Definition is_line (l : bytes) : Prop := Forall (λ c, c ≠ 10) l ∧ last l ≠ Some 13.
Definition text_of (ls : list bytes) : bytes := l ← ls; l ++ [10].

Lemma split_newline_line l rest :
  Forall (λ c, c ≠ 10) l → split_newline (l ++ 10 :: rest) = l :: split_newline rest.
Proof.
  assert (∀ s, split_newline s ≠ []) as Hne.
  { induction s as [|c s IH]; [done|]. cbn. destruct (split_newline s); [done|]. by case_match. }
  induction 1 as [|c l Hc _ IH]; cbn.
  - destruct (split_newline rest) eqn:Hs; [by apply Hne in Hs|done].
  - rewrite IH. by rewrite (proj2 (Z.eqb_neq _ _)).
Qed.

Lemma split_newline_text ls :
  Forall is_line ls → split_newline (text_of ls) = ls ++ [[]].
Proof.
  induction 1 as [|l ls [Hl _] _ IH]; [done|].
  change (text_of (l :: ls)) with ((l ++ [10]) ++ text_of ls). rewrite <-app_assoc. cbn [app].
  by rewrite split_newline_line, IH.
Qed.

Lemma text_lines_of ls : Forall is_line ls → text_lines (text_of ls) = ls.
Proof.
  intros Hls. unfold text_lines. rewrite split_newline_text by done. rewrite last_snoc, length_app.
  rewrite Nat.add_sub, take_app_length.
  induction Hls as [|l ls [_ Hl] _ IH]; [done|]. cbn. rewrite IH. unfold strip_cr.
  by rewrite bool_decide_eq_false_2.
Qed.

(** ** Stanzas *)

Definition blank (l : bytes) : Prop := trim l = [].

(** The value of a field of a stanza; the last one counts. *)
Definition field (name : string) (st : list bytes) : option bytes :=
  last (omap (strip_prefix (as_bytes name)) st).

(** The package of a stanza, if it is installed. *)
Definition stanza_package (st : list bytes) : option Package :=
  if bool_decide ((v ← field "Status:" st; last (split_whitespace v)) = Some (as_bytes "installed")) then
    name ← field "Package:" st;
    Some (package_new (trim name) (default [] (trim <$> field "Version:" st)) "dpkg")
  else None.

(** What the parser holds after the lines [st] of a stanza. *)
Definition in_stanza (out : list Package) (st : list bytes) : DpkgState :=
  mkDpkg out (trim <$> field "Package:" st) (trim <$> field "Version:" st)
    (bool_decide ((v ← field "Status:" st; last (split_whitespace v)) = Some (as_bytes "installed"))).

Lemma strip_prefix_take p n l rest :
  strip_prefix p l = Some rest → take n p = take (n `min` length p) l.
Proof. unfold strip_prefix. case_bool_decide as Hp; [|done]. intros _. rewrite <-take_take. by rewrite Hp. Qed.

Lemma field_snoc name st l :
  field name (st ++ [l]) = match strip_prefix (as_bytes name) l with Some v => Some v | None => field name st end.
Proof.
  unfold field. rewrite omap_app. cbn. destruct (strip_prefix _ l); [by rewrite last_snoc|by rewrite app_nil_r].
Qed.

(** A line carries at most one of the three fields. *)
Lemma one_field a b l va vb :
  strip_prefix (as_bytes a) l = Some va → strip_prefix (as_bytes b) l = Some vb →
  take 7 (as_bytes a) = take 7 (as_bytes b) ∨ (length (as_bytes a) < 7)%nat ∨ (length (as_bytes b) < 7)%nat.
Proof.
  intros Ha%(strip_prefix_take _ 7) Hb%(strip_prefix_take _ 7).
  destruct (decide (length (as_bytes a) < 7)%nat); [auto|]. destruct (decide (length (as_bytes b) < 7)%nat); [auto|].
  left. by rewrite Ha, Hb, !Nat.min_l by lia.
Qed.

Lemma dpkg_line_stanza out st l :
  ¬ blank l → dpkg_line (in_stanza out st) l = in_stanza out (st ++ [l]).
Proof.
  intros Hl. unfold dpkg_line, in_stanza. rewrite bool_decide_eq_false_2 by done. rewrite !field_snoc.
  destruct (strip_prefix (as_bytes "Package:") l) eqn:Hp, (strip_prefix (as_bytes "Version:") l) eqn:Hv,
    (strip_prefix (as_bytes "Status:") l) eqn:Hs; try done;
    exfalso; first [destruct (one_field _ _ _ _ _ Hp Hv) as [Heq|Hlen]
      |destruct (one_field _ _ _ _ _ Hp Hs) as [Heq|Hlen]|destruct (one_field _ _ _ _ _ Hv Hs) as [Heq|Hlen]];
    first [discriminate Heq|cbn in Hlen; lia].
Qed.

Lemma dpkg_stanza out st :
  Forall (λ l, ¬ blank l) st → foldl dpkg_line (in_stanza out []) st = in_stanza out st.
Proof.
  induction st as [|l st IH] using rev_ind; [done|]. intros [Hst [Hl _]%Forall_cons]%Forall_app.
  rewrite foldl_app. cbn [foldl]. by rewrite IH, dpkg_line_stanza.
Qed.

Lemma push_stanza out st :
  push_dpkg (in_stanza out st) = in_stanza (out ++ option_list (stanza_package st)) [].
Proof.
  unfold push_dpkg, in_stanza, stanza_package. cbn [dp_installed dp_name dp_version dp_out].
  case_bool_decide; cbn; [|by rewrite app_nil_r].
  destruct (field "Package:" st); cbn; [done|by rewrite app_nil_r].
Qed.

Lemma push_blanks out bs :
  Forall blank bs → foldl dpkg_line (in_stanza out []) bs = in_stanza out [].
Proof.
  induction 1 as [|b bs Hb _ IH]; [done|]. cbn [foldl]. unfold dpkg_line at 2.
  rewrite bool_decide_eq_true_2 by done. rewrite push_stanza. cbn. by rewrite app_nil_r.
Qed.

(** A stanza and the blank lines that end it. *)
Definition stanza_ok (sb : list bytes * list bytes) : Prop :=
  Forall (λ l, ¬ blank l) sb.1 ∧ Forall blank sb.2 ∧ sb.2 ≠ [].

Lemma dpkg_stanzas out sbs :
  Forall stanza_ok sbs →
  foldl dpkg_line (in_stanza out []) (sb ← sbs; sb.1 ++ sb.2) =
  in_stanza (out ++ omap stanza_package sbs.*1) [].
Proof.
  intros Hs. revert out. induction Hs as [|[st bs] sbs (Hst & Hbs & Hne) _ IH]; intros out; cbn in *.
  { by rewrite app_nil_r. }
  destruct bs as [|b bs]; [done|]. apply Forall_cons in Hbs as [Hb Hbs].
  rewrite !foldl_app, dpkg_stanza by done. cbn [foldl].
  unfold dpkg_line at 3. rewrite bool_decide_eq_true_2 by done.
  rewrite push_stanza, push_blanks, IH by done. f_equal. rewrite <-app_assoc.
  by destruct (stanza_package st).
Qed.

(** ** Libraries *)

(** The libraries that an entry of the info directory gives a package. *)
Definition entry_libs (name : string) (entry : bytes * option bytes) : list string :=
  match pkg_name_from_list_filename entry.1, entry.2 with
  | Some pkg, Some contents =>
      if bool_decide (string_of_bytes pkg = name)
      then string_of_bytes <$> shared_libraries_from_list contents else []
  | _, _ => []
  end.

Lemma add_libs_lookup out pkg libs name :
  default [] (add_libs out pkg libs !! name) =
  default [] (out !! name) ++ (if bool_decide (string_of_bytes pkg = name) then string_of_bytes <$> libs else []).
Proof.
  unfold add_libs. case_bool_decide as Hn.
  - subst. by rewrite lookup_insert_eq.
  - by rewrite lookup_insert_ne, app_nil_r.
Qed.

Lemma list_files_lookup entries out name :
  default [] (foldl dpkg_list_file out entries !! name) =
  default [] (out !! name) ++ (e ← entries; entry_libs name e).
Proof.
  revert out. induction entries as [|[f c] entries IH]; intros out; [by rewrite app_nil_r|].
  cbn [foldl mbind list_bind]. rewrite IH, app_assoc. f_equal. unfold dpkg_list_file, entry_libs. cbn.
  destruct (pkg_name_from_list_filename f) as [pkg|], c as [contents|]; try by rewrite app_nil_r.
  case_bool_decide as Hl; [|apply add_libs_lookup]. rewrite Hl. cbn. by case_bool_decide; rewrite app_nil_r.
Qed.

(** The dpkg inventory is exact.  Of a status file made of stanzas and blank lines,
    with or without one at the end, it lists the stanzas whose status ends in
    [installed], in order and with their name and version, and gives each the shared
    libraries that the package's [.list] files name, in order; a stanza in any other
    state, or an unreadable list, contributes nothing. *)
Theorem dpkg_inventory_exact sbs final info :
  Forall stanza_ok sbs → Forall (λ l, ¬ blank l) final →
  Forall is_line ((sb ← sbs; sb.1 ++ sb.2) ++ final) →
  dpkg_packages (Some (text_of ((sb ← sbs; sb.1 ++ sb.2) ++ final))) (Some info) =
  (λ p, with_libraries (e ← info; entry_libs (pk_name p) e) p) <$> omap stanza_package (sbs.*1 ++ [final]).
Proof.
  intros Hs Hf Hls. unfold dpkg_packages, attach_libraries, read_dpkg_libraries, parse_dpkg_status.
  rewrite text_lines_of by done. change (mkDpkg [] None None false) with (in_stanza [] []).
  rewrite foldl_app, dpkg_stanzas, dpkg_stanza, push_stanza by done.
  cbn [dp_out in_stanza]. rewrite omap_app. cbn [app].
  assert (omap stanza_package [final] = option_list (stanza_package final)) as ->.
  { cbn. by destruct (stanza_package final). }
  apply list_fmap_ext. intros _ p _. f_equal. by rewrite list_files_lookup, lookup_empty.
Qed.
