(* ===== verification/Listeners.v ===== *)
(** * Listening sockets and the AI runtimes behind them

    [crates/substrate/src/listeners.rs]: the parsers of [ss], [netstat], [lsof] and
    [tasklist], and the providers over the output of those commands.
    [crates/substrate/src/ai.rs]: which listeners are AI runtimes; what a runtime
    answers on its local port is an argument. *)

From Stdlib Require Import ZArith.
From stdpp Require Import base tactics gmap strings list.
From S2P Require Import Prelude Transport Scheduler Keys Version CveSource Text Ocsf Substrate.

Local Open Scope Z_scope.

(** ** Listeners *)

Record Listener := mkListener {
  ls_proto : string; ls_local_addr : string; ls_port : Z;
  ls_pid : option Z; ls_process : option string;
}.

Definition parse_addr_port (s : bytes) : option (string * Z) :=
  '(addr, port) ←
    match strip_prefix (as_bytes "[") s with
    | Some rest => split_once (as_bytes "]:") rest
    | None => split_last 58 s
    end;
  port ← parse_u16 (trim port);
  Some (if bool_decide (addr = as_bytes "*") then "0.0.0.0" else string_of_bytes addr, port).

(** [users:(("name",pid=1,fd=3))]: 34 is the quotation mark. *)
Definition parse_ss_process (s : bytes) : option Z * option string :=
  let name :=
    '(_, rest) ← split_once [40; 40; 34] s;
    '(n, _) ← split_first 34 rest;
    Some (string_of_bytes n) in
  let pid :=
    '(_, rest) ← split_once (as_bytes "pid=") s;
    parse_u32 (take_digits rest).1 in
  (pid, name).

Definition ss_line (line : bytes) : option Listener :=
  let fields := split_whitespace line in
  if negb (bool_decide (head fields = Some (as_bytes "LISTEN"))) || bool_decide (length fields < 4)%nat
  then None
  else
    field ← fields !! 3%nat;
    '(local_addr, port) ← parse_addr_port field;
    let '(pid, process) := parse_ss_process (join_space (drop 4 fields)) in
    Some (mkListener "tcp" local_addr port pid process).
Definition parse_ss (out : bytes) : list Listener := omap ss_line (text_lines out).

Definition netstat_line (line : bytes) : option Listener :=
  let fields := split_whitespace line in
  if bool_decide (length fields < 5)%nat
     || negb (eq_ignore_ascii_case (default [] (head fields)) (as_bytes "TCP")) then None
  else if negb (existsb (λ f, eq_ignore_ascii_case f (as_bytes "LISTENING")) fields) then None
  else
    field ← fields !! 1%nat;
    '(local_addr, port) ← parse_addr_port field;
    Some (mkListener "tcp" local_addr port (last fields ≫= parse_u32) None).
Definition parse_netstat (out : bytes) : list Listener := omap netstat_line (text_lines out).

(** [iter().position(p)]. *)
Fixpoint position (p : bytes → bool) (l : list bytes) : option nat :=
  match l with
  | [] => None
  | x :: l => if p x then Some 0%nat else S <$> position p l
  end.

Definition lsof_line (line : bytes) : option Listener :=
  let fields := split_whitespace line in
  listen_idx ← position (λ f, bool_decide (f = as_bytes "(LISTEN)")) fields;
  match listen_idx with
  | O => None
  | S i =>
      field ← fields !! i;
      '(local_addr, port) ← parse_addr_port field;
      Some (mkListener "tcp" local_addr port (fields !! 1%nat ≫= parse_u32)
        (string_of_bytes <$> head fields))
  end.
Definition parse_lsof (out : bytes) : list Listener := omap lsof_line (text_lines out).

(** [s.trim_start_matches(c)]. *)
Fixpoint trim_start_char (c : Z) (s : bytes) : bytes :=
  match s with x :: s' => if x =? c then trim_start_char c s' else s | [] => [] end.

(** The fields of a [tasklist] line are separated by a comma between quotation marks. *)
Definition tasklist_line (m : gmap Z string) (raw : bytes) : gmap Z string :=
  let line := trim raw in
  if bool_decide (line = []) then m
  else
    match split_pat (length line) [34; 44; 34] line with
    | part0 :: part1 :: _ =>
        let name := trim_start_char 34 part0 in
        let name :=
          match strip_suffix (as_bytes ".exe") name with
          | Some n => n
          | None => default name (strip_suffix (as_bytes ".EXE") name)
          end in
        match parse_u32 part1 with Some pid => <[pid := string_of_bytes name]> m | None => m end
    | _ => m
    end.
Definition parse_tasklist (out : bytes) : gmap Z string := foldl tasklist_line ∅ (text_lines out).

(** *** The providers, over what their commands print; [None] is a command that failed *)

Definition ss_listeners (ss : option bytes) : list Listener :=
  match ss with Some out => parse_ss out | None => [] end.
Definition lsof_listeners (lsof : option bytes) : list Listener :=
  match lsof with Some out => parse_lsof out | None => [] end.

Definition resolve_name (names : gmap Z string) (l : Listener) : Listener :=
  match ls_pid l ≫= (λ pid, names !! pid) with
  | Some name => mkListener (ls_proto l) (ls_local_addr l) (ls_port l) (ls_pid l) (Some name)
  | None => l
  end.
Definition netstat_listeners (netstat tasklist : option bytes) : list Listener :=
  let listeners := match netstat with Some out => parse_netstat out | None => [] end in
  let names := match tasklist with Some out => parse_tasklist out | None => ∅ end in
  resolve_name names <$> listeners.

(** ** AI runtimes *)

Record AiRuntime := mkAiRuntime {
  ai_runtime : string; ai_process : option string; ai_pid : option Z; ai_proto : string;
  ai_bind_addr : string; ai_port : Z; ai_exposed : bool; ai_version : option string;
  ai_models : list string;
}.

Definition RUNTIME_NAMES : list (string * string) :=
  [("ollama", "Ollama"); ("lm-studio", "LM Studio"); ("lmstudio", "LM Studio");
   ("llama-server", "llama.cpp"); ("llama.cpp", "llama.cpp"); ("llamacpp", "llama.cpp");
   ("vllm", "vLLM"); ("text-generation", "Text Generation WebUI"); ("localai", "LocalAI");
   ("local-ai", "LocalAI"); ("koboldcpp", "KoboldCpp"); ("kobold", "KoboldCpp");
   ("gpt4all", "GPT4All"); ("tabby", "Tabby"); ("open-webui", "Open WebUI");
   ("openwebui", "Open WebUI"); ("llamafile", "llamafile"); ("litellm", "LiteLLM");
   ("sglang", "SGLang"); ("ramalama", "RamaLama"); ("jan", "Jan")].

Definition runtime_by_name (process : option string) : option string :=
  p ← process;
  snd <$> List.find (λ n, contains (as_bytes n.1) (to_ascii_lowercase (as_bytes p))) RUNTIME_NAMES.
Definition runtime_by_port (port : Z) : option string :=
  if port =? 11434 then Some "Ollama" else if port =? 1234 then Some "LM Studio"
  else if port =? 1337 then Some "Jan" else None.
Definition match_runtime (process : option string) (port : Z) : option string :=
  match runtime_by_name process with Some n => Some n | None => runtime_by_port port end.

Definition is_exposed (addr : string) : bool :=
  let a := trim (as_bytes addr) in
  negb (bool_decide (a = as_bytes "127.0.0.1") || starts_with (as_bytes "127.") a
        || bool_decide (a = as_bytes "::1") || eq_ignore_ascii_case a (as_bytes "localhost")).

Definition classify_listener (l : Listener) : option AiRuntime :=
  runtime ← match_runtime (ls_process l) (ls_port l);
  Some (mkAiRuntime runtime (ls_process l) (ls_pid l) (ls_proto l) (ls_local_addr l) (ls_port l)
    (is_exposed (ls_local_addr l)) None []).
Definition classify (ls : list Listener) : list AiRuntime := omap classify_listener ls.

Section probe.
Context {V : Type} `{JsonValue V}.
(** [serde_json::from_str], and what a [GET] on a loopback port answers. *)
Context (from_str : bytes → option V) (http_get_json : Z → string → option bytes).

Definition parse_ollama_version (body : bytes) : option string :=
  v ← from_str body; json_as_str (json_index v "version").
Definition parse_ollama_tags (body : bytes) : list string :=
  match from_str body with
  | None => []
  | Some v => omap (λ m, json_as_str (json_index m "name"))
      (default [] (json_as_array (json_index v "models")))
  end.

Definition probe (r : AiRuntime) : AiRuntime :=
  if bool_decide (ai_runtime r = "Ollama") then
    let version := match http_get_json (ai_port r) "/api/version" with
                   | Some body => parse_ollama_version body | None => ai_version r end in
    let models := match http_get_json (ai_port r) "/api/tags" with
                  | Some body => parse_ollama_tags body | None => ai_models r end in
    mkAiRuntime (ai_runtime r) (ai_process r) (ai_pid r) (ai_proto r) (ai_bind_addr r) (ai_port r)
      (ai_exposed r) version models
  else r.
Definition discover_ai_runtimes (ls : list Listener) : list AiRuntime := probe <$> classify ls.
End probe.

(** ** Examples *)

Example ss_wildcard : parse_addr_port (as_bytes "*:22") = Some ("0.0.0.0", 22).
Proof. reflexivity. Qed.
Example ss_bracketed : parse_addr_port (as_bytes "[::1]:11434") = Some ("::1", 11434).
Proof. reflexivity. Qed.
Example ss_bad_port : parse_addr_port (as_bytes "127.0.0.1:http") = None.
Proof. reflexivity. Qed.
