(* ===== verification/Sweep.v ===== *)
(** * Active sweep and model files

    [crates/substrate/src/network_hosts.rs]: the expansion of a CIDR block and the sweep
    over it; whether a connection succeeds is an argument.
    [crates/substrate/src/ai_models.rs]: the bounded walk for model files over the
    directory trees of the host.  The algorithm of [DefaultHasher] is not specified, so
    the digest of a sample is an argument. *)

From Stdlib Require Import ZArith.
From stdpp Require Import base tactics gmap strings list.
From S2P Require Import Prelude Transport Scheduler Keys Version CveSource Order Text Ocsf Substrate NetMon.
From S2P Require Import MonitorProps.

Local Open Scope Z_scope.

(** ** Sweep *)

(** [u32::from(Ipv4Addr)] and back. *)
Definition u32_of_ipv4 (ip : Ipv4Addr) : Z :=
  let '(a, b, c, d) := ip in a * 2 ^ 24 + b * 2 ^ 16 + c * 2 ^ 8 + d.
Definition ipv4_of_u32 (x : Z) : Ipv4Addr :=
  ((x / 2 ^ 24) `mod` 2 ^ 8, (x / 2 ^ 16) `mod` 2 ^ 8, (x / 2 ^ 8) `mod` 2 ^ 8, x `mod` 2 ^ 8).

(** [str::parse::<Ipv4Addr>]. *)
Definition parse_ipv4 (s : bytes) : option Ipv4Addr :=
  match read_ipv4_addr s with Some (ip, []) => Some ip | _ => None end.

(** [n] addresses from [network] on. *)
Definition addresses (network : Z) (n : Z) : list Ipv4Addr :=
  (λ i, ipv4_of_u32 (wrap_u32 (network + wrap_u32 (Z.of_nat i)))) <$> seq 0 (Z.to_nat n).

Definition expand_cidr (cidr : bytes) (max_hosts : Z) : list Ipv4Addr :=
  match split_first 47 cidr with
  | None => []
  | Some (addr, prefix) =>
      match parse_ipv4 addr, parse_u32 prefix with
      | Some base, Some prefix =>
          if 32 <? prefix then []
          else
            let host_count := Z.shiftl 1 (32 - prefix) in
            if max_hosts <? host_count then []
            else
              let network := Z.land (u32_of_ipv4 base)
                (wrap_u32 (Z.lnot (wrap_u32 (wrap_u32 host_count - 1)))) in
              addresses network host_count
      | _, _ => []
      end
  end.

Record SweepConfig := mkSweepConfig { sw_cidrs : list bytes; sw_ports : list Z; sw_rate_pps : Z }.
Record HostResult := mkHostResult { hr_ip : string; hr_open_ports : list Z }.
Definition MAX_HOSTS : Z := 65536.

(** [Ipv4Addr::to_string]. *)
Definition ipv4_to_string (ip : Ipv4Addr) : string :=
  let '(a, b, c, d) := ip in
  show_Z a +:+ "." +:+ show_Z b +:+ "." +:+ show_Z c +:+ "." +:+ show_Z d.

Section sweep.
(** Whether [TcpStream::connect_timeout] succeeds. *)
Context (connects : Ipv4Addr → Z → bool).

Definition sweep_host (cfg : SweepConfig) (ip : Ipv4Addr) : option HostResult :=
  let open_ports := filter (λ p, connects ip p) (sw_ports cfg) in
  if bool_decide (open_ports = []) then None else Some (mkHostResult (ipv4_to_string ip) open_ports).
Definition sweep (cfg : SweepConfig) : list HostResult :=
  cidr ← sw_cidrs cfg; omap (sweep_host cfg) (expand_cidr cidr MAX_HOSTS).
(** [sweep_provider_for]: nothing without ranges or without the build feature. *)
Definition sweep_for (active_sweep : bool) (cfg : SweepConfig) : list HostResult :=
  if bool_decide (sw_cidrs cfg = []) then [] else if active_sweep then sweep cfg else [].
End sweep.

(** ** Model files *)

Record AiModel := mkAiModel {
  md_path : string; md_format : string; md_risky : bool; md_size : Z; md_mtime : Z;
  md_fingerprint : string;
}.

Definition MAX_DEPTH : nat := 6.
Definition MAX_FILES : nat := 512.
Definition SAMPLE : Z := 64 * 1024.

Definition format_of (ext : bytes) : option (string * bool) :=
  let ext_is (s : string) := bool_decide (ext = as_bytes s) in
  if ext_is "gguf" then Some ("gguf", false)
  else if ext_is "ggml" then Some ("ggml", false)
  else if ext_is "safetensors" then Some ("safetensors", false)
  else if ext_is "onnx" then Some ("onnx", false)
  else if ext_is "h5" || ext_is "hdf5" then Some ("keras-h5", false)
  else if ext_is "npz" then Some ("numpy-npz", false)
  else if ext_is "pt" || ext_is "pth" then Some ("pytorch", true)
  else if ext_is "bin" then Some ("pytorch-bin", true)
  else if ext_is "ckpt" then Some ("checkpoint", true)
  else if ext_is "pkl" || ext_is "pickle" then Some ("pickle", true)
  else None.
Definition classify_format (path : bytes) : option (string * bool) :=
  format_of (to_ascii_lowercase (after_last (λ c, c =? 46) path path)).

(** What [metadata] and [File::open] give; [fm_mtime] is seconds since the epoch. *)
Record FileMeta := mkFileMeta {
  fm_is_file : bool; fm_size : Z; fm_mtime : option Z; fm_content : option bytes;
}.
(** An entry of a directory, by its file type; [EUnknown] is one whose type cannot be
    read, and a directory may not be readable. *)
Inductive DirEntry :=
  | EFile (name : bytes) (meta : option FileMeta)
  | EDir (name : bytes) (entries : option (list DirEntry))
  | ESymlink
  | EOther
  | EUnknown.

Section models.
(** The digest, in sixteen hexadecimal digits, of a size and the samples that were
    read. *)
Context (hash_sample : Z → option bytes → option bytes → string).

(** [read_exact] of [n] bytes from the start: only if there are as many. *)
Definition read_head (n : Z) (b : bytes) : option bytes :=
  if n <=? Z.of_nat (length b) then Some (take (Z.to_nat n) b) else None.
Definition read_tail (n : Z) (b : bytes) : option bytes :=
  if n <=? Z.of_nat (length b) then Some (drop (length b - Z.to_nat n) b) else None.

Definition fingerprint (m : FileMeta) (size : Z) : string :=
  match fm_content m with
  | None => ""
  | Some b =>
      hash_sample size (read_head (Z.min SAMPLE size) b)
        (if SAMPLE <? size then read_tail (Z.min SAMPLE size) b else None)
  end.

Definition model_at (path : bytes) (meta : option FileMeta) : option AiModel :=
  '(format, risky) ← classify_format path;
  m ← meta;
  if negb (fm_is_file m) then None
  else Some (mkAiModel (string_of_bytes path) format risky (fm_size m) (default 0 (fm_mtime m))
               (fingerprint m (fm_size m))).

(** [dir.join(name)] for a relative name. *)
Definition join_path (dir name : bytes) : bytes :=
  if bool_decide (dir = []) || bool_decide (last dir = Some 47) then dir ++ name else dir ++ [47] ++ name.

(** One entry of the walk of a directory at [depth]: the file budget that is left and
    what was found. *)
Fixpoint walk_entry (dir : bytes) (depth : nat) (acc : nat * list AiModel) (e : DirEntry) : nat * list AiModel :=
  let '(remaining, out) := acc in
  match remaining with
  | O => acc
  | S rest =>
      match e with
      | EDir name (Some entries) =>
          if bool_decide (MAX_DEPTH < S depth)%nat then acc
          else foldl (walk_entry (join_path dir name) (S depth)) acc entries
      | EFile name meta =>
          match model_at (join_path dir name) meta with
          | Some m => (rest, out ++ [m])
          | None => acc
          end
      | _ => acc
      end
  end.
Definition walk (dir : bytes) (entries : option (list DirEntry)) (acc : nat * list AiModel) :
    nat * list AiModel :=
  match acc.1, entries with
  | S _, Some entries => foldl (walk_entry dir 0) acc entries
  | _, _ => acc
  end.

(** The relative model directories under the home, and the fixed ones. *)
Definition HOME_MODEL_DIRS : list string :=
  [".ollama/models"; ".cache/huggingface/hub"; ".cache/lm-studio/models"; ".lmstudio/models";
   ".cache/gpt4all"; ".cache/torch"; ".cache/whisper"; "Library/Application Support/nomic.ai/GPT4All"].
Definition FIXED_MODEL_DIRS : list string :=
  ["/usr/share/ollama/.ollama/models"; "/opt/models"; "/models"; "/var/lib/ollama/models"].
Definition default_model_dirs (home : option bytes) (extra : list bytes) : list bytes :=
  (match home with Some h => (λ d, join_path h (as_bytes d)) <$> HOME_MODEL_DIRS | None => [] end)
  ++ (as_bytes <$> FIXED_MODEL_DIRS) ++ filter (λ d, d ≠ []) extra.

(** [FsAiModelProvider::models], with what [read_dir] gives for each directory. *)
Definition fs_models (read_dir : bytes → option (list DirEntry)) (dirs : list bytes) : list AiModel :=
  sort_by (λ a b, string_cmp (md_path a) (md_path b))
    (foldl (λ acc d, walk d (read_dir d) acc) (MAX_FILES, []) dirs).2.
End models.

(** * Active sweep and model files: theorems

    A block expands to exactly its addresses and never to more than the cap; the walk
    finds exactly the model files within its bounds. *)

(** ** Addresses *)

Lemma u32_range ip : is_ipv4 ip → 0 ≤ u32_of_ipv4 ip < 2 ^ 32.
Proof. destruct ip as [[[a b] c] d]. unfold is_ipv4, is_octet, u32_of_ipv4. lia. Qed.

Lemma u32_ipv4 x : 0 ≤ x < 2 ^ 32 → is_ipv4 (ipv4_of_u32 x) ∧ u32_of_ipv4 (ipv4_of_u32 x) = x.
Proof.
  intros Hx. unfold ipv4_of_u32, is_ipv4, is_octet, u32_of_ipv4.
  split; [split_and!; try lia; apply Z.mod_pos_bound; lia|].
  Z.div_mod_to_equations. lia.
Qed.

Lemma ipv4_u32 ip : is_ipv4 ip → ipv4_of_u32 (u32_of_ipv4 ip) = ip.
Proof.
  destruct ip as [[[a b] c] d]. unfold is_ipv4, is_octet, ipv4_of_u32, u32_of_ipv4. intros.
  f_equal; [f_equal; [f_equal|]|]; Z.div_mod_to_equations; lia.
Qed.

(** The network of a block is its first address. *)
Lemma network_mask x k :
  0 ≤ x < 2 ^ 32 → 0 ≤ k ≤ 32 →
  Z.land x (wrap_u32 (Z.lnot (wrap_u32 (wrap_u32 (2 ^ k) - 1)))) = x / 2 ^ k * 2 ^ k.
Proof.
  intros Hx Hk. assert (wrap_u32 (wrap_u32 (2 ^ k) - 1) = Z.ones k) as ->.
  { rewrite Z.ones_equiv. unfold wrap_u32, u32_modulus. destruct (decide (k = 32)) as [->|Hne]; [done|].
    assert (0 < 2 ^ k) by (apply Z.pow_pos_nonneg; lia).
    assert (2 ^ k < 2 ^ 32) by (apply Z.pow_lt_mono_r; lia).
    rewrite (Z.mod_small (2 ^ k)) by lia. rewrite Z.mod_small; lia. }
  rewrite <-Z.shiftl_mul_pow2, <-Z.shiftr_div_pow2 by lia.
  unfold wrap_u32, u32_modulus. rewrite <-Z.land_ones by lia. apply Z.bits_inj'. intros n Hn.
  rewrite Z.land_spec, Z.land_spec, Z.lnot_spec by lia.
  rewrite !Z.testbit_ones_nonneg by lia.
  destruct (decide (n < 32)) as [Hlt|Hge].
  - rewrite (proj2 (Z.ltb_lt n 32)) by done. rewrite andb_true_r.
    destruct (decide (n < k)).
    + rewrite (proj2 (Z.ltb_lt n k)), Z.shiftl_spec_low by done. by rewrite andb_false_r.
    + rewrite (proj2 (Z.ltb_ge n k)) by lia. rewrite Z.shiftl_spec, Z.shiftr_spec by lia.
      rewrite andb_true_r. f_equal. lia.
  - rewrite (proj2 (Z.ltb_ge n 32)), andb_false_r, andb_false_r by lia.
    rewrite Z.shiftl_spec, Z.shiftr_spec by lia. replace (n - k + k) with n by lia.
    symmetry. apply (Z.bits_above_log2 x n); [lia|].
    destruct (decide (x = 0)) as [->|]; [cbn; lia|]. apply Z.log2_lt_pow2; [lia|].
    apply Z.lt_le_trans with (2 ^ 32); [lia|]. apply Z.pow_le_mono_r; lia.
Qed.

Lemma parse_printed_ipv4 ip : is_ipv4 ip → parse_ipv4 (as_bytes (dotted_quad ip)) = Some ip.
Proof.
  intros Hip%parse_dotted_quad. revert Hip. unfold parse_ip, read_ip_addr, parse_ipv4.
  destruct (read_ipv4_addr _) as [[ip' rest]|]; cbn.
  - case_bool_decide as Hr; [|done]. subst. by intros [= <-].
  - destruct (read_ipv6_addr _) as [[ip' rest]|]; cbn; [|done]. by case_bool_decide.
Qed.

(** A printed prefix length is read back; there are 33 of them. *)
Lemma parse_printed_prefix p : 0 ≤ p ≤ 32 → parse_u32 (as_bytes (show_Z p)) = Some p.
Proof.
  intros Hp. assert (forallb (λ p, bool_decide (parse_u32 (as_bytes (show_Z p)) = Some p)) (Z.of_nat <$> seq 0 33) = true)
    as Hall by by vm_compute.
  rewrite forallb_forall in Hall. apply (bool_decide_eq_true_1 (parse_u32 _ = _)), Hall, list_elem_of_In, list_elem_of_fmap.
  exists (Z.to_nat p). split; [lia|]. apply elem_of_seq. lia.
Qed.

(** A dotted quad has no slash. *)
Lemma quad_no_slash ip rest :
  is_ipv4 ip → split_first 47 (as_bytes (dotted_quad ip) ++ 47 :: rest) = Some (as_bytes (dotted_quad ip), rest).
Proof.
  intros Hip. assert (Forall (λ c, c ≠ 47) (as_bytes (dotted_quad ip))) as Hall.
  { destruct ip as [[[a b] c] d]. destruct Hip as (Ha & Hb & Hc & Hd). unfold dotted_quad.
    rewrite !as_bytes_app. assert (∀ z, is_octet z → Forall (λ c, c ≠ 47) (as_bytes (show_Z z))) as Hz.
    { intros z Hz%octets_ok. unfold octet_ok in Hz. rewrite !andb_true_iff in Hz. destruct Hz as [[[[Hz _] _] _] _].
      apply Forall_forall. intros x Hx -> . rewrite forallb_forall in Hz.
      specialize (Hz 47 (proj1 (list_elem_of_In _ _) Hx)). by apply bool_decide_eq_true in Hz. }
    repeat apply Forall_app_2; auto; by repeat constructor. }
  induction Hall as [|c l Hc _ IH]; [done|]. cbn. rewrite (proj2 (Z.eqb_neq _ _)) by done. by rewrite IH.
Qed.

(** ** Expansion *)

Lemma addresses_elem network n ip :
  0 ≤ network → network + n ≤ 2 ^ 32 →
  ip ∈ addresses network n ↔ is_ipv4 ip ∧ network ≤ u32_of_ipv4 ip < network + n.
Proof.
  intros H0 Hn. unfold addresses. rewrite list_elem_of_fmap. setoid_rewrite elem_of_seq. unfold wrap_u32, u32_modulus. split.
  - intros (i & -> & Hi). rewrite (Z.mod_small (Z.of_nat i)), Z.mod_small by lia.
    destruct (u32_ipv4 (network + Z.of_nat i)) as [Hip ->]; [lia|]. split; [done|lia].
  - intros (Hip & Hr). exists (Z.to_nat (u32_of_ipv4 ip - network)). split; [|lia].
    rewrite Z2Nat.id, (Z.mod_small (u32_of_ipv4 ip - network)) by lia.
    replace (network + (u32_of_ipv4 ip - network)) with (u32_of_ipv4 ip) by lia.
    rewrite Z.mod_small by lia. by rewrite ipv4_u32.
Qed.

Lemma addresses_nodup network n : 0 ≤ network → network + n ≤ 2 ^ 32 → NoDup (addresses network n).
Proof.
  intros H0 Hn. unfold addresses. apply NoDup_fmap_2_strong; [|apply NoDup_seq].
  intros i j [_ Hi]%elem_of_seq [_ Hj]%elem_of_seq Heq. unfold wrap_u32, u32_modulus in Heq.
  apply (f_equal u32_of_ipv4) in Heq.
  rewrite (Z.mod_small (Z.of_nat i)), (Z.mod_small (Z.of_nat j)), !Z.mod_small in Heq by lia.
  destruct (u32_ipv4 (network + Z.of_nat i)) as [_ E1]; [lia|].
  destruct (u32_ipv4 (network + Z.of_nat j)) as [_ E2]; [lia|]. rewrite E1, E2 in Heq. lia.
Qed.

Lemma block_range x k : 0 ≤ k → (∀ y, x / 2 ^ k * 2 ^ k ≤ y < x / 2 ^ k * 2 ^ k + 2 ^ k ↔ y / 2 ^ k = x / 2 ^ k).
Proof.
  intros Hk y. assert (0 < 2 ^ k) by (apply Z.pow_pos_nonneg; lia). split.
  - intros Hy. symmetry. apply (Z.div_unique_pos y (2 ^ k) (x / 2 ^ k) (y - x / 2 ^ k * 2 ^ k)); lia.
  - intros Hy. pose proof (Z.div_mod y (2 ^ k) ltac:(lia)). pose proof (Z.mod_pos_bound y (2 ^ k) ltac:(lia)). lia.
Qed.

(** A block expands to exactly its addresses.  The addresses of [a.b.c.d/p] are,
    each once, those that agree with [a.b.c.d] on the first [p] bits; a block larger
    than the cap expands to nothing, and whatever the text, never are there more than
    the cap. *)
Theorem expand_cidr_exact ip p max_hosts (text : bytes) :
  is_ipv4 ip → 0 ≤ p ≤ 32 →
  let block := expand_cidr (as_bytes (dotted_quad ip) ++ 47 :: as_bytes (show_Z p)) max_hosts in
  (if max_hosts <? 2 ^ (32 - p) then block = []
   else NoDup block ∧
     ∀ a, a ∈ block ↔ is_ipv4 a ∧ u32_of_ipv4 a / 2 ^ (32 - p) = u32_of_ipv4 ip / 2 ^ (32 - p)) ∧
  (0 ≤ max_hosts → Z.of_nat (length (expand_cidr text max_hosts)) ≤ max_hosts).
Proof.
  intros Hip Hp block. split.
  - unfold block, expand_cidr. rewrite quad_no_slash, parse_printed_ipv4, parse_printed_prefix by done.
    rewrite (proj2 (Z.ltb_ge 32 p)) by lia. rewrite Z.shiftl_1_l.
    destruct (max_hosts <? 2 ^ (32 - p)); [done|].
    pose proof (u32_range ip Hip) as Hx. rewrite network_mask by lia.
    set (k := 32 - p) in *. assert (0 < 2 ^ k) by (apply Z.pow_pos_nonneg; lia).
    assert (0 ≤ u32_of_ipv4 ip / 2 ^ k * 2 ^ k ∧ u32_of_ipv4 ip / 2 ^ k * 2 ^ k + 2 ^ k ≤ 2 ^ 32) as [Hn0 Hn1].
    { split; [apply Z.mul_nonneg_nonneg; [apply Z.div_pos|]; lia|].
      assert (u32_of_ipv4 ip / 2 ^ k < 2 ^ p) as Hlt.
      { apply Z.div_lt_upper_bound; [lia|]. rewrite <-Z.pow_add_r by lia. replace (k + p) with 32 by lia. lia. }
      replace 32 with (p + k) by lia. rewrite Z.pow_add_r by lia. nia. }
    split; [by apply addresses_nodup|]. intros a. rewrite addresses_elem by done. by rewrite block_range by lia.
  - intros Hmax. unfold expand_cidr. destruct (split_first 47 text) as [[addr prefix]|]; [|done].
    destruct (parse_ipv4 addr) as [base|]; [|done]. destruct (parse_u32 prefix) as [q|]; [|done].
    destruct (32 <? q); [done|]. destruct (Z.ltb_spec max_hosts (Z.shiftl 1 (32 - q))); [done|].
    unfold addresses. rewrite length_fmap, length_seq. lia.
Qed.

(** ** The walk *)

Section walk.
Context (hash_sample : Z → option bytes → option bytes → string).

(** Every model file at or below an entry, in walk order, without the file budget. *)
Fixpoint models_in (dir : bytes) (depth : nat) (e : DirEntry) : list AiModel :=
  match e with
  | EDir name (Some entries) =>
      if bool_decide (MAX_DEPTH < S depth)%nat then []
      else mbind (models_in (join_path dir name) (S depth)) entries
  | EFile name meta => option_list (model_at hash_sample (join_path dir name) meta)
  | _ => []
  end.

Section entry_ind.
Context (P : DirEntry → Prop).
Hypothesis HFile : ∀ name meta, P (EFile name meta).
Hypothesis HDir : ∀ name es, Forall P es → P (EDir name (Some es)).
Hypothesis HNone : ∀ name, P (EDir name None).
Hypothesis HSymlink : P ESymlink.
Hypothesis HOther : P EOther.
Hypothesis HUnknown : P EUnknown.

Fixpoint entry_ind' (e : DirEntry) : P e :=
  match e with
  | EFile name meta => HFile name meta
  | EDir name (Some es) =>
      HDir name es ((fix go (es : list DirEntry) : Forall P es :=
        match es with
        | [] => Forall_nil_2 P
        | e :: es => Forall_cons_2 P e es (entry_ind' e) (go es)
        end) es)
  | EDir name None => HNone name
  | ESymlink => HSymlink
  | EOther => HOther
  | EUnknown => HUnknown
  end.
End entry_ind.

(** What a budget lets through. *)
Definition within (acc : nat * list AiModel) (ms : list AiModel) : nat * list AiModel :=
  (acc.1 - length ms, acc.2 ++ take acc.1 ms)%nat.

Lemma within_app acc ms1 ms2 : within (within acc ms1) ms2 = within acc (ms1 ++ ms2).
Proof.
  destruct acc as [n out]. unfold within. cbn. rewrite length_app, <-app_assoc, take_app. f_equal. lia.
Qed.
Lemma within_nil acc : within acc [] = acc.
Proof. destruct acc as [n out]. unfold within. cbn. rewrite take_nil, app_nil_r. f_equal. lia. Qed.

Lemma walk_entries (f : nat * list AiModel → DirEntry → nat * list AiModel) g es :
  Forall (λ e, ∀ acc, f acc e = within acc (g e)) es →
  ∀ acc, foldl f acc es = within acc (es ≫= g).
Proof.
  induction 1 as [|e es He _ IH]; intros acc; [by rewrite within_nil|].
  cbn [foldl mbind list_bind]. rewrite He, IH. apply within_app.
Qed.

Lemma walk_entry_spec e dir depth acc :
  walk_entry hash_sample dir depth acc e = within acc (models_in dir depth e).
Proof.
  revert dir depth acc. induction e as [name meta|name es IH|name| | |] using entry_ind'; intros dir depth [n out].
  - cbn [walk_entry models_in]. destruct (model_at _ _ _) as [m|]; cbn [option_list].
    + destruct n; unfold within; cbn; [by rewrite app_nil_r|]. rewrite take_nil. f_equal. lia.
    + rewrite within_nil. by destruct n.
  - cbn [walk_entry models_in]. case_bool_decide; [rewrite within_nil; by destruct n|].
    rewrite (walk_entries _ (models_in (join_path dir name) (S depth))).
    + destruct n; [|done]. unfold within. cbn. by rewrite app_nil_r.
    + eapply Forall_impl; [exact IH|]. intros e He acc. apply He.
  - cbn. rewrite within_nil. by destruct n.
  - cbn. rewrite within_nil. by destruct n.
  - cbn. rewrite within_nil. by destruct n.
  - cbn. rewrite within_nil. by destruct n.
Qed.

(** The model inventory is what an unbounded walk finds, cut at the budget.  The
    models reported are the first 512, in the order of the walk, of the recognized
    regular files at most six directories below the model directories, symbolic links
    not followed, sorted by path; so all of them when there are no more than that. *)
Theorem model_inventory_exact read_dir dirs :
  fs_models hash_sample read_dir dirs =
  sort_by (λ a b, string_cmp (md_path a) (md_path b))
    (take MAX_FILES (d ← dirs; e ← default [] (read_dir d); models_in d 0 e)).
Proof.
  unfold fs_models. f_equal.
  assert (∀ acc, foldl (λ acc d, walk hash_sample d (read_dir d) acc) acc dirs =
    within acc (d ← dirs; e ← default [] (read_dir d); models_in d 0 e)) as ->; [|done].
  induction dirs as [|d dirs IH]; intros acc; [by rewrite within_nil|].
  cbn [foldl mbind list_bind]. rewrite IH, <-within_app. f_equal. unfold walk.
  destruct acc as [n out]. cbn [fst]. destruct n as [|n].
  { unfold within. cbn. by rewrite app_nil_r. }
  destruct (read_dir d) as [es|]; cbn [default from_option]; [|by rewrite within_nil].
  apply walk_entries. apply Forall_forall. intros e _ acc. apply walk_entry_spec.
Qed.
End walk.
