(* ===== verification/Snapshot.v ===== *)
(** * The snapshot service

    [crates/substrate/src/files.rs] and [lib.rs]: the tables every snapshot module reads.
    The service reads the host once, when it is built, and answers every query from what
    it read then; what the host gives to that one reading is [HostView]. *)

From Stdlib Require Import ZArith.
From stdpp Require Import base tactics gmap strings list.
From S2P Require Import Prelude Transport Scheduler Keys Version CveSource Order Text Ocsf Substrate NetMon.
From S2P Require Import Packages Listeners Sweep.

Local Open Scope Z_scope.

(** ** File states (files.rs) *)

Record FileState := mkFileState { fs_path : string; fs_sha256 : string; fs_exists : bool }.
Definition file_present (path sha256 : string) : FileState := mkFileState path sha256 true.
Definition file_deleted (path : string) : FileState := mkFileState path "" false.

(** [default_file_provider().files()]: the same two files on every host. *)
Definition default_files : list FileState :=
  [file_present "/etc/ssh/sshd_config" "1111111111111111111111111111111111111111111111111111111111111111";
   file_present "/etc/passwd" "3333333333333333333333333333333333333333333333333333333333333333"].

(** ** Host and operating system (lib.rs) *)

(** [s.trim_matches(c)]. *)
Definition trim_char (c : Z) (s : bytes) : bytes := reverse (trim_start_char c (reverse (trim_start_char c s))).

(** One line of [/etc/os-release]; 34 is the quotation mark. *)
Definition os_release_line (acc : bytes * bytes) (line : bytes) : bytes * bytes :=
  match strip_prefix (as_bytes "NAME=") line with
  | Some v => (trim_char 34 v, acc.2)
  | None =>
      match strip_prefix (as_bytes "VERSION_ID=") line with
      | Some v => (acc.1, trim_char 34 v)
      | None => acc
      end
  end.
Definition read_os_release (content : option bytes) : string * string :=
  prod_map string_of_bytes string_of_bytes
    (foldl os_release_line (as_bytes "unknown", as_bytes "0") (text_lines (default [] content))).

Definition nonempty (o : option bytes) : option bytes := o ≫= λ s, if bool_decide (s = []) then None else Some s.
Definition first_some {A} (l : list (option A)) : option A := head (omap id l).
(** [/etc/hostname], then the environment, then the [hostname] command. *)
Definition read_hostname (etc_hostname env_hostname env_computername command : option bytes) : string :=
  match first_some [nonempty (trim <$> etc_hostname); nonempty env_hostname; nonempty env_computername;
                    nonempty (trim <$> command)] with
  | Some h => string_of_bytes h
  | None => "unknown-host"
  end.

(** ** The snapshot *)

Record StubSnapshot := mkStubSnapshot {
  ss_hostname : string; ss_os : string; ss_os_version : string;
  ss_packages : list Package; ss_files : list FileState; ss_listeners : list Listener;
  ss_ai_runtimes : list AiRuntime; ss_ai_models : list AiModel; ss_network_hosts : list HostResult;
}.

(** What the host gives when the service is built. *)
Record HostView := mkHostView {
  hv_hostname : string; hv_os : string * string; hv_packages : list Package;
  hv_listeners : list Listener; hv_ai_models : list AiModel; hv_network_hosts : list HostResult;
}.

Section snapshot.
Context {V : Type} `{JsonValue V, JsonBuild V}.
Context (from_str : bytes → option V).

(** [with_all_providers]; [http_get_json] is what the runtimes answer. *)
Definition with_all_providers (http_get_json : Z → string → option bytes) (files : list FileState)
    (h : HostView) : StubSnapshot :=
  mkStubSnapshot (hv_hostname h) (hv_os h).1 (hv_os h).2 (hv_packages h) files (hv_listeners h)
    (discover_ai_runtimes from_str http_get_json (hv_listeners h)) (hv_ai_models h) (hv_network_hosts h).

Definition for_this_platform (http_get_json : Z → string → option bytes) (h : HostView) : StubSnapshot :=
  with_all_providers http_get_json default_files h.

Definition json_opt {A} (f : A → V) (o : option A) : V := match o with Some a => f a | None => json_null end.

Definition package_row (p : Package) : V :=
  json_obj [("name", json_str (pk_name p)); ("version", json_str (pk_version p));
            ("source", json_str (pk_source p)); ("libraries", json_arr (json_str <$> pk_libraries p))].
Definition file_row (f : FileState) : V :=
  json_obj [("path", json_str (fs_path f)); ("sha256", json_str (fs_sha256 f));
            ("exists", json_bool (fs_exists f))].
Definition listener_row (l : Listener) : V :=
  json_obj [("proto", json_str (ls_proto l)); ("local_addr", json_str (ls_local_addr l));
            ("port", json_num (ls_port l)); ("pid", json_opt json_num (ls_pid l));
            ("process", json_opt json_str (ls_process l))].
Definition ai_runtime_row (r : AiRuntime) : V :=
  json_obj [("runtime", json_str (ai_runtime r)); ("process", json_opt json_str (ai_process r));
            ("pid", json_opt json_num (ai_pid r)); ("proto", json_str (ai_proto r));
            ("bind_addr", json_str (ai_bind_addr r)); ("port", json_num (ai_port r));
            ("exposed", json_bool (ai_exposed r)); ("version", json_opt json_str (ai_version r));
            ("models", json_arr (json_str <$> ai_models r))].
Definition ai_model_row (m : AiModel) : V :=
  json_obj [("path", json_str (md_path m)); ("format", json_str (md_format m));
            ("risky", json_bool (md_risky m)); ("size", json_num (md_size m));
            ("mtime", json_num (md_mtime m)); ("fingerprint", json_str (md_fingerprint m))].
Definition network_host_row (h : HostResult) : V :=
  json_obj [("ip", json_str (hr_ip h)); ("hostname", json_null); ("mac", json_null);
            ("responded_via", json_str "tcp"); ("ttl", json_null);
            ("open_ports", json_arr ((λ p, json_obj [("port", json_num p); ("proto", json_str "tcp");
               ("service", json_null); ("banner", json_null)]) <$> hr_open_ports h));
            ("cert_subjects", json_arr []); ("snmp_sysdescr", json_null); ("os_guess", json_null);
            ("last_seen", json_null)].

(** [query]; [None] is the error for an unknown table. *)
Definition query (s : StubSnapshot) (table : string) : option (list V) :=
  let is_table (t : string) := bool_decide (table = t) in
  if is_table "os_version" then
    Some [json_obj [("name", json_str (ss_os s)); ("version", json_str (ss_os_version s))]]
  else if is_table "packages" then Some (package_row <$> ss_packages s)
  else if is_table "files" then Some (file_row <$> ss_files s)
  else if is_table "listeners" then Some (listener_row <$> ss_listeners s)
  else if is_table "ai_runtimes" then Some (ai_runtime_row <$> ss_ai_runtimes s)
  else if is_table "ai_models" then Some (ai_model_row <$> ss_ai_models s)
  else if is_table "network_hosts" then Some (network_host_row <$> ss_network_hosts s)
  else None.

Definition snapshot_device (s : StubSnapshot) : Device :=
  mkDevice (ss_hostname s) (ss_os s) (ss_os_version s).
End snapshot.
