(* ===== verification/Manager.v ===== *)
(** * The module manager and the resource governor

    [crates/core/src/lib.rs]: the lifecycle of the registered modules and the periodic
    refresh scheduler; [crates/core/src/resource.rs]: the budget and the throttling
    decision.  Time is in nanoseconds; how much of it passes between two operations is
    an oracle. *)

From Stdlib Require Import ZArith SpecFloat.
From stdpp Require Import base tactics gmap strings list.
From S2P Require Import Prelude Float32 Transport Scheduler Keys Version CveSource Text Substrate.

Local Open Scope Z_scope.

(** ** Modules *)

(** [trait Module], on a module and what it shares with the others (the emitter, the
    bus). *)
Class AgentModule (C E T : Type) := {
  mod_id : T → string;
  mod_init : C → M (T * E) unit;
  mod_start : M (T * E) unit;
  mod_stop : M (T * E) unit;
  mod_health : T → bool * string;
  mod_refresh : M (T * E) unit;
  mod_refresh_interval : T → option Z;
  mod_set_refresh_interval : option Z → T → T;
}.

Record ModuleManager (C E T : Type) := mkManager { mgr_ctx : C; modules : list T; shared : E }.
Arguments mkManager {C E T}.
Arguments mgr_ctx {C E T}.
Arguments modules {C E T}.
Arguments shared {C E T}.

Section manager.
Context {C E T : Type} `{!AgentModule C E T}.

Definition manager_new (ctx : C) (e : E) : ModuleManager C E T := mkManager ctx [] e.
Definition register (m : T) (mgr : ModuleManager C E T) : ModuleManager C E T :=
  mkManager (mgr_ctx mgr) (modules mgr ++ [m]) (shared mgr).

(** [for m in self.modules.iter_mut() { f(m).await?; }]. *)
Fixpoint each_module (f : M (T * E) unit) (ms : list T) (e : E) : (list T * E) * Result unit :=
  match ms with
  | [] => (([], e), Ok tt)
  | m :: ms =>
      match f (m, e) with
      | ((m, e), Ok _) =>
          let '((ms, e), r) := each_module f ms e in ((m :: ms, e), r)
      | ((m, e), r) => ((m :: ms, e), r)
      end
  end.

Definition on_modules (f : C → M (T * E) unit) : M (ModuleManager C E T) unit := λ mgr,
  let '((ms, e), r) := each_module (f (mgr_ctx mgr)) (modules mgr) (shared mgr) in
  (mkManager (mgr_ctx mgr) ms e, r).

Definition init_all : M (ModuleManager C E T) unit := on_modules mod_init.
Definition start_all : M (ModuleManager C E T) unit := on_modules (λ _, mod_start).
Definition stop_all : M (ModuleManager C E T) unit := on_modules (λ _, mod_stop).
Definition manager_health (mgr : ModuleManager C E T) : list (string * (bool * string)) :=
  (λ m, (mod_id m, mod_health m)) <$> modules mgr.

(** [Duration::from_secs]. *)
Definition from_secs (secs : Z) : Z := secs * 10 ^ 9.

Definition apply_refresh_overrides (overrides : gmap string Z) (mgr : ModuleManager C E T) :
    ModuleManager C E T :=
  mkManager (mgr_ctx mgr)
    ((λ m, match overrides !! mod_id m with
           | Some secs =>
               mod_set_refresh_interval (if 0 <? secs then Some (from_secs secs) else None) m
           | None => m
           end) <$> modules mgr)
    (shared mgr).

(** ** The periodic scheduler *)

(** The nanoseconds that pass before the [n]-th read of the clock. *)
Class Elapse := elapse : nat → Z.
Context `{!Elapse}.

Record Entry := mkEntry { e_module : nat; e_interval : Z; e_due : Z }.
(** A refresh that was run: the module, when it began and when it was over. *)
Record Refresh := mkRefresh { r_module : nat; r_begin : Z; r_end : Z }.

Record Periodic := mkPeriodic {
  p_modules : list T;
  p_shared : E;
  p_schedule : list Entry;
  p_time : Z;
  p_reads : nat;
  p_log : list Refresh;
}.

(** [Instant::now()]. *)
Definition instant_now : M Periodic Z := λ s,
  let t := p_time s + elapse (p_reads s) in
  (mkPeriodic (p_modules s) (p_shared s) (p_schedule s) t (S (p_reads s)) (p_log s), Ok t).

(** [tokio::time::sleep]: at least until then. *)
Definition sleep_until (due : Z) : M Periodic unit := λ s,
  let t := Z.max due (p_time s) + elapse (p_reads s) in
  (mkPeriodic (p_modules s) (p_shared s) (p_schedule s) t (S (p_reads s)) (p_log s), Ok tt).

Fixpoint make_schedule (i : nat) (ms : list T) : M Periodic (list Entry) :=
  match ms with
  | [] => mret []
  | m :: ms =>
      match mod_refresh_interval m with
      | None => make_schedule (S i) ms
      | Some iv =>
          now ← instant_now;
          due ← unwrap (instant_add now iv);
          rest ← make_schedule (S i) ms;
          mret (mkEntry i iv due :: rest)
      end
  end.

(** [min_by_key]: the first of the soonest. *)
Fixpoint soonest_from (k best : nat) (due : Z) (l : list Entry) : nat :=
  match l with
  | [] => best
  | e :: l => if e_due e <? due then soonest_from (S k) k (e_due e) l
              else soonest_from (S k) best due l
  end.
Definition soonest (l : list Entry) : option nat :=
  match l with [] => None | e :: l => Some (soonest_from 1 0 (e_due e) l) end.

(** [self.modules[i].refresh().await]. *)
Definition refresh_module (i : nat) : M Periodic unit := λ s,
  match p_modules s !! i with
  | None => (s, Panicked)
  | Some m =>
      let '((m, e), r) := mod_refresh (m, p_shared s) in
      (mkPeriodic (<[i := m]> (p_modules s)) e (p_schedule s) (p_time s) (p_reads s) (p_log s), r)
  end.

Definition log_refresh (i : nat) (t0 t1 : Z) : M Periodic unit := modify (λ s,
  mkPeriodic (p_modules s) (p_shared s) (p_schedule s) (p_time s) (p_reads s)
    (p_log s ++ [mkRefresh i t0 t1])).
Definition set_due (k : nat) (due : Z) : M Periodic unit := modify (λ s,
  mkPeriodic (p_modules s) (p_shared s)
    (alter (λ e, mkEntry (e_module e) (e_interval e) due) k (p_schedule s))
    (p_time s) (p_reads s) (p_log s)).

(** One turn of the loop; with nothing scheduled it idles. *)
Definition periodic_round : M Periodic unit :=
  o ← gets (λ s, soonest (p_schedule s));
  match o with
  | None => mret tt
  | Some k =>
      entry ← gets (λ s, p_schedule s !! k);
      e ← unwrap entry;
      now ← instant_now;
      (if now <? e_due e then sleep_until (e_due e) else mret tt);;
      began ← gets p_time;
      inspect (refresh_module (e_module e));;
      over ← instant_now;
      log_refresh (e_module e) began over;;
      due ← unwrap (instant_add over (e_interval e));
      set_due k due
  end.

Fixpoint rounds (n : nat) : M Periodic unit :=
  match n with 0%nat => mret tt | S n => periodic_round;; rounds n end.

(** [run_periodic], for as many turns as the daemon lets it run. *)
Definition run_periodic (n : nat) : M Periodic unit :=
  ms ← gets p_modules;
  schedule ← make_schedule 0 ms;
  modify (λ s, mkPeriodic (p_modules s) (p_shared s) schedule (p_time s) (p_reads s) (p_log s));;
  rounds n.
End manager.

Arguments Periodic : clear implicits.
Arguments rounds {C E T _ _}.
Arguments periodic_round {C E T _ _}.
Arguments run_periodic {C E T _ _}.

(** ** Resource budget *)

Record ResourceBudget := mkBudget { budget_cpu_pct : f32; budget_mem_pct : f32 }.
Definition budget_default : ResourceBudget := mkBudget (f32_of_Z 5) (f32_of_Z 5).

Definition parse_pct (raw : bytes) : option f32 :=
  match parse_f32 (trim raw) with
  | Some v => if f32_gt v f32_zero && f32_ge (f32_of_Z 100) v then Some v else None
  | None => None
  end.

(** [env] is [std::env::var]. *)
Definition budget_from_env (env : string → option bytes) : ResourceBudget :=
  mkBudget
    (default (budget_cpu_pct budget_default) (env "TORDA_CPU_BUDGET_PCT" ≫= parse_pct))
    (default (budget_mem_pct budget_default) (env "TORDA_MEM_BUDGET_PCT" ≫= parse_pct)).

Record ResourceUsage := mkUsage { use_cpu_pct : f32; use_rss_bytes : Z; use_mem_pct : f32 }.
Definition usage_zero : ResourceUsage := mkUsage f32_zero 0 f32_zero.

Inductive ThrottleDecision := Run | Throttle (over_factor : f32).

Definition f32_infinity : f32 := S754_infinity false.
Definition ratio (used budget : f32) : f32 :=
  if f32_ge f32_zero budget then f32_infinity else f32_div used budget.

Record ResourceGovernor := mkGovernor { gov_budget : ResourceBudget; gov_last : ResourceUsage }.
Definition governor_new (b : ResourceBudget) : ResourceGovernor := mkGovernor b usage_zero.

Definition throttle_decide (b : ResourceBudget) (u : ResourceUsage) : ThrottleDecision :=
  let over := f32_max (ratio (use_cpu_pct u) (budget_cpu_pct b)) (ratio (use_mem_pct u) (budget_mem_pct b)) in
  if f32_gt over f32_one then Throttle over else Run.

(** [sample] is what the platform's sampler reads. *)
Definition governor_poll (sample : ResourceUsage) : M ResourceGovernor ResourceUsage := λ g,
  (mkGovernor (gov_budget g) sample, Ok sample).
Definition governor_check (sample : ResourceUsage) : M ResourceGovernor ThrottleDecision :=
  u ← governor_poll sample;
  b ← gets gov_budget;
  mret (throttle_decide b u).

(** * The scheduler is fair, the governor throttles exactly above the budget *)

Local Open Scope Z_scope.

(** ** The soonest entry *)

Lemma soonest_from_spec k best due l pre b :
  length pre = k → pre !! best = Some b → e_due b = due → Forall (λ e, due ≤ e_due e) pre →
  ∃ j e, soonest_from k best due l = j ∧ (pre ++ l) !! j = Some e ∧
    Forall (λ e', e_due e ≤ e_due e') (pre ++ l).
Proof.
  revert k best due pre b. induction l as [|x l IH]; intros k best due pre b Hk Hb Hd Hall; cbn.
  { exists best, b. rewrite app_nil_r. by subst. }
  change (x :: l) with ([x] ++ l). rewrite app_assoc.
  assert (length (pre ++ [x]) = S k) as Hk' by (rewrite length_app; cbn; lia).
  destruct (Z.ltb_spec (e_due x) due).
  - apply (IH _ _ _ _ x); [done|by apply list_lookup_middle|done|]. apply Forall_app. split.
    + eapply Forall_impl; [exact Hall|]. cbn. lia.
    + by apply Forall_singleton.
  - apply (IH _ _ _ _ b); [done|by apply lookup_app_l_Some|done|]. apply Forall_app.
    split; [done|by apply Forall_singleton].
Qed.

Lemma soonest_spec l k :
  soonest l = Some k → ∃ e, l !! k = Some e ∧ Forall (λ e', e_due e ≤ e_due e') l.
Proof.
  destruct l as [|x l]; [done|]. cbn. intros [= <-].
  destruct (soonest_from_spec 1 0 (e_due x) l [x] x) as (j & e & Hj & ? & ?); [done..|by apply Forall_singleton|].
  cbn in Hj. rewrite Hj. eauto.
Qed.

Lemma alter_at {A : Type} (f : A → A) k (l : list A) x :
  l !! k = Some x → alter f k l = <[k := f x]> l.
Proof. revert k. induction l as [|y l IH]; intros [|k] Hk; cbn in *; simplify_eq; [done|]. f_equal. by apply IH. Qed.

(** ** One round *)

Section periodic.
Context {C E T : Type} `{!AgentModule C E T} `{!Elapse}.
Context (D I δ : Z).
Context (elapse_bounds : ∀ n, 0 ≤ elapse n ≤ D) (δ_pos : 0 < δ).
Context (refresh_returns : ∀ (m : T) (e : E), (mod_refresh (m, e)).2 ≠ Panicked).
Implicit Types (s : Periodic E T).

Definition entry_fits s (e : Entry) : Prop :=
  δ ≤ e_interval e ≤ I ∧ e_due e ≤ p_time s + I ∧ (e_module e < length (p_modules s))%nat.

(** The schedule of a run that still has [n] rounds before the clock runs out. *)
Definition fits s : Prop := Forall (entry_fits s) (p_schedule s) ∧ NoDup (e_module <$> p_schedule s).
Definition sched_ok (n : nat) s : Prop :=
  fits s ∧ p_time s + Z.of_nat n * (I + 3 * D) + I ≤ instant_max.

(** What the round does to the soonest entry. *)
Definition round_step s s' (k : nat) (e : Entry) (t0 t1 : Z) : Prop :=
  p_schedule s !! k = Some e ∧ Forall (λ e', e_due e ≤ e_due e') (p_schedule s) ∧
  e_due e ≤ t0 ∧ p_time s ≤ t0 ∧ t0 ≤ t1 ∧ t1 ≤ p_time s + I + 3 * D ∧ p_time s' = t1 ∧
  length (p_modules s') = length (p_modules s) ∧
  p_schedule s' = <[k := mkEntry (e_module e) (e_interval e) (t1 + e_interval e)]> (p_schedule s) ∧
  p_log s' = p_log s ++ [mkRefresh (e_module e) t0 t1].

Lemma refresh_module_spec i s :
  (i < length (p_modules s))%nat →
  ∃ ms e r, inspect (refresh_module (C := C) i) s =
      (mkPeriodic ms e (p_schedule s) (p_time s) (p_reads s) (p_log s), Ok r) ∧
    length ms = length (p_modules s).
Proof.
  intros [m Hm]%lookup_lt_is_Some. unfold inspect, refresh_module. rewrite Hm.
  pose proof (refresh_returns m (p_shared s)) as Hr.
  destruct (mod_refresh (m, p_shared s)) as [[m' e'] [u|err|]]; [..|done];
    do 3 eexists; (split; [reflexivity|apply length_insert]).
Qed.

Lemma periodic_round_spec n s :
  sched_ok (S n) s → p_schedule s ≠ [] →
  ∃ s' k e t0 t1, periodic_round (C := C) s = (s', Ok tt) ∧ round_step s s' k e t0 t1.
Proof.
  intros ([Hfit _] & Hmax) Hne. destruct (soonest (p_schedule s)) as [k|] eqn:Hk.
  2: { by destruct (p_schedule s). }
  pose proof (soonest_spec _ _ Hk) as (e & He & Hmin).
  rewrite Forall_forall in Hfit. destruct (Hfit e) as ([? ?] & ? & Hlen); [by eapply list_elem_of_lookup_2|].
  unfold periodic_round, mbind, M_bind, m_bind. cbn [gets fst snd]. rewrite Hk. cbn [gets]. rewrite He. cbn [unwrap m_ret].
  pose proof (elapse_bounds (p_reads s)). pose proof (elapse_bounds (S (p_reads s))).
  pose proof (elapse_bounds (S (S (p_reads s)))).
  rewrite Nat2Z.inj_succ, Z.mul_succ_l in Hmax.
  assert (0 ≤ Z.of_nat n * (I + 3 * D)) by (apply Z.mul_nonneg_nonneg; lia).
  change (instant_now s) with
    (mkPeriodic (p_modules s) (p_shared s) (p_schedule s) (p_time s + elapse (p_reads s)) (S (p_reads s)) (p_log s),
     Ok (p_time s + elapse (p_reads s))).
  cbn iota beta.
  assert (∃ s1, (if p_time s + elapse (p_reads s) <? e_due e then sleep_until (e_due e) else mret tt)
      (mkPeriodic (p_modules s) (p_shared s) (p_schedule s) (p_time s + elapse (p_reads s)) (S (p_reads s)) (p_log s))
      = (s1, Ok tt) ∧ p_modules s1 = p_modules s ∧ p_schedule s1 = p_schedule s ∧ p_log s1 = p_log s ∧
      e_due e ≤ p_time s1 ∧ p_time s ≤ p_time s1 ∧ p_time s1 ≤ p_time s + I + 2 * D)
    as (s1 & -> & Hms & Hsc & Hlog & ? & ? & ?).
  { unfold sleep_until. destruct (Z.ltb_spec (p_time s + elapse (p_reads s)) (e_due e));
      eexists; (split; [reflexivity|]); cbn; split_and!; try done; lia. }
  cbn [gets]. destruct (refresh_module_spec (e_module e) s1) as (ms & sh & r & -> & Hlen'); [by rewrite Hms|].
  rewrite Hsc, Hlog. pose proof (elapse_bounds (p_reads s1)).
  unfold instant_now, log_refresh, set_due, modify. cbn [p_time p_reads p_modules p_shared p_schedule p_log].
  unfold instant_add. rewrite (proj2 (Z.leb_le _ _)) by lia. cbn [unwrap m_ret].
  eexists _, k, e, (p_time s1), (p_time s1 + elapse (p_reads s1)). split; [reflexivity|].
  split_and!; [done|done|..]; cbn; try lia; try done.
  - by rewrite Hlen', Hms.
  - by rewrite (alter_at _ _ _ _ He).
Qed.

Lemma round_step_fst s s' k e t0 t1 :
  round_step s s' k e t0 t1 → e_module <$> p_schedule s' = e_module <$> p_schedule s.
Proof.
  intros (He & _ & _ & _ & _ & _ & _ & _ & -> & _). rewrite list_fmap_insert. cbn.
  apply list_insert_id. by rewrite list_lookup_fmap, He.
Qed.

Lemma round_step_ok n s s' k e t0 t1 : sched_ok (S n) s → round_step s s' k e t0 t1 → sched_ok n s'.
Proof.
  intros ([Hfit Hnd] & Hmax) Hs. pose proof (round_step_fst _ _ _ _ _ _ Hs) as Hids.
  destruct Hs as (He & _ & ? & ? & ? & ? & Ht & Hlen & Hsc & _). split; [split; [|by rewrite Hids]|].
  - rewrite Hsc. rewrite Forall_forall in Hfit. apply Forall_insert.
    + apply Forall_forall. intros x Hx. destruct (Hfit x Hx) as (? & ? & ?).
      unfold entry_fits. rewrite Hlen, Ht. split_and!; lia.
    + destruct (Hfit e) as (? & ? & ?); [by eapply list_elem_of_lookup_2|].
      unfold entry_fits. rewrite Hlen, Ht. cbn. split_and!; lia.
  - rewrite Nat2Z.inj_succ, Z.mul_succ_l in Hmax. lia.
Qed.

(** ** Fairness *)

(** How often an entry can still be the soonest before one that is due at [b], seen
    from a moment [t]. *)
Definition weight (t b d : Z) : nat := if b <? d then 0 else S (Z.to_nat ((b - Z.max d t) / δ)).

Lemma weight_drops t b d d' : d ≤ b → Z.max d t + δ ≤ d' → (weight t b d' < weight t b d)%nat.
Proof.
  intros Hd Hd'. unfold weight. rewrite (proj2 (Z.ltb_ge b d)) by done.
  destruct (Z.ltb_spec b d'); [lia|].
  assert ((b - Z.max d' t) / δ ≤ (b - Z.max d t) / δ - 1).
  { replace ((b - Z.max d t) / δ - 1) with ((b - Z.max d t + (-1) * δ) / δ) by (rewrite Z.div_add; lia).
    apply Z.div_le_mono; lia. }
  assert (0 ≤ (b - Z.max d' t) / δ) by (apply Z.div_pos; lia). lia.
Qed.

Definition weights (t b : Z) (l : list Entry) : nat := sum_list_with (λ e, weight t b (e_due e)) l.

Lemma weights_insert t b l k e e' :
  l !! k = Some e → (weight t b (e_due e') < weight t b (e_due e))%nat →
  (weights t b (<[k := e']> l) < weights t b l)%nat.
Proof.
  unfold weights. revert k. induction l as [|x l IH]; intros [|k] Hk Hw; cbn in *; simplify_eq; [lia|].
  apply (proj1 (Nat.add_lt_mono_l _ _ _)). by apply IH.
Qed.

Lemma weights_elem t b l e : e ∈ l → (weight t b (e_due e) ≤ weights t b l)%nat.
Proof. induction 1 as [x l|x y l _ IH]; cbn; unfold weights in *; lia. Qed.

Lemma weights_bound t b l m :
  (∀ e, e ∈ l → (weight t b (e_due e) ≤ m)%nat) → (weights t b l ≤ length l * m)%nat.
Proof.
  unfold weights. intros Hl. induction l as [|x l IH]; cbn; [lia|].
  pose proof (Hl x ltac:(by left)). specialize (IH (λ e He, Hl e ltac:(by right))). lia.
Qed.

(** The rounds of a run, one after the other. *)
Inductive steps : nat → Periodic E T → Periodic E T → Prop :=
  | steps_nil s : steps 0 s s
  | steps_cons n s s1 s2 k e t0 t1 :
      fits s → round_step s s1 k e t0 t1 → steps n s1 s2 → steps (S n) s s2.

Lemma rounds_steps n s :
  sched_ok n s → p_schedule s ≠ [] → ∃ s', rounds (C := C) n s = (s', Ok tt) ∧ steps n s s'.
Proof.
  revert s. induction n as [|n IH]; intros s Hok Hne; [exists s; split; [done|constructor]|].
  destruct (periodic_round_spec n s Hok Hne) as (s1 & k & e & t0 & t1 & Hr & Hs).
  destruct (IH s1) as (s2 & Hr2 & Hs2); [by eapply round_step_ok|..].
  { apply round_step_fst in Hs. intros Hnil. rewrite Hnil in Hs. by destruct (p_schedule s). }
  exists s2. split; [|econstructor; [apply Hok|done..]]. cbn. unfold mbind, M_bind, m_bind. by rewrite Hr.
Qed.

Lemma steps_fst n s s' : steps n s s' → e_module <$> p_schedule s' = e_module <$> p_schedule s.
Proof. induction 1; [done|]. etransitivity; [done|by eapply round_step_fst]. Qed.
Lemma steps_log n s s' : steps n s s' → ∃ new, p_log s' = p_log s ++ new ∧ length new = n.
Proof.
  induction 1 as [s|n s s1 s2 k e t0 t1 _ Hs _ (new & Hnew & Hl)]; [exists []; by rewrite app_nil_r|].
  destruct Hs as (_ & _ & _ & _ & _ & _ & _ & _ & _ & Hlog). exists (mkRefresh (e_module e) t0 t1 :: new).
  rewrite Hnew, Hlog, <-app_assoc. cbn. by rewrite Hl.
Qed.
Lemma steps_split a b s s' : steps (a + b) s s' → ∃ s1, steps a s s1 ∧ steps b s1 s'.
Proof.
  revert s. induction a as [|a IH]; cbn; intros s Hs; [exists s; split; [constructor|done]|].
  inversion Hs as [|? ? s1 ? k e t0 t1 Hok Hr Hrest]; subst. destruct (IH _ Hrest) as (s2 & Ha & Hb).
  exists s2. split; [by econstructor|done].
Qed.

(** Until the entry [b] is refreshed, every round uses up a unit of weight. *)
Lemma refreshed_within t b n s s' :
  steps n s s' → b ∈ p_schedule s → t ≤ p_time s → (weights t (e_due b) (p_schedule s) ≤ n)%nat →
  ∃ new r, p_log s' = p_log s ++ new ∧ r ∈ new ∧ r_module r = e_module b.
Proof.
  induction 1 as [s|n s s1 s2 k e t0 t1 Hok Hs Hrest IH]; intros Hb Ht Hw.
  { apply (weights_elem t (e_due b)) in Hb. unfold weight in Hb at 1.
    rewrite Z.ltb_irrefl in Hb. lia. }
  destruct (steps_log _ _ _ Hrest) as (new & Hnew & _).
  destruct Hs as (He & Hmin & Hdue & Htime & H01 & _ & Ht1 & _ & Hsc & Hlog).
  rewrite Hlog, <-app_assoc in Hnew.
  destruct (decide (e_module e = e_module b)) as [Heq|Hneq].
  { exists ([mkRefresh (e_module e) t0 t1] ++ new), (mkRefresh (e_module e) t0 t1).
    split_and!; [done|by left|done]. }
  destruct Hok as [Hfit _]. rewrite Forall_forall in Hfit, Hmin.
  destruct (Hfit e) as ([Hiv _] & _ & _); [by eapply list_elem_of_lookup_2|].
  apply list_elem_of_lookup_1 in Hb as [j Hj].
  assert (k ≠ j) as Hkj by (intros ->; congruence).
  destruct IH as (new' & r & Hl & Hr & Hm).
  - rewrite Hsc. apply (list_elem_of_lookup_2 _ j). by rewrite list_lookup_insert_ne.
  - lia.
  - rewrite Hsc. eapply Nat.lt_succ_r, Nat.lt_le_trans; [|exact Hw]. apply (weights_insert _ _ _ _ e); [done|].
    apply weight_drops; [apply Hmin; by eapply list_elem_of_lookup_2|cbn; lia].
  - rewrite Hlog, <-app_assoc in Hl. eexists _, r. split_and!; [exact Hl|by right|done].
Qed.

(** Enough rounds for everyone. *)
Definition enough (l : nat) : nat := l * S (Z.to_nat (I / δ)).

Lemma weights_enough b s :
  fits s → b ∈ p_schedule s →
  (weights (p_time s) (e_due b) (p_schedule s) ≤ enough (length (p_schedule s)))%nat.
Proof.
  intros [Hfit _] Hb. apply weights_bound. intros e He. unfold weight.
  destruct (Z.ltb_spec (e_due b) (e_due e)); [lia|]. rewrite Forall_forall in Hfit.
  destruct (Hfit b Hb) as (_ & Hbt & _).
  assert ((e_due b - Z.max (e_due e) (p_time s)) / δ ≤ I / δ) by (apply Z.div_le_mono; lia). lia.
Qed.

(** ** Spacing *)

(** Nothing in the log of a module is closer than its interval to what follows. *)
Definition spaced s : Prop :=
  (∀ e r, e ∈ p_schedule s → r ∈ p_log s → r_module r = e_module e → r_end r + e_interval e ≤ e_due e) ∧
  (∀ e j k rj rk, e ∈ p_schedule s → (j < k)%nat → p_log s !! j = Some rj → p_log s !! k = Some rk →
     r_module rj = e_module e → r_module rk = e_module e → r_end rj + e_interval e ≤ r_begin rk).

(** The entries after a round: the one that was refreshed, and those of other modules. *)
Lemma round_entries l k e e1 x :
  NoDup (e_module <$> l) → l !! k = Some e → x ∈ <[k := e1]> l →
  x = e1 ∨ (x ∈ l ∧ e_module x ≠ e_module e).
Proof.
  intros Hnd Hk [j Hj]%list_elem_of_lookup_1. destruct (decide (j = k)) as [->|Hjk].
  - left. rewrite list_lookup_insert_eq in Hj by by eapply lookup_lt_Some. congruence.
  - right. rewrite list_lookup_insert_ne in Hj by done. split; [by eapply list_elem_of_lookup_2|].
    intros Heq. apply Hjk. eapply NoDup_lookup; [exact Hnd|..]; rewrite list_lookup_fmap.
    + rewrite Hj. reflexivity.
    + rewrite Hk. cbn. by rewrite Heq.
Qed.

Lemma round_step_spaced s s' k e t0 t1 :
  fits s → round_step s s' k e t0 t1 → spaced s → spaced s'.
Proof.
  intros [Hfit Hnd] Hs [Hdue Hgap]. rewrite Forall_forall in Hfit.
  destruct Hs as (He & _ & H0 & _ & H01 & _ & _ & _ & Hsc & Hlog).
  assert (e ∈ p_schedule s) as Hin by by eapply list_elem_of_lookup_2.
  destruct (Hfit e Hin) as ([Hiv _] & _ & _).
  split; rewrite Hlog, Hsc.
  - intros x r Hx Hr Hm. apply (round_entries _ _ _ _ _ Hnd He) in Hx.
    apply elem_of_app in Hr as [Hr|Hr%list_elem_of_singleton]; destruct Hx as [->|[Hx Hne]]; subst; cbn in *.
    + specialize (Hdue e r Hin Hr Hm). lia.
    + by apply Hdue.
    + lia.
    + congruence.
  - intros x i j ri rj Hx Hij Hi Hj Hmi Hmj. apply (round_entries _ _ _ _ _ Hnd He) in Hx.
    assert (p_log s !! i = Some ri) as Hi'.
    { rewrite lookup_app_l in Hi; [done|]. apply lookup_lt_Some in Hj. rewrite length_app in Hj. cbn in Hj. lia. }
    apply lookup_snoc_Some in Hj as [[_ Hj]|[_ <-]]; cbn in *; destruct Hx as [->|[Hx Hne]]; cbn in *.
    + by eapply Hgap.
    + by eapply Hgap.
    + assert (ri ∈ p_log s) as Hri by by eapply list_elem_of_lookup_2.
      specialize (Hdue e ri Hin Hri Hmi). lia.
    + congruence.
Qed.

Lemma steps_spaced n s s' : steps n s s' → spaced s → spaced s'.
Proof. induction 1; [done|]. intros. by eauto using round_step_spaced. Qed.
Lemma steps_fits n s s' : steps n s s' → sched_ok n s → sched_ok 0 s'.
Proof. induction 1; [done|]. intros. by eauto using round_step_ok. Qed.

(** The intervals of the schedule never change. *)
Definition scheduled s (i : nat) (iv : Z) : Prop :=
  ∃ e, e ∈ p_schedule s ∧ e_module e = i ∧ e_interval e = iv.
Lemma steps_scheduled n s s' i iv : steps n s s' → scheduled s i iv → scheduled s' i iv.
Proof.
  induction 1 as [|n s s1 s2 k e t0 t1 _ Hs _ IH]; [done|]. intros (x & Hx & Hi & Hv). apply IH.
  destruct Hs as (He & _ & _ & _ & _ & _ & _ & _ & Hsc & _). unfold scheduled. rewrite Hsc.
  apply list_elem_of_lookup_1 in Hx as [j Hj]. destruct (decide (j = k)) as [->|Hjk].
  - assert (x = e) as -> by congruence.
    exists (mkEntry (e_module e) (e_interval e) (t1 + e_interval e)). split; [|by split].
    apply (list_elem_of_lookup_2 _ k). apply list_lookup_insert_eq. by eapply lookup_lt_Some.
  - exists x. split; [|done]. apply (list_elem_of_lookup_2 _ j). by rewrite list_lookup_insert_ne.
Qed.

(** ** The schedule of a run *)

Lemma make_schedule_spec i ms s :
  (∀ m iv, m ∈ ms → mod_refresh_interval m = Some iv → δ ≤ iv ≤ I) →
  0 ≤ I → p_time s + Z.of_nat (length ms) * D + I ≤ instant_max →
  ∃ s' l, make_schedule (C := C) i ms s = (s', Ok l) ∧
    p_modules s' = p_modules s ∧ p_log s' = p_log s ∧
    p_time s ≤ p_time s' ≤ p_time s + Z.of_nat (length ms) * D ∧
    Forall (λ e, δ ≤ e_interval e ≤ I ∧ e_due e ≤ p_time s' + I ∧
      ∃ j m, e_module e = (i + j)%nat ∧ ms !! j = Some m) l ∧
    NoDup (e_module <$> l) ∧ Forall (λ e, (i ≤ e_module e)%nat) l ∧ (length l ≤ length ms)%nat ∧
    ∀ j m iv, ms !! j = Some m → mod_refresh_interval m = Some iv →
      ∃ e, e ∈ l ∧ e_module e = (i + j)%nat ∧ e_interval e = iv.
Proof.
  revert i s. induction ms as [|m ms IH]; intros i s Hiv HI Hmax.
  { exists s, []. cbn. split_and!; try done; try lia; constructor. }
  cbn [length] in *. rewrite Nat2Z.inj_succ, Z.mul_succ_l in *. pose proof (elapse_bounds (p_reads s)).
  cbn [make_schedule]. destruct (mod_refresh_interval m) as [iv|] eqn:Hm.
  2: { destruct (IH (S i) s) as (s' & l & Hr & ? & ? & ? & Hl & Hnd & Hge & Hlen & Hall);
         [intros; eapply Hiv; [by right|done]|done|lia|].
       exists s', l. split_and!; try done; try lia.
       - eapply Forall_impl; [exact Hl|]. cbn. intros e (? & ? & j & m' & -> & Hj).
         split_and!; [lia..|]. exists (S j), m'. split; [lia|done].
       - eapply Forall_impl; [exact Hge|]. cbn. lia.
       - intros [|j] m' iv' Hj Hiv'; cbn in Hj; [congruence|].
         destruct (Hall j m' iv' Hj Hiv') as (e & ? & ? & ?). exists e. split_and!; [done|lia|done]. }
  pose proof (Hiv m iv ltac:(by left) Hm) as Hb.
  set (s1 := mkPeriodic (p_modules s) (p_shared s) (p_schedule s) (p_time s + elapse (p_reads s)) (S (p_reads s)) (p_log s)).
  destruct (IH (S i) s1) as (s' & l & Hr & ? & ? & Ht & Hl & Hnd & Hge & Hlen & Hall);
    [intros; eapply Hiv; [by right|done]|done|cbn; lia|]. cbn in Ht.
  exists s', (mkEntry i iv (p_time s + elapse (p_reads s) + iv) :: l).
  split_and!; try done; try lia.
  - unfold mbind, M_bind, m_bind. cbn [instant_now]. unfold instant_add.
    change (instant_now s) with (s1, Ok (p_time s + elapse (p_reads s))). cbn iota beta.
    rewrite (proj2 (Z.leb_le _ _)); [cbn [unwrap m_ret]; fold s1; by rewrite Hr|].
    assert (0 ≤ Z.of_nat (length ms) * D) by (apply Z.mul_nonneg_nonneg; lia). lia.
  - constructor; cbn.
    + split_and!; [lia..|]. exists 0%nat, m. split; [lia|done].
    + eapply Forall_impl; [exact Hl|]. cbn. intros e (? & ? & j & m' & -> & Hj).
      split_and!; [lia..|]. exists (S j), m'. split; [lia|done].
  - constructor; [|done]. intros (e & Heq & He)%list_elem_of_fmap. cbn in Heq.
    rewrite Forall_forall in Hge. apply Hge in He. lia.
  - constructor; cbn; [lia|]. eapply Forall_impl; [exact Hge|]. cbn. lia.
  - cbn. lia.
  - intros [|j] m' iv' Hj Hiv'; cbn in Hj.
    + simplify_eq. eexists. split; [by left|]. cbn. split; [lia|congruence].
    + destruct (Hall j m' iv' Hj Hiv') as (e & ? & ? & ?). exists e. split_and!; [by right|lia|done].
Qed.

(** C22: the periodic scheduler starves no module and rushes none.  Whatever the
    refreshes return and however long they take, each scheduled module is refreshed in
    every stretch of [enough] rounds, and never sooner than its interval after its last
    refresh was over. *)
Theorem every_module_is_refreshed ms (e0 : E) t0 a :
  (∀ m iv, m ∈ ms → mod_refresh_interval m = Some iv → δ ≤ iv ≤ I) → 0 ≤ I →
  t0 + Z.of_nat (length ms) * D + Z.of_nat (a + enough (length ms)) * (I + 3 * D) + I ≤ instant_max →
  ∃ s', run_periodic (C := C) (a + enough (length ms)) (mkPeriodic ms e0 [] t0 0 []) = (s', Ok tt) ∧
    ∀ i m iv, ms !! i = Some m → mod_refresh_interval m = Some iv →
      (∃ r, r ∈ drop a (p_log s') ∧ r_module r = i) ∧
      (∀ j k rj rk, (j < k)%nat → p_log s' !! j = Some rj → p_log s' !! k = Some rk →
         r_module rj = i → r_module rk = i → r_end rj + iv ≤ r_begin rk).
Proof.
  intros Hiv HI Hmax. set (n := (a + enough (length ms))%nat) in *.
  assert (0 ≤ D) as HD by (specialize (elapse_bounds 0%nat); lia).
  assert (0 ≤ Z.of_nat n * (I + 3 * D)) by (apply Z.mul_nonneg_nonneg; lia).
  destruct (make_schedule_spec 0 ms (mkPeriodic ms e0 [] t0 0 []) Hiv HI) as
    (s0 & l & Hmk & Hms & Hlog & Ht & Hl & Hnd & _ & Hlen & Hall); [cbn; lia|]. cbn in Hms, Hlog, Ht.
  set (s1 := mkPeriodic (p_modules s0) (p_shared s0) l (p_time s0) (p_reads s0) (p_log s0)).
  assert (run_periodic (C := C) n (mkPeriodic ms e0 [] t0 0 []) = rounds (C := C) n s1) as Hrun.
  { unfold run_periodic, mbind, M_bind, m_bind, gets, modify. cbn [p_modules]. by rewrite Hmk. }
  rewrite Hrun. assert (sched_ok n s1) as Hok.
  { split; [|cbn; lia]. split; [|done]. eapply Forall_impl; [exact Hl|]. cbn.
    intros e (? & ? & j & m & Hj & Hm). unfold entry_fits. cbn. split_and!; [lia..|].
    rewrite Hms, Hj. by eapply lookup_lt_Some. }
  destruct (decide (l = [])) as [Hnil|Hne].
  { subst l. assert (∀ k, rounds (C := C) k s1 = (s1, Ok tt)) as Hidle by (by induction k as [|k IHk]).
    exists s1. split; [done|]. intros i m iv Hi Hm. destruct (Hall i m iv Hi Hm) as (e & He & _).
    by apply elem_of_nil in He. }
  destruct (rounds_steps n s1 Hok Hne) as (s' & Hr & Hs). exists s'. split; [done|].
  intros i m iv Hi Hm. destruct (Hall i m iv Hi Hm) as (e & He & Hmod & Hint). cbn in Hmod.
  assert (scheduled s1 i iv) as Hsched by by exists e.
  destruct (steps_split a _ _ _ Hs) as (s2 & Ha & Hb). split.
  - assert (fits s2) as Hfit2.
    { eapply steps_fits; [exact Ha|]. destruct Hok as [? Hmx]. split; [done|].
      assert (Z.of_nat a * (I + 3 * D) ≤ Z.of_nat n * (I + 3 * D)) by (apply Z.mul_le_mono_nonneg_r; lia). lia. }
    destruct (steps_scheduled _ _ _ _ _ Ha Hsched) as (b & Hbin & Hbm & _).
    destruct (refreshed_within (p_time s2) b _ _ _ Hb Hbin) as (new & r & Hnew & Hr' & Hrm); [done|..].
    { etransitivity; [by apply weights_enough|]. apply Nat.mul_le_mono_r.
      rewrite <-(length_fmap e_module), (steps_fst _ _ _ Ha), length_fmap. done. }
    exists r. split; [|congruence]. destruct (steps_log _ _ _ Ha) as (pre & Hpre & Hlp).
    rewrite Hnew, Hpre. cbn. rewrite Hlog. cbn. by rewrite <-Hlp, drop_app_length.
  - assert (spaced s') as [_ Hgap].
    { eapply steps_spaced; [exact Hs|]. split; cbn; rewrite Hlog.
      - intros ? ? _ Hin. by apply elem_of_nil in Hin.
      - intros ? ? ? ? ? _ _ Hin. by rewrite lookup_nil in Hin. }
    intros j k rj rk Hjk Hj Hk Hmj Hmrk.
    destruct (steps_scheduled _ _ _ _ _ Hs Hsched) as (b & Hbin & Hbm & <-).
    eapply (Hgap b); eauto; congruence.
Qed.
End periodic.

(** ** The lifecycle *)

(** A lifecycle call runs the modules in order; the first that fails ends it, and those
    after it are not touched. *)
Lemma each_module_in_order {E T : Type} (f : M (T * E) unit) ms e ms' e' r :
  each_module f ms e = ((ms', e'), r) →
  length ms' = length ms ∧
  (r = Ok tt ∨ ∃ k m e1, ms !! k = Some m ∧ each_module f (take k ms) e = ((take k ms', e1), Ok tt) ∧
     (f (m, e1)).2 = r ∧ drop (S k) ms' = drop (S k) ms).
Proof.
  revert e ms' e' r. induction ms as [|m ms IH]; intros e ms' e' r; cbn.
  { intros [= <- <- <-]. auto. }
  destruct (f (m, e)) as [[m1 e1] [[]|err|]] eqn:Hf.
  - destruct (each_module f ms e1) as [[ms2 e2] r2] eqn:Hr. intros [= <- <- <-].
    destruct (IH _ _ _ _ Hr) as [Hlen [->|(k & m' & e3 & Hk & Hpre & Hfail & Hdrop)]];
      (split; [cbn; by rewrite Hlen|]); [by left|right].
    exists (S k), m', e3. cbn. rewrite Hf, Hpre. done.
  - intros [= <- <- <-]. split; [done|]. right. exists 0%nat, m, e. by rewrite Hf.
  - intros [= <- <- <-]. split; [done|]. right. exists 0%nat, m, e. by rewrite Hf.
Qed.

(** ** The budget *)

Definition is_pct (v : f32) : Prop := f32_gt v f32_zero = true ∧ f32_ge (f32_of_Z 100) v = true.

(** Whatever the environment says, both budgets are in (0, 100]: never zero, negative or
    NaN, so that the usage is compared with a real ceiling. *)
Lemma budget_in_range env :
  is_pct (budget_cpu_pct (budget_from_env env)) ∧ is_pct (budget_mem_pct (budget_from_env env)).
Proof.
  assert (∀ o : option bytes, is_pct (default (f32_of_Z 5) (o ≫= parse_pct))) as Ho.
  { intros [raw|]; [|by vm_compute]. cbn. unfold parse_pct.
    destruct (parse_f32 (trim raw)) as [v|]; [|by vm_compute].
    destruct (f32_gt v f32_zero && f32_ge (f32_of_Z 100) v) eqn:Hv; [|by vm_compute].
    by apply andb_true_iff in Hv. }
  split; apply Ho.
Qed.
