(* ===== verification/Inventory.v ===== *)
(** * The snapshot modules

    The nine modules that read the snapshot service and emit what they find, with the
    life cycle of [trait Module] around their collection: [crates/modules/asset], [vuln],
    [health], [aidiscovery], [aimodel] and [netdiscovery], and the three posture modules,
    whose collection is in [Posture]. *)

From Stdlib Require Import ZArith SpecFloat.
From stdpp Require Import base tactics gmap strings list.
From S2P Require Import Prelude Float32 Transport Scheduler Keys Version CveSource Findings Engine Ocsf Ingest Substrate.
From S2P Require Import Posture Text Manager.

Local Open Scope Z_scope.

Definition INVENTORY_INFO : Z := 5001.
Definition AGENT_HEALTH : Z := 9001.
Definition AI_INVENTORY_INFO : Z := 9004.
Definition NETWORK_HOST_INVENTORY : Z := 9005.

(** [json!] of an [f32]. *)
Class JsonFloat (V : Type) := json_f32 : f32 → V.

(** ** Payloads *)

Section payloads.
Context {V : Type} `{JsonValue V, JsonBuild V, JsonGet V, !JsonFloat V}.

Definition asset_payload (os packages : list V) : V :=
  json_obj [("os", json_arr os); ("packages", json_arr packages);
            ("package_count", json_num (Z.of_nat (length packages)))].

Definition build_sbom_data (packages : list V) : V :=
  json_obj [("sbom", json_obj [("format", json_str "torda-native"); ("components", json_arr packages);
                               ("component_count", json_num (Z.of_nat (length packages)))])].

(** [v\[k\] == json!(true)]. *)
Definition flag_set (k : string) (v : V) : bool :=
  bool_decide (json_as_bool (json_index v k) = Some true).

Definition ai_servers_payload (servers : list V) : V :=
  json_obj [("ai_servers", json_arr servers); ("count", json_num (Z.of_nat (length servers)));
            ("exposed_count", json_num (Z.of_nat (length (filter (flag_set "exposed") servers))))].
Definition ai_models_payload (models : list V) : V :=
  json_obj [("kind", json_str "ai_model_inventory"); ("models", json_arr models);
            ("count", json_num (Z.of_nat (length models)));
            ("risky_count", json_num (Z.of_nat (length (filter (flag_set "risky") models))))].
Definition network_hosts_payload (scope_cidrs : list string) (hosts : list V) : V :=
  json_obj [("role", json_str "network-scanner"); ("swept_cidrs", json_arr (json_str <$> scope_cidrs));
            ("host_count", json_num (Z.of_nat (length hosts))); ("hosts", json_arr hosts)].

(** [f32::MAX]. *)
Definition f32_MAX : f32 := S754_finite false 16777215 104.
Definition pct_of (used budget : f32) : f32 :=
  if f32_ge f32_zero budget then f32_MAX else f32_mul (f32_div used budget) (f32_of_Z 100).
Definition resource_data (u : ResourceUsage) (b : ResourceBudget) : V :=
  let cpu_used := pct_of (use_cpu_pct u) (budget_cpu_pct b) in
  let mem_used := pct_of (use_mem_pct u) (budget_mem_pct b) in
  json_obj [("cpu_pct", json_f32 (use_cpu_pct u)); ("rss_bytes", json_num (use_rss_bytes u));
            ("mem_pct", json_f32 (use_mem_pct u));
            ("budget", json_obj [("cpu_pct", json_f32 (budget_cpu_pct b)); ("mem_pct", json_f32 (budget_mem_pct b))]);
            ("budget_used", json_obj [("cpu", json_f32 cpu_used); ("mem", json_f32 mem_used)]);
            ("over_budget", json_bool (f32_gt cpu_used (f32_of_Z 100) || f32_gt mem_used (f32_of_Z 100)))].
Definition health_payload (uptime_ms : Z) (u : ResourceUsage) (b : ResourceBudget) : V :=
  json_obj [("status", json_str "ok"); ("uptime_ms", json_num uptime_ms); ("resource", resource_data u b)].
End payloads.

(** ** Modules *)

(** [ModuleCtx], as the snapshot modules use it: the tables, the device and metadata of
    the envelopes, the last usage (which the governor's poller changes at any time, so it
    is read by observation number) and the budget. *)
Record ModuleCtx (V : Type) := mkModuleCtx {
  cx_query : string → option (list V);
  cx_device : Device;
  cx_meta : Metadata;
  cx_last_usage : nat → ResourceUsage;
  cx_budget : ResourceBudget;
}.
Arguments mkModuleCtx {V}.
Arguments cx_query {V}.
Arguments cx_device {V}.
Arguments cx_meta {V}.
Arguments cx_last_usage {V}.
Arguments cx_budget {V}.

(** Which module, with the state of its own. *)
Inductive ModuleKind :=
  | AssetModule
  | HealthModule (started : Z)
  | VulnModule
  | ComplianceModule (policy : Policy)
  | DriftModule
  | FimModule
  | AiDiscoveryModule
  | AiModelModule
  | NetDiscoveryModule (scope_cidrs : list string).

Record SnapshotModule (V : Type) := mkModule {
  sm_kind : ModuleKind;
  sm_ctx : option (ModuleCtx V);
  sm_gate : ChangeGate;
  sm_interval : option Z;
}.
Arguments mkModule {V}.
Arguments sm_kind {V}.
Arguments sm_ctx {V}.
Arguments sm_gate {V}.
Arguments sm_interval {V}.

Definition default_interval (k : ModuleKind) : option Z :=
  match k with
  | AssetModule | VulnModule | ComplianceModule _ | AiModelModule | NetDiscoveryModule _ =>
      Some (Manager.from_secs 3600)
  | HealthModule _ => Some (Manager.from_secs 60)
  | DriftModule | FimModule => Some (Manager.from_secs 300)
  | AiDiscoveryModule => None
  end.
Definition module_new {V} (k : ModuleKind) : SnapshotModule V :=
  mkModule k None gate_new (default_interval k).

Definition module_id (k : ModuleKind) : string :=
  match k with
  | AssetModule => "asset" | HealthModule _ => "health" | VulnModule => "vuln"
  | ComplianceModule _ => "compliance" | DriftModule => "drift" | FimModule => "fim"
  | AiDiscoveryModule => "aidiscovery" | AiModelModule => "aimodel"
  | NetDiscoveryModule _ => "netdiscovery"
  end.

Section modules.
Context {V : Type} `{JsonValue V, JsonBuild V, JsonGet V, !JsonFloat V, !JsonText V, !DefaultHasher, Host}.
Context `{!Serialize V ComplianceRecord, !Serialize V DriftRecord, !Serialize V FimRecord}.

(** A module and the records of all of them. *)
Abbreviation ModuleState := (SnapshotModule V * Outbox V)%type.

Definition set_gate (g : ChangeGate) (m : SnapshotModule V) : SnapshotModule V :=
  mkModule (sm_kind m) (sm_ctx m) g (sm_interval m).
Definition on_gate {A} (f : M (Collector V) A) : M ModuleState A := λ s,
  let '((g, o), r) := f (sm_gate s.1, s.2) in ((set_gate g s.1, o), r).

Definition gated_emit (ctx : ModuleCtx V) (class : Z) (name : string) (data : V) : M ModuleState unit :=
  on_gate (emit_if_changed (cx_meta ctx) (cx_device ctx) class name data);; mret tt.

(** [Instant::now()] and the other readings of the platform, by observation number. *)
Definition observe : M ModuleState nat := λ s,
  ((s.1, mkOutbox (out_emitted s.2) (S (out_seen s.2))), Ok (out_seen s.2)).

Definition asset_collect (ctx : ModuleCtx V) : M ModuleState unit :=
  os ← ok_or (cx_query ctx "os_version") "unknown snapshot table: os_version";
  packages ← ok_or (cx_query ctx "packages") "unknown snapshot table: packages";
  gated_emit ctx INVENTORY_INFO "Inventory Info" (asset_payload os packages).

Definition vuln_collect (ctx : ModuleCtx V) : M ModuleState unit :=
  packages ← ok_or (cx_query ctx "packages") "unknown snapshot table: packages";
  gated_emit ctx SOFTWARE_INVENTORY_INFO "Software Inventory Info" (build_sbom_data packages).

Definition health_collect (started : Z) (ctx : ModuleCtx V) : M ModuleState unit :=
  n ← observe;
  let uptime_ms := wrap_u64 (elapsed_at (instant n) started / 1000000) in
  gated_emit ctx AGENT_HEALTH "Agent Health" (health_payload uptime_ms (cx_last_usage ctx n) (cx_budget ctx)).

Definition aidiscovery_start (ctx : ModuleCtx V) : M ModuleState unit :=
  servers ← ok_or (cx_query ctx "ai_runtimes") "unknown snapshot table: ai_runtimes";
  if bool_decide (length servers = 0%nat) then mret tt
  else
    modify (λ s, (s.1, mkOutbox
      (out_emitted s.2 ++ [envelope_new AI_INVENTORY_INFO "AI Inventory Info" (cx_meta ctx) (cx_device ctx)
                             (ai_servers_payload servers) (wall_millis (out_seen s.2))])
      (S (out_seen s.2)))).

Definition aimodel_collect (ctx : ModuleCtx V) : M ModuleState unit :=
  let models := default [] (cx_query ctx "ai_models") in
  if bool_decide (length models = 0%nat) then mret tt
  else gated_emit ctx AI_INVENTORY_INFO "AI Inventory Info" (ai_models_payload models).

Definition netdiscovery_collect (scope_cidrs : list string) (ctx : ModuleCtx V) : M ModuleState unit :=
  let hosts := default [] (cx_query ctx "network_hosts") in
  if bool_decide (length hosts = 0%nat) then mret tt
  else gated_emit ctx NETWORK_HOST_INVENTORY "Network Host Inventory" (network_hosts_payload scope_cidrs hosts).

(** [collect_and_emit] of each module. *)
Definition collect_and_emit (k : ModuleKind) (ctx : ModuleCtx V) : M ModuleState unit :=
  match k with
  | AssetModule => asset_collect ctx
  | HealthModule started => health_collect started ctx
  | VulnModule => vuln_collect ctx
  | ComplianceModule policy =>
      on_gate (compliance_collect (cx_meta ctx) (cx_device ctx) policy (cx_query ctx));; mret tt
  | DriftModule => on_gate (drift_collect (cx_meta ctx) (cx_device ctx) (cx_query ctx));; mret tt
  | FimModule => on_gate (fim_collect (cx_meta ctx) (cx_device ctx) (cx_query ctx));; mret tt
  | AiDiscoveryModule => aidiscovery_start ctx
  | AiModelModule => aimodel_collect ctx
  | NetDiscoveryModule scope => netdiscovery_collect scope ctx
  end.

(** [self.ctx.clone().expect("init before start")]. *)
Definition collect_now : M ModuleState unit :=
  k ← gets (λ s, sm_kind s.1);
  o ← gets (λ s, sm_ctx s.1);
  ctx ← unwrap o;
  collect_and_emit k ctx.

Definition module_init (ctx : ModuleCtx V) : M ModuleState unit :=
  k ← gets (λ s, sm_kind s.1);
  k ← match k with HealthModule _ => n ← observe; mret (HealthModule (instant n)) | _ => mret k end;
  modify (λ s, (mkModule k (Some ctx) (sm_gate s.1) (sm_interval s.1), s.2)).

Definition module_refresh : M ModuleState unit :=
  k ← gets (λ s, sm_kind s.1);
  match k with AiDiscoveryModule => mret tt | _ => collect_now end.

Definition module_health (m : SnapshotModule V) : bool * string :=
  let ready := match sm_ctx m with Some _ => true | None => false end in
  match sm_kind m with
  | AssetModule => (ready, "asset inventory ready")
  | HealthModule _ => (true, "heartbeat ok")
  | VulnModule => (ready, "sbom emitter ready")
  | ComplianceModule _ => (ready, "compliance evaluator ready")
  | DriftModule => (ready, "drift evaluator ready")
  | FimModule => (ready, "file integrity evaluator ready")
  | AiDiscoveryModule => (ready, "ai discovery ready")
  | AiModelModule => (ready, "ai model integrity ready")
  | NetDiscoveryModule _ => (ready, "net discovery ready")
  end.

Definition set_interval (interval : option Z) (m : SnapshotModule V) : SnapshotModule V :=
  match sm_kind m with
  | AiDiscoveryModule => m
  | _ => mkModule (sm_kind m) (sm_ctx m) (sm_gate m) interval
  end.

#[export] Instance SnapshotModule_module : AgentModule (ModuleCtx V) (Outbox V) (SnapshotModule V) := {|
  mod_id m := module_id (sm_kind m);
  mod_init := module_init;
  mod_start := collect_now;
  mod_stop := mret tt;
  mod_health := module_health;
  mod_refresh := module_refresh;
  mod_refresh_interval m := sm_interval m;
  mod_set_refresh_interval := set_interval;
|}.

(** The snapshot modules the agent registers, in order. *)
Definition agent_modules (scope_cidrs : list string) : list (SnapshotModule V) :=
  module_new <$> [AssetModule; HealthModule 0; VulnModule; ComplianceModule default_policy; DriftModule;
                  FimModule; AiDiscoveryModule; AiModelModule; NetDiscoveryModule scope_cidrs].
End modules.
