(* ===== verification/InventoryProps.v ===== *)
(** * The snapshot modules: theorems

    What the periodic refresh can report, and what the server makes of the inventory. *)

From Stdlib Require Import ZArith.
From stdpp Require Import base tactics gmap strings list.
From S2P Require Import Prelude Float32 Transport Scheduler Keys Version CveSource Findings Engine Ocsf Ingest Substrate.
From S2P Require Import Posture Text Packages Listeners Sweep Snapshot Manager Inventory.

Local Open Scope Z_scope.

Lemma each_module_all {T E} (f : M (T * E) unit) (P Q : T → Prop) ms e :
  (∀ m e, P m → ∃ m' e', f (m, e) = ((m', e'), Ok tt) ∧ Q m') → Forall P ms →
  ∃ ms' e', each_module f ms e = ((ms', e'), Ok tt) ∧ Forall Q ms'.
Proof.
  intros Hf Hms. revert e. induction Hms as [|m ms Hm _ IH]; intros e; cbn [each_module].
  { eexists _, _. split; [reflexivity|constructor]. }
  destruct (Hf m e Hm) as (m' & e' & -> & Hm'). destruct (IH e') as (ms' & e'' & -> & Hms').
  eexists _, _. split; [reflexivity|]. by constructor.
Qed.

Lemma rel_m_inspect {S A} (R : S → S → Prop) (f : M S A) : rel_m R f → rel_m R (inspect f).
Proof. intros Hf s. specialize (Hf s). unfold inspect. by destruct (f s) as [s' [a|e|]]. Qed.

Section refresh.
Context {V : Type} `{JsonValue V, JsonBuild V, JsonGet V, !JsonFloat V, !JsonText V, !DefaultHasher, Host}.
Context `{!Serialize V ComplianceRecord, !Serialize V DriftRecord, !Serialize V FimRecord}.
Implicit Types (m : SnapshotModule V) (ctx : ModuleCtx V) (o : Outbox V).

(** What a module offers its gate; the heartbeat and the discovery of runtimes are not
    gated on the tables. *)
Definition gate_data ctx (k : ModuleKind) : option V :=
  let q := cx_query ctx in
  match k with
  | AssetModule => os ← q "os_version"; packages ← q "packages"; Some (asset_payload os packages)
  | VulnModule => build_sbom_data <$> q "packages"
  | ComplianceModule policy => Some (compliance_payload policy q)
  | DriftModule => Some (drift_payload q)
  | FimModule => Some (fim_payload q)
  | AiModelModule =>
      let models := default [] (q "ai_models") in
      if bool_decide (length models = 0%nat) then None else Some (ai_models_payload models)
  | NetDiscoveryModule scope =>
      let hosts := default [] (q "network_hosts") in
      if bool_decide (length hosts = 0%nat) then None else Some (network_hosts_payload scope hosts)
  | HealthModule _ | AiDiscoveryModule => None
  end.

(** The module has been initialized, and its gate has seen what the tables give. *)
Definition ready ctx m : Prop := sm_ctx m = Some ctx.
Definition settled ctx m : Prop :=
  ready ctx m ∧ ∀ d, gate_data ctx (sm_kind m) = Some d → last_hash (sm_gate m) = Some (stable_hash d).

(** The tables that a module cannot do without. *)
Definition served ctx : Prop :=
  ∀ t, t ∈ ["os_version"; "packages"; "ai_runtimes"] → is_Some (cx_query ctx t).

(** [o'] has more heartbeats than [o], and nothing else. *)
Definition beats_only o o' : Prop :=
  ∃ beats, out_emitted o' = out_emitted o ++ beats ∧ Forall (λ env, class_uid env = AGENT_HEALTH) beats.

Lemma beats_only_refl o : beats_only o o.
Proof. exists []. by rewrite app_nil_r. Qed.
Lemma beats_only_trans o1 o2 o3 : beats_only o1 o2 → beats_only o2 o3 → beats_only o1 o3.
Proof.
  intros (b1 & Hb1 & ?) (b2 & Hb2 & ?). exists (b1 ++ b2). rewrite Hb2, Hb1, <-app_assoc.
  split; [done|]. by apply Forall_app.
Qed.

(** *** The gate *)

(** One offer: the gate has seen it, and it is emitted unless the gate had. *)
Lemma gated_emit_run ctx class name d m o :
  ∃ o', gated_emit ctx class name d (m, o) = ((set_gate (mkChangeGate (Some (stable_hash d))) m, o'), Ok tt) ∧
    (if bool_decide (last_hash (sm_gate m) = Some (stable_hash d)) then o' = o
     else ∃ env, class_uid env = class ∧ out_emitted o' = out_emitted o ++ [env]).
Proof.
  unfold gated_emit, on_gate, emit_if_changed, mbind, M_bind, m_bind, gets, modify. cbn [fst snd].
  case_bool_decide as Hg; cbn [fst snd].
  2: { eexists. split; [reflexivity|]. eexists. split; [|reflexivity]. done. }
  exists o. split; [|done]. destruct m as [k c [g] i]. cbn in Hg. by subst.
Qed.

(** Collecting leaves a module that is ready settled, and one that was settled says
    nothing but heartbeats. *)
Lemma collect_settles ctx m o :
  served ctx → ready ctx m →
  ∃ m' o', collect_and_emit (sm_kind m) ctx (m, o) = ((m', o'), Ok tt) ∧ settled ctx m' ∧
    sm_kind m' = sm_kind m ∧
    (settled ctx m → sm_kind m ≠ AiDiscoveryModule → beats_only o o').
Proof.
  intros Hq Hr. unfold served in Hq.
  destruct (Hq "os_version") as [os Hos]; [set_solver|].
  destruct (Hq "packages") as [pk Hpk]; [set_solver|].
  destruct (Hq "ai_runtimes") as [ai Hai]; [set_solver|].
  assert (∀ class name d, gate_data ctx (sm_kind m) = Some d →
    ∃ m' o', gated_emit ctx class name d (m, o) = ((m', o'), Ok tt) ∧ settled ctx m' ∧
      sm_kind m' = sm_kind m ∧ (settled ctx m → sm_kind m ≠ AiDiscoveryModule → beats_only o o')) as Hemit.
  { intros class name d Hd. destruct (gated_emit_run ctx class name d m o) as (o' & Hrun & Ho).
    eexists _, o'. split; [exact Hrun|]. split; [|split; [done|]].
    - split; [exact Hr|]. intros d' Hd'. cbn in Hd' |- *. congruence.
    - intros [_ Hs] _. rewrite bool_decide_eq_true_2 in Ho by auto. subst. apply beats_only_refl. }
  assert (gate_data ctx (sm_kind m) = None → settled ctx m) as Hnone by (by intros Hn; split; [|rewrite Hn]).
  destruct (sm_kind m) eqn:Hk; cbn [collect_and_emit gate_data] in *.
  - unfold asset_collect. rewrite Hos, Hpk in *. apply Hemit. done.
  - destruct (gated_emit_run ctx AGENT_HEALTH "Agent Health"
      (health_payload (wrap_u64 (elapsed_at (instant (out_seen o)) started / 1000000))
         (cx_last_usage ctx (out_seen o)) (cx_budget ctx)) m (mkOutbox (out_emitted o) (S (out_seen o))))
      as (o' & Hrun & Ho). eexists _, o'. split; [exact Hrun|]. cbn [sm_kind set_gate].
    split; [split; [exact Hr|]; cbn; by rewrite Hk|]. split; [done|]. intros _ _.
    case_bool_decide; [subst; exists []; by rewrite app_nil_r|].
    destruct Ho as (env & Hc & Ho). exists [env]. split; [exact Ho|]. by repeat constructor.
  - unfold vuln_collect. rewrite Hpk in *. by apply Hemit.
  - destruct (Hemit COMPLIANCE_FINDING "Compliance Finding" _ eq_refl) as (m' & o' & ? & ?). by exists m', o'.
  - destruct (Hemit DEVICE_CONFIG_STATE "Device Config State" _ eq_refl) as (m' & o' & ? & ?). by exists m', o'.
  - destruct (Hemit FILE_INTEGRITY_FINDING "File Integrity Finding" _ eq_refl) as (m' & o' & ? & ?). by exists m', o'.
  - unfold aidiscovery_start. rewrite Hai. unfold ok_or, mbind, M_bind, m_bind, m_ret.
    case_bool_decide; [exists m, o; auto using beats_only_refl|]. eexists m, _. split; [reflexivity|].
    split; [by apply Hnone|]. split; [done|]. by intros ? [].
  - unfold aimodel_collect. case_bool_decide; [exists m, o; auto using beats_only_refl|]. by apply Hemit.
  - unfold netdiscovery_collect. case_bool_decide; [exists m, o; auto using beats_only_refl|]. by apply Hemit.
Qed.

Lemma collect_now_settles ctx m o :
  served ctx → ready ctx m →
  ∃ m' o', collect_now (m, o) = ((m', o'), Ok tt) ∧ settled ctx m' ∧
    (settled ctx m → sm_kind m ≠ AiDiscoveryModule → beats_only o o').
Proof.
  intros Hq Hr. destruct (collect_settles ctx m o Hq Hr) as (m' & o' & Hrun & ? & _ & ?).
  exists m', o'. split; [|done]. unfold collect_now, mbind, M_bind, m_bind, gets. cbn [fst].
  unfold ready in Hr. by rewrite Hr.
Qed.

Lemma refresh_settled ctx m o :
  served ctx → settled ctx m →
  ∃ m' o', module_refresh (m, o) = ((m', o'), Ok tt) ∧ settled ctx m' ∧ beats_only o o'.
Proof.
  intros Hq Hs. destruct (collect_now_settles ctx m o Hq (proj1 Hs)) as (m' & o' & Hrun & Hs' & Hb).
  unfold module_refresh, mbind, M_bind, m_bind, gets. cbn [fst].
  destruct (sm_kind m) eqn:Hk; try (exists m', o'; by auto). exists m, o. auto using beats_only_refl.
Qed.

(** *** The life cycle *)

Context `{!Elapse}.

(** Every module of the scheduler is settled. *)
Definition calm ctx (s : Periodic (Outbox V) (SnapshotModule V)) : Prop := Forall (settled ctx) (p_modules s).
(** A step of a calm scheduler keeps it calm and adds heartbeats only. *)
Definition keeps_calm ctx (s s' : Periodic (Outbox V) (SnapshotModule V)) : Prop :=
  calm ctx s → calm ctx s' ∧ beats_only (p_shared s) (p_shared s').
#[local] Instance keeps_calm_preorder ctx : PreOrder (keeps_calm ctx).
Proof.
  split; [intros s Hs; split; [done|apply beats_only_refl]|].
  intros s1 s2 s3 H12 H23 Hs1. destruct (H12 Hs1) as [Hs2 Hb]. destruct (H23 Hs2) as [Hs3 Hb'].
  split; [done|]. by eapply beats_only_trans.
Qed.

Lemma keeps_calm_same ctx s s' :
  p_modules s' = p_modules s → p_shared s' = p_shared s → keeps_calm ctx s s'.
Proof. unfold keeps_calm, calm. intros -> -> ?. split; [done|]. apply beats_only_refl. Qed.

Lemma refresh_module_calm ctx i : served ctx → rel_m (keeps_calm ctx) (refresh_module (C := ModuleCtx V) i).
Proof.
  intros Hq s Hs. unfold refresh_module. destruct (p_modules s !! i) as [m|] eqn:Hi.
  2: { split; [done|apply beats_only_refl]. }
  pose proof (proj1 (Forall_lookup _ _) Hs i m Hi) as Hm.
  destruct (refresh_settled ctx m (p_shared s) Hq Hm) as (m' & o' & Hrun & Hm' & Hb).
  cbn [mod_refresh SnapshotModule_module]. rewrite Hrun. cbn. split; [|done]. by apply Forall_insert.
Qed.

Lemma round_calm ctx : served ctx → rel_m (keeps_calm ctx) (periodic_round (C := ModuleCtx V)).
Proof.
  intros Hq. assert (rel_m (keeps_calm ctx) (instant_now (E := Outbox V) (T := SnapshotModule V))) as Hnow
    by (intros s; by apply keeps_calm_same).
  unfold periodic_round. apply rel_m_bind; [apply _|apply rel_m_gets, _|]. intros [k|]; [|apply rel_m_mret, _].
  repeat (apply rel_m_bind; [apply _|try first [apply rel_m_gets, _|apply rel_m_unwrap, _|exact Hnow]|intros ?]).
  - case_match; [intros s; by apply keeps_calm_same|apply rel_m_mret, _].
  - by apply rel_m_inspect, refresh_module_calm.
  - intros s. by apply keeps_calm_same.
Qed.

Lemma rounds_calm ctx n : served ctx → rel_m (keeps_calm ctx) (rounds (C := ModuleCtx V) n).
Proof.
  intros Hq. induction n as [|n IH]; [apply rel_m_mret, _|].
  apply rel_m_bind; [apply _|by apply round_calm|done].
Qed.

Lemma make_schedule_calm ctx ms i :
  rel_m (keeps_calm ctx) (make_schedule (C := ModuleCtx V) (E := Outbox V) i ms).
Proof.
  revert i. induction ms as [|m ms IH]; intros i; [apply rel_m_mret, _|]. cbn [make_schedule].
  case_match; [|apply IH].
  apply rel_m_bind; [apply _|intros s; by apply keeps_calm_same|]. intros now.
  apply rel_m_bind; [apply _|apply rel_m_unwrap, _|]. intros due.
  apply rel_m_bind; [apply _|apply IH|]. intros rest. apply rel_m_mret, _.
Qed.

Lemma run_periodic_calm ctx n : served ctx → rel_m (keeps_calm ctx) (run_periodic (C := ModuleCtx V) n).
Proof.
  intros Hq. unfold run_periodic. apply rel_m_bind; [apply _|apply rel_m_gets, _|]. intros ms.
  apply rel_m_bind; [apply _|apply make_schedule_calm|]. intros sched.
  apply rel_m_bind; [apply _|intros s; by apply keeps_calm_same|]. intros _. by apply rounds_calm.
Qed.

Lemma snapshot_served snap dev meta usage budget :
  served (mkModuleCtx (query snap) dev meta usage budget).
Proof. intros t Ht. cbn. repeat (apply elem_of_cons in Ht as [->|Ht]; [by eexists|]). by apply elem_of_nil in Ht. Qed.

Lemma init_ready ctx ms o :
  ∃ ms' o', each_module (module_init ctx) ms o = ((ms', o'), Ok tt) ∧ Forall (ready ctx) ms'.
Proof.
  apply (each_module_all _ (λ _, True)); [|by apply Forall_true]. intros m e _.
  unfold module_init, mbind, M_bind, m_bind, gets, observe, modify. cbn [fst snd].
  destruct (sm_kind m); cbn; by eexists _, _.
Qed.

Lemma overrides_ready ctx (overrides : gmap string Z) ms :
  Forall (ready ctx) ms →
  Forall (ready ctx) ((λ m, match overrides !! mod_id m with
    | Some secs => mod_set_refresh_interval (if 0 <? secs then Some (Manager.from_secs secs) else None) m
    | None => m end) <$> ms).
Proof.
  intros Hms. apply Forall_fmap. eapply Forall_impl; [exact Hms|]. intros m Hm. cbn.
  case_match; [|done]. unfold set_interval. by case_match.
Qed.

(** After the start, the periodic refresh reports nothing but heartbeats.  With the
    snapshot service that the agent builds once at boot, whatever intervals the
    configuration sets and however long the daemon runs, no module emits a record
    because of a change: no package, model file, host or setting that changes after boot
    is ever reported, although the scheduler exists to catch exactly that. *)
Theorem refreshes_are_blind (from_str : bytes → option V) http_get h meta usage budget
    (overrides : gmap string Z) (scope : list string) :
  let snap := for_this_platform from_str http_get h in
  let ctx := mkModuleCtx (query snap) (snapshot_device snap) meta usage budget in
  let '(mgr1, r1) := init_all (mkManager ctx (agent_modules scope) (mkOutbox [] 0)) in
  let '(mgr2, r2) := start_all (apply_refresh_overrides overrides mgr1) in
  r1 = Ok tt ∧ r2 = Ok tt ∧
  ∀ t0 n, ∃ beats,
    out_emitted (p_shared (run_periodic (C := ModuleCtx V) n
      (mkPeriodic (modules mgr2) (shared mgr2) [] t0 0 [])).1) = out_emitted (shared mgr2) ++ beats ∧
    Forall (λ env, class_uid env = AGENT_HEALTH) beats.
Proof.
  intros snap ctx. unfold init_all, start_all, on_modules. cbn [mgr_ctx modules shared mod_init SnapshotModule_module].
  destruct (init_ready ctx (agent_modules scope) (mkOutbox [] 0)) as (ms & o & -> & Hms).
  unfold apply_refresh_overrides. cbn [mgr_ctx modules shared mod_start SnapshotModule_module].
  assert (served ctx) as Hq by apply snapshot_served.
  apply (overrides_ready ctx overrides) in Hms.
  edestruct (each_module_all collect_now (ready ctx) (settled ctx)) as (ms' & o' & Hrun & Hset); [|exact Hms|].
  { intros m e Hm. destruct (collect_now_settles ctx m e Hq Hm) as (m' & e' & ? & ? & _). by exists m', e'. }
  rewrite Hrun. split; [done|]. split; [done|]. intros t0 n. cbn [modules shared].
  by destruct (run_periodic_calm ctx n Hq (mkPeriodic ms' o' [] t0 0 []) Hset) as [_ Hb].
Qed.
End refresh.
