(* ===== verification/Observe.v ===== *)
(** * Observers of the event bus

    [crates/modules/libload/src/lib.rs]: one record per shared library that is opened.
    [crates/modules/aiusage/src/lib.rs]: the connections of AI developer tools, attributed
    by the process name or by the command line of the interpreter that hosts the tool.
    Slicing a [str] inside a character panics, so the names of tools are cut in the
    monad. *)

From Stdlib Require Import ZArith.
From stdpp Require Import base tactics gmap strings list.
From S2P Require Import Prelude Transport Scheduler Keys Version CveSource Text Ocsf Substrate NetMon Snapshot Inventory.

Local Open Scope Z_scope.

(** ** Library loads *)

Definition is_shared_library (path : string) : bool :=
  let base := to_ascii_lowercase (after_last is_separator_char (as_bytes path) (as_bytes path)) in
  ends_with (as_bytes ".so") base || contains (as_bytes ".so.") base || ends_with (as_bytes ".dll") base.

Section libload.
Context `{Host} {V : Type} `{JsonValue V, JsonBuild V, JsonGet V}.
Context (meta : Metadata) (dev : Device).

(** The paths seen, and the records. *)
Abbreviation LibLoad := (gset string * Outbox V)%type.

Definition emit_record {T} (class : Z) (name : string) (data : V) : M (T * Outbox V) unit :=
  modify (λ s, (s.1, mkOutbox
    (out_emitted s.2 ++ [envelope_new class name meta dev data (wall_millis (out_seen s.2))])
    (S (out_seen s.2)))).

Definition libload_event (ev : SubstrateEvent V) : M LibLoad unit :=
  if negb (bool_decide (kind ev = EventKind.FileOpen)) then mret tt
  else
    match get_str (fields ev) "path" with
    | None => mret tt
    | Some path =>
        if negb (is_shared_library path) then mret tt
        else
          seen ← gets fst;
          if bool_decide (path ∈ seen) then mret tt
          else
            modify (λ s, ({[path]} ∪ s.1, s.2));;
            emit_record RUNTIME_MODULE_LOAD "Runtime Module Load"
              (json_obj [("module", json_obj [("path", json_str path)]);
                         ("pid", json_opt json_num (get_u64 (fields ev) "pid"));
                         ("image", json_opt json_str (get_str (fields ev) "image"))])
    end.

(** The task, over what the bus delivers before it stops. *)
Definition libload_run (evs : list (SubstrateEvent V)) : M LibLoad unit := for_each libload_event evs.
End libload.

(** ** AI tools *)

Definition AI_CATALOG : list (string * string) :=
  [("cursor", "cursor"); ("claude-code", "claude"); ("aider", "aider"); ("ollama", "ollama");
   ("github-copilot", "github-copilot-language-server"); ("copilot", "copilot"); ("cody", "cody");
   ("codeium", "codeium"); ("codeium", "codeium_language_server"); ("tabnine", "tabnine");
   ("windsurf", "windsurf"); ("cline", "cline"); ("shell-gpt", "sgpt"); ("chatgpt", "chatgpt");
   ("codex", "codex"); ("gemini", "gemini"); ("aichat", "aichat"); ("llm", "llm"); ("zed", "zed")].
Definition INTERPRETERS : list string :=
  ["node"; "python"; "python3"; "python2"; "deno"; "bun"; "ruby"; "npx"; "uv"; "uvx"; "pipx"; "pnpm"; "yarn"].
Definition SCRIPT_EXTS : list string := [".py"; ".js"; ".mjs"; ".cjs"; ".exe"].

(** [s.is_char_boundary(i)] of a UTF-8 text. *)
Definition is_char_boundary (i : nat) (s : bytes) : bool :=
  match s !! i with Some c => negb (in_range 128 191 c) | None => bool_decide (i = length s) end.

(** [&name\[i..\]]. *)
Definition slice_from {S} (i : nat) (s : bytes) : M S bytes :=
  if is_char_boundary i s then mret (drop i s) else panic.

Fixpoint strip_script_ext {S} (exts : list string) (name : bytes) : M S bytes :=
  match exts with
  | [] => mret name
  | ext :: exts =>
      let ext := as_bytes ext in
      if bool_decide (length ext < length name)%nat then
        tail ← slice_from (length name - length ext) name;
        if eq_ignore_ascii_case tail ext then mret (take (length name - length ext) name)
        else strip_script_ext exts name
      else strip_script_ext exts name
  end.
Definition tool_basename {S} (image : bytes) : M S bytes :=
  strip_script_ext SCRIPT_EXTS (after_last is_separator_char image image).

(** A name of fifteen bytes may be a longer one that the kernel has cut. *)
Definition catalog_match (b : bytes) (entry : string * string) : bool :=
  let needle := as_bytes entry.2 in
  eq_ignore_ascii_case b needle
  || (bool_decide (length b = 15%nat) && bool_decide (15 < length needle)%nat
      && eq_ignore_ascii_case (take 15 needle) b).
Definition match_name (b : bytes) : option string :=
  if bool_decide (b = []) then None else fst <$> List.find (catalog_match b) AI_CATALOG.

Definition match_tool {S} (image : string) : M S (option string) :=
  b ← tool_basename (as_bytes image); mret (match_name b).

Definition interpreter_name (b : bytes) : bool :=
  existsb (λ i, eq_ignore_ascii_case b (as_bytes i)) INTERPRETERS
  || match strip_prefix (as_bytes "python") (to_ascii_lowercase b) with
     | Some rest => forallb (λ c, is_digit c || (c =? 46)) rest
     | None => false
     end.
Definition is_interpreter {S} (image : string) : M S bool :=
  b ← tool_basename (as_bytes image); mret (interpreter_name b).

(** The first argument that is not a flag and names a tool. *)
Fixpoint find_tool {S} (tokens : list bytes) : M S (option string) :=
  match tokens with
  | [] => mret None
  | tok :: tokens =>
      if bool_decide (head tok = Some 45) then find_tool tokens
      else
        b ← tool_basename tok;
        match match_name b with Some t => mret (Some t) | None => find_tool tokens end
  end.
Definition match_tool_in_cmdline {S} (cmdline : string) : M S (option string) :=
  find_tool (split_whitespace (as_bytes cmdline)).

Definition ip_is_loopback (ip : IpAddr) : bool :=
  match ip with V4 a => is_loopback a | V6 s => bool_decide (s = [0; 0; 0; 0; 0; 0; 0; 1]) end.
Definition classify_scope (daddr : string) : option string :=
  ip ← parse_ip daddr;
  Some (if ip_is_loopback ip then "loopback" else if is_external daddr then "external" else "private").

Definition MAX_TRACKED : nat := Z.to_nat 4096.

Section aiusage.
Context `{Host} {V : Type} `{JsonValue V, JsonBuild V, JsonGet V}.
Context (meta : Metadata) (dev : Device).

(** [pid → (tool, time of the exec)]. *)
Abbreviation PidTools := (gmap Z (string * Z)).
Abbreviation AiUsage := (PidTools * Outbox V)%type.

Definition set_tools (t : PidTools) : M AiUsage unit := modify (λ s, (t, s.2)).

(** [iter().min_by_key]: the table is walked in some order, an observation. *)
Definition evict_oldest_tool : M AiUsage unit :=
  modify (λ s,
    let walk := hash_order (out_seen s.2) _ s.1 in
    (match min_by_key (λ kv, kv.2.2) walk with Some (k, _) => delete k s.1 | None => s.1 end,
     mkOutbox (out_emitted s.2) (S (out_seen s.2)))).

(** The tool that an exec makes its process host. *)
Definition exec_tool {S} (fields : V) : M S (option string) :=
  i ← is_interpreter (default "" (get_str fields "image"));
  if (i : bool) then
    match get_str fields "cmdline" with
    | Some c => match_tool_in_cmdline c
    | None => mret None
    end
  else mret None.

Definition ai_handle_exec (ev : SubstrateEvent V) : M AiUsage unit :=
  if negb (bool_decide (kind ev = EventKind.ProcessExec)) then mret tt
  else
    match get_u64 (fields ev) "pid" with
    | None => mret tt
    | Some pid =>
        tool ← exec_tool (fields ev);
        match tool with
        | Some t =>
            tracked ← gets fst;
            (if bool_decide (MAX_TRACKED ≤ size tracked)%nat && bool_decide (tracked !! pid = None)
             then evict_oldest_tool else mret tt);;
            tracked ← gets fst;
            set_tools (<[pid := (t, ts ev)]> tracked)
        | None => tracked ← gets fst; set_tools (delete pid tracked)
        end
    end.

Definition ai_handle_exit (ev : SubstrateEvent V) : M AiUsage unit :=
  if negb (bool_decide (kind ev = EventKind.ProcessExit)) then mret tt
  else
    match get_u64 (fields ev) "pid" with
    | Some pid => tracked ← gets fst; set_tools (delete pid tracked)
    | None => mret tt
    end.

(** The tool and how it was found. *)
Definition attribute_tool (image : string) (pid : Z) : M AiUsage (option (string * string)) :=
  direct ← match_tool image;
  match direct with
  | Some t => mret (Some (t, "comm"))
  | None =>
      i ← is_interpreter image;
      if (i : bool) then
        tracked ← gets fst;
        mret ((λ e, (e.1, "cmdline")) <$> tracked !! pid)
      else mret None
  end.

Definition usage_payload (tool via image daddr proto scope : string) (pid dport : Z) : V :=
  json_obj
    [("kind", json_str (if bool_decide (scope = "external") then "ai_tool_egress" else "ai_tool_local"));
     ("scope", json_str scope); ("tool", json_str tool); ("via", json_str via);
     ("process", json_obj [("pid", json_num pid); ("image", json_str image)]);
     ("connection", json_obj [("daddr", json_str daddr); ("dport", json_num dport); ("proto", json_str proto)])].

Definition ai_handle_connect (ev : SubstrateEvent V) : M AiUsage unit :=
  if negb (bool_decide (kind ev = EventKind.NetConnect)) then mret tt
  else
    match get_str (fields ev) "image", get_u64 (fields ev) "pid" with
    | Some image, Some pid =>
        a ← attribute_tool image pid;
        match a with
        | None => mret tt
        | Some (tool, via) =>
            match get_str (fields ev) "daddr" with
            | None => mret tt
            | Some daddr =>
                match classify_scope daddr, get_u64 (fields ev) "dport" ≫= u16_try_from with
                | Some scope, Some dport =>
                    emit_record meta dev AI_INVENTORY_INFO "AI Inventory Info"
                      (usage_payload tool via image daddr (default "tcp" (get_str (fields ev) "proto"))
                         scope pid dport)
                | _, _ => mret tt
                end
            end
        end
    | _, _ => mret tt
    end.

Definition aiusage_event (ev : SubstrateEvent V) : M AiUsage unit :=
  match kind ev with
  | EventKind.ProcessExec => ai_handle_exec ev
  | EventKind.ProcessExit => ai_handle_exit ev
  | EventKind.NetConnect => ai_handle_connect ev
  | _ => mret tt
  end.
Definition aiusage_run (evs : list (SubstrateEvent V)) : M AiUsage unit := for_each aiusage_event evs.
End aiusage.

(** ** Examples *)

Example tool_by_path : match_tool (S := unit) "/usr/local/bin/Cursor" tt = (tt, Ok (Some "cursor")).
Proof. reflexivity. Qed.
Example tool_cut_by_kernel : match_tool (S := unit) "github-copilot-" tt = (tt, Ok (Some "github-copilot")).
Proof. reflexivity. Qed.
Example tool_in_cmdline :
  match_tool_in_cmdline (S := unit) "python3.12 -m /opt/bin/aider.py --model x" tt = (tt, Ok (Some "aider")).
Proof. reflexivity. Qed.
Example scope_loopback : classify_scope "127.0.0.1" = Some "loopback" ∧ classify_scope "10.0.0.1" = Some "private".
Proof. done. Qed.
