(* ===== verification/ObserveProps.v ===== *)
(** * Observers of the event bus: theorems

    The AI-usage table is bounded and otherwise a refinement of the unbounded one; the
    library loads of the agent and the inventory of the agent meet in the findings of the
    server. *)

From Stdlib Require Import ZArith.
From stdpp Require Import base tactics gmap strings list.
From S2P Require Import Prelude Transport Scheduler Keys Version CveSource Text Findings Engine EngineProps Ocsf Ingest.
From S2P Require Import IngestProps Substrate NetMon Posture Manager Packages Listeners Sweep Snapshot Inventory Observe.

Local Open Scope Z_scope.

(** ** Names of tools, without the slicing *)

Fixpoint plain_strip (exts : list string) (name : bytes) : bytes :=
  match exts with
  | [] => name
  | ext :: exts =>
      let n := (length name - length (as_bytes ext))%nat in
      if bool_decide (length (as_bytes ext) < length name)%nat && eq_ignore_ascii_case (drop n name) (as_bytes ext)
      then take n name else plain_strip exts name
  end.
Definition plain_basename (image : bytes) : bytes :=
  plain_strip SCRIPT_EXTS (after_last is_separator_char image image).
Definition plain_tool (image : string) : option string := match_name (plain_basename (as_bytes image)).
Definition plain_interpreter (image : string) : bool := interpreter_name (plain_basename (as_bytes image)).
Definition plain_find (tokens : list bytes) : option string :=
  head (omap (λ tok, match_name (plain_basename tok)) (filter (λ tok, head tok ≠ Some 45) tokens)).

(** Text without bytes of a longer character. *)
Definition ascii_bytes (b : bytes) : Prop := Forall (λ c, c < 128) b.

Lemma ascii_slice {S} i (b : bytes) (s : S) : ascii_bytes b → (i ≤ length b)%nat → slice_from i b s = (s, Ok (drop i b)).
Proof.
  intros Hb Hi. unfold slice_from, is_char_boundary. destruct (b !! i) as [c|] eqn:Hc.
  - apply (proj1 (Forall_lookup _ _) Hb) in Hc. unfold in_range.
    by rewrite (proj2 (Z.leb_gt 128 c)).
  - apply lookup_ge_None in Hc. by rewrite bool_decide_eq_true_2 by lia.
Qed.

Lemma strip_ascii {S} exts name (s : S) :
  ascii_bytes name → strip_script_ext exts name s = (s, Ok (plain_strip exts name)).
Proof.
  intros Hn. induction exts as [|ext exts IH]; [done|]. cbn [strip_script_ext plain_strip].
  case_bool_decide; cbn [andb]; [|done]. unfold mbind, M_bind, m_bind. rewrite ascii_slice by (done || lia).
  by case_match.
Qed.

Lemma after_last_ascii sep acc b : ascii_bytes acc → ascii_bytes b → ascii_bytes (after_last sep acc b).
Proof.
  revert acc. induction b as [|c b IH]; intros acc Ha Hb; [done|]. apply Forall_cons in Hb as [? Hb]. cbn.
  case_match; by apply IH.
Qed.

Lemma basename_ascii {S} b (s : S) : ascii_bytes b → tool_basename b s = (s, Ok (plain_basename b)).
Proof. intros Hb. apply strip_ascii, after_last_ascii; done. Qed.

Lemma match_tool_ascii {S} image (s : S) :
  ascii_bytes (as_bytes image) → match_tool image s = (s, Ok (plain_tool image)).
Proof. intros Hb. unfold match_tool, mbind, M_bind, m_bind. by rewrite basename_ascii. Qed.

Lemma interpreter_ascii {S} image (s : S) :
  ascii_bytes (as_bytes image) → is_interpreter image s = (s, Ok (plain_interpreter image)).
Proof. intros Hb. unfold is_interpreter, mbind, M_bind, m_bind. by rewrite basename_ascii. Qed.

Lemma find_tool_ascii {S} tokens (s : S) :
  Forall ascii_bytes tokens → find_tool tokens s = (s, Ok (plain_find tokens)).
Proof.
  induction 1 as [|tok tokens Ht _ IH]; [done|]. cbn [find_tool]. unfold plain_find.
  case_bool_decide as Hflag.
  - rewrite filter_cons_False by (intros Hn; by apply Hn). exact IH.
  - rewrite filter_cons_True by done. unfold mbind, M_bind, m_bind. rewrite basename_ascii by done.
    cbn [omap list_omap]. destruct (match_name (plain_basename tok)); [done|exact IH].
Qed.

Lemma word_ascii w : ascii_bytes w → Forall ascii_bytes (if bool_decide (w = []) then [] else [w]).
Proof. intros Hw. case_bool_decide; by repeat constructor. Qed.
Lemma stripped_ascii b pats rest : ascii_bytes b → first_stripped b pats = Some rest → ascii_bytes rest.
Proof.
  intros Hb Hs. unfold first_stripped in Hs. apply head_Some_elem_of, list_elem_of_omap in Hs as (p & _ & Hp).
  unfold strip_prefix in Hp. case_match; [|done]. injection Hp as <-. by apply Forall_drop.
Qed.
Lemma words_ascii fuel w b : ascii_bytes w → ascii_bytes b → Forall ascii_bytes (words_fuel fuel w b).
Proof.
  revert w b.
  induction fuel as [|fuel IH]; intros w b Hw Hb; destruct b as [|c b]; cbn [words_fuel];
    try (by apply word_ascii); [constructor|].
  destruct (first_stripped (c :: b) whitespace) as [rest|] eqn:Hs.
  - apply Forall_app. split; [by apply word_ascii|]. apply IH; [constructor|]. by eapply stripped_ascii.
  - apply Forall_cons in Hb as [Hc Hb]. apply IH; [|done]. apply Forall_app. by repeat constructor.
Qed.

Lemma split_ascii b : ascii_bytes b → Forall ascii_bytes (split_whitespace b).
Proof. intros Hb. apply words_ascii; [constructor|done]. Qed.

(** ** AI usage *)

Section aiusage.
Context `{HostLaws} {V : Type} `{JsonValue V, JsonBuild V, JsonGet V}.
Context (meta : Metadata) (dev : Device).
Implicit Types (ev : SubstrateEvent V) (evs : list (SubstrateEvent V)).

(** The names in an event are ASCII. *)
Definition ascii_event ev : Prop :=
  ∀ k s, k ∈ ["image"; "cmdline"] → get_str (fields ev) k = Some s → ascii_bytes (as_bytes s).

(** *** The reference: the same attribution with a table that is never full *)

Definition ref_exec_tool (v : V) : option string :=
  if plain_interpreter (default "" (get_str v "image")) then
    c ← get_str v "cmdline"; plain_find (split_whitespace (as_bytes c))
  else None.
Definition ref_tools (hosts : gmap Z string) ev : gmap Z string :=
  match kind ev, get_u64 (fields ev) "pid" with
  | EventKind.ProcessExec, Some pid =>
      match ref_exec_tool (fields ev) with Some t => <[pid := t]> hosts | None => delete pid hosts end
  | EventKind.ProcessExit, Some pid => delete pid hosts
  | _, _ => hosts
  end.
Definition ref_attribution (hosts : gmap Z string) (image : string) (pid : Z) : option (string * string) :=
  match plain_tool image with
  | Some t => Some (t, "comm")
  | None => if plain_interpreter image then (λ t, (t, "cmdline")) <$> hosts !! pid else None
  end.
(** The record of a connection, if it has one. *)
Definition ref_record (hosts : gmap Z string) ev : option V :=
  match kind ev with
  | EventKind.NetConnect =>
      image ← get_str (fields ev) "image";
      pid ← get_u64 (fields ev) "pid";
      '(tool, via) ← ref_attribution hosts image pid;
      daddr ← get_str (fields ev) "daddr";
      scope ← classify_scope daddr;
      dport ← get_u64 (fields ev) "dport" ≫= u16_try_from;
      Some (usage_payload tool via image daddr (default "tcp" (get_str (fields ev) "proto")) scope pid dport)
  | _ => None
  end.
Fixpoint ref_run (hosts : gmap Z string) evs : list V :=
  match evs with
  | [] => []
  | ev :: evs => option_list (ref_record hosts ev) ++ ref_run (ref_tools hosts ev) evs
  end.
(** The unbounded table never needs more places than the bounded one has. *)
Fixpoint within_cap (hosts : gmap Z string) evs : Prop :=
  (size hosts ≤ MAX_TRACKED)%nat ∧
  match evs with [] => True | ev :: evs => within_cap (ref_tools hosts ev) evs end.

(** *** One event *)

(** The table of the module holds at most the cap, and only what the reference holds. *)
Definition tracks (hosts : gmap Z string) (t : gmap Z (string * Z)) : Prop :=
  (size t ≤ MAX_TRACKED)%nat ∧ ∀ pid e, t !! pid = Some e → hosts !! pid = Some e.1.
Definition tracks_all (hosts : gmap Z string) (t : gmap Z (string * Z)) : Prop :=
  ∀ pid, fst <$> t !! pid = hosts !! pid.

Lemma exec_tool_ascii {S} ev (s : S) :
  ascii_event ev → exec_tool (fields ev) s = (s, Ok (ref_exec_tool (fields ev))).
Proof.
  intros Ha. unfold exec_tool, ref_exec_tool, mbind, M_bind, m_bind.
  rewrite interpreter_ascii.
  2: { destruct (get_str (fields ev) "image") as [i|] eqn:Hi; [|constructor]. eapply Ha; [|exact Hi]. set_solver. }
  destruct (plain_interpreter _); [|done]. destruct (get_str (fields ev) "cmdline") as [c|] eqn:Hc; [|done].
  unfold match_tool_in_cmdline. rewrite find_tool_ascii; [done|].
  apply split_ascii. eapply Ha; [|exact Hc]. set_solver.
Qed.

Lemma attribute_ascii image pid t o :
  ascii_bytes (as_bytes image) →
  attribute_tool (V := V) image pid (t, o) = ((t, o), Ok (ref_attribution (fst <$> t) image pid)).
Proof.
  intros Ha. unfold attribute_tool, ref_attribution, mbind, M_bind, m_bind.
  rewrite match_tool_ascii by done. destruct (plain_tool image); [done|].
  rewrite interpreter_ascii by done. destruct (plain_interpreter image); [|done]. cbn.
  rewrite lookup_fmap. by destruct (t !! pid).
Qed.

Lemma tracked_positive : (0 < MAX_TRACKED)%nat.
Proof. apply Nat.ltb_lt. vm_compute. reflexivity. Qed.
#[local] Opaque MAX_TRACKED.

Lemma evict_tool_spec t o :
  (0 < size t)%nat →
  ∃ k o', evict_oldest_tool (V := V) (t, o) = ((delete k t, o'), Ok tt) ∧ is_Some (t !! k) ∧ out_emitted o' = out_emitted o.
Proof.
  intros Ht. unfold evict_oldest_tool, modify. cbn [fst snd].
  pose proof (hash_order_perm (out_seen o) _ t) as Hp.
  destruct (min_by_key_some (λ kv : Z * (string * Z), kv.2.2) (hash_order (out_seen o) _ t)) as [[k e] Hk].
  { intros Hnil. rewrite Hnil in Hp. apply Permutation_nil_l in Hp. symmetry in Hp. apply map_to_list_empty_iff in Hp. subst.
    rewrite map_size_empty in Ht. lia. }
  rewrite Hk. eexists k, _. split; [reflexivity|]. split; [|done].
  apply min_by_key_spec in Hk as [Hin _]. rewrite Hp in Hin. apply elem_of_map_to_list in Hin. by eexists.
Qed.

Lemma size_delete_le {A} (m : gmap Z A) k n : (size m ≤ n)%nat → (size (delete k m) ≤ n)%nat.
Proof. rewrite map_size_delete. destruct (m !! k); cbn; lia. Qed.

Lemma tracks_insert hosts t pid tool z :
  tracks hosts t → (is_Some (t !! pid) ∨ (size t < MAX_TRACKED)%nat) →
  tracks (<[pid := tool]> hosts) (<[pid := (tool, z)]> t).
Proof.
  intros [Hsz Hin] Hroom. split.
  - destruct (t !! pid) eqn:Hp; [by rewrite map_size_insert_Some by (by eexists)|].
    rewrite map_size_insert_None by done. destruct Hroom as [[? ?]|]; [done|lia].
  - intros p e. destruct (decide (p = pid)) as [->|Hne].
    + rewrite !lookup_insert_eq. by intros [= <-].
    + rewrite !lookup_insert_ne by done. apply Hin.
Qed.
Lemma tracks_delete hosts t pid : tracks hosts t → tracks (delete pid hosts) (delete pid t).
Proof.
  intros [Hsz Hin]. split; [by apply size_delete_le|].
  intros p e. rewrite !lookup_delete_Some. intros [? ?]. split; [done|]. by apply Hin.
Qed.
Lemma tracks_evict hosts t k : tracks hosts t → tracks hosts (delete k t).
Proof.
  intros [Hsz Hin]. split; [by apply size_delete_le|].
  intros p e [_ ?]%lookup_delete_Some. by apply Hin.
Qed.

(** The records that an outbox holds, without their envelopes. *)
Definition reported (o : Outbox V) : list V := data <$> out_emitted o.

Lemma event_connect ev t o :
  ascii_event ev → kind ev = EventKind.NetConnect →
  ∃ o', aiusage_event meta dev ev (t, o) = ((t, o'), Ok tt)
        ∧ reported o' = reported o ++ option_list (ref_record (fst <$> t) ev).
Proof.
  intros Ha Hk. unfold aiusage_event, ai_handle_connect, ref_record. rewrite Hk. cbn [negb].
  assert (Hskip : ∃ o', (mret tt : M _ unit) (t, o) = ((t, o'), Ok tt) ∧ reported o' = reported o ++ []).
  { exists o. by rewrite app_nil_r. }
  rewrite bool_decide_eq_true_2 by done. cbn [negb].
  destruct (get_str (fields ev) "image") as [image|] eqn:Hi; [|done].
  destruct (get_u64 (fields ev) "pid") as [pid|]; [|done]. cbn [mbind option_bind].
  unfold mbind, M_bind, m_bind. rewrite attribute_ascii by (apply (Ha "image"); [set_solver|done]).
  destruct (ref_attribution _ _ _) as [[tool via]|]; [|done]. cbn [mbind option_bind].
  destruct (get_str (fields ev) "daddr") as [daddr|]; [|done]. cbn [mbind option_bind].
  destruct (classify_scope daddr) as [scope|]; [|done]. cbn [mbind option_bind].
  destruct (option_bind _ _ _ _) as [dport|]; [|done]. cbn [mbind option_bind].
  eexists. split; [reflexivity|]. unfold reported. cbn. by rewrite fmap_app.
Qed.

Lemma tracks_all_delete hosts t pid : tracks_all hosts t → tracks_all (delete pid hosts) (delete pid t).
Proof.
  intros Hall p. destruct (decide (p = pid)) as [->|Hne]; [by rewrite !lookup_delete_eq|].
  rewrite !lookup_delete_ne by done. apply Hall.
Qed.
Lemma tracks_all_fmap hosts t : tracks_all hosts t → fst <$> t = hosts.
Proof. intros Hall. apply map_eq. intros k. by rewrite lookup_fmap. Qed.
Lemma tracks_all_insert hosts t pid tool z :
  tracks_all hosts t → tracks_all (<[pid := tool]> hosts) (<[pid := (tool, z)]> t).
Proof.
  intros Hall p. destruct (decide (p = pid)) as [->|Hne]; [by rewrite !lookup_insert_eq|].
  rewrite !lookup_insert_ne by done. apply Hall.
Qed.

(** Setting an entry, with the eviction that makes its place. *)
Lemma exec_insert hosts t o pid tool z :
  tracks hosts t →
  ∃ t' o',
    (tracked ← gets fst;
     (if bool_decide (MAX_TRACKED ≤ size tracked)%nat && bool_decide (tracked !! pid = None)
      then evict_oldest_tool (V := V) else mret tt);;
     tracked ← gets fst;
     set_tools (<[pid := (tool, z)]> tracked)) (t, o) = ((t', o'), Ok tt)
    ∧ reported o' = reported o ∧ tracks (<[pid := tool]> hosts) t'
    ∧ (tracks_all hosts t → (size (<[pid := tool]> hosts) ≤ MAX_TRACKED)%nat →
       tracks_all (<[pid := tool]> hosts) t').
Proof.
  intros Ht. unfold mbind, M_bind, m_bind, gets. cbn [fst].
  destruct (bool_decide (MAX_TRACKED ≤ size t)%nat) eqn:Hfull; [apply bool_decide_eq_true in Hfull|apply bool_decide_eq_false in Hfull];
    [destruct (bool_decide (t !! pid = None)) eqn:Hnew; [apply bool_decide_eq_true in Hnew|apply bool_decide_eq_false in Hnew]|];
    cbn [andb].
  - destruct (evict_tool_spec t o) as (k & o' & -> & Hk & Ho); [pose proof tracked_positive; lia|].
    eexists _, o'. split_and!; [reflexivity|by unfold reported; rewrite Ho| |].
    + apply tracks_insert; [by apply tracks_evict|]. right. destruct Ht as [Hsz _].
      cbn [fst]. rewrite map_size_delete_Some by done. pose proof tracked_positive. lia.
    + intros Hall Hsz. exfalso. rewrite <-(tracks_all_fmap _ _ Hall) in Hsz.
      rewrite map_size_insert_None, map_size_fmap in Hsz by (by rewrite lookup_fmap, Hnew). lia.
  - eexists _, o. split_and!; [reflexivity|done| |by intros; apply tracks_all_insert].
    apply tracks_insert; [done|]. left. by apply not_eq_None_Some.
  - eexists _, o. split_and!; [reflexivity|done| |by intros; apply tracks_all_insert].
    apply tracks_insert; [done|]. right. cbn [fst]. lia.
Qed.

Lemma event_other ev hosts t o :
  ascii_event ev → kind ev ≠ EventKind.NetConnect → tracks hosts t →
  ∃ t' o', aiusage_event meta dev ev (t, o) = ((t', o'), Ok tt)
           ∧ reported o' = reported o ∧ tracks (ref_tools hosts ev) t'
           ∧ (tracks_all hosts t → (size (ref_tools hosts ev) ≤ MAX_TRACKED)%nat → tracks_all (ref_tools hosts ev) t').
Proof.
  intros Ha Hk Ht. unfold aiusage_event, ref_tools.
  assert (Hskip : ∃ t' o', (mret tt : M _ unit) (t, o) = ((t', o'), Ok tt)
                  ∧ reported o' = reported o ∧ tracks hosts t'
                  ∧ (tracks_all hosts t → (size hosts ≤ MAX_TRACKED)%nat → tracks_all hosts t')).
  { by exists t, o. }
  assert (Hdel : ∀ pid, ∃ t' o', set_tools (delete pid t) (t, o) = ((t', o'), Ok tt)
                  ∧ reported o' = reported o ∧ tracks (delete pid hosts) t'
                  ∧ (tracks_all hosts t → (size (delete pid hosts) ≤ MAX_TRACKED)%nat →
                     tracks_all (delete pid hosts) t')).
  { intros pid. exists (delete pid t), o. split_and!; [done|done|by apply tracks_delete|]. intros Hall _.
    by apply tracks_all_delete. }
  destruct (kind ev) eqn:Hkind; try done.
  - unfold ai_handle_exec. rewrite Hkind. rewrite bool_decide_eq_true_2 by done. cbn [negb].
    destruct (get_u64 (fields ev) "pid") as [pid|]; [|done].
    unfold mbind, M_bind, m_bind. rewrite exec_tool_ascii by done.
    destruct (ref_exec_tool (fields ev)) as [tool|]; [by apply exec_insert|by apply Hdel].
  - unfold ai_handle_exit. rewrite Hkind. rewrite bool_decide_eq_true_2 by done. cbn [negb].
    destruct (get_u64 (fields ev) "pid") as [pid|]; [by apply Hdel|done].
Qed.

(** *** A run *)

Lemma record_sub hosts t ev :
  tracks hosts t → option_list (ref_record (fst <$> t) ev) `sublist_of` option_list (ref_record hosts ev).
Proof.
  intros [_ Hin]. unfold ref_record. destruct (kind ev); try done.
  destruct (get_str (fields ev) "image") as [image|]; [|done].
  destruct (get_u64 (fields ev) "pid") as [pid|]; [|done]. cbn [mbind option_bind].
  unfold ref_attribution. destruct (plain_tool image); [done|].
  destruct (plain_interpreter image); [|done]. rewrite lookup_fmap.
  destruct (t !! pid) as [e|] eqn:He; cbn; [by rewrite (Hin _ _ He)|apply sublist_nil_l].
Qed.

Lemma event_step ev hosts t o :
  ascii_event ev → tracks hosts t →
  ∃ t' o' l, aiusage_event meta dev ev (t, o) = ((t', o'), Ok tt)
             ∧ reported o' = reported o ++ l ∧ l `sublist_of` option_list (ref_record hosts ev)
             ∧ tracks (ref_tools hosts ev) t'
             ∧ (tracks_all hosts t → (size (ref_tools hosts ev) ≤ MAX_TRACKED)%nat →
                l = option_list (ref_record hosts ev) ∧ tracks_all (ref_tools hosts ev) t').
Proof.
  intros Ha Ht. destruct (decide (kind ev = EventKind.NetConnect)) as [Hk|Hk].
  - destruct (event_connect ev t o Ha Hk) as (o' & Hrun & Hrep). eexists t, o', _.
    split; [exact Hrun|]. split; [exact Hrep|]. split; [by apply record_sub|].
    replace (ref_tools hosts ev) with hosts by (unfold ref_tools; by rewrite Hk).
    split; [done|]. intros Hall _. by rewrite (tracks_all_fmap _ _ Hall).
  - destruct (event_other ev hosts t o Ha Hk Ht) as (t' & o' & Hrun & Hrep & Ht' & Hall).
    exists t', o', []. split_and!; [done|by rewrite app_nil_r|apply sublist_nil_l|done|].
    intros Hta Hsz. split; [|by apply Hall]. unfold ref_record. by destruct (kind ev).
Qed.

Lemma usage_steps evs : ∀ hosts t o,
  Forall ascii_event evs → tracks hosts t →
  ∃ t' o' l, aiusage_run meta dev evs (t, o) = ((t', o'), Ok tt)
             ∧ (size t' ≤ MAX_TRACKED)%nat
             ∧ reported o' = reported o ++ l ∧ l `sublist_of` ref_run hosts evs
             ∧ (tracks_all hosts t → within_cap hosts evs → l = ref_run hosts evs).
Proof.
  induction evs as [|ev evs IH]; intros hosts t o Hev Ht.
  - exists t, o, []. split_and!; [done|apply Ht|by rewrite app_nil_r|done|done].
  - apply Forall_cons in Hev as [Ha Hev].
    destruct (event_step ev hosts t o Ha Ht) as (t1 & o1 & l1 & Hrun1 & Hrep1 & Hsub1 & Ht1 & Hall1).
    destruct (IH _ t1 o1 Hev Ht1) as (t2 & o2 & l2 & Hrun2 & Hcap & Hrep2 & Hsub2 & Hall2).
    exists t2, o2, (l1 ++ l2). split_and!; [|done| | |].
    + unfold aiusage_run in *. cbn [for_each]. unfold m_bind. by rewrite Hrun1.
    + by rewrite Hrep2, Hrep1, (assoc_L (++)).
    + by apply sublist_app.
    + intros Hta [_ Hw]. destruct Hall1 as [-> Hta']; [done|by destruct evs; apply Hw|].
      cbn [ref_run]. f_equal. by apply Hall2.
Qed.

(** C38: on a stream of events whose names are ASCII the AI-usage task never stops, its table
    never holds more than 4096 processes, and what it reports is, in order, a part of what
    the same attribution with an unbounded table reports; it is all of it as long as at most
    4096 interpreters host a tool at the same time. *)
Theorem ai_usage_matches_reference evs (o : Outbox V) (Hascii : Forall ascii_event evs) :
  ∃ t' o' l, aiusage_run meta dev evs (∅, o) = ((t', o'), Ok tt)
             ∧ (size t' ≤ MAX_TRACKED)%nat
             ∧ data <$> out_emitted o' = (data <$> out_emitted o) ++ l
             ∧ l `sublist_of` ref_run ∅ evs
             ∧ (within_cap ∅ evs → l = ref_run ∅ evs).
Proof.
  destruct (usage_steps evs ∅ ∅ o Hascii) as (t' & o' & l & Hrun & Hcap & Hrep & Hsub & Hall).
  { split; [rewrite map_size_empty; lia|]. intros pid e He. by rewrite lookup_empty in He. }
  exists t', o', l. split_and!; [done|done|done|done|]. apply Hall. by intros pid.
Qed.

(** *** Names that are not ASCII *)

(** "é12": a script extension of three bytes would start inside the first character. *)
Definition split_name : bytes := [195; 169; 49; 50].

Lemma split_name_panics {S} image (s : S) : as_bytes image = split_name → match_tool image s = (s, Panicked).
Proof. intros Himg. unfold match_tool, tool_basename. by rewrite Himg. Qed.

(** One connection by a process whose four-byte name has a two-byte character where a
    three-byte script extension would start ends the AI-usage task: the slice of the name
    panics, and no later event is reported, whatever the rest of the stream is. *)
Theorem non_ascii_name_kills_aiusage ev evs image pid t (o : Outbox V)
  (Hk : kind ev = EventKind.NetConnect) (Hi : get_str (fields ev) "image" = Some image)
  (Hp : get_u64 (fields ev) "pid" = Some pid) (Himg : as_bytes image = split_name) :
  aiusage_run meta dev (ev :: evs) (t, o) = ((t, o), Panicked).
Proof.
  unfold aiusage_run. cbn [for_each]. unfold m_bind, aiusage_event, ai_handle_connect.
  rewrite Hk, Hi, Hp. rewrite bool_decide_eq_true_2 by done. cbn [negb].
  unfold attribute_tool, mbind, M_bind, m_bind. by rewrite split_name_panics.
Qed.
End aiusage.

(** ** From the inventory and the opened libraries to the findings of the server *)

(** A file that is a shared library by its name was opened. *)
Definition opened {V} `{JsonValue V, JsonGet V} (evs : list (SubstrateEvent V)) (path : string) : Prop :=
  ∃ ev, ev ∈ evs ∧ kind ev = EventKind.FileOpen ∧ get_str (fields ev) "path" = Some path ∧
        is_shared_library path = true.

Lemma opened_cons {V} `{JsonValue V, JsonGet V} (ev : SubstrateEvent V) evs path :
  opened (ev :: evs) path ↔ opened [ev] path ∨ opened evs path.
Proof. unfold opened. setoid_rewrite elem_of_cons. setoid_rewrite elem_of_nil. naive_solver. Qed.
#[local] Instance opened_one_dec {V} `{JsonValue V, JsonGet V} (ev : SubstrateEvent V) path :
  Decision (opened [ev] path).
Proof.
  refine (cast_if (decide (kind ev = EventKind.FileOpen ∧ get_str (fields ev) "path" = Some path ∧
    is_shared_library path = true))); unfold opened; setoid_rewrite list_elem_of_singleton; naive_solver.
Defined.

Section libload.
Context `{Host} {V : Type} `{JsonLaws V}.
Context (meta : Metadata) (dev : Device).
Implicit Types (ev : SubstrateEvent V) (evs : list (SubstrateEvent V)) (env : OcsfEnvelope V) (o : Outbox V).

Definition load_record env (path : string) : Prop :=
  class_uid env = RUNTIME_MODULE_LOAD ∧ device env = dev ∧
  json_as_str (json_index (json_index (data env) "module") "path") = Some path.

(** One event: a record for a library not seen before, otherwise nothing. *)
Definition new_library (seen : gset string) ev : option string :=
  if negb (bool_decide (kind ev = EventKind.FileOpen)) then None
  else path ← get_str (fields ev) "path";
       if is_shared_library path && negb (bool_decide (path ∈ seen)) then Some path else None.

Lemma libload_step seen o ev :
  ∃ o' envs, libload_event meta dev ev (seen, o) = ((list_to_set (option_list (new_library seen ev)) ∪ seen, o'), Ok tt)
             ∧ out_emitted o' = out_emitted o ++ envs
             ∧ Forall2 load_record envs (option_list (new_library seen ev)).
Proof.
  assert (Hnone : ∃ o' envs, (mret tt : M _ unit) (seen, o) = (((list_to_set [] : gset string) ∪ seen, o'), Ok tt)
             ∧ out_emitted o' = out_emitted o ++ envs ∧ Forall2 load_record envs []).
  { exists o, []. rewrite app_nil_r. split_and!; [|done|constructor]. cbn [list_to_set]. by rewrite (left_id_L ∅ (∪)). }
  unfold libload_event, new_library. destruct (bool_decide (kind ev = _)); [|done]. cbn [negb].
  destruct (get_str (fields ev) "path") as [path|] eqn:Hpath; [|done]. cbn [mbind option_bind].
  destruct (is_shared_library path); [|done]. cbn [negb andb].
  unfold mbind at 1, M_bind, m_bind, gets. cbn [fst].
  destruct (bool_decide (path ∈ seen)); [done|]. cbn [negb option_list].
  unfold emit_record, modify, mbind, M_bind, m_bind. cbn [fst snd]. change (option_list (Some path)) with [path]. rewrite list_to_set_singleton_L.
  eexists _, [_]. split; [reflexivity|]. split; [reflexivity|].
  constructor; [|constructor]. split_and!; [done|done|]. cbn [data envelope_new].
  json_field. json_field. apply as_str_str.
Qed.

Lemma new_library_spec seen ev path :
  new_library seen ev = Some path ↔ opened [ev] path ∧ path ∉ seen.
Proof.
  unfold opened, new_library. setoid_rewrite list_elem_of_singleton. split.
  - case_bool_decide; [|done]. cbn. intros (p & Hp & Hif)%bind_Some.
    destruct (is_shared_library p) eqn:Hl; [|done]. cbn in Hif. case_bool_decide; [done|].
    injection Hif as <-. naive_solver.
  - intros [(? & -> & Hk & Hp & Hl) Hs]. rewrite bool_decide_eq_true_2 by done. cbn. rewrite Hp. cbn.
    rewrite Hl, bool_decide_eq_false_2 by done. done.
Qed.

Lemma libload_runs evs : ∀ seen o,
  ∃ seen' o' envs paths, libload_run meta dev evs (seen, o) = ((seen', o'), Ok tt)
    ∧ out_emitted o' = out_emitted o ++ envs ∧ Forall2 load_record envs paths
    ∧ NoDup paths ∧ ∀ path, path ∈ paths ↔ opened evs path ∧ path ∉ seen.
Proof.
  induction evs as [|ev evs IH]; intros seen o.
  { exists seen, o, [], []. rewrite app_nil_r. split_and!; [done|done|constructor|constructor|].
    unfold opened. set_solver. }
  destruct (libload_step seen o ev) as (o1 & envs1 & Hrun1 & Hout1 & Hrec1).
  set (seen1 := list_to_set (option_list (new_library seen ev)) ∪ seen) in *.
  destruct (IH seen1 o1) as (seen2 & o2 & envs2 & paths2 & Hrun2 & Hout2 & Hrec2 & Hnd2 & Hin2).
  assert (Hnew : ∀ p, p ∈ option_list (new_library seen ev) ↔ opened [ev] p ∧ p ∉ seen).
  { intros p. rewrite <-new_library_spec. destruct (new_library seen ev); set_solver. }
  assert (Hseen1 : ∀ p, p ∈ seen1 ↔ (opened [ev] p ∧ p ∉ seen) ∨ p ∈ seen).
  { intros p. subst seen1. by rewrite elem_of_union, elem_of_list_to_set, Hnew. }
  exists seen2, o2, (envs1 ++ envs2), (option_list (new_library seen ev) ++ paths2).
  split_and!.
  - unfold libload_run in *. cbn [for_each]. unfold m_bind. by rewrite Hrun1.
  - by rewrite Hout2, Hout1, (assoc_L (++)).
  - by apply Forall2_app.
  - apply NoDup_app. split_and!; [destruct (new_library seen ev); cbn; [apply NoDup_singleton|constructor]| |done].
    intros p Hp. rewrite Hin2, Hseen1. apply Hnew in Hp. tauto.
  - intros p. rewrite elem_of_app, Hin2, Hseen1, Hnew, (opened_cons ev evs).
    destruct (decide (p ∈ seen)); [tauto|].
    destruct (decide (opened [ev] p)); tauto.
Qed.
End libload.

Section flow.
Context {V : Type} `{JsonLaws V, !JsonFloat V, !JsonText V, !DefaultHasher, Host}.
Context `{!Serialize V ComplianceRecord, !Serialize V DriftRecord, !Serialize V FimRecord}.
Context {C E A : Type} `{CveSource C, EnrichmentSource E, AssetContextSource A}.
Implicit Types (evs : list (SubstrateEvent V)) (env : OcsfEnvelope V) (o : Outbox V) (snap : StubSnapshot).

(** The context that the agent gives to its modules. *)
Definition snapshot_ctx snap (meta : Metadata) usage budget : ModuleCtx V :=
  mkModuleCtx (query snap) (snapshot_device snap) meta usage budget.

Definition sbom_record snap env : Prop :=
  class_uid env = SOFTWARE_INVENTORY_INFO ∧ device env = snapshot_device snap ∧
  sbom_components (data env) = Some (package_row <$> ss_packages snap).

Lemma vuln_boot snap meta usage budget n :
  ∃ m o env, (module_init (snapshot_ctx snap meta usage budget);; collect_now)
               (module_new VulnModule, mkOutbox [] n) = ((m, o), Ok tt)
             ∧ out_emitted o = [env] ∧ sbom_record snap env.
Proof.
  eexists _, _, _. split; [reflexivity|]. split; [reflexivity|]. split; [done|]. split; [done|].
  cbn [data envelope_new]. unfold sbom_components, build_sbom_data. json_field. json_field. apply as_array_arr.
Qed.

Lemma package_fields (p : Package) :
  str_or_default (json_index (package_row (V := V) p) "name") = pk_name p ∧
  str_or_default (json_index (package_row (V := V) p) "version") = pk_version p ∧
  str_or_default (json_index (package_row (V := V) p) "source") = pk_source p ∧
  component_libs (package_row (V := V) p) =
    if bool_decide (pk_name p = "") then None
    else if bool_decide (pk_libraries p = []) then None else Some (pk_name p, pk_libraries p).
Proof.
  unfold component_libs, package_row, str_or_default. split_and!; repeat json_field; rewrite ?as_str_str; try done.
  case_bool_decide; [done|]. rewrite as_array_arr. cbn [default from_option id].
  assert (omap json_as_str (json_str (V := V) <$> pk_libraries p) = pk_libraries p) as ->; [|done].
  induction (pk_libraries p) as [|l ls IH]; [done|]. cbn. rewrite as_str_str. by f_equal.
Qed.

(** What the server collects from an SBOM and the loads of one device. *)
Section collected.
Context snap sbom envs paths (Hsbom : sbom_record snap sbom)
  (Hloads : Forall2 (load_record (snapshot_device snap)) envs paths).

Lemma loads_class env : env ∈ envs → class_uid env ≠ SOFTWARE_INVENTORY_INFO.
Proof.
  intros Hin. apply list_elem_of_lookup_1 in Hin as [i Hi].
  destruct (Forall2_lookup_l _ _ _ _ _ Hloads Hi) as (p & _ & -> & _). done.
Qed.

Lemma loads_joined asset path : loaded_on (sbom :: envs) asset path ↔ asset = ss_hostname snap ∧ path ∈ paths.
Proof.
  unfold loaded_on, loaded_by. setoid_rewrite elem_of_cons. split.
  - intros (env & [->|Hin] & <- & Hc & Hp); [destruct Hsbom as [Hs _]; by rewrite Hs in Hc|].
    apply list_elem_of_lookup_1 in Hin as [i Hi].
    destruct (Forall2_lookup_l _ _ _ _ _ Hloads Hi) as (p & Hpi & _ & -> & Hpath).
    rewrite Hpath in Hp. injection Hp as ->. split; [done|]. by eapply list_elem_of_lookup_2.
  - intros [-> Hin]. apply list_elem_of_lookup_1 in Hin as [i Hi].
    destruct (Forall2_lookup_r _ _ _ _ _ Hloads Hi) as (env & Henv & Hc & Hd & Hpath).
    exists env. rewrite Hd. split_and!; [|done|done|done]. right. by eapply list_elem_of_lookup_2.
Qed.

Lemma packages_joined asset name libs :
  provided_on (sbom :: envs) asset (name, libs) ↔
  asset = ss_hostname snap ∧ name ≠ "" ∧ libs ≠ [] ∧
  ∃ p, p ∈ ss_packages snap ∧ pk_name p = name ∧ pk_libraries p = libs.
Proof.
  destruct Hsbom as (Hs & Hd & Hcomp). unfold provided_on, provides. setoid_rewrite elem_of_cons. split.
  - intros (env & [->|Hin] & <- & Hc & comps & comp & Hcs & Hin' & Hlib); [|by apply loads_class in Hin].
    rewrite Hcomp in Hcs. injection Hcs as <-. apply list_elem_of_fmap in Hin' as (p & -> & Hp).
    destruct (package_fields p) as (_ & _ & _ & Hl). rewrite Hl in Hlib.
    case_bool_decide; [done|]. case_bool_decide; [done|]. injection Hlib as <- <-. rewrite Hd. naive_solver.
  - intros (-> & Hn & Hl & p & Hp & <- & <-). exists sbom. rewrite Hd. split_and!; [by left|done|done|].
    eexists _, (package_row p). split; [exact Hcomp|]. split; [by apply list_elem_of_fmap_2|].
    destruct (package_fields p) as (_ & _ & _ & ->). by rewrite !bool_decide_eq_false_2.
Qed.

Lemma packages_detected (feed : C) id :
  detected feed (sbom :: envs) id ↔
  ∃ p hit, p ∈ ss_packages snap
    ∧ hit ∈ hits_for feed (pk_source p) (ss_os snap) (ss_os_version snap) (pk_name p) (pk_version p)
    ∧ id = mkIdentity (ss_hostname snap) (hit_vuln_id hit) (pk_name p) (pk_source p).
Proof.
  destruct Hsbom as (Hs & Hd & Hcomp). unfold detected. setoid_rewrite elem_of_cons. split.
  - intros (env & comp & hit & [->|Hin] & Hc & Hin' & Hhit); [|by apply loads_class in Hin].
    rewrite Hcomp in Hin'. apply list_elem_of_fmap in Hin' as (p & -> & Hp). exists p, hit.
    destruct (package_fields p) as (Hn & Hv & Hso & _). rewrite Hn, Hv, Hso, Hd in Hhit. naive_solver.
  - intros (p & hit & Hp & Hhit & ->). exists sbom, (package_row p), hit.
    destruct (package_fields p) as (-> & -> & -> & _). rewrite Hcomp, Hd.
    split_and!; [by left|done|by apply list_elem_of_fmap_2|done|done].
Qed.

Lemma packages_confirmed id :
  confirmed (from_envelopes (sbom :: envs)) id = true ↔
  asset_id id = ss_hostname snap ∧ component id ≠ "" ∧
  ∃ p path, p ∈ ss_packages snap ∧ pk_name p = component id ∧ path ∈ pk_libraries p ∧ path ∈ paths.
Proof.
  destruct (reachability_is_the_join (sbom :: envs) "" id) as [_ ->].
  setoid_rewrite packages_joined. setoid_rewrite loads_joined. split.
  - intros (libs & l & (-> & ? & ? & p & ? & ? & <-) & ? & _ & ?). naive_solver.
  - intros (-> & ? & p & path & ? & ? & Hl & ?). exists (pk_libraries p), path.
    split_and!; try done; [|by exists p]. intros He. rewrite He in Hl. by apply elem_of_nil in Hl.
Qed.
End collected.

Lemma reconcile_score prior t f : score (reconcile_one prior t f) = score f.
Proof. unfold reconcile_one. repeat case_match; done. Qed.

(** C16: from the host to the server: when the vulnerability module has booted on a snapshot
    and the library-load module has watched any stream of events, the pipeline run on their
    records reports exactly one finding per package of the snapshot and feed hit, under the
    device's host name; a finding has no runtime verdict iff no library was opened, and is
    confirmed at run time iff a package of its name ships a library that was opened. *)
Theorem host_inventory_to_findings snap meta usage budget n evs (feed : C) (enr : E) (assets : A) prior :
  ∃ m seen o1 o2 rep,
    (module_init (snapshot_ctx snap meta usage budget);; collect_now)
      (module_new VulnModule, mkOutbox [] n) = ((m, o1), Ok tt) ∧
    libload_run meta (snapshot_device snap) evs (∅, o1) = ((seen, o2), Ok tt) ∧
    run_ingest (out_emitted o2) feed enr assets prior = Some rep ∧
    NoDup (identity <$> findings rep) ∧
    (∀ id, id ∈ identity <$> findings rep ↔ ∃ p hit, p ∈ ss_packages snap
       ∧ hit ∈ hits_for feed (pk_source p) (ss_os snap) (ss_os_version snap) (pk_name p) (pk_version p)
       ∧ id = mkIdentity (ss_hostname snap) (hit_vuln_id hit) (pk_name p) (pk_source p)) ∧
    (∀ f, f ∈ findings rep →
       (runtime_reachable (explain (score f)) = None ↔ ∀ path, ¬ opened evs path) ∧
       (runtime_reachable (explain (score f)) = Some true ↔
          component (identity f) ≠ "" ∧ ∃ p path, p ∈ ss_packages snap
            ∧ pk_name p = component (identity f) ∧ path ∈ pk_libraries p ∧ opened evs path)).
Proof.
  destruct (vuln_boot snap meta usage budget n) as (m & o1 & sbom & Hboot & Hout1 & Hsbom).
  destruct (libload_runs meta (snapshot_device snap) evs ∅ o1)
    as (seen & o2 & envs & paths & Hload & Hout2 & Hrec & _ & Hpaths).
  destruct (run_ingest_spec (out_emitted o2) feed enr assets prior) as (fs & Hrun & Hv & Hnd & Hin).
  rewrite Hout2, Hout1 in Hin, Hv. cbn [app] in Hin, Hv.
  exists m, seen, o1, o2, (report_of prior fs (batch_time (out_emitted o2))).
  unfold report_of. cbn [findings]. rewrite reconcile_identities.
  setoid_rewrite (packages_detected snap sbom envs paths Hsbom Hrec feed) in Hin.
  split_and!; [done|done|exact Hrun|done|exact Hin|].
  intros f (f0 & -> & Hf0)%list_elem_of_fmap.
  destruct (reconcile_one_same prior (batch_time (out_emitted o2)) f0) as (-> & _). rewrite reconcile_score.
  rewrite Forall_forall in Hv. specialize (Hv f0 Hf0).
  assert (Hasset : asset_id (identity f0) = ss_hostname snap).
  { assert (Hid : identity f0 ∈ identity <$> fs) by (by apply list_elem_of_fmap_2).
    apply Hin in Hid as (p & hit & _ & _ & ->). done. }
  assert (Hopen : ∀ path, path ∈ paths ↔ opened evs path) by (intros path; rewrite Hpaths; set_solver).
  setoid_rewrite <-Hopen. rewrite (v_runtime _ _ Hv). cbn [eng_reach].
  destruct (reachability_is_the_join (sbom :: envs) (asset_id (identity f0)) (identity f0)) as [Hdata _].
  setoid_rewrite (loads_joined snap sbom envs paths Hsbom Hrec) in Hdata.
  pose proof (packages_confirmed snap sbom envs paths Hsbom Hrec (identity f0)) as Hconf.
  destruct (has_data _ _); split.
  - split; [done|]. intros Hno. destruct Hdata as [(p & _ & Hp) _]; [done|]. by destruct (Hno p).
  - destruct (confirmed _ _); naive_solver.
  - split; [|done]. intros _ path Hp. destruct Hdata as [_ Hd]. discriminate Hd. by exists path.
  - split; [done|]. intros (_ & p & path & _ & _ & _ & Hp). destruct Hdata as [_ Hd]. discriminate Hd. by exists path.
Qed.
End flow.
