(* ===== verification/Sensors.v ===== *)
(** * Kernel sensors

    [crates/substrate-ebpf-common/src/lib.rs]: the records that cross the ring buffers, as
    bytes.  [crates/substrate-ebpf/src/main.rs]: the tracepoint programs of the kernel
    side, from what their helpers return.  [crates/substrate/src/ebpf.rs]: the decoding of
    the records, their enrichment from [/proc] and the drain loop; [crates/substrate/src/
    etw.rs]: the mappers that both platforms share.  Both sides run on the same
    little-endian machine, so [from_ne_bytes] reads the least significant byte first. *)

From Stdlib Require Import ZArith.
From stdpp Require Import base tactics gmap strings list.
From S2P Require Import Prelude Transport Scheduler Keys Version CveSource Text Ocsf Ingest Substrate NetMon Sweep.

Local Open Scope Z_scope.

(** ** Integers in memory *)

Fixpoint to_ne_bytes (n : nat) (z : Z) : bytes :=
  match n with O => [] | S n => z `mod` 256 :: to_ne_bytes n (z / 256) end.
Fixpoint from_ne_bytes (b : bytes) : Z :=
  match b with [] => 0 | x :: b => x + 256 * from_ne_bytes b end.
(** [u16::from_be], [u32::from_be]: the bytes in the opposite order. *)
Definition swap_bytes (n : nat) (z : Z) : Z := from_ne_bytes (reverse (to_ne_bytes n z)).

(** ** The records (substrate-ebpf-common) *)

Definition KIND_EXEC : Z := 0.
Definition KIND_EXIT : Z := 1.
Definition KIND_CONNECT : Z := 0.
Definition KIND_OPEN : Z := 0.
Definition KIND_WRITE : Z := 0.
Definition PATH_CAP : nat := 256.

Record ProcEvent := mkProcEvent { pe_kind : Z; pe_pid : Z; pe_ppid : Z; pe_comm : bytes }.
Record NetEvent := mkNetEvent {
  ne_kind : Z; ne_pid : Z; ne_daddr : Z; ne_dport : Z; ne_family : Z; ne_comm : bytes;
}.
Record FileEvent := mkFileEvent { fe_kind : Z; fe_pid : Z; fe_flags : Z; fe_comm : bytes; fe_path : bytes }.
Record FileWriteEvent := mkFileWriteEvent {
  we_kind : Z; we_pid : Z; we_bytes : Z; we_fd : Z; we_comm : bytes;
}.

(** [#\[repr(C)\]]: the fields in order; only the last struct has padding, at its end. *)
Definition proc_bytes (e : ProcEvent) : bytes :=
  to_ne_bytes 4 (pe_kind e) ++ to_ne_bytes 4 (pe_pid e) ++ to_ne_bytes 4 (pe_ppid e) ++ pe_comm e.
Definition net_bytes (e : NetEvent) : bytes :=
  to_ne_bytes 4 (ne_kind e) ++ to_ne_bytes 4 (ne_pid e) ++ to_ne_bytes 4 (ne_daddr e)
  ++ to_ne_bytes 2 (ne_dport e) ++ to_ne_bytes 2 (ne_family e) ++ ne_comm e.
Definition file_bytes (e : FileEvent) : bytes :=
  to_ne_bytes 4 (fe_kind e) ++ to_ne_bytes 4 (fe_pid e) ++ to_ne_bytes 4 (fe_flags e) ++ fe_comm e ++ fe_path e.
Definition write_bytes (e : FileWriteEvent) (padding : bytes) : bytes :=
  to_ne_bytes 4 (we_kind e) ++ to_ne_bytes 4 (we_pid e) ++ to_ne_bytes 8 (we_bytes e)
  ++ to_ne_bytes 4 (we_fd e) ++ we_comm e ++ padding.

Definition AF_INET : Z := 2.

(** ** The kernel programs (substrate-ebpf) *)

(** What the helpers return in one call of a program; [None] is their error.  The string
    helper fills a zeroed buffer of [PATH_CAP] bytes. *)
Record TracePointContext := mkContext {
  read_at : nat → option Z;
  current_pid_tgid : Z;
  current_comm : option bytes;
  probe_read_u16 : Z → option Z;
  probe_read_u32 : Z → option Z;
  probe_read_str : Z → option bytes;
}.
Definition context_pid (ctx : TracePointContext) : Z := wrap_u32 (Z.shiftr (current_pid_tgid ctx) 32).
Definition context_comm (ctx : TracePointContext) : bytes := default (replicate 16 0) (current_comm ctx).

(** A program submits at most one record and returns a code; [reserved] says whether the
    ring had room. *)
Definition emit_proc (kind : Z) (reserved : bool) (ctx : TracePointContext) : option ProcEvent * Z :=
  if reserved then (Some (mkProcEvent kind (context_pid ctx) 0 (context_comm ctx)), 0) else (None, 1).
Definition sched_process_exec : bool → TracePointContext → option ProcEvent * Z := emit_proc KIND_EXEC.
Definition sched_process_exit : bool → TracePointContext → option ProcEvent * Z := emit_proc KIND_EXIT.

Definition CONNECT_USERVADDR_OFF : nat := 24.
Definition sys_enter_connect (reserved : bool) (ctx : TracePointContext) : option NetEvent * Z :=
  match read_at ctx CONNECT_USERVADDR_OFF with
  | None => (None, 1)
  | Some base =>
      if base =? 0 then (None, 0)
      else
        match probe_read_u16 ctx base with
        | None => (None, 1)
        | Some family =>
            if negb (family =? AF_INET) then (None, 0)
            else
              match probe_read_u16 ctx (wrap_u64 (base + 2)), probe_read_u32 ctx (wrap_u64 (base + 4)) with
              | Some dport, Some daddr =>
                  if reserved then
                    (Some (mkNetEvent KIND_CONNECT (context_pid ctx) daddr dport family (context_comm ctx)), 0)
                  else (None, 1)
              | _, _ => (None, 1)
              end
        end
  end.

Definition OPENAT_FILENAME_OFF : nat := 24.
Definition OPENAT_FLAGS_OFF : nat := 32.
Definition sys_enter_openat (reserved : bool) (ctx : TracePointContext) : option FileEvent * Z :=
  match read_at ctx OPENAT_FILENAME_OFF with
  | None => (None, 1)
  | Some filename_ptr =>
      if filename_ptr =? 0 then (None, 0)
      else
        let flags := default 0 (read_at ctx OPENAT_FLAGS_OFF) in
        if negb reserved then (None, 1)
        else
          match probe_read_str ctx filename_ptr with
          | None => (None, 0)
          | Some path =>
              (Some (mkFileEvent KIND_OPEN (context_pid ctx) (wrap_u32 flags) (context_comm ctx) path), 0)
          end
  end.

Definition WRITE_FD_OFF : nat := 16.
Definition WRITE_COUNT_OFF : nat := 32.
(** [(pid as u64) << 32 | (fd & 0xffff_ffff)]. *)
Definition write_seen_key (pid fd : Z) : Z := Z.lor (Z.shiftl pid 32) (Z.land fd 4294967295).
(** [seen] is the content of [WRITE_SEEN] and [insert] what the kernel makes of an
    insertion into that map: it may forget other keys, or refuse. *)
Definition sys_enter_write (insert : Z → gset Z → gset Z) (reserved : bool) (ctx : TracePointContext)
    (seen : gset Z) : gset Z * (option FileWriteEvent * Z) :=
  match read_at ctx WRITE_FD_OFF with
  | None => (seen, (None, 1))
  | Some fd =>
      let count := default 0 (read_at ctx WRITE_COUNT_OFF) in
      let pid := context_pid ctx in
      let key := write_seen_key pid fd in
      if bool_decide (key ∈ seen) then (seen, (None, 0))
      else
        (insert key seen,
         if reserved then (Some (mkFileWriteEvent KIND_WRITE pid count (wrap_u32 fd) (context_comm ctx)), 0)
         else (None, 1))
  end.

(** ** Events as maps (etw.rs) *)

Section map.
Context {V : Type} `{JsonValue V, JsonBuild V}.

(** [serde_json::Map]; its order is never observed. *)
Abbreviation Map := (list (string * V)).
Abbreviation MapEvent := (SubstrateEvent Map).

Fixpoint map_insert (k : string) (v : V) (m : Map) : Map :=
  match m with
  | [] => [(k, v)]
  | (k', v') :: m => if bool_decide (k' = k) then (k, v) :: m else (k', v') :: map_insert k v m
  end.
(** [fields: Value::Object(fields)]. *)
Definition to_object (ev : MapEvent) : SubstrateEvent V :=
  mkSubstrateEvent (kind ev) (ts ev) (json_obj (fields ev)).

Definition opt_entry {A} (k : string) (f : A → V) (o : option A) : Map :=
  match o with Some a => [(k, f a)] | None => [] end.
Definition process_event (kind : EventKind) (ts pid : Z) (image : string) (ppid : option Z)
    (cmdline : option string) : MapEvent :=
  mkSubstrateEvent kind ts
    ([("pid", json_num pid); ("image", json_str image)] ++ opt_entry "ppid" json_num ppid
     ++ opt_entry "cmdline" json_str cmdline).
Definition net_event (ts pid : Z) (comm : string) (daddr_be dport_be : Z) : MapEvent :=
  mkSubstrateEvent EventKind.NetConnect ts
    [("pid", json_num pid); ("image", json_str comm);
     ("daddr", json_str (ipv4_to_string (ipv4_of_u32 (swap_bytes 4 daddr_be))));
     ("dport", json_num (swap_bytes 2 dport_be)); ("proto", json_str "tcp")].
Definition file_event (ts pid : Z) (image path : string) (write : bool) (nbytes : option Z) : MapEvent :=
  mkSubstrateEvent (if write then EventKind.FileWrite else EventKind.FileOpen) ts
    ([("pid", json_num pid); ("image", json_str image); ("path", json_str path);
      ("op", json_str (if write then "write" else "open"))] ++ opt_entry "bytes" json_num nbytes).

(** ** Decoding (ebpf.rs) *)

(** [bytes.get(off..off + n)]. *)
Definition get_range (off n : nat) (b : bytes) : option bytes :=
  if bool_decide (off + n ≤ length b)%nat then Some (take n (drop off b)) else None.
Definition get_uint (off n : nat) (b : bytes) : option Z := from_ne_bytes <$> get_range off n b.

(** The text before the first NUL. *)
Definition until_nul (b : bytes) : bytes :=
  match split_first 0 b with Some (s, _) => s | None => b end.
Definition comm_to_image (comm : bytes) : string := string_of_bytes (from_utf8_lossy (until_nul comm)).

Definition map_record (now : Z) (b : bytes) : option MapEvent :=
  if bool_decide (length b < 28)%nat then None
  else
    kind_raw ← get_uint 0 4 b;
    kind ← (if kind_raw =? KIND_EXEC then Some EventKind.ProcessExec
            else if kind_raw =? KIND_EXIT then Some EventKind.ProcessExit else None);
    pid ← get_uint 4 4 b;
    ppid ← get_uint 8 4 b;
    comm ← get_range 12 16 b;
    Some (process_event kind now pid (comm_to_image comm) (if 0 <? ppid then Some ppid else None) None).

Definition map_net_record (now : Z) (b : bytes) : option MapEvent :=
  if bool_decide (length b < 32)%nat then None
  else
    kind_raw ← get_uint 0 4 b;
    if negb (kind_raw =? KIND_CONNECT) then None
    else
      family ← get_uint 14 2 b;
      if negb (family =? AF_INET) then None
      else
        pid ← get_uint 4 4 b;
        daddr_be ← get_uint 8 4 b;
        dport_be ← get_uint 12 2 b;
        comm ← get_range 16 16 b;
        Some (net_event now pid (comm_to_image comm) daddr_be dport_be).

Definition O_ACCMODE : Z := 3.
Definition O_WRONLY : Z := 1.
Definition O_RDWR : Z := 2.
Definition O_CREAT : Z := 64.
Definition O_TRUNC : Z := 512.
Definition is_write_open (flags : Z) : bool :=
  let acc := Z.land flags O_ACCMODE in
  (acc =? O_WRONLY) || (acc =? O_RDWR) || negb (Z.land flags O_CREAT =? 0) || negb (Z.land flags O_TRUNC =? 0).

Definition map_file_record (now : Z) (b : bytes) : option MapEvent :=
  if bool_decide (length b < 28 + PATH_CAP)%nat then None
  else
    kind_raw ← get_uint 0 4 b;
    if negb (kind_raw =? KIND_OPEN) then None
    else
      pid ← get_uint 4 4 b;
      flags ← get_uint 8 4 b;
      comm ← get_range 12 16 b;
      path_bytes ← get_range 28 PATH_CAP b;
      let path := from_utf8_lossy (until_nul path_bytes) in
      if bool_decide (path = []) then None
      else Some (file_event now pid (comm_to_image comm) (string_of_bytes path) (is_write_open flags) None).

(** The path is left empty for [enrich_write]. *)
Definition map_write_record (now : Z) (b : bytes) : option MapEvent :=
  if bool_decide (length b < 40)%nat then None
  else
    kind_raw ← get_uint 0 4 b;
    if negb (kind_raw =? KIND_WRITE) then None
    else
      pid ← get_uint 4 4 b;
      nbytes ← get_uint 8 8 b;
      fd ← get_uint 16 4 b;
      comm ← get_range 20 16 b;
      let ev := file_event now pid (comm_to_image comm) "" true (Some nbytes) in
      Some (mkSubstrateEvent (kind ev) (ts ev) (map_insert "fd" (json_num fd) (fields ev))).

(** ** Enrichment from [/proc] *)

(** What the files of [/proc] give when they are read: the target of [exe], [cmdline],
    [stat] as text, and the target of [fd/<n>]. *)
Record Procfs := mkProcfs {
  proc_exe : Z → option bytes;
  proc_cmdline : Z → option bytes;
  proc_stat : Z → option bytes;
  proc_fd : Z → Z → option bytes;
}.

Definition parse_ppid_from_stat (stat : bytes) : option Z :=
  '(_, after_comm) ← split_last 41 stat;
  match split_whitespace after_comm with
  | _ :: field :: _ => ppid ← parse_u32 field; if 0 <? ppid then Some ppid else None
  | _ => None
  end.

(** NUL-separated arguments, joined with spaces. *)
Definition join_cmdline (raw : bytes) : bytes :=
  join_space (from_utf8_lossy <$> filter (λ s, s ≠ []) (split_on 0 raw)).

Definition event_u64 (ev : MapEvent) (k : string) : option Z := assoc k (fields ev) ≫= json_as_u64.
Definition set_field (k : string) (v : V) (ev : MapEvent) : MapEvent :=
  mkSubstrateEvent (kind ev) (ts ev) (map_insert k v (fields ev)).

Definition set_image (proc : Procfs) (pid : Z) (ev : MapEvent) : MapEvent :=
  match proc_exe proc pid with
  | Some exe => set_field "image" (json_str (string_of_bytes (from_utf8_lossy exe))) ev
  | None => ev
  end.
Definition set_cmdline (proc : Procfs) (pid : Z) (ev : MapEvent) : MapEvent :=
  match proc_cmdline proc pid with
  | Some raw =>
      let cmdline := join_cmdline raw in
      if bool_decide (cmdline = []) then ev else set_field "cmdline" (json_str (string_of_bytes cmdline)) ev
  | None => ev
  end.
Definition set_ppid (proc : Procfs) (pid : Z) (ev : MapEvent) : MapEvent :=
  match assoc "ppid" (fields ev) with
  | Some _ => ev
  | None =>
      match proc_stat proc pid ≫= parse_ppid_from_stat with
      | Some ppid => set_field "ppid" (json_num ppid) ev
      | None => ev
      end
  end.
Definition enrich_proc_exec (proc : Procfs) (ev : MapEvent) : MapEvent :=
  if negb (bool_decide (kind ev = EventKind.ProcessExec)) then ev
  else
    match event_u64 ev "pid" with
    | None => ev
    | Some pid => set_ppid proc pid (set_cmdline proc pid (set_image proc pid ev))
    end.

(** Only an absolute target names a file. *)
Definition enrich_write (proc : Procfs) (ev : MapEvent) : MapEvent :=
  if negb (bool_decide (kind ev = EventKind.FileWrite)) then ev
  else
    match event_u64 ev "pid", event_u64 ev "fd" with
    | Some pid, Some fd =>
        match proc_fd proc pid fd with
        | Some target =>
            if bool_decide (head target = Some 47)
            then set_field "path" (json_str (string_of_bytes (from_utf8_lossy target))) ev else ev
        | None => ev
        end
    | _, _ => ev
    end.
Definition no_enrich (proc : Procfs) (ev : MapEvent) : MapEvent := ev.

(** ** The drain loop *)

(** A record of the ring, with the clock and the [/proc] that its reading meets. *)
Record Reading := mkReading { rd_bytes : bytes; rd_now : Z; rd_proc : Procfs }.

Definition drain_loop (map : Z → bytes → option MapEvent) (enrich : Procfs → MapEvent → MapEvent)
    (ring : list Reading) : list (SubstrateEvent V) :=
  omap (λ r, to_object <$> (enrich (rd_proc r) <$> map (rd_now r) (rd_bytes r))) ring.

(** The four threads of the bus. *)
Definition drain_proc : list Reading → list (SubstrateEvent V) := drain_loop map_record enrich_proc_exec.
Definition drain_net : list Reading → list (SubstrateEvent V) := drain_loop map_net_record no_enrich.
Definition drain_file : list Reading → list (SubstrateEvent V) := drain_loop map_file_record no_enrich.
Definition drain_write : list Reading → list (SubstrateEvent V) := drain_loop map_write_record enrich_write.
End map.
