(* ===== verification/SensorProps.v ===== *)
(** * Kernel sensors: theorems

    The records survive the ring buffer, and a connection is followed from the system
    call to the finding of the server. *)

From Stdlib Require Import ZArith.
From stdpp Require Import base tactics gmap strings list.
From S2P Require Import Prelude Float32 Transport Scheduler Keys Version CveSource Text Findings Engine EngineProps Ocsf Ingest.
From S2P Require Import IngestProps ActivityProps Substrate NetMon EndToEnd MonitorProps Sweep Sensors.

Local Open Scope Z_scope.

(** ** Bytes in memory *)

Lemma length_ne_bytes n z : length (to_ne_bytes n z) = n.
Proof. revert z. induction n as [|n IH]; intros z; cbn; [done|by rewrite IH]. Qed.

Lemma ne_bytes_round n z : 0 ≤ z < 256 ^ Z.of_nat n → from_ne_bytes (to_ne_bytes n z) = z.
Proof.
  revert z. induction n as [|n IH]; intros z Hz; cbn; [lia|]. rewrite Nat2Z.inj_succ, Z.pow_succ_r in Hz by lia.
  rewrite IH by (split; [apply Z.div_pos; lia|apply Z.div_lt_upper_bound; lia]).
  pose proof (Z.div_mod z 256). lia.
Qed.

Lemma ne_bytes_of b : Forall is_byte b → to_ne_bytes (length b) (from_ne_bytes b) = b.
Proof.
  induction 1 as [|x b Hx _ IH]; [done|]. cbn. unfold is_byte in Hx.
  replace (x + 256 * from_ne_bytes b) with (from_ne_bytes b * 256 + x) by lia.
  rewrite Z.add_mod, Z.mod_mul, Z.add_0_l, Z.mod_mod, Z.mod_small, Z.div_add_l, Z.div_small, Z.add_0_r by lia.
  by rewrite IH.
Qed.

Lemma swap_ne_bytes b : Forall is_byte b → swap_bytes (length b) (from_ne_bytes b) = from_ne_bytes (reverse b).
Proof. intros Hb. unfold swap_bytes. by rewrite ne_bytes_of. Qed.

Lemma ne_bytes_range b : Forall is_byte b → 0 ≤ from_ne_bytes b < 256 ^ Z.of_nat (length b).
Proof.
  induction 1 as [|x b Hx _ IH]; [cbn; lia|]. cbn [length from_ne_bytes]. unfold is_byte in Hx.
  rewrite Nat2Z.inj_succ, Z.pow_succ_r by lia. lia.
Qed.

Lemma get_skip a b off n : (length a ≤ off)%nat → get_range off n (a ++ b) = get_range (off - length a) n b.
Proof.
  intros Ha. unfold get_range. rewrite length_app, drop_app_ge by done.
  case_bool_decide; case_bool_decide; done || lia.
Qed.
Lemma get_here a b n : length a = n → get_range 0 n (a ++ b) = Some a.
Proof.
  intros <-. unfold get_range. rewrite length_app, bool_decide_eq_true_2 by lia.
  by rewrite drop_0, take_app_length.
Qed.
Lemma get_all a n : length a = n → get_range 0 n a = Some a.
Proof. intros Ha. rewrite <-(app_nil_r a) at 1. by apply get_here. Qed.

(** A field of a record, found behind those before it. *)
Ltac skip_field := match goal with
  | |- context [get_range (S ?o) ?n (?a ++ ?b)] =>
      rewrite (get_skip a b (S o) n) by (rewrite ?length_ne_bytes; lia)
  end; rewrite ?length_ne_bytes;
  repeat match goal with Hl : length ?x = _ |- context [length ?x] => rewrite Hl end; cbn [Nat.sub].
Ltac read_field := match goal with
  | |- context [get_range 0 ?n (?a ++ ?b)] => rewrite (get_here a b n) by (rewrite ?length_ne_bytes; done)
  | |- context [get_range 0 ?n ?a] => rewrite (get_all a n) by (rewrite ?length_ne_bytes; done)
  end.
Ltac read_fields := repeat (first [skip_field|read_field]); cbn [fmap option_fmap option_map mbind option_bind].

(** ** The records survive the ring *)

(** What the helpers of the kernel guarantee about a call. *)
Definition context_ok (ctx : TracePointContext) : Prop :=
  0 ≤ current_pid_tgid ctx < 2 ^ 64 ∧ (∀ comm, current_comm ctx = Some comm → length comm = 16%nat) ∧
  (∀ p v, probe_read_u16 ctx p = Some v → 0 ≤ v < 256 ^ 2) ∧ (∀ p v, probe_read_u32 ctx p = Some v → 0 ≤ v < 256 ^ 4).
Definition context_image (ctx : TracePointContext) : string := comm_to_image (context_comm ctx).

Lemma context_pid_range ctx : context_ok ctx → 0 ≤ context_pid ctx < 2 ^ 32 ∧ context_pid ctx = current_pid_tgid ctx / 2 ^ 32.
Proof.
  intros [Hp _]. unfold context_pid, wrap_u32, u32_modulus. rewrite Z.shiftr_div_pow2 by lia.
  assert (0 ≤ current_pid_tgid ctx / 2 ^ 32 < 2 ^ 32)
    by (split; [apply Z.div_pos; lia|apply Z.div_lt_upper_bound; lia]).
  by rewrite Z.mod_small.
Qed.
Lemma context_comm_length ctx : context_ok ctx → length (context_comm ctx) = 16%nat.
Proof. intros (_ & Hc & _). unfold context_comm. destruct (current_comm ctx); [by apply Hc|done]. Qed.

(** The socket address that the argument of [connect] points to. *)
Definition sockaddr_in (ctx : TracePointContext) (ip : Ipv4Addr) (port : Z) : Prop :=
  is_ipv4 ip ∧ 0 ≤ port < 65536 ∧
  ∃ base, read_at ctx CONNECT_USERVADDR_OFF = Some base ∧ base ≠ 0 ∧
    probe_read_u16 ctx base = Some AF_INET ∧
    probe_read_u16 ctx (wrap_u64 (base + 2)) = Some (from_ne_bytes [port / 256; port `mod` 256]) ∧
    probe_read_u32 ctx (wrap_u64 (base + 4)) =
      Some (from_ne_bytes (let '(a, b, c, d) := ip in [a; b; c; d])).

(** The buffer that [bpf_probe_read_user_str_bytes] fills from a C string. *)
Definition c_buffer (s : bytes) : bytes :=
  let s := take (PATH_CAP - 1) s in s ++ replicate (PATH_CAP - length s) 0.

Lemma until_nul_buffer s : 0 ∉ s → until_nul (c_buffer s) = take (PATH_CAP - 1) s.
Proof.
  intros Hs. unfold until_nul, c_buffer. set (t := take (PATH_CAP - 1) s).
  assert (Ht : 0 ∉ t) by (intros [i Hi]%list_elem_of_lookup_1; apply lookup_take_Some in Hi as [Hi _];
    apply Hs; by eapply list_elem_of_lookup_2).
  assert (Hlen : (length t ≤ PATH_CAP - 1)%nat) by (unfold t; rewrite length_take; lia).
  assert (∃ n, (PATH_CAP - length t = S n)%nat) as [n ->] by (exists (PATH_CAP - length t - 1)%nat; unfold PATH_CAP in *; lia).
  clearbody t. clear Hlen. cbn [replicate].
  assert (split_first 0 (t ++ 0 :: replicate n 0) = Some (t, replicate n 0)) as ->; [|done].
  induction t as [|x t IH]; [done|]. apply not_elem_of_cons in Ht as [Hx Ht]. cbn.
  rewrite (proj2 (Z.eqb_neq x 0)) by done. by rewrite IH.
Qed.
Lemma length_c_buffer s : length (c_buffer s) = PATH_CAP.
Proof. unfold c_buffer. rewrite length_app, length_replicate, length_take. unfold PATH_CAP. lia. Qed.

Lemma lossy_nonempty l : l ≠ [] → from_utf8_lossy l ≠ [].
Proof.
  destruct l as [|b l]; [done|]. intros _. unfold from_utf8_lossy. cbn [length lossy_fuel].
  assert (∃ n valid, utf8_chunk b l = (S n, valid)) as (n & valid & ->).
  { unfold utf8_chunk. repeat case_match; by eexists _, _. }
  by destruct valid.
Qed.

Section decode.
Context {V : Type} `{JsonLaws V}.

Lemma proc_decodes kind k ctx now :
  context_ok ctx → (kind = KIND_EXEC ∧ k = EventKind.ProcessExec ∨ kind = KIND_EXIT ∧ k = EventKind.ProcessExit) →
  map_record (V := V) now (proc_bytes (mkProcEvent kind (context_pid ctx) 0 (context_comm ctx))) =
  Some (process_event k now (context_pid ctx) (context_image ctx) None None).
Proof.
  intros Hok Hk. pose proof (context_comm_length ctx Hok) as Hc. destruct (context_pid_range ctx Hok) as [Hp _].
  unfold map_record, proc_bytes, get_uint. cbn [pe_kind pe_pid pe_ppid pe_comm].
  rewrite bool_decide_eq_false_2 by (rewrite !length_app, !length_ne_bytes, Hc; lia).
  read_fields.
  rewrite !ne_bytes_round by (cbn; lia || (destruct Hk as [[-> _]|[-> _]]; cbn; lia)).
  by destruct Hk as [[-> ->]|[-> ->]].
Qed.

Lemma octet_bytes a b c d : is_ipv4 (a, b, c, d) → Forall is_byte [a; b; c; d].
Proof. intros (? & ? & ? & ?). rewrite !Forall_cons. by split_and!. Qed.
Lemma port_bytes port : 0 ≤ port < 65536 → Forall is_byte [port / 256; port `mod` 256].
Proof.
  intros Hp. rewrite !Forall_cons. unfold is_byte. split_and!; try done; Z.div_mod_to_equations; lia.
Qed.
(** The two values of a socket address, read back from network order. *)
Lemma swap_port port : 0 ≤ port < 65536 → swap_bytes 2 (from_ne_bytes [port / 256; port `mod` 256]) = port.
Proof.
  intros Hp. pose proof (swap_ne_bytes [port / 256; port `mod` 256]) as Hs. cbn [length] in Hs. rewrite Hs.
  - cbn. pose proof (Z.div_mod port 256). lia.
  - by apply port_bytes.
Qed.
Lemma swap_address a b c d :
  is_ipv4 (a, b, c, d) → ipv4_of_u32 (swap_bytes 4 (from_ne_bytes [a; b; c; d])) = (a, b, c, d).
Proof.
  intros Hip. pose proof (swap_ne_bytes [a; b; c; d]) as Hs. cbn [length] in Hs. rewrite Hs by (by apply octet_bytes).
  rewrite <-(ipv4_u32 (a, b, c, d)) by done. f_equal. cbn. lia.
Qed.

Lemma net_decodes ctx now ip port :
  context_ok ctx → sockaddr_in ctx ip port →
  ∃ e, sys_enter_connect true ctx = (Some e, 0) ∧
    map_net_record (V := V) now (net_bytes e) =
    Some (mkSubstrateEvent EventKind.NetConnect now
      [("pid", json_num (context_pid ctx)); ("image", json_str (context_image ctx));
       ("daddr", json_str (dotted_quad ip)); ("dport", json_num port); ("proto", json_str "tcp")]).
Proof.
  intros Hok (Hip & Hport & base & Harg & Hbase & Hfam & Hp & Ha).
  pose proof (context_comm_length ctx Hok) as Hc. destruct (context_pid_range ctx Hok) as [Hpid _].
  unfold sys_enter_connect. rewrite Harg, (proj2 (Z.eqb_neq base 0)), Hfam, Z.eqb_refl, Hp, Ha by done.
  cbn [negb]. eexists. split; [reflexivity|].
  unfold map_net_record, net_bytes, get_uint. cbn [ne_kind ne_pid ne_daddr ne_dport ne_family ne_comm].
  rewrite bool_decide_eq_false_2 by (rewrite !length_app, !length_ne_bytes, Hc; lia).
  read_fields.
  assert (Hpr : 0 ≤ from_ne_bytes [port / 256; port `mod` 256] < 256 ^ 2).
  { by apply (ne_bytes_range [_; _]), port_bytes. }
  destruct ip as [[[a b] c] d].
  assert (Har : 0 ≤ from_ne_bytes [a; b; c; d] < 256 ^ 4).
  { by apply (ne_bytes_range [a; b; c; d]), octet_bytes. }
  rewrite !ne_bytes_round by (cbn in *; lia || done). change (negb _) with false. cbv iota.
  change (AF_INET =? AF_INET) with true. cbn [negb]. unfold net_event.
  by rewrite swap_port, swap_address.
Qed.

Lemma file_decodes ctx now ptr path :
  context_ok ctx → read_at ctx OPENAT_FILENAME_OFF = Some ptr → ptr ≠ 0 → path ≠ [] → 0 ∉ path →
  probe_read_str ctx ptr = Some (c_buffer path) →
  ∃ e, sys_enter_openat true ctx = (Some e, 0) ∧
    map_file_record (V := V) now (file_bytes e) =
    Some (file_event now (context_pid ctx) (context_image ctx)
      (string_of_bytes (from_utf8_lossy (take (PATH_CAP - 1) path)))
      (is_write_open (wrap_u32 (default 0 (read_at ctx OPENAT_FLAGS_OFF)))) None).
Proof.
  intros Hok Harg Hptr Hne Hnul Hstr.
  pose proof (context_comm_length ctx Hok) as Hc. destruct (context_pid_range ctx Hok) as [Hpid _].
  unfold sys_enter_openat. rewrite Harg, (proj2 (Z.eqb_neq ptr 0)), Hstr by done.
  cbn [negb]. eexists. split; [reflexivity|].
  unfold map_file_record, file_bytes, get_uint. cbn [fe_kind fe_pid fe_flags fe_comm fe_path].
  pose proof (length_c_buffer path) as Hbuf.
  rewrite bool_decide_eq_false_2 by (rewrite !length_app, !length_ne_bytes, Hc, Hbuf; unfold PATH_CAP; lia).
  read_fields. set (flags := wrap_u32 _).
  assert (0 ≤ flags < 2 ^ 32) by (by apply Z.mod_pos_bound).
  rewrite !ne_bytes_round by (done || (cbn; lia)).
  change (negb (KIND_OPEN =? KIND_OPEN)) with false. cbv iota.
  rewrite until_nul_buffer by done. rewrite bool_decide_eq_false_2; [done|].
  apply lossy_nonempty. by destruct path.
Qed.

Lemma write_decodes ctx now insert seen fd padding :
  context_ok ctx → read_at ctx WRITE_FD_OFF = Some fd → is_u64 (default 0 (read_at ctx WRITE_COUNT_OFF)) →
  write_seen_key (context_pid ctx) fd ∉ seen → length padding = 4%nat →
  ∃ e, sys_enter_write insert true ctx seen = (insert (write_seen_key (context_pid ctx) fd) seen, (Some e, 0)) ∧
    map_write_record (V := V) now (write_bytes e padding) =
    Some (set_field "fd" (json_num (wrap_u32 fd))
      (file_event now (context_pid ctx) (context_image ctx) "" true (Some (default 0 (read_at ctx WRITE_COUNT_OFF))))).
Proof.
  intros Hok Hfd Hcount Hseen Hpad.
  pose proof (context_comm_length ctx Hok) as Hc. destruct (context_pid_range ctx Hok) as [Hpid _].
  unfold sys_enter_write. rewrite Hfd, bool_decide_eq_false_2 by done. eexists. split; [reflexivity|].
  unfold map_write_record, write_bytes, get_uint. cbn [we_kind we_pid we_bytes we_fd we_comm].
  rewrite bool_decide_eq_false_2 by (rewrite !length_app, !length_ne_bytes, Hc, Hpad; lia).
  read_fields. assert (0 ≤ wrap_u32 fd < 2 ^ 32) by (by apply Z.mod_pos_bound).
  unfold is_u64, u64_modulus in Hcount.
  rewrite !ne_bytes_round by (done || (cbn; lia)).
  change (negb (KIND_WRITE =? KIND_WRITE)) with false. done.
Qed.

(** C39: what the kernel submits, user space reads back.  When the ring has room, the record
    that a tracepoint program writes for a process, a connection, a file that is opened or
    the first write to a descriptor decodes to the event with the pid of the thread group,
    the command name, and what the call named: the address and the port in host order, the
    path up to 255 bytes with the access of the flags, the descriptor and the length, and
    no parent. *)
Theorem kernel_records_decode ctx now :
  context_ok ctx →
  let pid := current_pid_tgid ctx / 2 ^ 32 in
  let image := context_image ctx in
  (λ e, map_record (V := V) now (proc_bytes e)) <$> (sched_process_exec true ctx).1 =
    Some (Some (process_event EventKind.ProcessExec now pid image None None)) ∧
  (λ e, map_record (V := V) now (proc_bytes e)) <$> (sched_process_exit true ctx).1 =
    Some (Some (process_event EventKind.ProcessExit now pid image None None)) ∧
  (∀ ip port, sockaddr_in ctx ip port →
    (λ e, map_net_record (V := V) now (net_bytes e)) <$> (sys_enter_connect true ctx).1 =
    Some (Some (mkSubstrateEvent EventKind.NetConnect now
      [("pid", json_num pid); ("image", json_str image); ("daddr", json_str (dotted_quad ip));
       ("dport", json_num port); ("proto", json_str "tcp")]))) ∧
  (∀ ptr path, read_at ctx OPENAT_FILENAME_OFF = Some ptr → ptr ≠ 0 → path ≠ [] → 0 ∉ path →
    probe_read_str ctx ptr = Some (c_buffer path) →
    (λ e, map_file_record (V := V) now (file_bytes e)) <$> (sys_enter_openat true ctx).1 =
    Some (Some (file_event now pid image (string_of_bytes (from_utf8_lossy (take (PATH_CAP - 1) path)))
      (is_write_open (wrap_u32 (default 0 (read_at ctx OPENAT_FLAGS_OFF)))) None))) ∧
  (∀ insert seen fd padding, read_at ctx WRITE_FD_OFF = Some fd →
    is_u64 (default 0 (read_at ctx WRITE_COUNT_OFF)) → write_seen_key pid fd ∉ seen → length padding = 4%nat →
    (λ e, map_write_record (V := V) now (write_bytes e padding)) <$> (sys_enter_write insert true ctx seen).2.1 =
    Some (Some (set_field "fd" (json_num (wrap_u32 fd))
      (file_event now pid image "" true (Some (default 0 (read_at ctx WRITE_COUNT_OFF))))))).
Proof.
  intros Hok pid image. destruct (context_pid_range ctx Hok) as [_ Hp]. subst pid image. rewrite <-Hp.
  split_and!.
  - unfold sched_process_exec, emit_proc. cbn [fst fmap option_fmap option_map].
    by rewrite (proc_decodes _ EventKind.ProcessExec) by auto.
  - unfold sched_process_exit, emit_proc. cbn [fst fmap option_fmap option_map].
    by rewrite (proc_decodes _ EventKind.ProcessExit) by auto.
  - intros ip port Haddr. destruct (net_decodes ctx now ip port Hok Haddr) as (e & -> & He).
    cbn [fst fmap option_fmap option_map]. by rewrite He.
  - intros ptr path Ha Hz Hne Hn Hs. destruct (file_decodes ctx now ptr path) as (e & -> & He); try done.
    cbn [fst fmap option_fmap option_map]. by rewrite He.
  - intros insert seen fd padding Hfd Hct Hs Hl.
    destruct (write_decodes ctx now insert seen fd padding) as (e & -> & He); try done.
    cbn [fst snd fmap option_fmap option_map]. by rewrite He.
Qed.
End decode.

(** ** From the system call to the finding *)

(** One call of [connect]: its context, whether the ring has room, and what the reading of
    its record meets. *)
Record ConnectCall := mkConnectCall {
  cc_context : TracePointContext; cc_reserved : bool; cc_now : Z; cc_proc : Procfs;
}.
Definition connect_reading (c : ConnectCall) : option Reading :=
  (λ e, mkReading (net_bytes e) (cc_now c) (cc_proc c)) <$> (sys_enter_connect (cc_reserved c) (cc_context c)).1.

(** A record is submitted exactly for an IPv4 address, when the ring has room. *)
Lemma two_bytes v : 0 ≤ v < 256 ^ 2 → ∃ port, 0 ≤ port < 65536 ∧ v = from_ne_bytes [port / 256; port `mod` 256].
Proof.
  intros Hv. exists (v `mod` 256 * 256 + v / 256).
  assert (0 ≤ v / 256 < 256) by (split; [apply Z.div_pos; lia|apply Z.div_lt_upper_bound; lia]).
  pose proof (Z.mod_pos_bound v 256). pose proof (Z.div_mod v 256).
  assert ((v `mod` 256 * 256 + v / 256) / 256 = v `mod` 256) as ->
    by (rewrite Z.div_add_l, Z.div_small by lia; lia).
  assert ((v `mod` 256 * 256 + v / 256) `mod` 256 = v / 256) as ->
    by (rewrite Z.add_comm, Z.mod_add, Z.mod_small by lia; lia).
  cbn. lia.
Qed.
Lemma four_bytes v : 0 ≤ v < 256 ^ 4 → ∃ ip, is_ipv4 ip ∧ v = from_ne_bytes (let '(a, b, c, d) := ip in [a; b; c; d]).
Proof.
  intros Hv. exists (v `mod` 256, (v / 256) `mod` 256, (v / 256 / 256) `mod` 256, (v / 256 / 256 / 256) `mod` 256).
  split; [unfold is_ipv4, is_octet; split_and!; apply Z.mod_pos_bound; lia|].
  change (v = from_ne_bytes (to_ne_bytes 4 v)). by rewrite ne_bytes_round.
Qed.

Lemma connect_submits reserved ctx :
  context_ok ctx →
  (∃ e, (sys_enter_connect reserved ctx).1 = Some e) ↔ reserved = true ∧ ∃ ip port, sockaddr_in ctx ip port.
Proof.
  intros (_ & _ & H16 & H32). split.
  - intros [e He]. revert He. unfold sys_enter_connect.
    destruct (read_at ctx CONNECT_USERVADDR_OFF) as [base|] eqn:Harg; [|done].
    destruct (Z.eqb_spec base 0) as [|Hb]; [done|]. destruct (probe_read_u16 ctx base) as [family|] eqn:Hf; [|done].
    destruct (Z.eqb_spec family AF_INET) as [->|]; [|done]. cbn [negb].
    destruct (probe_read_u16 ctx (wrap_u64 (base + 2))) as [dport|] eqn:Hp; [|done].
    destruct (probe_read_u32 ctx (wrap_u64 (base + 4))) as [daddr|] eqn:Ha; [|done].
    destruct reserved; [|done]. intros _. split; [done|].
    destruct (two_bytes dport) as (port & Hport & ->); [by eapply H16|].
    destruct (four_bytes daddr) as (ip & Hip & ->); [by eapply H32|].
    exists ip, port. split; [done|]. split; [done|]. by exists base.
  - intros (-> & ip & port & _ & _ & base & Harg & Hb & Hf & Hp & Ha). unfold sys_enter_connect.
    rewrite Harg, (proj2 (Z.eqb_neq base 0)), Hf, Z.eqb_refl, Hp, Ha by done. cbn [negb]. by eexists.
Qed.

Section flow.
Context `{Host} {V A : Type} `{JsonLaws V, !Deserialize V Detection, !DetectionLaws V, AssetContextSource A}.
Context (meta : Metadata) (dev : Device).

(** The events of the bus are those of the addresses that were connected to. *)
Lemma drained_connect c ev :
  context_ok (cc_context c) →
  (λ r, to_object <$> (no_enrich (V := V) (rd_proc r) <$> map_net_record (rd_now r) (rd_bytes r))) <$> connect_reading c =
    Some (Some ev) →
  cc_reserved c = true ∧ ∃ ip port, sockaddr_in (cc_context c) ip port ∧ net_dest ev = Some (dotted_quad ip, port).
Proof.
  intros Hok Hev. destruct (connect_reading c) as [r|] eqn:Hr; [|done]. unfold connect_reading in Hr.
  destruct (sys_enter_connect (cc_reserved c) (cc_context c)).1 as [e|] eqn:He; [|done].
  destruct (proj1 (connect_submits (cc_reserved c) (cc_context c) Hok)) as (Hroom & ip & port & Haddr); [by exists e|].
  split; [done|]. exists ip, port. split; [done|]. rewrite Hroom in He.
  destruct (net_decodes (V := V) (cc_context c) (cc_now c) ip port Hok Haddr) as (e' & He' & Hmap).
  rewrite He' in He. injection He as ->. injection Hr as <-. cbn [fmap option_fmap option_map rd_bytes rd_now rd_proc] in Hev.
  rewrite Hmap in Hev. injection Hev as <-. destruct (context_pid_range (cc_context c) Hok) as [Hpid _].
  destruct Haddr as (_ & Hport & _).
  unfold net_dest, to_object, no_enrich, get_str, get_u64. cbn [kind fields ts].
  rewrite !get_obj by (apply (bool_decide_unpack _); vm_compute; exact I). cbn [assoc]. json_keys.
  cbn [mbind option_bind]. rewrite !as_str_str, !as_u64_num by (unfold is_u64, u64_modulus; lia).
  cbn [mbind option_bind]. unfold u16_try_from. by rewrite (proj2 (Z.ltb_lt port 65536)) by lia.
Qed.

Lemma connect_drained c ip port :
  context_ok (cc_context c) → cc_reserved c = true → sockaddr_in (cc_context c) ip port →
  ∃ r ev, connect_reading c = Some r ∧
    to_object <$> (no_enrich (V := V) (rd_proc r) <$> map_net_record (rd_now r) (rd_bytes r)) = Some ev.
Proof.
  intros Hok Hroom Haddr. destruct (net_decodes (V := V) (cc_context c) (cc_now c) ip port Hok Haddr) as (e & He & Hmap).
  eexists _, _. unfold connect_reading. rewrite Hroom, He. split; [reflexivity|].
  cbn [rd_now rd_bytes rd_proc]. rewrite Hmap. reflexivity.
Qed.

(** Two calls that name the same address and port name one destination. *)
Lemma sockaddr_unique ctx ip port ip' port' :
  sockaddr_in ctx ip port → sockaddr_in ctx ip' port' → ip = ip' ∧ port = port'.
Proof.
  intros (Hip & Hport & base & Harg & _ & _ & Hp & Ha) (Hip' & Hport' & base' & Harg' & _ & _ & Hp' & Ha').
  rewrite Harg in Harg'. injection Harg' as <-. rewrite Hp in Hp'. rewrite Ha in Ha'.
  injection Hp' as Hp'. injection Ha' as Ha'. split.
  - destruct ip as [[[a b] c] d], ip' as [[[a' b'] c'] d'].
    rewrite <-(swap_address a b c d), <-(swap_address a' b' c' d') by done. by rewrite Ha'.
  - rewrite <-(swap_port port), <-(swap_port port') by done. cbn [from_ne_bytes]. by rewrite Hp'.
Qed.

(** C18: from the system call to the console.  For any sequence of [connect] calls, the
    records that the kernel program writes, drained from the ring, checked by the network
    monitor and mapped by the server, give exactly one finding per IPv4 destination on a
    suspicious port whose record found room in the ring, under the address in dotted form;
    every other call gives none. *)
Theorem connect_calls_become_findings (calls : list ConnectCall) (assets : A) :
  Forall (λ c, context_ok (cc_context c)) calls →
  let evs := drain_net (omap connect_reading calls) in
  let envs := out_emitted (for_each (NetMon.handle_event meta dev) evs (mkOutbox [] 0)).1 in
  let fs := aggregate_network_findings (V := V) envs assets in
  NoDup (identity <$> fs) ∧
  ∀ i, i ∈ identity <$> fs ↔ ∃ c ip port, c ∈ calls ∧ cc_reserved c = true ∧
    sockaddr_in (cc_context c) ip port ∧ port ∈ SUSPICIOUS_PORTS ∧
    i = mkIdentity (hostname dev) ("network:" +:+ dest_key (dotted_quad ip) port) (dotted_quad ip) "network".
Proof.
  intros Hok evs envs fs. destruct (sensed_connections_become_findings meta dev evs assets) as (Hnd & Hin & _).
  fold envs fs in Hnd, Hin. split; [exact Hnd|]. intros i. rewrite Hin. rewrite Forall_forall in Hok.
  assert (Hev : ∀ ev, ev ∈ evs ↔ ∃ c r, c ∈ calls ∧ connect_reading c = Some r ∧
    to_object <$> (no_enrich (V := V) (rd_proc r) <$> map_net_record (rd_now r) (rd_bytes r)) = Some ev).
  { intros ev. unfold evs, drain_net, drain_loop. rewrite list_elem_of_omap. setoid_rewrite list_elem_of_omap.
    naive_solver. }
  split.
  - intros (ev & daddr & dport & (c & r & Hc & Hr & Hm)%Hev & Hd & Hs & ->).
    destruct (drained_connect c ev) as (Hroom & ip & port & Haddr & Hd'); [by apply Hok|by rewrite Hr; cbn; rewrite Hm|].
    rewrite Hd' in Hd. injection Hd as <- <-. naive_solver.
  - intros (c & ip & port & Hc & Hroom & Haddr & Hs & ->).
    destruct (connect_drained c ip port) as (r & ev & Hr & Hm); [by apply Hok|done|done|].
    destruct (drained_connect c ev) as (_ & ip' & port' & Haddr' & Hd'); [by apply Hok|by rewrite Hr; cbn; rewrite Hm|].
    destruct (sockaddr_unique _ _ _ _ _ Haddr Haddr') as [-> ->].
    exists ev, (dotted_quad ip'), port'. split_and!; try done. apply Hev. by exists c, r.
Qed.
End flow.

(** ** The parent of a process *)

(** A printable byte of ASCII. *)
Definition graphic (c : Z) : Prop := 33 ≤ c ≤ 126.

Lemma strip_other p c l : head p ≠ None → head p ≠ Some c → strip_prefix p (c :: l) = None.
Proof.
  intros Hne Hc. unfold strip_prefix. case_bool_decide as Ht; [|done]. destruct p as [|x p]; [done|].
  cbn in Ht. injection Ht as Hx _. by destruct Hc; rewrite Hx.
Qed.
Lemma graphic_not_space c l : graphic c → first_stripped (c :: l) whitespace = None.
Proof.
  intros Hc. unfold first_stripped.
  assert (omap (λ p, strip_prefix p (c :: l)) whitespace = []) as ->; [|done].
  assert (Hw : forallb (λ p, match head p with Some x => (x <? 33) || (126 <? x) | None => false end) whitespace = true)
    by reflexivity.
  rewrite forallb_forall in Hw. setoid_rewrite <-list_elem_of_In in Hw. revert Hw. generalize whitespace.
  induction l0 as [|p ps IH]; intros Hw; [done|]. cbn [omap list_omap].
  specialize (Hw p (list_elem_of_here _ _)) as Hp. unfold graphic in Hc.
  rewrite strip_other; [apply IH; intros q Hq; apply Hw; by right|by destruct p|].
  intros Hx. rewrite Hx in Hp. lia.
Qed.
Lemma space_stripped l : first_stripped (32 :: l) whitespace = Some l.
Proof. reflexivity. Qed.

Lemma words_word g : ∀ fuel w l, Forall graphic g → words_fuel (length g + fuel) w (g ++ l) = words_fuel fuel (w ++ g) l.
Proof.
  induction g as [|c g IH]; intros fuel w l Hg; [by rewrite app_nil_r|]. apply Forall_cons in Hg as [Hc Hg].
  cbn [length app Nat.add words_fuel]. rewrite graphic_not_space by done. rewrite IH by done. by rewrite <-app_assoc.
Qed.
Lemma words_space fuel w l :
  words_fuel (S fuel) w (32 :: l) = (if bool_decide (w = []) then [] else [w]) ++ words_fuel fuel [] l.
Proof. cbn [words_fuel]. by rewrite space_stripped. Qed.

Lemma words_lead fuel l : words_fuel (S fuel) [] (32 :: l) = words_fuel fuel [] l.
Proof. apply words_space. Qed.

Lemma split_last_here c l r : c ∉ r → split_last c (l ++ c :: r) = Some (l, r).
Proof.
  intros Hr. unfold split_last. rewrite reverse_app, reverse_cons, <-app_assoc. cbn [app].
  assert (∀ s, c ∉ s → split_first c (s ++ c :: reverse l) = Some (s, reverse l)) as Hs.
  { induction s as [|x s IH]; intros Hs; cbn; [by rewrite Z.eqb_refl|].
    apply not_elem_of_cons in Hs as [Hx Hs]. rewrite (proj2 (Z.eqb_neq x c)) by done. by rewrite IH. }
  rewrite Hs by (by rewrite elem_of_reverse). by rewrite !reverse_involutive.
Qed.

Lemma first_two_words w1 w2 rest :
  Forall graphic w1 → w1 ≠ [] → Forall graphic w2 → w2 ≠ [] → (rest = [] ∨ head rest = Some 32) →
  ∃ ws, split_whitespace ([32] ++ w1 ++ [32] ++ w2 ++ rest) = w1 :: w2 :: ws.
Proof.
  intros Hg1 H1 Hg2 H2 Hrest. unfold split_whitespace. rewrite !length_app. cbn [app].
  change (length [32]) with 1%nat. cbn [Nat.add]. rewrite words_lead, words_word by done. cbn [app].
  rewrite words_space, bool_decide_eq_false_2 by done. rewrite words_word by done. cbn [app].
  destruct Hrest as [->|Hh]; [|destruct rest as [|x rest]; [done|]; injection Hh as ->; cbn [length]].
  - cbn [length words_fuel]. rewrite bool_decide_eq_false_2 by done. by eexists.
  - rewrite words_space, bool_decide_eq_false_2 by done. by eexists.
Qed.

(** The parent pid is the second field behind the last parenthesis of [/proc/<pid>/stat]
    whatever the process is called: no command name, with spaces or parentheses, misleads
    the parser, and a parent of zero is none. *)
Theorem ppid_parsed_behind_any_name (before state field rest : bytes)
  (Hstate : Forall graphic state ∧ state ≠ []) (Hfield : Forall graphic field ∧ field ≠ [])
  (Hrest : rest = [] ∨ head rest = Some 32) (Hclean : 41 ∉ state ++ field ++ rest) :
  parse_ppid_from_stat (before ++ [41; 32] ++ state ++ [32] ++ field ++ rest) =
  (ppid ← parse_u32 field; if 0 <? ppid then Some ppid else None).
Proof.
  destruct Hstate as [Hg1 H1], Hfield as [Hg2 H2]. unfold parse_ppid_from_stat. cbn [app].
  rewrite !not_elem_of_app in Hclean. destruct Hclean as (Hc1 & Hc2 & Hc3).
  rewrite split_last_here by (by rewrite not_elem_of_cons, not_elem_of_app, not_elem_of_cons, not_elem_of_app).
  destruct (first_two_words state field rest) as [ws Hws]; try done. cbn [app mbind option_bind] in *. by rewrite Hws.
Qed.
