(* ===== verification/EtwSensor.v ===== *)
(** * The Windows sensor

    [crates/substrate/src/etw.rs]: the bounded cache that names the file of a byte-level
    write, and the callbacks of the three providers over what the parser of a record
    gives.  The session and the consumer thread are the library's. *)

From Stdlib Require Import ZArith.
From stdpp Require Import base tactics gmap strings list.
From S2P Require Import Prelude Transport Scheduler Keys Version CveSource Text Ocsf Ingest Substrate NetMon Sweep Sensors.

Local Open Scope Z_scope.

(** ** [FileNameCache] *)

Definition FILE_CACHE_CAP : nat := Z.to_nat 8192.
Definition FILE_CACHE_ORDER_CAP : nat := 2 * FILE_CACHE_CAP.

Record FileNameCache := mkCache { fc_map : gmap Z string; fc_order : list Z }.
Definition cache_new : FileNameCache := mkCache ∅ [].

(** The eviction loop of [insert]. *)
Fixpoint evict_front (m : gmap Z string) (order : list Z) : gmap Z string * list Z :=
  match order with
  | [] => (m, [])
  | old :: order => match m !! old with Some _ => (delete old m, order) | None => evict_front m order end
  end.
(** The compaction of [insert], over the reversed order: the last token of each live key. *)
Fixpoint keep_last (m : gmap Z string) (seen : gset Z) (rev_order : list Z) : list Z :=
  match rev_order with
  | [] => []
  | fo :: l =>
      if bool_decide (m !! fo ≠ None) && bool_decide (fo ∉ seen)
      then fo :: keep_last m ({[fo]} ∪ seen) l else keep_last m seen l
  end.
Definition compact (m : gmap Z string) (order : list Z) : list Z := reverse (keep_last m ∅ (reverse order)).

Definition cache_insert (fo : Z) (path : string) (c : FileNameCache) : FileNameCache :=
  let is_new := bool_decide (fc_map c !! fo = None) in
  let '(m, order) := if is_new && bool_decide (FILE_CACHE_CAP ≤ size (fc_map c))%nat
                     then evict_front (fc_map c) (fc_order c) else (fc_map c, fc_order c) in
  let m := <[fo := path]> m in
  let order := order ++ [fo] in
  mkCache m (if bool_decide (FILE_CACHE_ORDER_CAP < length order)%nat then compact m order else order).
Definition cache_get (fo : Z) (c : FileNameCache) : option string := fc_map c !! fo.
Definition cache_remove (fo : Z) (c : FileNameCache) : FileNameCache := mkCache (delete fo (fc_map c)) (fc_order c).

(** ** The callbacks *)

(** A record: its header, whether its schema is known, and what [try_parse] gives for a
    property at a type. *)
Record EventRecord := mkRecord {
  event_id : Z; process_id : Z; raw_timestamp : Z; has_schema : bool;
  try_u16 : string → option Z; try_u32 : string → option Z; try_u64 : string → option Z;
  try_string : string → option string;
}.

Definition EVENT_ID_PROCESS_START : Z := 1.
Definition EVENT_ID_PROCESS_STOP : Z := 2.
Definition EVENT_ID_TCP_CONNECT_V4 : Z := 12.
Definition EVENT_ID_FILE_CREATE : Z := 12.
Definition EVENT_ID_FILE_CLEANUP : Z := 13.
Definition EVENT_ID_FILE_CLOSE : Z := 14.
Definition EVENT_ID_FILE_WRITE : Z := 16.

Definition FILE_SUPERSEDE : Z := 0.
Definition FILE_CREATE : Z := 2.
Definition FILE_OPEN_IF : Z := 3.
Definition FILE_OVERWRITE : Z := 4.
Definition FILE_OVERWRITE_IF : Z := 5.
Definition is_write_create (create_options : Z) : bool :=
  existsb (Z.eqb (Z.land (Z.shiftr create_options 24) 255))
    [FILE_SUPERSEDE; FILE_CREATE; FILE_OPEN_IF; FILE_OVERWRITE; FILE_OVERWRITE_IF].

Section callbacks.
Context {V : Type} `{JsonValue V, JsonBuild V}.
Abbreviation MapEvent := (SubstrateEvent (list (string * V))).

Definition handle_record (r : EventRecord) : option MapEvent :=
  kind ← (if event_id r =? EVENT_ID_PROCESS_START then Some EventKind.ProcessExec
          else if event_id r =? EVENT_ID_PROCESS_STOP then Some EventKind.ProcessExit else None);
  if negb (has_schema r) then None
  else
    pid ← try_u32 r "ProcessID";
    image ← try_string r "ImageName";
    Some (process_event kind (raw_timestamp r) pid image (try_u32 r "ParentProcessID") (try_string r "CommandLine")).

Definition handle_net_record (r : EventRecord) : option MapEvent :=
  if negb (event_id r =? EVENT_ID_TCP_CONNECT_V4) then None
  else if negb (has_schema r) then None
  else
    pid ← try_u32 r "PID";
    daddr_be ← try_u32 r "daddr";
    dport_be ← try_u16 r "dport";
    Some (net_event (raw_timestamp r) pid "" daddr_be dport_be).

(** The file callbacks: the cache and the event that is sent. *)
Definition handle_file_create (r : EventRecord) (c : FileNameCache) : FileNameCache * option MapEvent :=
  if negb (has_schema r) then (c, None)
  else
    match try_string r "FileName" with
    | None => (c, None)
    | Some path =>
        if bool_decide (path = "") then (c, None)
        else
          let write := default false (is_write_create <$> try_u32 r "CreateOptions") in
          (match try_u64 r "FileObject" with Some fo => cache_insert fo path c | None => c end,
           Some (file_event (raw_timestamp r) (process_id r) "" path write None))
    end.
Definition handle_file_write (r : EventRecord) (c : FileNameCache) : FileNameCache * option MapEvent :=
  if negb (has_schema r) then (c, None)
  else
    (c, fo ← try_u64 r "FileObject";
        io_size ← try_u32 r "IOSize";
        path ← cache_get fo c;
        Some (file_event (raw_timestamp r) (process_id r) "" path true (Some io_size))).
Definition handle_file_record (r : EventRecord) (c : FileNameCache) : FileNameCache * option MapEvent :=
  if event_id r =? EVENT_ID_FILE_CREATE then handle_file_create r c
  else if (event_id r =? EVENT_ID_FILE_CLEANUP) || (event_id r =? EVENT_ID_FILE_CLOSE) then
    (if negb (has_schema r) then c
     else match try_u64 r "FileObject" with Some fo => cache_remove fo c | None => c end, None)
  else if event_id r =? EVENT_ID_FILE_WRITE then handle_file_write r c
  else (c, None).

(** The file provider of a session: what it sends, in order. *)
Fixpoint file_session (rs : list EventRecord) (c : FileNameCache) : FileNameCache * list MapEvent :=
  match rs with
  | [] => (c, [])
  | r :: rs =>
      let '(c, ev) := handle_file_record r c in
      let '(c, evs) := file_session rs c in
      (c, option_list ev ++ evs)
  end.
End callbacks.

(** ** The cache *)

(** A cache within its bounds: every live key has a token to evict it by. *)
Record cache_ok (c : FileNameCache) : Prop := {
  ok_size : (size (fc_map c) ≤ FILE_CACHE_CAP)%nat;
  ok_order : (length (fc_order c) ≤ FILE_CACHE_ORDER_CAP)%nat;
  ok_token : ∀ k, is_Some (fc_map c !! k) → k ∈ fc_order c;
}.

Lemma cache_cap_positive : (0 < FILE_CACHE_CAP)%nat.
Proof. apply Nat.ltb_lt. vm_compute. reflexivity. Qed.
#[local] Opaque FILE_CACHE_CAP.

Lemma cache_new_ok : cache_ok cache_new.
Proof.
  split; cbn; [rewrite map_size_empty; lia|lia|]. intros k [p Hp]. by rewrite lookup_empty in Hp.
Qed.

Lemma evict_front_spec m order :
  (0 < size m)%nat → (∀ k, is_Some (m !! k) → k ∈ order) →
  ∃ k order', evict_front m order = (delete k m, order') ∧ is_Some (m !! k)
    ∧ (length order' < length order)%nat ∧ ∀ j, is_Some (delete k m !! j) → j ∈ order'.
Proof.
  intros Hm. induction order as [|old order IH]; intros Htok.
  { destruct (map_choose m) as (k & p & Hk); [intros ->; rewrite map_size_empty in Hm; lia|].
    specialize (Htok k (ex_intro _ p Hk)). by apply elem_of_nil in Htok. }
  cbn [evict_front]. destruct (m !! old) as [p|] eqn:Hold.
  - exists old, order. split_and!; [done|by eexists|cbn; lia|]. intros j [q [Hne Hj]%lookup_delete_Some].
    specialize (Htok j (ex_intro _ q Hj)). apply elem_of_cons in Htok as [|]; [congruence|done].
  - destruct IH as (k & order' & Hrun & Hk & Hlen & Hrest).
    { intros j Hj. specialize (Htok j Hj). apply elem_of_cons in Htok as [->|]; [by destruct Hj; congruence|done]. }
    exists k, order'. split_and!; [done|done|cbn; lia|done].
Qed.

Lemma keep_last_spec m l : ∀ seen,
  NoDup (keep_last m seen l) ∧
  ∀ k, k ∈ keep_last m seen l ↔ k ∈ l ∧ is_Some (m !! k) ∧ k ∉ seen.
Proof.
  induction l as [|fo l IH]; intros seen; cbn [keep_last]; [split; [constructor|set_solver]|].
  destruct (bool_decide (m !! fo ≠ None)) eqn:Hlive; cbn [andb].
  2: { apply bool_decide_eq_false in Hlive. assert (m !! fo = None) by (by destruct (m !! fo); [destruct Hlive|]).
       destruct (IH seen) as [Hnd Hin]. split; [done|]. intros k. rewrite Hin, elem_of_cons.
       split; [naive_solver|]. intros ([->|] & [? ?] & ?); [congruence|naive_solver]. }
  apply bool_decide_eq_true in Hlive.
  destruct (bool_decide (fo ∉ seen)) eqn:Hseen.
  - apply bool_decide_eq_true in Hseen. destruct (IH ({[fo]} ∪ seen)) as [Hnd Hin]. split.
    + constructor; [rewrite Hin; set_solver|done].
    + intros k. rewrite elem_of_cons, Hin, elem_of_cons, elem_of_union, elem_of_singleton.
      rewrite <-not_eq_None_Some. destruct (decide (k = fo)) as [->|]; [naive_solver|tauto].
  - apply bool_decide_eq_false in Hseen. destruct (IH seen) as [Hnd Hin]. split; [done|].
    intros k. rewrite Hin, elem_of_cons. destruct (decide (k = fo)) as [->|]; [|tauto].
    destruct (decide (fo ∈ seen)); [naive_solver|done].
Qed.

Lemma compact_spec m order :
  (∀ k, is_Some (m !! k) → k ∈ order) →
  (length (compact m order) ≤ size m)%nat ∧ ∀ k, is_Some (m !! k) → k ∈ compact m order.
Proof.
  intros Htok. destruct (keep_last_spec m (reverse order) ∅) as [Hnd Hin]. unfold compact. split.
  - rewrite length_reverse, <-(size_list_to_set (C := gset Z)) by done. rewrite <-size_dom.
    apply subseteq_size. intros k. rewrite elem_of_list_to_set, Hin, elem_of_dom. tauto.
  - intros k Hk. rewrite elem_of_reverse, Hin, elem_of_reverse. split; [by apply Htok|set_solver].
Qed.

Lemma cache_insert_spec fo path c :
  cache_ok c →
  cache_ok (cache_insert fo path c) ∧
  ∃ m, fc_map (cache_insert fo path c) = <[fo := path]> m ∧ m ⊆ fc_map c ∧
    (is_Some (fc_map c !! fo) ∨ (size (fc_map c) < FILE_CACHE_CAP)%nat → m = fc_map c).
Proof.
  intros [Hsz Hord Htok]. pose proof cache_cap_positive. unfold cache_insert.
  assert (∃ m order, (if bool_decide (fc_map c !! fo = None) && bool_decide (FILE_CACHE_CAP ≤ size (fc_map c))%nat
            then evict_front (fc_map c) (fc_order c) else (fc_map c, fc_order c)) = (m, order) ∧
          m ⊆ fc_map c ∧ (is_Some (m !! fo) ∨ (size m < FILE_CACHE_CAP)%nat) ∧ (size m ≤ FILE_CACHE_CAP)%nat ∧
          (length order ≤ FILE_CACHE_ORDER_CAP)%nat ∧ (∀ k, is_Some (m !! k) → k ∈ order) ∧
          (is_Some (fc_map c !! fo) ∨ (size (fc_map c) < FILE_CACHE_CAP)%nat → m = fc_map c))
    as (m & order & -> & Hsub & Hroom & Hm & Ho & Ht & Hsame).
  { destruct (fc_map c !! fo) as [p|] eqn:Hfo.
    - rewrite bool_decide_eq_false_2 by done. cbn [andb]. eexists _, _. split; [reflexivity|].
      rewrite Hfo. split_and!; try done. left. by eexists.
    - rewrite (bool_decide_eq_true_2 (None = None)) by done. cbn [andb]. case_bool_decide as Hfull.
      + destruct (evict_front_spec (fc_map c) (fc_order c)) as (k & order' & -> & Hk & Hlen & Hrest); [lia|done|].
        eexists _, _. split; [reflexivity|]. pose proof (map_size_delete_Some k (fc_map c) Hk).
        split_and!; [apply delete_subseteq|right; lia|lia|lia|done|]. intros [[? ?]|]; [done|lia].
      + eexists _, _. split; [reflexivity|]. split_and!; try done. right. lia. }
  assert (Hsz' : (size (<[fo := path]> m) ≤ FILE_CACHE_CAP)%nat).
  { destruct (m !! fo) as [p|] eqn:Hfo; [by rewrite map_size_insert_Some by (by eexists)|].
    rewrite map_size_insert_None by done. destruct Hroom as [[? ?]|]; [done|lia]. }
  assert (Htok' : ∀ k, is_Some (<[fo := path]> m !! k) → k ∈ order ++ [fo]).
  { intros k Hk. rewrite elem_of_app, list_elem_of_singleton. destruct (decide (k = fo)) as [->|Hne]; [by right|].
    left. apply Ht. by rewrite lookup_insert_ne in Hk by done. }
  split; [|by exists m]. destruct (compact_spec (<[fo := path]> m) (order ++ [fo]) Htok') as [Hclen Hcin].
  split; cbn [fc_map fc_order]; [done| |]; case_bool_decide; try done; unfold FILE_CACHE_ORDER_CAP in *; lia.
Qed.

Lemma cache_remove_ok fo c : cache_ok c → cache_ok (cache_remove fo c).
Proof.
  intros [Hsz Hord Htok]. split; cbn; [|done|].
  - rewrite map_size_delete. destruct (fc_map c !! fo); cbn; lia.
  - intros k [p [_ Hk]%lookup_delete_Some]. apply Htok. by eexists.
Qed.

(** ** The file provider *)

Section file.
Context {V : Type} `{JsonValue V, JsonBuild V}.
Implicit Types (r : EventRecord) (open : gmap Z string).

(** The files that are open, by object: the path of the last Create (event 12) with no
    Cleanup (13) or Close (14) since. *)
Definition ref_open open r : gmap Z string :=
  match has_schema r, event_id r, try_u64 r "FileObject", try_string r "FileName" with
  | true, 12, Some fo, Some path => if bool_decide (path = "") then open else <[fo := path]> open
  | true, 13, Some fo, _ | true, 14, Some fo, _ => delete fo open
  | _, _, _, _ => open
  end.

(** A Create is a write if its disposition, the high byte of the options, is supersede (0),
    create (2), open-if (3), overwrite (4) or overwrite-if (5); a plain open (1) is not. *)
Definition ref_creates r : bool :=
  match try_u32 r "CreateOptions" with
  | Some o => bool_decide ((o / 2 ^ 24) mod 256 ∈ [0; 2; 3; 4; 5])
  | None => false
  end.
Definition ref_file_event r (write : bool) (path : string) (extra : list (string * V)) :
    SubstrateEvent (list (string * V)) :=
  mkSubstrateEvent (if write then EventKind.FileWrite else EventKind.FileOpen) (raw_timestamp r)
    ([("pid", json_num (process_id r)); ("image", json_str ""); ("path", json_str path);
      ("op", json_str (if write then "write" else "open"))] ++ extra).

(** What a sensor reports that remembers every open file: a Create under its own name, a
    Write (16) under the name its object is open with, and nothing else. *)
Definition ref_event open r : option (SubstrateEvent (list (string * V))) :=
  if negb (has_schema r) then None
  else
    match event_id r with
    | 12 =>
        path ← try_string r "FileName";
        if bool_decide (path = "") then None else Some (ref_file_event r (ref_creates r) path [])
    | 16 =>
        fo ← try_u64 r "FileObject";
        size ← try_u32 r "IOSize";
        path ← open !! fo;
        Some (ref_file_event r true path [("bytes", json_num size)])
    | _ => None
    end.
Fixpoint ref_session open (rs : list EventRecord) : list (SubstrateEvent (list (string * V))) :=
  match rs with [] => [] | r :: rs => option_list (ref_event open r) ++ ref_session (ref_open open r) rs end.
Fixpoint opens_within open (rs : list EventRecord) : Prop :=
  (size open ≤ FILE_CACHE_CAP)%nat ∧
  match rs with [] => True | r :: rs => opens_within (ref_open open r) rs end.

Lemma is_write_create_spec o : is_write_create o = bool_decide ((o / 2 ^ 24) mod 256 ∈ [0; 2; 3; 4; 5]).
Proof.
  unfold is_write_create. rewrite Z.shiftr_div_pow2 by done. change 255 with (Z.ones 8).
  rewrite Z.land_ones by done. change (2 ^ 8) with 256. apply eq_true_iff_eq. rewrite existsb_exists, bool_decide_eq_true.
  setoid_rewrite <-list_elem_of_In. split; [by intros (x & Hx & ->%Z.eqb_eq)|].
  intros Hin. exists ((o / 2 ^ 24) mod 256). split; [exact Hin|apply Z.eqb_refl].
Qed.
Lemma created_file_event r path :
  file_event (V := V) (raw_timestamp r) (process_id r) "" path (default false (is_write_create <$> try_u32 r "CreateOptions")) None =
  ref_file_event r (ref_creates r) path [].
Proof.
  unfold ref_creates, ref_file_event, file_event. destruct (try_u32 r "CreateOptions") as [o|]; [|done].
  change (default false (is_write_create <$> Some o)) with (is_write_create o). by rewrite is_write_create_spec.
Qed.

(** The reference by the kind of the record. *)
Lemma ref_open_other open r : has_schema r = false ∨ event_id r ∉ [12; 13; 14] → ref_open open r = open.
Proof. unfold ref_open. intros [->|Hid]; [done|]. repeat case_match; try done; destruct Hid; set_solver. Qed.
Lemma ref_event_other open r : has_schema r = false ∨ event_id r ∉ [12; 16] → ref_event open r = None.
Proof. unfold ref_event. intros [->|Hid]; [done|]. repeat case_match; try done; destruct Hid; set_solver. Qed.

Lemma file_step r c open :
  cache_ok c → fc_map c ⊆ open →
  let '(c', ev) := handle_file_record (V := V) r c in
  cache_ok c' ∧ fc_map c' ⊆ ref_open open r ∧
  option_list ev `sublist_of` option_list (ref_event open r) ∧
  (fc_map c = open → (size (ref_open open r) ≤ FILE_CACHE_CAP)%nat → fc_map c' = ref_open open r ∧ ev = ref_event open r).
Proof.
  intros Hok Hsub. unfold handle_file_record, handle_file_create, handle_file_write,
    EVENT_ID_FILE_CREATE, EVENT_ID_FILE_CLEANUP, EVENT_ID_FILE_CLOSE, EVENT_ID_FILE_WRITE.
  destruct (has_schema r) eqn:Hs; cbn [negb].
  2:{ rewrite (ref_open_other _ _ (or_introl Hs)), (ref_event_other _ _ (or_introl Hs)).
    by destruct (event_id r =? 12), ((event_id r =? 13) || (event_id r =? 14)), (event_id r =? 16). }
  destruct (Z.eqb_spec (event_id r) 12) as [H12|H12].
  { unfold ref_open, ref_event. rewrite Hs, H12. cbn [negb].
    destruct (try_string r "FileName") as [path|]; [|by destruct (try_u64 r "FileObject")].
    cbn [mbind option_bind]. case_bool_decide; [by destruct (try_u64 r "FileObject")|]. rewrite created_file_event.
    destruct (try_u64 r "FileObject") as [fo|]; [|done].
    destruct (cache_insert_spec fo path c Hok) as (Hok' & m & Hm & Hmsub & Hsame). rewrite Hm.
    split_and!; [done| |done|].
    - apply insert_mono. by etrans.
    - intros <- Hsz. split; [|done]. rewrite Hsame; [done|]. destruct (fc_map c !! fo) eqn:Hfo; [left; by eexists|right].
      rewrite map_size_insert_None in Hsz by done. lia. }
  destruct ((event_id r =? 13) || (event_id r =? 14)) eqn:Hclose.
  { rewrite (ref_event_other _ r) by (right; set_unfold; lia).
    assert (ref_open open r = match try_u64 r "FileObject" with Some fo => delete fo open | None => open end) as ->.
    { unfold ref_open. rewrite Hs. assert (event_id r = 13 ∨ event_id r = 14) as [-> | ->] by lia; by case_match. }
    destruct (try_u64 r "FileObject") as [fo|]; [|done].
    split_and!; [by apply cache_remove_ok| |done|by intros <-]. cbn. by apply delete_mono. }
  rewrite (ref_open_other _ r) by (right; set_unfold; lia).
  destruct (Z.eqb_spec (event_id r) 16) as [H16|H16].
  2:{ rewrite ref_event_other by (right; set_unfold; lia). done. }
  unfold ref_event. rewrite Hs, H16. cbn [negb].
  split_and!; [done|done| |by intros <-].
  destruct (try_u64 r "FileObject") as [fo|]; [|done]. destruct (try_u32 r "IOSize") as [n|]; [|done].
  cbn [mbind option_bind]. unfold cache_get. destruct (fc_map c !! fo) as [p|] eqn:Hp; [|apply sublist_nil_l].
  by rewrite (lookup_weaken _ _ _ _ Hp Hsub).
Qed.

(** C40: the memory of the file sensor is bounded and never names the wrong file.  After any
    history of records the cache holds at most 8192 paths and 16384 tokens; what is sent is,
    in order, a part of what a sensor sends that remembers every open file, so a byte-level
    write is reported under the path of the last Create of its object with no Cleanup or
    Close since, or not at all; and nothing is left out as long as at most 8192 files are
    open at once. *)
Theorem etw_file_events_are_true (rs : list EventRecord) :
  let '(c, evs) := file_session (V := V) rs cache_new in
  (size (fc_map c) ≤ FILE_CACHE_CAP)%nat ∧ (length (fc_order c) ≤ FILE_CACHE_ORDER_CAP)%nat ∧
  evs `sublist_of` ref_session ∅ rs ∧ (opens_within ∅ rs → evs = ref_session ∅ rs).
Proof.
  assert (∀ rs c open, cache_ok c → fc_map c ⊆ open →
    let '(c', evs) := file_session (V := V) rs c in
    cache_ok c' ∧ evs `sublist_of` ref_session open rs ∧
    (fc_map c = open → opens_within open rs → evs = ref_session open rs)) as Hrun.
  { clear rs. induction rs as [|r rs IH]; intros c open Hok Hsub; [done|]. cbn [file_session ref_session].
    pose proof (file_step r c open Hok Hsub) as Hstep. destruct (handle_file_record r c) as [c1 ev].
    destruct Hstep as (Hok1 & Hsub1 & Hev & Hall). specialize (IH c1 _ Hok1 Hsub1).
    destruct (file_session rs c1) as [c2 evs]. destruct IH as (Hok2 & Hevs & Hall2).
    split_and!; [done|by apply sublist_app|]. intros Heq [_ Hw].
    destruct Hall as [Heq1 ->]; [done|by destruct rs; apply Hw|]. f_equal. by apply Hall2. }
  specialize (Hrun rs cache_new ∅ cache_new_ok (map_empty_subseteq _)). destruct (file_session rs cache_new) as [c evs].
  destruct Hrun as ([Hsz Hord _] & Hevs & Hall). split_and!; auto.
Qed.
End file.

(** ** A token outlives its file *)

Lemma insert_room fo path c :
  fc_map c !! fo = None → (size (fc_map c) < FILE_CACHE_CAP)%nat → (length (fc_order c) < FILE_CACHE_ORDER_CAP)%nat →
  cache_insert fo path c = mkCache (<[fo := path]> (fc_map c)) (fc_order c ++ [fo]).
Proof.
  intros Hfo Hsz Hord. unfold cache_insert. rewrite Hfo, (bool_decide_eq_true_2 (None = None)) by done. cbn [andb].
  rewrite bool_decide_eq_false_2 by lia. rewrite bool_decide_eq_false_2; [done|]. rewrite length_app. cbn [length]. lia.
Qed.

(** [n] files opened after one that was opened and closed. *)
Definition first_then (n : nat) : FileNameCache :=
  foldl (λ c k, cache_insert (Z.of_nat k) "older" c) (cache_remove 0 (cache_insert 0 "first" cache_new)) (seq 1 n).

Lemma first_then_spec n :
  (n < FILE_CACHE_CAP)%nat →
  fc_order (first_then n) = 0 :: (Z.of_nat <$> seq 1 n) ∧ size (fc_map (first_then n)) = n ∧
  (∀ k, fc_map (first_then n) !! k = if bool_decide (1 ≤ k ≤ Z.of_nat n) then Some "older" else None).
Proof.
  pose proof cache_cap_positive. induction n as [|n IH]; intros Hn.
  { unfold first_then. cbn [seq foldl]. rewrite insert_room;
      [|apply lookup_empty|cbn [fc_map cache_new]; rewrite map_size_empty; lia|unfold FILE_CACHE_ORDER_CAP; cbn [length fc_order cache_new]; lia].
    unfold cache_remove. cbn [fc_map fc_order cache_new app fmap list_fmap]. rewrite delete_insert_eq, delete_empty, map_size_empty. split_and!; [done|done|].
    intros k. rewrite lookup_empty, bool_decide_eq_false_2 by lia. done. }
  destruct IH as (Hord & Hsz & Hget); [lia|]. unfold first_then in *. rewrite seq_S, foldl_app. cbn [foldl].
  set (c := foldl _ _ _) in *.
  assert (Hnew : fc_map c !! Z.of_nat (1 + n) = None) by (rewrite Hget, bool_decide_eq_false_2 by lia; done).
  rewrite insert_room; [|done|lia|rewrite Hord; cbn; rewrite length_fmap, length_seq; unfold FILE_CACHE_ORDER_CAP; lia].
  cbn [fc_map fc_order]. split_and!.
  - rewrite Hord. cbn. by rewrite fmap_app.
  - rewrite map_size_insert_None by done. lia.
  - intros k. destruct (decide (k = Z.of_nat (1 + n))) as [->|Hne].
    + rewrite lookup_insert_eq, bool_decide_eq_true_2 by lia. done.
    + rewrite lookup_insert_ne, Hget by done. repeat case_bool_decide; done || lia.
Qed.

(** The file that was opened last can be the first to be forgotten.  A token that
    [remove] leaves behind counts again when its object is reopened: with the cache full,
    the next file evicts the object just reopened, although every other one is older. *)
Theorem reopened_file_is_evicted_first :
  let full := cache_insert 0 "newest" (first_then (FILE_CACHE_CAP - 1)) in
  let next := cache_insert 8192 "next" full in
  size (fc_map full) = FILE_CACHE_CAP ∧ cache_get 0 full = Some "newest" ∧
  cache_get 0 next = None ∧ cache_get 1 next = Some "older".
Proof.
  pose proof cache_cap_positive. assert (Hcap : Z.of_nat FILE_CACHE_CAP = 8192) by (vm_compute; reflexivity).
  destruct (first_then_spec (FILE_CACHE_CAP - 1)) as (Hord & Hsz & Hget); [lia|].
  set (c := first_then _) in *. clearbody c.
  assert (H0 : fc_map c !! 0 = None) by (rewrite Hget, bool_decide_eq_false_2 by lia; done).
  rewrite (insert_room 0 "newest" c) by (rewrite ?Hord; cbn; rewrite ?length_fmap, ?length_seq; unfold FILE_CACHE_ORDER_CAP; done || lia).
  assert (Hs : size (<[0 := "newest"]> (fc_map c)) = FILE_CACHE_CAP) by (rewrite map_size_insert_None by done; lia).
  assert (Hnext : (<[0 := "newest"]> (fc_map c)) !! 8192 = None)
    by (rewrite lookup_insert_ne, Hget, bool_decide_eq_false_2 by lia; done).
  unfold cache_insert, cache_get. cbn [fc_map fc_order]. rewrite Hs, Hnext, Hord.
  rewrite (bool_decide_eq_true_2 (None = None)), bool_decide_eq_true_2 by (done || lia). cbn [andb app evict_front].
  rewrite lookup_insert_eq. cbn [fc_map]. split_and!; [done|done| |].
  - rewrite lookup_insert_ne by lia. apply lookup_delete_eq.
  - rewrite lookup_insert_ne, lookup_delete_ne, lookup_insert_ne, Hget, bool_decide_eq_true_2 by lia. done.
Qed.
