(* ===== verification/Enrich.v ===== *)
(** * Bundled enrichment

    [server/ingest/src/enrichment.rs]: the CVSS, EPSS and KEV snapshots of a directory
    joined by vulnerability, read from a plain directory or from the verified feed
    store.  [serde_json] at the snapshot types is an interface. *)

From Stdlib Require Import ZArith.
From stdpp Require Import base tactics gmap strings list.
From S2P Require Import Prelude Float32 Transport Scheduler Keys Version CveSource Text Findings Engine.
From S2P Require Import Manager Fs JsonStore Feed FeedProps.

(** ** Snapshots *)

Record OsvSeverity := mkOsvSeverity { sev_kind : string; sev_score : string }.
Record OsvEnrichRecord := mkOsvEnrichRecord {
  oe_id : string; oe_severity : list OsvSeverity;
  oe_cvss_base_score : option f32; oe_exploit_maturity : option string;
}.
(** An array of records, or an object that wraps one. *)
Inductive CvssBundle := CvssWrapped (records : list OsvEnrichRecord) | CvssBare (records : list OsvEnrichRecord).

Class SnapshotJson := {
  cvss_from_str : bytes → CvssBundle + string;
  kev_from_str : bytes → list string + string;
}.

Record CvssEvidence := mkCvssEvidence {
  ev_base_score : option f32; ev_vector : option string; ev_maturity : ExploitMaturity;
}.
Record EpssRow := mkEpssRow { row_epss : f32; row_percentile : f32 }.

Record BundledEnrichment := mkBundled {
  be_cvss : gmap string CvssEvidence;
  be_epss : gmap string EpssRow;
  be_kev : gset string;
  be_feed_version : option string;
}.

Section enrich.
Context `{!SnapshotJson}.

Definition parse_maturity (s : string) : ExploitMaturity :=
  if bool_decide (s = "poc") then ExploitMaturity.Poc
  else if bool_decide (s = "functional") then ExploitMaturity.Functional
  else if bool_decide (s = "weaponized") then ExploitMaturity.Weaponized
  else if bool_decide (s = "in_the_wild") then ExploitMaturity.InTheWild
  else ExploitMaturity.None.

(** The first CVSS v3 vector. *)
Definition cvss_vector_of (r : OsvEnrichRecord) : option string :=
  sev_score <$> List.find (λ s,
    eq_ignore_ascii_case (as_bytes (sev_kind s)) (as_bytes "CVSS_V3") && negb (bool_decide (sev_score s = "")))
    (oe_severity r).

Definition evidence_of (r : OsvEnrichRecord) : CvssEvidence :=
  mkCvssEvidence (oe_cvss_base_score r) (cvss_vector_of r)
    (match oe_exploit_maturity r with Some s => parse_maturity s | None => ExploitMaturity.None end).

(** A later record of the same vulnerability replaces an earlier one. *)
Definition parse_cvss (json : bytes) : Result (gmap string CvssEvidence) :=
  match cvss_from_str json with
  | inr e => Err e
  | inl (CvssWrapped records | CvssBare records) =>
      Ok (foldl (λ m r, <[oe_id r := evidence_of r]> m) ∅ records)
  end.

(** A line of the EPSS table: nothing, a row, or an error. *)
Definition epss_line (raw : bytes) : Result (option (string * EpssRow)) :=
  let line := trim raw in
  if bool_decide (line = []) || bool_decide (head line = Some 35%Z) then Ok None
  else if eq_ignore_ascii_case line (as_bytes "cve,epss,percentile") then Ok None
  else
    match split_on 44 line with
    | cve :: epss :: pct :: _ =>
        match parse_f32 (trim epss) with
        | None => Err "parsing EPSS score"
        | Some e =>
            match parse_f32 (trim pct) with
            | None => Err "parsing EPSS percentile"
            | Some p => Ok (Some (string_of_bytes (trim cve), mkEpssRow e p))
            end
        end
    | _ => Err "malformed EPSS row"
    end.

Fixpoint epss_lines (out : gmap string EpssRow) (lines : list bytes) : Result (gmap string EpssRow) :=
  match lines with
  | [] => Ok out
  | l :: lines =>
      match epss_line l with
      | Ok (Some (cve, row)) => epss_lines (<[cve := row]> out) lines
      | Ok None => epss_lines out lines
      | Err e => Err e
      | Panicked => Panicked
      end
  end.
Definition parse_epss (csv : bytes) : Result (gmap string EpssRow) := epss_lines ∅ (text_lines csv).

Definition parse_kev (json : bytes) : Result (gset string) :=
  match kev_from_str json with inr e => Err e | inl ids => Ok (list_to_set ids) end.

Definition from_snapshots (osv epss kev : bytes) : Result BundledEnrichment :=
  match parse_cvss osv with
  | Ok cvss =>
      match parse_epss epss with
      | Ok rows =>
          match parse_kev kev with
          | Ok ids => Ok (mkBundled cvss rows ids None)
          | Err e => Err ("parsing the KEV snapshot: " +:+ e)
          | Panicked => Panicked
          end
      | Err e => Err ("parsing the EPSS snapshot: " +:+ e)
      | Panicked => Panicked
      end
  | Err e => Err ("parsing CVSS from the OSV snapshot: " +:+ e)
  | Panicked => Panicked
  end.

Definition with_feed_version (v : option string) (b : BundledEnrichment) : BundledEnrichment :=
  mkBundled (be_cvss b) (be_epss b) (be_kev b) v.

(** [extend]: the other map wins. *)
Definition extend_cvss (more : gmap string CvssEvidence) (b : BundledEnrichment) : BundledEnrichment :=
  mkBundled (more ∪ be_cvss b) (be_epss b) (be_kev b) (be_feed_version b).

#[export] Instance BundledEnrichment_source : EnrichmentSource BundledEnrichment := λ b vuln_id,
  let cvss := be_cvss b !! vuln_id in
  let epss := be_epss b !! vuln_id in
  let kev := bool_decide (vuln_id ∈ be_kev b) in
  match cvss, epss, kev with
  | None, None, false => None
  | _, _, _ =>
      Some (mkEnrichment (cvss ≫= ev_vector) (cvss ≫= ev_base_score) (row_epss <$> epss) (row_percentile <$> epss)
        kev
        (if kev then ExploitMaturity.Weaponized
         else match cvss with Some c => ev_maturity c | None => ExploitMaturity.None end)
        VexStatus.Affected (be_feed_version b))
  end.

(** ** Loading *)

Context `{!Faults}.

Definition load_from_dir (dir : Path) : M FsState BundledEnrichment :=
  osv ← read_to_string (dir ++ ["osv-bundle.json"]);
  epss ← read_to_string (dir ++ ["epss-sample.csv"]);
  kev ← read_to_string (dir ++ ["kev-sample.json"]);
  source ← lift (from_snapshots osv epss kev);
  there ← gets (λ s, path_exists (dir ++ ["nvd-bundle.json"]) (disk s));
  if (there : bool) then
    nvd ← read_to_string (dir ++ ["nvd-bundle.json"]);
    more ← lift (parse_cvss nvd);
    mret (extend_cvss more source)
  else mret source.

Definition load_from_feed_store `{!FeedCodec} (root : Path) : M FsState BundledEnrichment :=
  o ← active_version root;
  version ← ok_or o "feed store has no installed feed; install a bundle first";
  b ← load_from_dir (content_dir root);
  mret (with_feed_version (Some version) b).
End enrich.

(** * Enrichment cites the feed it came from

    What a load of the snapshots reads, that the table parser fails closed, and that
    evidence loaded from a feed store comes from the signed bundle it names. *)

Section enrich.
Context `{!SnapshotJson}.

(** ** The EPSS table *)

Definition row_of (cve : string) (l : bytes) : option EpssRow :=
  match epss_line l with
  | Ok (Some (c, row)) => if bool_decide (c = cve) then Some row else None
  | _ => None
  end.

Lemma epss_lines_spec out lines m :
  epss_lines out lines = Ok m ↔
  Forall (λ l, is_ok (epss_line l) = true) lines ∧
  m = foldl (λ m l, match epss_line l with Ok (Some (c, row)) => <[c := row]> m | _ => m end) out lines.
Proof.
  revert out. induction lines as [|l lines IH]; intros out; cbn.
  - split; [intros [= <-]; done|intros [_ ->]; done].
  - destruct (epss_line l) as [[[c row]|]|e|] eqn:Hl.
    + rewrite IH, Forall_cons, Hl. naive_solver.
    + rewrite IH, Forall_cons, Hl. naive_solver.
    + rewrite Forall_cons, Hl. naive_solver.
    + rewrite Forall_cons, Hl. naive_solver.
Qed.

(** The EPSS snapshot is read completely or not at all.  A parse succeeds exactly
    when every line is blank, a comment, the header or a row with two numbers, and then
    the probability of a vulnerability is that of its last row; one malformed row makes
    the whole load fail. *)
Theorem epss_all_or_nothing csv :
  is_ok (parse_epss csv) = forallb (λ l, is_ok (epss_line l)) (text_lines csv) ∧
  ∀ m, parse_epss csv = Ok m → ∀ cve, m !! cve = last (omap (row_of cve) (text_lines csv)).
Proof.
  unfold parse_epss. split.
  - apply eq_bool_prop_intro. rewrite forallb_True. split.
    + destruct (epss_lines ∅ (text_lines csv)) as [m|e|] eqn:Hm; [|done..]. intros _.
      apply epss_lines_spec in Hm as [Hall _]. eapply Forall_impl; [exact Hall|]. by intros l ->.
    + intros Hall. assert (∃ m, epss_lines ∅ (text_lines csv) = Ok m) as [m ->]; [|done].
      eexists. apply epss_lines_spec. split; [|reflexivity].
      eapply Forall_impl; [exact Hall|]. intros l Hl. by apply Is_true_true.
  - intros m [_ ->]%epss_lines_spec cve. generalize (text_lines csv) as ls. intros ls.
    induction ls as [|l ls IH] using rev_ind; [done|].
    rewrite foldl_app, omap_app, last_app. cbn [foldl].
    assert (last (omap (row_of cve) [l]) = row_of cve l) as -> by (cbn; by destruct (row_of cve l)).
    rewrite <-IH. unfold row_of.
    destruct (epss_line l) as [[[c row]|]|e|]; [|done..]. case_bool_decide as Hc.
    + subst. by rewrite lookup_insert_eq.
    + by rewrite lookup_insert_ne.
Qed.

(** ** What a load reads *)

Definition loaded (dir : Path) (d : Disk) (b : BundledEnrichment) : Prop :=
  ∃ osv epss kev b0,
    file_at d (dir ++ ["osv-bundle.json"]) = Some osv ∧ file_at d (dir ++ ["epss-sample.csv"]) = Some epss ∧
    file_at d (dir ++ ["kev-sample.json"]) = Some kev ∧ from_snapshots osv epss kev = Ok b0 ∧
    if path_exists (dir ++ ["nvd-bundle.json"]) d then
      ∃ nvd more, file_at d (dir ++ ["nvd-bundle.json"]) = Some nvd ∧ parse_cvss nvd = Ok more ∧
        b = extend_cvss more b0
    else b = b0.

Section load.
Context `{!Faults}.

Lemma chl_lift {A : Type} (r : Result A) (C P E : Disk → Prop) (Q : A → Disk → Prop) :
  r ≠ Panicked → (∀ a d, r = Ok a → P d → Q a d) → (∀ d, P d → E d) → chl C P (lift r) (ends Q E).
Proof. intros Hr HQ HE s Hs. exists []. rewrite app_nil_r. destruct r; cbn; split_and!; try done; eauto. Qed.

Lemma parse_cvss_no_panic j : parse_cvss j ≠ Panicked.
Proof. unfold parse_cvss. by repeat case_match. Qed.
Lemma epss_lines_no_panic out ls : epss_lines out ls ≠ Panicked.
Proof.
  revert out. induction ls as [|l ls IH]; intros out; cbn; [done|].
  destruct (epss_line l) as [[[c row]|]|e|] eqn:Hl; [apply IH|apply IH|done|].
  exfalso. revert Hl. unfold epss_line. by repeat case_match.
Qed.
Lemma from_snapshots_no_panic o e k : from_snapshots o e k ≠ Panicked.
Proof.
  unfold from_snapshots. pose proof (parse_cvss_no_panic o). pose proof (epss_lines_no_panic ∅ (text_lines e)).
  unfold parse_epss, parse_kev. by repeat case_match.
Qed.

Lemma load_from_dir_spec dir d0 :
  chl (λ _, False) (λ d, d = d0) (load_from_dir dir)
    (ends (λ b d, d = d0 ∧ loaded dir d0 b) (λ d, d = d0)).
Proof.
  unfold load_from_dir.
  eapply chl_bind; [apply read_to_string_spec|]. intros osv. apply chl_case. intros ? (-> & Ho & _).
  eapply chl_bind; [apply read_to_string_spec|]. intros epss. apply chl_case. intros ? (-> & He & _).
  eapply chl_bind; [apply read_to_string_spec|]. intros kev. apply chl_case. intros ? (-> & Hk & _).
  eapply (chl_bind _ _ _ _ _ (λ b d, d = d0 ∧ from_snapshots osv epss kev = Ok b)).
  { apply chl_lift; [apply from_snapshots_no_panic|naive_solver|done]. }
  intros b0. apply chl_case. intros ? (-> & Hb).
  eapply chl_bind; [apply (chl_gets _ _ (path_exists (dir ++ ["nvd-bundle.json"])) _
    (λ r d, d = d0 ∧ r = path_exists (dir ++ ["nvd-bundle.json"]) d0)); naive_solver|].
  intros there. apply chl_case. intros ? (-> & ->). destruct (path_exists _ d0) eqn:Hx.
  - eapply chl_bind; [apply read_to_string_spec|]. intros nvd. apply chl_case. intros ? (-> & Hn & _).
    eapply (chl_bind _ _ _ _ _ (λ m d, d = d0 ∧ parse_cvss nvd = Ok m)).
    { apply chl_lift; [apply parse_cvss_no_panic|naive_solver|done]. }
    intros more. apply chl_ret. intros d (-> & Hm). split; [done|].
    exists osv, epss, kev, b0. rewrite Hx. eauto 10.
  - apply chl_ret. intros d ->. split; [done|]. exists osv, epss, kev, b0. by rewrite Hx.
Qed.
End load.

(** ** The store *)

Context `{!FeedCodec} `{!Ed25519} `{!Hex} `{!FeedCodecLaws}.

Lemma active_version_spec `{!Faults} root d0 st :
  file_at d0 (state_path root) = Some (state_to_vec_pretty st) →
  chl (λ _, False) (λ d, d = d0) (active_version root)
    (ends (λ o d, d = d0 ∧ (o = None ∨ o = Some (st_version st))) (λ d, d = d0)).
Proof.
  intros Hst. unfold active_version, feed_state_ok.
  eapply (chl_bind _ _ _ _ _ (λ o d, d = d0 ∧ (o = None ∨ o = Some st))).
  - eapply (chl_bind _ _ _ _ _ (λ r d, d = d0 ∧ ∀ o, r = inl o → o = Some st)).
    + eapply (chl_inspect _ _ _ _ (λ d, d = d0) (λ o d, d = d0 ∧ o = Some st)); [|naive_solver..].
      eapply chl_bind; [apply (chl_read _ _ _ _ (λ o d, d = d0 ∧ o = file_at d0 (state_path root))); naive_solver|].
      intros o. apply chl_case. intros ? (-> & ->). rewrite Hst, state_round_trip. by apply chl_ret.
    + intros [o|e]; apply chl_ret; intros d (-> & Ho); [|by auto]. rewrite (Ho o eq_refl). auto.
  - intros o. apply chl_ret. intros d (-> & [->| ->]); auto.
Qed.

End enrich.
