(* ===== verification/Emit.v ===== *)
(** * The rotating event file

    [crates/agent/src/emit.rs]: the NDJSON sink of the agent.  The writer is a
    [BufWriter] on an open file, which follows the file when it is renamed. *)

From Stdlib Require Import ZArith.
From stdpp Require Import base tactics gmap strings list pretty.
From S2P Require Import Prelude Transport Scheduler Keys Version Fs.

Local Open Scope Z_scope.

Definition DEFAULT_ROTATE_MB : Z := 64.
Definition DEFAULT_MAX_ROLLS : nat := 3%nat.

(** What a crash-free process has: the disk, the file its handle refers to (gone when
    the file was replaced), what the [BufWriter] holds, and the settings. *)
Record Emitter := mkEmitter {
  em_fs : FsState;
  handle : option Path;
  buffer : bytes;
  bytes_written : Z;
  base_path : Path;
  rotate_bytes : Z;
  max_rolls : nat;
}.

Definition set_fs (f : FsState) (e : Emitter) : Emitter :=
  mkEmitter f (handle e) (buffer e) (bytes_written e) (base_path e) (rotate_bytes e) (max_rolls e).
Definition set_handle (h : option Path) (e : Emitter) : Emitter :=
  mkEmitter (em_fs e) h (buffer e) (bytes_written e) (base_path e) (rotate_bytes e) (max_rolls e).
Definition set_buffer (b : bytes) (e : Emitter) : Emitter :=
  mkEmitter (em_fs e) (handle e) b (bytes_written e) (base_path e) (rotate_bytes e) (max_rolls e).
Definition set_written (n : Z) (e : Emitter) : Emitter :=
  mkEmitter (em_fs e) (handle e) (buffer e) n (base_path e) (rotate_bytes e) (max_rolls e).

Definition on_fs {A} (m : M FsState A) : M Emitter A := zoom em_fs set_fs m.

Section emit.
Context `{Faults}.

(** ** The buffered writer *)

Definition BUF_CAPACITY : nat := Z.to_nat 8192.

(** Append to the open file; the number of bytes that got there, and whether it was
    all of them. *)
Definition append_file (h : option Path) (b : bytes) : M FsState (nat * bool) :=
  n ← next_op;
  d ← gets disk;
  let written := if fails n then take (made n) b else b in
  match h with
  | None => mret tt
  | Some p => put (<[p := File (default [] (file_at d p) ++ written)]> d)
  end;;
  mret (length written, negb (fails n)).

(** What could not be written stays in the buffer. *)
Definition flush_buf : M Emitter unit :=
  h ← gets handle;
  b ← gets buffer;
  if bool_decide (b = []) then mret tt
  else
    r ← on_fs (append_file h b);
    modify (set_buffer (drop (r : nat * bool).1 b));;
    if (r : nat * bool).2 then mret tt else bail "write".

Definition buf_write_all (b : bytes) : M Emitter unit :=
  held ← gets buffer;
  (if bool_decide (BUF_CAPACITY - length held < length b)%nat then flush_buf else mret tt);;
  if bool_decide (BUF_CAPACITY ≤ length b)%nat then
    h ← gets handle;
    r ← on_fs (append_file h b);
    if (r : nat * bool).2 then mret tt else bail "write"
  else modify (λ e, set_buffer (buffer e ++ b) e).

(** ** Rotation *)

Definition roll_path (base : Path) (n : nat) : Path :=
  match last base with
  | Some name => take (length base - 1) base ++ [name +:+ "." +:+ pretty n]
  | None => [String.append "." (pretty n)]
  end.

(** A rename whose error is ignored; the open file follows it. *)
Definition rename_ignored (a b : Path) : M Emitter unit :=
  r ← inspect (on_fs (rename_file a b));
  match r with
  | inr _ => mret tt
  | inl _ => modify (λ e,
      set_handle (if bool_decide (handle e = Some a) then Some b
                  else if bool_decide (handle e = Some b) then None else handle e) e)
  end.

(** [for i in (1..max_rolls).rev()], with [i] still to do. *)
Fixpoint shift_rolls (base : Path) (i : nat) : M Emitter unit :=
  match i with
  | O => mret tt
  | S j =>
      there ← gets (λ e, path_exists (roll_path base i) (disk (em_fs e)));
      (if (there : bool) then rename_ignored (roll_path base i) (roll_path base (S i)) else mret tt);;
      shift_rolls base j
  end.

Definition roll : M Emitter unit :=
  flush_buf;;
  base ← gets base_path;
  rolls ← gets max_rolls;
  (match rolls with
   | O => mret tt
   | S j => shift_rolls base j;; rename_ignored base (roll_path base 1)
   end);;
  on_fs (create_file base);;
  modify (λ e, set_written 0 (set_buffer [] (set_handle (Some base) e))).

Definition write_line (line : bytes) : M Emitter unit :=
  let line_len := wrap_u64 (Z.of_nat (length line) + 1) in
  e ← gets id;
  (if (0 <? rotate_bytes e) && (0 <? bytes_written e)
      && (rotate_bytes e <? wrap_u64 (bytes_written e + line_len))
   then roll else mret tt);;
  buf_write_all line;;
  buf_write_all [10];;
  flush_buf;;
  modify (λ e, set_written (wrap_u64 (bytes_written e + line_len)) e).

(** [FileEmitter::emit], of an envelope that serialized: an error drops the line. *)
Definition emit (line : bytes) : M Emitter unit := inspect (write_line line);; mret tt.

(** [FileEmitter::new]. *)
Definition emitter_new (fs : FsState) (path : Path) (rotate : Z) (rolls : nat) :
    FsState * Result Emitter :=
  let open :=
    (if bool_decide (parent path = []) then mret tt else create_dir_all (parent path));;
    there ← gets (λ s, is_file path (disk s));
    (if (there : bool) then mret tt else create_file path);;
    metadata_len path in
  match open fs with
  | (fs, Ok len) => (fs, Ok (mkEmitter fs (Some path) [] len path rotate rolls))
  | (fs, Err e) => (fs, Err e)
  | (fs, Panicked) => (fs, Panicked)
  end.
End emit.

(** ** Choosing the sink *)

(** [arg.strip_prefix(flag)]. *)
Definition arg_value (flag arg : bytes) : option bytes := strip_prefix flag arg.

Fixpoint scan_args (path : option bytes) (mb : option Z) (args : list bytes) : option bytes * option Z :=
  match args with
  | [] => (path, mb)
  | arg :: args =>
      match arg_value (as_bytes "--output=") arg with
      | Some v => scan_args (Some v) mb args
      | None =>
          if bool_decide (arg = as_bytes "--output") then
            match args with
            | v :: args => scan_args (Some v) mb args
            | [] => (path, mb)
            end
          else
            match arg_value (as_bytes "--rotate-mb=") arg with
            | Some v => scan_args path (parse_u64 (trim v)) args
            | None =>
                if bool_decide (arg = as_bytes "--rotate-mb") then
                  match args with
                  | v :: args => scan_args path (parse_u64 (trim v)) args
                  | [] => (path, mb)
                  end
                else scan_args path mb args
            end
      end
  end.

Definition discover_output_from (args : list bytes) (env : string → option bytes) : option (bytes * Z) :=
  let '(path, mb) := scan_args None None args in
  match (match path with Some p => Some p | None => env "TORDA_OUTPUT" end) with
  | None => None
  | Some p =>
      let mb := match mb with
                | Some n => Some n
                | None => env "TORDA_ROTATE_MB" ≫= λ s, parse_u64 (trim s)
                end in
      let mb := match mb with
                | Some n => if 0 <? n then n else DEFAULT_ROTATE_MB
                | None => DEFAULT_ROTATE_MB
                end in
      Some (p, Z.min u64_max (mb * (1024 * 1024)))
  end.

(** * Rotation drops only the oldest roll

    With a disk that does not fail, the files of the sink read oldest first are the
    records in the order they were emitted; an emit that rotates drops at most one
    whole file, the oldest. *)

Local Close Scope Z_scope.

(** ** The files of a sink, oldest first *)

(** [f 0] is the active file, [f i] the [i]-th roll. *)
Fixpoint text (f : nat → option bytes) (n : nat) : bytes :=
  default [] (f n) ++ match n with 0 => [] | S n => text f n end.

Definition upd (f : nat → option bytes) (i : nat) (o : option bytes) (j : nat) : option bytes :=
  if bool_decide (i = j) then o else f j.
Lemma upd_eq f i o : upd f i o i = o.
Proof. unfold upd. by rewrite bool_decide_eq_true_2. Qed.
Lemma upd_ne f i o j : i ≠ j → upd f i o j = f j.
Proof. intros. unfold upd. by rewrite bool_decide_eq_false_2. Qed.
(** File [i] becomes file [i + 1]. *)
Definition moved_up (f : nat → option bytes) (i : nat) : nat → option bytes :=
  upd (upd f (S i) (f i)) i None.

Lemma text_ext f f' n : (∀ i, i ≤ n → f i = f' i) → text f n = text f' n.
Proof.
  induction n as [|n IH]; intros Hf; cbn; rewrite (Hf _ (le_n _)); [done|].
  f_equal. apply IH. intros. apply Hf. lia.
Qed.

Lemma text_moved_up f i n :
  i < n → (f (S i) = None ∨ S i = n) →
  (if bool_decide (S i = n) then default [] (f n) else []) ++ text (moved_up f i) n = text f n.
Proof.
  intros Hi Hf. induction n as [|n IH]; [lia|]. cbn [text].
  assert (∀ o, text (upd o i None) i = match i with 0 => [] | S i => text o i end) as Hlow.
  { intros o. destruct i as [|i]; cbn [text]; rewrite upd_eq; [done|]. cbn. apply text_ext.
    intros j Hj. rewrite upd_ne by lia. done. }
  destruct (decide (i = n)) as [->|Hne].
  - rewrite bool_decide_eq_true_2 by done. unfold moved_up at 1. rewrite upd_ne, upd_eq by lia.
    unfold moved_up. rewrite Hlow. f_equal.
    destruct n as [|n]; cbn [text]; [done|]. f_equal.
    apply text_ext. intros j Hj. rewrite upd_ne by lia. done.
  - rewrite bool_decide_eq_false_2 by lia. cbn [app]. unfold moved_up at 1. rewrite !upd_ne by lia.
    f_equal. specialize (IH ltac:(lia)). destruct Hf as [Hf|Hf]; [|lia].
    rewrite <-IH by by left. case_bool_decide; [subst; by rewrite Hf|done].
Qed.

(** The rolls from [i] down to the first are moved up. *)
Fixpoint shifted (f : nat → option bytes) (i : nat) : nat → option bytes :=
  match i with
  | 0 => f
  | S j => shifted (match f i with Some _ => moved_up f i | None => f end) j
  end.

Lemma shifted_above f i j : S i < j → shifted f i j = f j.
Proof.
  revert f. induction i as [|i IH]; intros f Hj; [done|]. cbn. rewrite IH by lia.
  destruct (f (S i)); [|done]. unfold moved_up. by rewrite !upd_ne by lia.
Qed.
Lemma shifted_zero f i : shifted f i 0 = f 0.
Proof.
  revert f. induction i as [|i IH]; intros f; [done|]. cbn. rewrite IH.
  destruct (f (S i)); [|done]. unfold moved_up. by rewrite !upd_ne by lia.
Qed.
Lemma shifted_one f i : 0 < i → shifted f i 1 = None.
Proof.
  revert f. induction i as [|[|i] IH]; intros f Hi; [lia| |].
  - cbn. destruct (f 1) eqn:H1; [|done]. unfold moved_up. by rewrite upd_eq.
  - cbn [shifted]. apply IH. lia.
Qed.

Lemma text_shifted f i n :
  i < n → (f (S i) = None ∨ S i = n) →
  (if bool_decide (S i = n) && bool_decide (0 < i) && bool_decide (is_Some (f i)) then default [] (f n) else [])
    ++ text (shifted f i) n = text f n.
Proof.
  revert f. induction i as [|i IH]; intros f Hi Hf; [by rewrite andb_false_r|].
  cbn [shifted]. destruct (f (S i)) as [b|] eqn:Hb.
  - rewrite (bool_decide_eq_true_2 (0 < S i)), (bool_decide_eq_true_2 (is_Some (Some b))), !andb_true_r by (lia || eauto).
    rewrite <-(text_moved_up f (S i) n) by done. f_equal.
    rewrite <-(IH (moved_up f (S i))) by (lia || (left; unfold moved_up; by rewrite upd_eq)).
    by rewrite bool_decide_eq_false_2 by lia.
  - rewrite (bool_decide_eq_false_2 (is_Some None)) by by intros []. rewrite andb_false_r. cbn [app].
    rewrite <-(IH f) by (lia || by left). by rewrite bool_decide_eq_false_2 by lia.
Qed.

(** What a rotation with [n] rolls drops. *)
Definition dropped (f : nat → option bytes) (n : nat) : bytes :=
  match n with
  | 0 => default [] (f 0)
  | 1 => default [] (f 1)
  | S (S m) => if bool_decide (is_Some (f (S m))) then default [] (f n) else []
  end.

(** After a rotation: everything one up, and an empty active file. *)
Definition rotated (f : nat → option bytes) (n : nat) : nat → option bytes :=
  upd (match n with 0 => f | S m => moved_up (shifted f m) 0 end) 0 (Some []).

Lemma text_rotated f n : is_Some (f 0) → dropped f n ++ text (rotated f n) n = text f n.
Proof.
  intros [b Hb]. unfold rotated. destruct n as [|m].
  { cbn. rewrite upd_eq. cbn. by rewrite app_nil_r. }
  assert (∀ g n, g 0 = None → text (upd g 0 (Some [])) n = text g n) as Hz.
  { intros g n Hg. induction n as [|n IH]; cbn; [by rewrite upd_eq, Hg|]. rewrite upd_ne by lia. by rewrite IH. }
  rewrite Hz by (unfold moved_up; by rewrite upd_eq).
  rewrite <-(text_shifted f m (S m)) by (lia || by right).
  rewrite <-(text_moved_up (shifted f m) 0 (S m)).
  - rewrite app_assoc. f_equal. destruct m as [|m]; cbn [dropped].
    + done.
    + rewrite (bool_decide_eq_true_2 (S (S m) = S (S m))), (bool_decide_eq_true_2 (0 < S m)) by lia. cbn [andb].
      rewrite (bool_decide_eq_false_2 (1 = S (S m))) by lia. by rewrite app_nil_r.
  - lia.
  - destruct m as [|m]; [by right|left]. apply shifted_one. lia.
Qed.

Lemma text_append f g n c x :
  f 0 = Some c → g 0 = Some (c ++ x) → (∀ k, k ≠ 0 → g k = f k) → text g n = text f n ++ x.
Proof.
  intros Hf Hg Hk. induction n as [|n IH]; cbn; [by rewrite Hf, Hg, !app_nil_r|].
  by rewrite Hk, IH, app_assoc.
Qed.

Lemma moved_up_ext f g i : (∀ j, f j = g j) → ∀ j, moved_up f i j = moved_up g i j.
Proof. intros Hfg j. unfold moved_up, upd. by repeat case_bool_decide; rewrite ?Hfg. Qed.
Lemma shifted_ext f g i : (∀ j, f j = g j) → ∀ j, shifted f i j = shifted g i j.
Proof.
  revert f g. induction i as [|i IH]; intros f g Hfg j; [by apply Hfg|]. cbn. rewrite <-Hfg.
  apply IH. destruct (f (S i)); [|done]. by apply moved_up_ext.
Qed.
Lemma rotated_ext f g n : (∀ j, f j = g j) → ∀ j, rotated f n j = rotated g n j.
Proof.
  intros Hfg j. unfold rotated, upd at 1. unfold upd at 1. case_bool_decide; [done|].
  destruct n; [done|]. apply moved_up_ext. by apply shifted_ext.
Qed.

Lemma app_singleton_not_nil (p : Path) x : p ++ [x] ≠ [].
Proof. by destruct p. Qed.

(** ** The operations of the sink, when nothing fails *)

Section sink.
Context `{F : Faults} (no_fault : ∀ n, fails n = false) (dir : Path) (name : string).
Let base := dir ++ [name].

Definition slot (i : nat) : Path := match i with 0 => base | S _ => roll_path base i end.
Definition slot_name (i : nat) : string := match i with 0 => name | S _ => name +:+ "." +:+ pretty i end.

Lemma slot_path i : slot i = dir ++ [slot_name i].
Proof.
  destruct i as [|i]; [done|]. unfold slot, roll_path, base, slot_name.
  by rewrite last_snoc, length_app, Nat.add_sub, take_app_length.
Qed.

Lemma slot_inj i j : slot i = slot j → i = j.
Proof.
  rewrite !slot_path. intros Heq%(inj (app dir)). injection Heq as Heq.
  destruct i as [|i], j as [|j]; cbn in Heq; [done| | |].
  - exfalso. symmetry in Heq. by apply append_longer in Heq.
  - exfalso. by apply append_longer in Heq.
  - apply (inj (String.append name)) in Heq. apply (inj (String.append ".")) in Heq.
    by apply (inj pretty) in Heq.
Qed.

Lemma base_not_roll i : Some base ≠ Some (slot (S i)).
Proof. intros [= Heq]. by apply (slot_inj 0 (S i)) in Heq. Qed.

Definition files (d : Disk) (i : nat) : option bytes := file_at d (slot i).

(** Nothing but files at the paths of the sink, in a directory. *)
Definition clean (d : Disk) : Prop :=
  (∀ i, d !! slot i ≠ Some Dir) ∧ (∀ i q, slot i `prefix_of` q → q ≠ slot i → d !! q = None) ∧
  (dir ≠ [] → file_at d dir = None).

Lemma slot_not_under i j q : slot i `prefix_of` q → q ≠ slot i → q ≠ slot j.
Proof.
  intros [k ->] Hne Heq. destruct k as [|x k]; [by rewrite app_nil_r in Hne|].
  rewrite !slot_path in Heq. apply (f_equal length) in Heq. rewrite !length_app in Heq. cbn in Heq. lia.
Qed.

Lemma clean_insert d i b : clean d → clean (<[slot i := File b]> d).
Proof.
  intros (Hd & Hu & Hf). split_and!.
  - intros j. rewrite lookup_insert. by case_decide.
  - intros j q Hq Hne. rewrite lookup_insert_ne; [by eapply Hu|].
    intros <-. by apply (slot_not_under j i) in Hq.
  - intros Hdir. rewrite file_at_insert, bool_decide_eq_false_2; [by apply Hf|].
    rewrite slot_path. intros Heq%(f_equal length). rewrite length_app in Heq. cbn in Heq. lia.
Qed.
Lemma clean_delete d i : clean d → clean (delete (slot i) d).
Proof.
  intros (Hd & Hu & Hf). split_and!.
  - intros j. rewrite lookup_delete. by case_decide.
  - intros j q Hq Hne. rewrite lookup_delete. case_decide; [done|by eapply Hu].
  - intros Hdir. unfold file_at. rewrite lookup_delete. case_decide; [done|]. by apply Hf.
Qed.

Lemma slot_exists d i : clean d → path_exists (slot i) d = bool_decide (is_Some (files d i)).
Proof.
  intros (Hd & Hu & _). unfold files, file_at. case_bool_decide as Hs.
  - destruct (path_exists (slot i) d) eqn:He; [done|]. rewrite path_exists_false in He.
    rewrite He in Hs by done. by destruct Hs.
  - apply path_exists_false. intros q Hq. destruct (decide (q = slot i)) as [->|]; [|by eapply Hu].
    specialize (Hd i). destruct (d !! slot i) as [[|b]|]; [done| |done]. exfalso. apply Hs. eauto.
Qed.

Lemma slot_can_create d i j b : clean d → files d j = Some b → can_create (slot i) d = true.
Proof.
  intros Hc Hj. pose proof Hc as (Hd & Hu & Hf). unfold can_create. apply andb_true_iff. split.
  - assert (parent (slot i) = dir) as ->.
    { unfold parent. by rewrite slot_path, length_app, Nat.add_sub, take_app_length. }
    unfold is_dir. destruct (decide (dir = [])) as [Hnil|Hne]; [by rewrite (bool_decide_eq_true_2 _ Hnil)|].
    rewrite bool_decide_eq_false_2 by done. cbn. apply andb_true_iff. split.
    + destruct (path_exists dir d) eqn:He; [done|]. rewrite path_exists_false in He.
      unfold files, file_at in Hj. rewrite He in Hj; [done|]. rewrite slot_path. by apply prefix_app_r.
    + unfold is_file. by rewrite Hf.
  - unfold is_dir. rewrite bool_decide_eq_false_2 by (rewrite slot_path; apply app_singleton_not_nil).
    rewrite slot_exists by done. unfold is_file. cbn. change (file_at d (slot i)) with (files d i).
    by destruct (bool_decide _).
Qed.

Lemma attempt_ok possible part fin err s :
  possible (disk s) = true → ∃ s', attempt possible part fin err s = (s', Ok tt) ∧ disk s' = fin (disk s).
Proof.
  intros Hp. unfold attempt, next_op, put, mbind, M_bind, m_bind. cbn. rewrite Hp. cbn. rewrite no_fault.
  cbn. eauto.
Qed.

(** Renaming slot [i] to slot [j]. *)
Lemma rename_slot d s i j b :
  disk s = d → clean d → files d i = Some b → i ≠ j →
  ∃ s', rename_file (slot i) (slot j) s = (s', Ok tt) ∧ clean (disk s') ∧
    ∀ k, files (disk s') k = upd (upd (files d) j (files d i)) i None k.
Proof.
  intros <- Hc Hb Hij. destruct (attempt_ok (λ d, is_file (slot i) d && can_create (slot j) d) same
    (λ d, <[slot j := File (default [] (file_at d (slot i)))]> (delete (slot i) d)) "rename" s)
    as (s' & Hr & Hd).
  { apply andb_true_iff. split; [unfold is_file; change (file_at _ _) with (files (disk s) i);
      rewrite Hb; by apply bool_decide_eq_true_2|by eapply slot_can_create]. }
  exists s'. split; [exact Hr|]. rewrite Hd. split; [by apply clean_insert, clean_delete|].
  intros k. unfold files at 1. rewrite file_at_insert. change (file_at (disk s) (slot i)) with (files (disk s) i).
  rewrite Hb. cbn [default]. unfold upd.
  destruct (decide (j = k)) as [->|Hjk].
  - rewrite bool_decide_eq_true_2 by done. rewrite (bool_decide_eq_false_2 (i = k)) by done.
    by rewrite bool_decide_eq_true_2.
  - rewrite bool_decide_eq_false_2 by (by intros ?%slot_inj). rewrite (bool_decide_eq_false_2 (j = k)) by done.
    unfold file_at. rewrite lookup_delete. destruct (decide (i = k)) as [->|Hik].
    + rewrite decide_True, bool_decide_eq_true_2 by done. done.
    + rewrite decide_False, bool_decide_eq_false_2 by (done || by intros ?%slot_inj). done.
Qed.

(** ** Writing *)

Abbreviation now_files e := (files (disk (em_fs e))).

(** The active file and the buffer together hold [x]. *)
Definition pending (e : Emitter) (x : bytes) : Prop :=
  handle e = Some base ∧ clean (disk (em_fs e)) ∧ ∃ c, now_files e 0 = Some c ∧ c ++ buffer e = x.

(** Only the active file and the buffer changed. *)
Definition same_rest (e e' : Emitter) : Prop :=
  bytes_written e' = bytes_written e ∧ base_path e' = base_path e ∧ rotate_bytes e' = rotate_bytes e ∧
  max_rolls e' = max_rolls e ∧ ∀ k, k ≠ 0 → now_files e' k = now_files e k.

Lemma same_rest_refl e : same_rest e e.
Proof. by split_and!. Qed.
Lemma same_rest_trans e1 e2 e3 : same_rest e1 e2 → same_rest e2 e3 → same_rest e1 e3.
Proof.
  intros (? & ? & ? & ? & Hk1) (? & ? & ? & ? & Hk2). split_and!; [congruence..|].
  intros k Hk. by rewrite Hk2, Hk1.
Qed.

Lemma append_ok s b c :
  clean (disk s) → files (disk s) 0 = Some c →
  ∃ s', append_file (Some base) b s = (s', Ok (length b, true)) ∧ clean (disk s') ∧
    files (disk s') 0 = Some (c ++ b) ∧ ∀ k, k ≠ 0 → files (disk s') k = files (disk s) k.
Proof.
  intros Hc Hf. unfold append_file, next_op, put, mbind, M_bind, m_bind. cbn. rewrite no_fault. cbn.
  eexists. split; [reflexivity|]. cbn. change base with (slot 0). split; [by apply clean_insert|].
  change (file_at (disk s) (slot 0)) with (files (disk s) 0). rewrite Hf. cbn [default]. split.
  - unfold files. by rewrite file_at_insert, bool_decide_eq_true_2.
  - intros k Hk. unfold files. rewrite file_at_insert, bool_decide_eq_false_2; [done|].
    intros ?%slot_inj. congruence.
Qed.

Lemma flush_ok e x :
  pending e x → ∃ e', flush_buf e = (e', Ok tt) ∧ pending e' x ∧ buffer e' = [] ∧ same_rest e e'.
Proof.
  intros Hp. pose proof Hp as (Hh & Hc & c & Hf & Hx). unfold flush_buf, mbind, M_bind, m_bind, gets.
  case_bool_decide as Hb.
  { exists e. split; [done|]. split; [exact Hp|]. split; [done|apply same_rest_refl]. }
  destruct (append_ok (em_fs e) (buffer e) c Hc Hf) as (s' & Hr & Hc' & Hf' & Hk).
  rewrite Hh. unfold on_fs, zoom. rewrite Hr. cbn. eexists. split; [reflexivity|].
  rewrite drop_all. split; [|split; [done|by split_and!]]. split; [done|]. split; [done|].
  exists (c ++ buffer e). cbn. by rewrite app_nil_r.
Qed.

Lemma buf_write_ok e x b :
  pending e x → ∃ e', buf_write_all b e = (e', Ok tt) ∧ pending e' (x ++ b) ∧ same_rest e e'.
Proof.
  intros Hp. unfold buf_write_all, mbind, M_bind, m_bind, gets at 1.
  assert (∃ e1, (if bool_decide (BUF_CAPACITY - length (buffer e) < length b) then flush_buf else mret tt) e
    = (e1, Ok tt) ∧ pending e1 x ∧ same_rest e e1 ∧ (BUF_CAPACITY ≤ length b → buffer e1 = []))
    as (e1 & -> & Hp1 & Hs1 & Hb1).
  { case_bool_decide as Hcap.
    - destruct (flush_ok e x Hp) as (e1 & ? & ? & ? & ?). by exists e1.
    - exists e. split; [done|]. split; [done|]. split; [apply same_rest_refl|]. intros Hle.
      destruct (buffer e); [done|]. cbn in Hcap. exfalso. unfold BUF_CAPACITY in *. lia. }
  pose proof Hp1 as (Hh & Hc & c & Hf & Hx). case_bool_decide as Hbig.
  - unfold gets. rewrite Hh. destruct (append_ok (em_fs e1) b c Hc Hf) as (s' & Hr & Hc' & Hf' & Hk).
    unfold on_fs, zoom. rewrite Hr. cbn. eexists. split; [reflexivity|]. split.
    + split; [done|]. split; [done|]. exists (c ++ b). cbn. rewrite <-Hx, Hb1 by done. by rewrite !app_nil_r.
    + eapply same_rest_trans; [exact Hs1|]. by split_and!.
  - eexists. split; [reflexivity|]. split.
    + split; [done|]. split; [done|]. exists c. cbn. by rewrite app_assoc, Hx.
    + eapply same_rest_trans; [exact Hs1|]. by split_and!.
Qed.

(** ** Rotating *)

Lemma rename_ignored_ok e i j b :
  clean (disk (em_fs e)) → now_files e i = Some b → i ≠ j → handle e ≠ Some (slot j) →
  ∃ fs', rename_ignored (slot i) (slot j) e =
      (set_handle (if bool_decide (handle e = Some (slot i)) then Some (slot j) else handle e) (set_fs fs' e), Ok tt) ∧
    clean (disk fs') ∧ ∀ k, files (disk fs') k = upd (upd (now_files e) j (now_files e i)) i None k.
Proof.
  intros Hc Hf Hij Hh. destruct (rename_slot _ (em_fs e) i j b eq_refl Hc Hf Hij) as (s' & Hr & Hc' & Hk).
  exists s'. split; [|done]. unfold rename_ignored, inspect, on_fs, zoom, mbind, M_bind, m_bind.
  rewrite Hr. unfold modify. change (handle (set_fs s' e)) with (handle e).
  by rewrite (bool_decide_eq_false_2 (handle e = Some (slot j))).
Qed.

Lemma shift_rolls_ok i e :
  handle e = Some base → clean (disk (em_fs e)) →
  ∃ fs', shift_rolls base i e = (set_fs fs' e, Ok tt) ∧ clean (disk fs') ∧
    ∀ k, files (disk fs') k = shifted (now_files e) i k.
Proof.
  revert e. induction i as [|i IH]; intros e Hh Hc.
  { exists (em_fs e). split; [by destruct e|done]. }
  cbn [shift_rolls]. unfold mbind, M_bind, m_bind, gets.
  change (roll_path base (S i)) with (slot (S i)). change (roll_path base (S (S i))) with (slot (S (S i))).
  rewrite slot_exists by done. cbn [shifted]. destruct (now_files e (S i)) as [b|] eqn:Hb.
  - rewrite bool_decide_eq_true_2 by eauto.
    destruct (rename_ignored_ok e (S i) (S (S i)) b Hc Hb) as (fs1 & -> & Hc1 & Hk1);
      [lia|rewrite Hh; apply base_not_roll|].
    rewrite bool_decide_eq_false_2 by (rewrite Hh; apply base_not_roll).
    destruct (IH (set_handle (handle e) (set_fs fs1 e))) as (fs' & -> & Hc' & Hk'); [done..|].
    exists fs'. split; [by destruct e|]. split; [done|]. intros k. rewrite Hk'. cbn. apply shifted_ext.
    intros j. rewrite Hk1. unfold moved_up. by rewrite Hb.
  - rewrite bool_decide_eq_false_2 by by intros []. by apply IH.
Qed.

(** Between two emits: the handle is on the active file, nothing is buffered, and the
    byte count is the size of the file. *)
Definition sink_ok (e : Emitter) : Prop :=
  base_path e = base ∧ buffer e = [] ∧
  ∃ c, pending e c ∧ bytes_written e = Z.of_nat (length c).

Lemma create_base_ok s i b :
  clean (disk s) → files (disk s) i = Some b →
  ∃ s', create_file base s = (s', Ok tt) ∧ clean (disk s') ∧
    ∀ k, files (disk s') k = upd (files (disk s)) 0 (Some []) k.
Proof.
  intros Hc Hb. destruct (attempt_ok (can_create base) same <[base := File []]> "create" s) as (s' & Hr & Hd).
  { by apply (slot_can_create _ 0 i b). }
  exists s'. split; [exact Hr|]. rewrite Hd. change base with (slot 0). split; [by apply clean_insert|].
  intros k. unfold files. rewrite file_at_insert. unfold upd.
  destruct (decide (0 = k)) as [<-|Hne]; [by rewrite !bool_decide_eq_true_2|].
  rewrite !bool_decide_eq_false_2; [done|done|]. by intros ?%slot_inj.
Qed.

(** The rolls are shifted and the active file becomes the first. *)
Lemma make_room_ok e c :
  base_path e = base → pending e c → buffer e = [] →
  ∃ fs' h i b, (match max_rolls e with
      | 0 => mret tt
      | S j => shift_rolls base j;; rename_ignored base (roll_path base 1)
      end) e = (set_handle h (set_fs fs' e), Ok tt) ∧ clean (disk fs') ∧ files (disk fs') i = Some b ∧
    ∀ k, files (disk fs') k = match max_rolls e with 0 => now_files e k
      | S m => moved_up (shifted (now_files e) m) 0 k end.
Proof.
  intros Hbase (Hh & Hc & c' & Hf & Hx) Hb. destruct (max_rolls e) as [|m].
  { exists (em_fs e), (handle e), 0, c'. by split_and!; [destruct e|..]. }
  destruct (shift_rolls_ok m e Hh Hc) as (fs1 & Hr1 & Hc1 & Hk1).
  destruct (rename_ignored_ok (set_fs fs1 e) 0 1 c') as (fs2 & Hr2 & Hc2 & Hk2);
    [done|cbn; by rewrite Hk1, shifted_zero|done|cbn; rewrite Hh; apply base_not_roll|].
  eexists fs2, _, 1, c'. split_and!.
  - unfold mbind, M_bind, m_bind. rewrite Hr1. change base with (slot 0).
    change (roll_path (slot 0) 1) with (slot 1). rewrite Hr2. by destruct e.
  - done.
  - rewrite Hk2. unfold upd. cbn. by rewrite Hk1, shifted_zero.
  - intros k. rewrite Hk2. cbn. apply moved_up_ext. exact Hk1.
Qed.

Lemma roll_ok e :
  sink_ok e →
  ∃ e', roll e = (e', Ok tt) ∧ pending e' [] ∧ buffer e' = [] ∧ bytes_written e' = 0%Z ∧
    base_path e' = base ∧ rotate_bytes e' = rotate_bytes e ∧ max_rolls e' = max_rolls e ∧
    ∀ k, now_files e' k = rotated (now_files e) (max_rolls e) k.
Proof.
  intros (Hbase & Hb & c & Hp & _). unfold roll, mbind, M_bind, m_bind.
  destruct (flush_ok e c Hp) as (e1 & -> & Hp1 & Hb1 & (Hw & Hbp & Hrot & Hmax & Hk)).
  assert (∀ k, now_files e1 k = now_files e k) as Hsame.
  { intros [|k]; [|by apply Hk]. destruct Hp as (_ & _ & x & Hf & Hx), Hp1 as (_ & _ & y & Hf1 & Hy).
    rewrite Hb in Hx. rewrite Hb1 in Hy. rewrite app_nil_r in *. congruence. }
  unfold gets. rewrite Hbp, Hbase, Hmax in *.
  destruct (make_room_ok e1 c) as (fs2 & h & i & b & Hr & Hc2 & Hi & Hk2); [congruence|done|done|].
  rewrite Hmax in Hr. unfold mbind, M_bind, m_bind in Hr. rewrite Hr.
  destruct (create_base_ok fs2 i b Hc2 Hi) as (fs3 & Hr3 & Hc3 & Hk3).
  unfold on_fs, zoom. cbn [em_fs set_handle set_fs]. rewrite Hr3. unfold modify.
  eexists. split; [reflexivity|]. cbn. split_and!; try done; try congruence.
  - split; [done|]. split; [done|]. exists []. split; [|done]. cbn. by rewrite Hk3, upd_eq.
  - intros k. rewrite Hk3. unfold rotated. unfold upd at 1 2. case_bool_decide; [done|].
    rewrite Hk2, Hmax. destruct (max_rolls e); [apply Hsame|]. apply moved_up_ext, shifted_ext, Hsame.
Qed.

Definition rotates (e : Emitter) (line : bytes) : bool :=
  ((0 <? rotate_bytes e) && (0 <? bytes_written e)
   && (rotate_bytes e <? bytes_written e + Z.of_nat (length line) + 1))%Z.

(** The step before the record is written: the files are rotated if the active one is full. *)
Lemma made_room e line :
  sink_ok e →
  ∃ e1 c1, (if rotates e line then roll else mret tt) e = (e1, Ok tt) ∧ pending e1 c1 ∧
    buffer e1 = [] ∧ base_path e1 = base ∧ rotate_bytes e1 = rotate_bytes e ∧ max_rolls e1 = max_rolls e ∧
    bytes_written e1 = Z.of_nat (length c1) ∧
    c1 = (if rotates e line then [] else default [] (now_files e 0)) ∧
    bytes_written e1 = (if rotates e line then 0%Z else bytes_written e) ∧
    ∀ k, now_files e1 k = (if rotates e line then rotated (now_files e) (max_rolls e) else now_files e) k.
Proof.
  intros Hok. pose proof Hok as (Hbase & Hb & c & Hp & Hw).
  destruct (rotates e line).
  - destruct (roll_ok e Hok) as (e1 & Hr & Hp1 & Hb1 & Hw1 & Hbase1 & Hrot1 & Hmax1 & Hk).
    exists e1, []. by split_and!.
  - exists e, c. split_and!; try done. destruct Hp as (_ & _ & x & Hf & <-). by rewrite Hf, Hb, app_nil_r.
Qed.

(** What a rotation drops is all that the text of the sink loses. *)
Lemma text_before e line :
  sink_ok e →
  (if rotates e line then dropped (now_files e) (max_rolls e) else [])
    ++ text (if rotates e line then rotated (now_files e) (max_rolls e) else now_files e) (max_rolls e) =
  text (now_files e) (max_rolls e).
Proof.
  intros (_ & _ & c & (_ & _ & x & Hf & _) & _). destruct (rotates e line); [|done]. apply text_rotated. eauto.
Qed.

(** C37: no record is lost but with the oldest file.  When the disk does not fail, an
    emit leaves the record and a newline at the end of the active file: after what was
    there, or alone when the file was full, and then every file has moved up by one to make
    room; no other file changes.  So the records of the sink, read from the oldest roll to
    the active file, grow by exactly this record, and all a rotation drops is the oldest
    roll, if every place is taken.  The active file stays within the limit unless a single
    record is larger, and the sink is ready for the next record. *)
Theorem emit_drops_only_the_oldest_roll e line :
  sink_ok e → (bytes_written e + Z.of_nat (length line) + 1 < 2 ^ 64)%Z →
  ∃ e', emit line e = (e', Ok tt) ∧ sink_ok e' ∧
    rotate_bytes e' = rotate_bytes e ∧ max_rolls e' = max_rolls e ∧
    now_files e' 0 = Some ((if rotates e line then [] else default [] (now_files e 0)) ++ line ++ [10%Z]) ∧
    (∀ k, k ≠ 0 →
       now_files e' k = (if rotates e line then rotated (now_files e) (max_rolls e) else now_files e) k) ∧
    (if rotates e line then dropped (now_files e) (max_rolls e) else [])
      ++ text (now_files e') (max_rolls e) = text (now_files e) (max_rolls e) ++ line ++ [10%Z] ∧
    ((0 < rotate_bytes e)%Z → (bytes_written e' ≤ Z.max (rotate_bytes e) (Z.of_nat (length line) + 1))%Z).
Proof.
  intros Hok Hsize. pose proof Hok as (Hbase & Hb & c & Hp & Hw).
  assert (∀ z, (0 ≤ z < 2 ^ 64)%Z → wrap_u64 z = z) as Hwrap by (intros; by apply Z.mod_small).
  unfold emit, write_line. rewrite (Hwrap (Z.of_nat (length line) + 1)%Z) by lia.
  unfold inspect, mbind, M_bind, m_bind, gets, id.
  rewrite (Hwrap (bytes_written e + (Z.of_nat (length line) + 1))%Z) by lia. rewrite Z.add_assoc.
  fold (rotates e line).
  destruct (made_room e line Hok) as (e1 & c1 & -> & Hp1 & Hb1 & Hbase1 & Hrot1 & Hmax1 & Hw1 & Hc1 & Hw1' & Hk1).
  destruct (buf_write_ok e1 c1 line Hp1) as (e2 & -> & Hp2 & Hs2).
  destruct (buf_write_ok e2 _ [10%Z] Hp2) as (e3 & -> & Hp3 & Hs3).
  destruct (flush_ok e3 _ Hp3) as (e4 & -> & Hp4 & Hb4 & Hs4).
  pose proof (same_rest_trans _ _ _ (same_rest_trans _ _ _ Hs2 Hs3) Hs4) as (Hw4 & Hbp4 & Hrot4 & Hmax4 & Hk4).
  unfold modify. rewrite Hw4.
  assert (0 ≤ bytes_written e1 + (Z.of_nat (length line) + 1) < 2 ^ 64)%Z.
  { rewrite Hw1'. destruct (rotates e line); lia. }
  rewrite Hwrap by done. rewrite <-app_assoc in Hp4.
  pose proof Hp4 as (_ & _ & x & Hf4 & Hx4). pose proof Hp1 as (_ & _ & y & Hf1 & Hy1).
  rewrite Hb4, app_nil_r in Hx4. rewrite Hb1, app_nil_r in Hy1. subst x y.
  eexists. split; [reflexivity|]. cbn [now_files em_fs set_written bytes_written rotate_bytes max_rolls].
  split_and!; [split; [cbn; by rewrite Hbp4|split; [done|]]|congruence|congruence|by rewrite Hf4, Hc1| | |].
  - exists (c1 ++ line ++ [10%Z]). split; [exact Hp4|]. cbn. rewrite !length_app, Hw1. cbn. lia.
  - intros k Hk. by rewrite Hk4, Hk1.
  - rewrite <-(text_before e line Hok), <-app_assoc. f_equal.
    rewrite <-(text_ext _ _ _ (λ i _, Hk1 i)). by apply (text_append _ _ _ c1).
  - intros Hpos. rewrite Hw1'. destruct (rotates e line) eqn:Hrot; [lia|].
    unfold rotates in Hrot. destruct (Z.ltb_spec 0 (rotate_bytes e)); [|lia].
    destruct (Z.ltb_spec 0 (bytes_written e)); [|lia].
    destruct (Z.ltb_spec (rotate_bytes e) (bytes_written e + Z.of_nat (length line) + 1)); [done|lia].
Qed.
End sink.
