(* ===== verification/AgentBoot.v ===== *)
(** * How the agent starts

    [crates/agent/src/main.rs] and the configuration of [crates/agent/src/lib.rs]: the
    configuration file, the settings that flags, environment and configuration give, the
    control service and the output sink, in the order of [main].  [toml], the TLS
    material, the trust directory and the listening socket are parameters.  The theorems
    say that a start fails closed, and trace every process the started agent runs back
    to the configuration file. *)

From Stdlib Require Import ZArith.
From stdpp Require Import base tactics gmap strings list.
From S2P Require Import Prelude Float32 Action Bridge BridgeFacts BridgeProps Substrate AgentExec Control ControlProps.
From S2P Require Import Scheduler Transport Keys KeysProps ControlPlane ControlPlaneProps AgentService AgentProps.
From S2P Require Import Version CveSource Text Fs Sweep Emit.

(** ** The configuration *)

(** Paths as they are written. *)
Record CertPaths := mkCertPaths {
  cp_ca_paths : list bytes; cp_cert_chain : bytes; cp_key : bytes; cp_crl_paths : list bytes;
}.
Record NetDiscoveryConfig := mkNetDiscoveryConfig {
  nd_cidrs : list bytes; nd_ports : list Z; nd_rate_pps : Z;
}.
Record OutputConfig := mkOutputConfig {
  oc_sink : string; oc_path : option bytes; oc_rotate_mb : option Z;
}.
Record ControlConfig := mkControlConfig {
  cc_control_addr : string; cc_tenant_id : string; cc_trust_dir : bytes; cc_agent_key_file : bytes;
  cc_enabled : bool; cc_roles : list RoleEntry; cc_apply : option ApplyConfig; cc_cert : CertPaths;
}.
Record AgentConfig := mkAgentConfig {
  ac_daemon : bool; ac_output : option OutputConfig; ac_control : option ControlConfig;
  ac_refresh : gmap string Z; ac_netdiscovery : option NetDiscoveryConfig;
}.

(** ** Flags and environment *)

Definition MAX_CONFIG_BYTES : Z := (1024 * 1024)%Z.
Definition DEFAULT_PORTS : list Z :=
  [22; 80; 443; 3389; 3306; 5432; 161; 23; 8080; 8443; 445; 139; 25; 53; 1433; 27017; 6379; 9100; 623; 1900]%Z.

Definition sweep_config (nd : option NetDiscoveryConfig) : SweepConfig :=
  match nd with
  | None => mkSweepConfig [] [] 0
  | Some nd => mkSweepConfig (nd_cidrs nd) (if bool_decide (nd_ports nd = []) then DEFAULT_PORTS else nd_ports nd)
                 (nd_rate_pps nd)
  end.

Definition daemon_flag_env_from (args : list bytes) (env : string → option bytes) : option bool :=
  if existsb (λ a, bool_decide (a = as_bytes "--daemon")) args then Some true
  else (λ v, let v := to_ascii_lowercase (trim v) in
             bool_decide (v = as_bytes "1") || bool_decide (v = as_bytes "true")) <$> env "TORDA_DAEMON".

Definition resolve_daemon_mode (args : list bytes) (env : string → option bytes) (config_daemon : bool) : bool :=
  default config_daemon (daemon_flag_env_from args env).

Definition resolve_output (flag_env : option (bytes * Z)) (config_output : option OutputConfig) :
    Result (option (bytes * Z)) :=
  match flag_env with
  | Some chosen => Ok (Some chosen)
  | None =>
      match config_output with
      | None => Ok None
      | Some out =>
          if bool_decide (oc_sink out = "file") then
            match oc_path out with
            | None => Err "[output] sink = file requires a path"
            | Some path =>
                let rotate_mb := default DEFAULT_ROTATE_MB (oc_rotate_mb out) in
                Ok (Some (path, Z.min u64_max (rotate_mb * (1024 * 1024))%Z))
            end
          else if bool_decide (oc_sink out = "stdout") then Ok None
          else Err ("[output] has unknown sink " +:+ oc_sink out +:+ " (expected stdout or file)")
      end
  end.

(** The last argument may be a bare [--config]. *)
Fixpoint config_flag (args : list bytes) : option bytes :=
  match args with
  | [] => None
  | arg :: args =>
      match strip_prefix (as_bytes "--config=") arg with
      | Some inline => Some inline
      | None =>
          if bool_decide (arg = as_bytes "--config") then
            match args with path :: _ => Some path | [] => None end
          else config_flag args
      end
  end.
Definition discover_config_path (args : list bytes) (env : string → option bytes) : option bytes :=
  match config_flag args with Some path => Some path | None => env "TORDA_AGENT_CONFIG" end.

Definition effective_control (path : option bytes) (config : option AgentConfig) : option ControlConfig :=
  _ ← path;
  control ← config ≫= ac_control;
  if cc_enabled control then Some control else None.

(** [$TORDA_RUN_SECS]: how long the agent serves, without an interrupt. *)
Definition run_secs (env : string → option bytes) : option Z :=
  secs ← env "TORDA_RUN_SECS" ≫= λ s, parse_u64 (trim s);
  if (0 <? secs)%Z then Some secs else None.

(** ** Starting *)

Section boot.
Context {Tls : Type} `{!Faults} `{!Ed25519} `{!Hex}.
Context (toml_from_str : bytes → AgentConfig + string).
(** The TLS configuration from its files, the entries of a directory, a file by its
    path, and the local address once the listener is bound and its thread runs. *)
Context (server_config_from_files : CertPaths → Result Tls).
Context (read_dir : bytes → Result (list (Result Keys.DirEntry))).
Context (key_file : bytes → Keys.DirEntry).
Context (bind_listener : string → Result string).

Definition load_config (path : bytes) : M FsState AgentConfig :=
  let p := path_components path in
  len ← metadata_len p;
  if (MAX_CONFIG_BYTES <? len)%Z then bail "agent config too large"
  else
    b ← read_found p;
    if negb (utf8_valid b) then bail "agent config is not valid UTF-8"
    else
      match toml_from_str b with
      | inl cfg => mret cfg
      | inr e => bail ("malformed agent config: " +:+ e)
      end.

(** What the control thread owns. *)
Record ControlService := mkControlService {
  cs_local_addr : string;
  cs_server_cfg : Tls;
  cs_verifier : ReloadableVerifier;
  cs_policy : RolePolicy;
  cs_signer : CommandSigner;
  cs_apply : option ApplyConfig;
}.

Definition spawn_control_service {S} (cfg : ControlConfig) : M S ControlService :=
  server_cfg ← lift (server_config_from_files (cc_cert cfg));
  trusted ← lift (load_trust_dir (read_dir (cc_trust_dir cfg)));
  policy ← lift (build_policy (cc_roles cfg));
  let f := key_file (cc_agent_key_file cfg) in
  agent_actor ← ok_or (entry_stem f) ("agent key file " +:+ entry_display f +:+ " has no valid actor stem");
  signer ← lift (from_key_file agent_actor f);
  local_addr ← lift (bind_listener (cc_control_addr cfg));
  mret (mkControlService local_addr server_cfg (reloadable_new trusted) policy signer (cc_apply cfg)).

(** The files, and the control service once it listens. *)
Record Booting := mkBooting { bt_fs : FsState; bt_control : option ControlService }.
Definition on_files {A} (m : M FsState A) : M Booting A :=
  zoom bt_fs (λ fs b, mkBooting fs (bt_control b)) m.

(** An agent that is about to register its modules. *)
Record Started := mkStarted {
  st_daemon : bool;
  st_sweep : SweepConfig;
  st_scope : list bytes;
  st_sink : option Emitter;
  st_refresh : gmap string Z;
}.

Definition load_agent_config (path : option bytes) : M Booting (option AgentConfig) :=
  match path with
  | None => mret None
  | Some path => cfg ← on_files (load_config path); mret (Some cfg)
  end.

(** [None] is the standard output. *)
Definition open_sink (out : option (bytes * Z)) : M Booting (option Emitter) :=
  match out with
  | None => mret None
  | Some (path, rotate_bytes) =>
      e ← on_files (λ fs, emitter_new fs (path_components path) rotate_bytes DEFAULT_MAX_ROLLS);
      mret (Some e)
  end.

(** The control channel listens before anything is collected. *)
Definition start_control (control : option ControlConfig) : M Booting unit :=
  match control with
  | Some cfg => cs ← spawn_control_service cfg; modify (λ b, mkBooting (bt_fs b) (Some cs))
  | None => mret tt
  end.

(** [main], up to the modules; an error ends the process. *)
Definition start (args : list bytes) (env : string → option bytes) : M Booting Started :=
  let config_path := discover_config_path args env in
  config ← load_agent_config config_path;
  let daemon := resolve_daemon_mode args env (default false (ac_daemon <$> config)) in
  start_control (effective_control config_path config);;
  out ← lift (resolve_output (discover_output_from args env) (config ≫= ac_output));
  sink ← open_sink out;
  mret (mkStarted daemon (sweep_config (config ≫= ac_netdiscovery))
          (default [] (nd_cidrs <$> (config ≫= ac_netdiscovery))) sink (default ∅ (ac_refresh <$> config))).
End boot.

(** * A start fails closed

    What is known of an agent that started, and of one that did not. *)

(** ** The role policy *)

(** The last entry of an actor counts. *)
Definition role_entry (entries : list RoleEntry) (actor : string) : option string :=
  entry_role <$> last (filter (λ e, entry_actor e = actor) entries).

Lemma assign_all_spec entries policy policy' :
  assign_all entries policy = Ok policy' →
  ∀ actor, match role_entry entries actor with
           | Some role => ∃ r, parse_role role = Ok r ∧ roles policy' !! actor = Some r
           | None => roles policy' !! actor = roles policy !! actor
           end.
Proof.
  unfold role_entry. revert policy. induction entries as [|e entries IH]; intros policy Hall actor; cbn [assign_all] in Hall.
  { by injection Hall as ->. }
  destruct (parse_role (entry_role e)) as [r|err|] eqn:Hr; [|done..].
  specialize (IH _ Hall actor). rewrite filter_cons. case_decide as He; [|destruct (last _); [done|]].
  - rewrite last_cons. destruct (last (filter _ entries)) as [e'|]; [done|]. cbn in *.
    exists r. split; [done|]. rewrite IH, He. apply lookup_insert_eq.
  - cbn in *. by rewrite IH, lookup_insert_ne.
Qed.

(** ** The trust directory *)

Section trust.
Context `{!Ed25519} `{!Hex} `{!Ed25519Laws}.

Lemma load_entries_store_ok entries v : store_ok v → store_ok (load_entries entries v).1.
Proof.
  revert v. induction entries as [|entry entries IH]; intros v Hv; [done|]. cbn [load_entries].
  unfold mbind, M_bind, m_bind, lift. destruct entry as [f|e|]; [|done..]. cbn.
  destruct (entry_is_file f); cbn; [|by apply IH]. destruct (entry_stem f) as [stem|]; [cbn|done].
  destruct (read_capped_key_file f) as [content|e|]; [cbn|done..].
  pose proof (store_ok_run v (TTrustFile stem content) Hv) as Hok. cbn in Hok.
  destruct (trust_from_bytes stem content v) as [v' [[]|e|]]; [by apply IH|done..].
Qed.

(** What a loaded directory accepts is signed with a key of the actor's file. *)
Lemma load_trust_dir_verifies dir v payload signature actor :
  load_trust_dir dir = Ok v → sig_verify v payload signature actor = true →
  ∃ entries entry k raw sig, dir = Ok entries ∧ entry ∈ entries ∧ entry_contributes entry actor k ∧
    hex_decode (as_bytes signature) = inl raw ∧ sig_from_slice raw = Some sig ∧
    verify_strict k (as_bytes payload) sig = true.
Proof.
  unfold load_trust_dir. destruct dir as [entries|e|]; [|done..].
  pose proof (load_entries_store_ok entries verifier_new store_ok_new) as Hok.
  destruct (load_entries entries verifier_new) as [v' [[]|e|]] eqn:Hload; [|done..]. intros [= ->].
  rewrite verify_trusted by exact Hok. intros (raw & sig & k & Hraw & Hsig & Hk & Hv).
  apply (load_entries_spec _ _ _ Hload) in Hk as [(entry & Hin & Hc)|Hk].
  - exists entries, entry, k, raw, sig. by split_and!.
  - unfold trusts, keys_of in Hk. cbn in Hk. by rewrite !lookup_empty in Hk.
Qed.
End trust.

(** ** The settings among the arguments *)

Inductive Setting := OutputTo (path : bytes) | RotateAt (megabytes : bytes).

(** The words that carry a setting. *)
Definition carries (arg : bytes) : Prop :=
  arg = as_bytes "--output" ∨ arg = as_bytes "--rotate-mb" ∨
  (∃ v, arg = as_bytes "--output=" ++ v) ∨ (∃ v, arg = as_bytes "--rotate-mb=" ++ v).

(** How a command line reads: a setting is one word with its value after the [=], or
    two words; a last word without its value sets nothing, nor does any other word. *)
Inductive reads : list bytes → list Setting → Prop :=
  | reads_end : reads [] []
  | reads_output_is v args ss :
      reads args ss → reads ((as_bytes "--output=" ++ v) :: args) (OutputTo v :: ss)
  | reads_output v args ss :
      reads args ss → reads (as_bytes "--output" :: v :: args) (OutputTo v :: ss)
  | reads_rotate_is v args ss :
      reads args ss → reads ((as_bytes "--rotate-mb=" ++ v) :: args) (RotateAt v :: ss)
  | reads_rotate v args ss :
      reads args ss → reads (as_bytes "--rotate-mb" :: v :: args) (RotateAt v :: ss)
  | reads_bare arg : arg = as_bytes "--output" ∨ arg = as_bytes "--rotate-mb" → reads [arg] []
  | reads_other arg args ss : ¬ carries arg → reads args ss → reads (arg :: args) ss.

Definition outputs (ss : list Setting) : list bytes :=
  omap (λ s, match s with OutputTo p => Some p | RotateAt _ => None end) ss.
Definition rotations (ss : list Setting) : list bytes :=
  omap (λ s, match s with RotateAt v => Some v | OutputTo _ => None end) ss.
Definition first_of {A} (x y : option A) : option A := match x with Some _ => x | None => y end.

Lemma strip_prefix_Some p l rest : strip_prefix p l = Some rest → l = p ++ rest.
Proof.
  unfold strip_prefix. case_bool_decide as Hp; [|done]. intros [= <-]. by rewrite <-Hp at 1; rewrite take_drop.
Qed.
Lemma strip_prefix_app p rest : strip_prefix p (p ++ rest) = Some rest.
Proof. unfold strip_prefix. by rewrite take_app_length, bool_decide_true, drop_app_length. Qed.

Lemma parse_u64_nonneg s n : parse_u64 s = Some n → (0 ≤ n)%Z.
Proof.
  assert (∀ l v, forallb is_digit l = true → (0 ≤ v)%Z → (0 ≤ foldl (λ v c, 10 * v + (c - 48)) v l)%Z) as Hfold.
  { induction l as [|c l IH]; intros v Hl Hv; [done|]. cbn in Hl |- *. apply andb_true_iff in Hl as [Hc Hl].
    apply IH; [done|]. unfold is_digit, in_range in Hc. lia. }
  unfold parse_u64. set (d := match s with [] => s | _ => _ end). destruct (forallb is_digit d) eqn:Hd.
  2:{ by rewrite orb_true_r. }
  case_match; [done|]. case_match; [|done]. intros [= <-]. by apply Hfold.
Qed.

(** One reading of the settings along [scan_args]. *)
Lemma scan_reads args : ∀ path mb, ∃ ss, reads args ss ∧
  scan_args path mb args =
    (first_of (last (outputs ss)) path,
     match last (rotations ss) with Some v => parse_u64 (trim v) | None => mb end).
Proof.
  assert (∀ ss path p, first_of (last (outputs ss)) (Some p) = first_of (last (outputs (OutputTo p :: ss))) path) as Hout.
  { intros ss path p. unfold outputs. cbn [omap list_omap]. rewrite last_cons. by destruct (last _). }
  assert (∀ ss mb v, match last (rotations ss) with Some v => parse_u64 (trim v) | None => parse_u64 (trim v) end =
    match last (rotations (RotateAt v :: ss)) with Some v => parse_u64 (trim v) | None => mb end) as Hrot.
  { intros ss mb v. unfold rotations. cbn [omap list_omap]. rewrite last_cons. by destruct (last _). }
  induction args as [args IH] using (induction_ltof1 _ (@length bytes)). unfold ltof in IH.
  intros path mb. destruct args as [|arg args]; [exists []; split; [constructor|done]|].
  cbn [scan_args]. unfold arg_value. destruct (strip_prefix (as_bytes "--output=") arg) as [v|] eqn:H1.
  { apply strip_prefix_Some in H1 as ->. destruct (IH args ltac:(simpl; lia) (Some v) mb) as (ss & Hr & ->).
    exists (OutputTo v :: ss). split; [by constructor|]. by rewrite <-(Hout ss path v). }
  case_bool_decide as H2.
  { subst arg. destruct args as [|v args]; [exists []; split; [constructor; by left|done]|].
    destruct (IH args ltac:(simpl; lia) (Some v) mb) as (ss & Hr & ->).
    exists (OutputTo v :: ss). split; [by constructor|]. by rewrite <-(Hout ss path v). }
  destruct (strip_prefix (as_bytes "--rotate-mb=") arg) as [v|] eqn:H3.
  { apply strip_prefix_Some in H3 as ->. destruct (IH args ltac:(simpl; lia) path (parse_u64 (trim v))) as (ss & Hr & ->).
    exists (RotateAt v :: ss). split; [by constructor|]. by rewrite <-(Hrot ss mb v). }
  case_bool_decide as H4.
  { subst arg. destruct args as [|v args]; [exists []; split; [constructor; by right|done]|].
    destruct (IH args ltac:(simpl; lia) path (parse_u64 (trim v))) as (ss & Hr & ->).
    exists (RotateAt v :: ss). split; [by constructor|]. by rewrite <-(Hrot ss mb v). }
  destruct (IH args ltac:(simpl; lia) path mb) as (ss & Hr & ->). exists ss. split; [|done].
  constructor; [|done]. intros [?|[?|[[v Hv]|[v Hv]]]]; [done..| |].
  - by rewrite Hv, strip_prefix_app in H1.
  - by rewrite Hv, strip_prefix_app in H3.
Qed.

(** ** What a start establishes *)

Section boot.
Context {Tls : Type} `{!Ed25519} `{!Hex}.
Context (toml_from_str : bytes → AgentConfig + string).
Context (server_config_from_files : CertPaths → Result Tls).
Context (read_dir : bytes → Result (list (Result Keys.DirEntry))).
Context (key_file : bytes → Keys.DirEntry).
Context (bind_listener : string → Result string).
Abbreviation spawn := (spawn_control_service server_config_from_files read_dir key_file bind_listener).

(** The file at [path] is a configuration that the agent accepts. *)
Definition config_at (d : Disk) (path : bytes) (cfg : AgentConfig) : Prop :=
  ∃ b, file_at d (path_components path) = Some b ∧ (Z.of_nat (length b) ≤ MAX_CONFIG_BYTES)%Z ∧
    utf8_valid b = true ∧ toml_from_str b = inl cfg.

(** The service is built from the control section, everything of which loads. *)
Definition service_of (ctl : ControlConfig) (cs : ControlService (Tls := Tls)) : Prop :=
  server_config_from_files (cc_cert ctl) = Ok (cs_server_cfg cs) ∧
  (∃ v, load_trust_dir (read_dir (cc_trust_dir ctl)) = Ok v ∧ cs_verifier cs = mkReloadable v false) ∧
  build_policy (cc_roles ctl) = Ok (cs_policy cs) ∧
  (∃ actor, entry_stem (key_file (cc_agent_key_file ctl)) = Some actor ∧
     from_key_file actor (key_file (cc_agent_key_file ctl)) = Ok (cs_signer cs)) ∧
  bind_listener (cc_control_addr ctl) = Ok (cs_local_addr cs) ∧
  cs_apply cs = cc_apply ctl.

Lemma spawn_spec {S} ctl (s : S) :
  (spawn ctl s).1 = s ∧ ∀ cs, (spawn ctl s).2 = Ok cs → service_of ctl cs.
Proof.
  unfold spawn_control_service, service_of, mbind, M_bind, m_bind, lift.
  destruct (server_config_from_files _) as [tls|e|]; [|by split..]. cbn.
  destruct (load_trust_dir _) as [v|e|]; [|by split..]. cbn.
  destruct (build_policy _) as [p|e|]; [|by split..]. cbn.
  destruct (entry_stem _) as [actor|]; [|by split]. cbn.
  destruct (from_key_file _ _) as [k|e|] eqn:Hk; [|by split..]. cbn.
  destruct (bind_listener _) as [addr|e|]; [|by split..]. cbn.
  split; [done|]. intros cs [= <-]. cbn. naive_solver.
Qed.

Section start.
Context `{!Faults} (args : list bytes) (env : string → option bytes).
Abbreviation start := (start toml_from_str server_config_from_files read_dir key_file bind_listener args env).

Lemma load_config_spec path d0 :
  chl (λ d, d = d0) (λ d, d = d0) (load_config toml_from_str path)
    (ends (λ cfg d, d = d0 ∧ config_at d0 path cfg) (λ d, d = d0)).
Proof.
  unfold load_config, metadata_len. set (p := path_components path).
  eapply (chl_bind _ _ _ _ _ (λ len d, d = d0 ∧ ∃ b, file_at d0 p = Some b ∧ len = Z.of_nat (length b))).
  { eapply chl_bind; [apply (chl_read_found _ _ _ _ (λ b d, d = d0 ∧ file_at d0 p = Some b)); naive_solver|].
    intros b. apply chl_ret. naive_solver. }
  intros len. apply chl_case. intros d (-> & b & Hb & ->).
  destruct (Z.ltb_spec MAX_CONFIG_BYTES (Z.of_nat (length b))) as [|Hlen]; [by apply chl_bail|].
  eapply chl_bind; [apply (chl_read_found _ _ _ _ (λ b' d, d = d0 ∧ b' = b)); naive_solver|].
  intros b'. apply chl_case. intros d (-> & ->). destruct (utf8_valid b) eqn:Hu; [|by apply chl_bail].
  cbn [negb]. destruct (toml_from_str b) as [cfg|e] eqn:Ht; [|by apply chl_bail].
  apply chl_ret. intros d ->. split; [done|]. exists b. by split_and!.
Qed.

(** The configuration that was read, when the start got past it. *)
Definition read_config (d : Disk) (config : option AgentConfig) : Prop :=
  match discover_config_path args env with
  | None => config = None
  | Some path => ∃ cfg, config = Some cfg ∧ config_at d path cfg
  end.

Lemma load_agent_config_spec s :
  let '(s', r) := load_agent_config toml_from_str (Tls := Tls) (discover_config_path args env) s in
  disk (bt_fs s') = disk (bt_fs s) ∧ bt_control s' = bt_control s ∧
  ∀ config, r = Ok config → read_config (disk (bt_fs s)) config.
Proof.
  unfold load_agent_config, read_config. destruct (discover_config_path args env) as [path|];
    [|by split_and!; [..|intros config [= <-]]].
  destruct (load_config_spec path (disk (bt_fs s)) (bt_fs s) eq_refl) as (_ & _ & _ & Hend).
  unfold mbind, M_bind, m_bind, on_files, zoom.
  destruct (load_config _ path (bt_fs s)) as [fs [cfg|e|]]; cbn in *; [|by split_and!..|done].
  destruct Hend as [-> Hcfg]. split_and!; [done..|]. intros config [= <-]. by exists cfg.
Qed.

(** Flag, then environment, then configuration. *)
Definition runs_as_daemon (config : option AgentConfig) : Prop :=
  as_bytes "--daemon" ∈ args ∨
  (∃ v, env "TORDA_DAEMON" = Some v ∧ to_ascii_lowercase (trim v) ∈ [as_bytes "1"; as_bytes "true"]) ∨
  (env "TORDA_DAEMON" = None ∧ ∃ cfg, config = Some cfg ∧ ac_daemon cfg = true).

(** A number of megabytes as it is written, and in bytes; zero and nothing are the
    default of 64. *)
Definition number_of (v : bytes) : option Z := parse_u64 (trim v).
Definition rotation (mb : option Z) : Z :=
  let n := match mb with Some n => if bool_decide (n = 0%Z) then 64%Z else n | None => 64%Z end in
  Z.min u64_max (n * 2 ^ 20)%Z.

(** The sink the settings ask for, [None] for the standard output: the last
    [--output], else the environment, with the rotation of the last [--rotate-mb]
    when that is a number, else of the environment; else the configuration, which
    has to name one of the two sinks and a path for a file. *)
Definition asks_for (ss : list Setting) (config : option AgentConfig) (out : option (bytes * Z)) : Prop :=
  match first_of (last (outputs ss)) (env "TORDA_OUTPUT") with
  | Some p =>
      out = Some (p, rotation (first_of (last (rotations ss) ≫= number_of)
                                        (env "TORDA_ROTATE_MB" ≫= number_of)))
  | None =>
      match config ≫= ac_output with
      | None => out = None
      | Some o =>
          oc_sink o = "stdout" ∧ out = None ∨
          oc_sink o = "file" ∧ ∃ p, oc_path o = Some p ∧
            out = Some (p, Z.min u64_max (default 64%Z (oc_rotate_mb o) * 2 ^ 20)%Z)
      end
  end.

(** The sink of a started agent: the standard output, or that file, with that
    rotation and three rolls. *)
Definition writes_to (config : option AgentConfig) (sink : option Emitter) : Prop :=
  ∃ ss out, reads args ss ∧ asks_for ss config out ∧
    match out with
    | None => sink = None
    | Some (p, n) => ∃ e, sink = Some e ∧ base_path e = path_components p ∧
        rotate_bytes e = n ∧ max_rolls e = 3%nat
    end.

Lemma daemon_spec config :
  resolve_daemon_mode args env (default false (ac_daemon <$> config)) = true ↔ runs_as_daemon config.
Proof.
  unfold resolve_daemon_mode, daemon_flag_env_from, runs_as_daemon.
  destruct (existsb _ args) eqn:Hex; cbn.
  { apply existsb_exists in Hex as (a & Ha%list_elem_of_In & ->%bool_decide_eq_true). naive_solver. }
  assert (as_bytes "--daemon" ∉ args) as Hno.
  { intros Hin. apply not_true_iff_false in Hex. apply Hex, existsb_exists. exists (as_bytes "--daemon").
    by rewrite bool_decide_eq_true, <-list_elem_of_In. }
  destruct (env "TORDA_DAEMON") as [v|]; cbn.
  - assert (∀ w, w ∈ [as_bytes "1"; as_bytes "true"] ↔ w = as_bytes "1" ∨ w = as_bytes "true") as Htwo.
    { intros w. by rewrite elem_of_cons, list_elem_of_singleton. }
    rewrite orb_true_iff, !bool_decide_eq_true, <-Htwo. naive_solver.
  - destruct config as [cfg|]; cbn; naive_solver.
Qed.

Lemma rotation_spec mb :
  (∀ n, mb = Some n → (0 ≤ n)%Z) →
  Z.min u64_max (match mb with Some n => if (0 <? n)%Z then n else DEFAULT_ROTATE_MB
                 | None => DEFAULT_ROTATE_MB end * (1024 * 1024))%Z = rotation mb.
Proof.
  intros Hmb. unfold rotation, DEFAULT_ROTATE_MB. destruct mb as [n|]; [|done]. specialize (Hmb n eq_refl).
  by destruct (Z.ltb_spec 0 n); case_bool_decide; try lia.
Qed.

Lemma output_spec config out :
  resolve_output (discover_output_from args env) (config ≫= ac_output) = Ok out →
  ∃ ss, reads args ss ∧ asks_for ss config out.
Proof.
  unfold resolve_output, discover_output_from. destruct (scan_reads args None None) as (ss & Hr & ->).
  intros Hout. exists ss. split; [done|]. unfold asks_for, number_of.
  assert (match first_of (last (outputs ss)) None with Some p => Some p | None => env "TORDA_OUTPUT" end =
    first_of (last (outputs ss)) (env "TORDA_OUTPUT")) as Hp by by destruct (last (outputs ss)).
  rewrite Hp in Hout. destruct (first_of _ _) as [p|].
  { rewrite rotation_spec in Hout.
    - injection Hout as <-. do 2 f_equal. by destruct (last (rotations ss)) as [v|]; cbn; [destruct (parse_u64 _)|].
    - intros n Hn. destruct (last (rotations ss)) as [v|]; cbn in Hn.
      + destruct (parse_u64 (trim v)) as [m|] eqn:Hm.
        * injection Hn as <-. by apply parse_u64_nonneg in Hm.
        * destruct (env "TORDA_ROTATE_MB") as [w|]; [|done]. by apply parse_u64_nonneg in Hn.
      + destruct (env "TORDA_ROTATE_MB") as [w|]; [|done]. by apply parse_u64_nonneg in Hn. }
  destruct (config ≫= ac_output) as [o|]; [|by injection Hout as <-].
  case_bool_decide as Hf; [|case_bool_decide as Ho; [|done]].
  - right. split; [done|]. destruct (oc_path o) as [p|]; [|done]. injection Hout as <-. by exists p.
  - left. split; [done|]. by injection Hout as <-.
Qed.

(** The control step: nothing without an enabled section. *)
Lemma control_spec control s :
  bt_control s = None →
  let '(s', r) := start_control server_config_from_files read_dir key_file bind_listener control s in
  bt_fs s' = bt_fs s ∧
  (∀ cs, bt_control s' = Some cs → ∃ ctl, control = Some ctl ∧ service_of ctl cs) ∧
  (r = Ok tt → bt_control s' = None ↔ control = None).
Proof.
  intros Hs. destruct control as [ctl|]; [|by cbn; rewrite Hs].
  destruct (spawn_spec ctl s) as [Hst Hcs]. unfold start_control, mbind, M_bind, m_bind.
  destruct (spawn ctl s) as [s1 [cs|e|]]; cbn in *; subst s1; [|by rewrite Hs..].
  split_and!; [done| |done]. intros cs' [= <-]. eauto.
Qed.

Lemma emitter_new_ok fs path n k fs' e :
  emitter_new fs path n k = (fs', Ok e) → base_path e = path ∧ rotate_bytes e = n ∧ max_rolls e = k.
Proof. unfold emitter_new. intros He. repeat case_match; by simplify_eq. Qed.

Lemma open_sink_spec out s :
  let '(s', r) := open_sink (Tls := Tls) out s in
  bt_control s' = bt_control s ∧ ∀ sink, r = Ok sink →
  match out with
  | None => sink = None
  | Some (p, n) => ∃ e, sink = Some e ∧ base_path e = path_components p ∧
      rotate_bytes e = n ∧ max_rolls e = 3%nat
  end.
Proof.
  unfold open_sink. destruct out as [[path rotate]|]; [|by split; [|intros sink [= <-]]].
  unfold mbind, M_bind, m_bind, on_files, zoom.
  destruct (emitter_new _ _ _ _) as [fs [e|e|]] eqn:He; cbn; [|done..]. split; [done|]. intros sink [= <-].
  exists e. apply emitter_new_ok in He. naive_solver.
Qed.

Lemma effective_control_spec path config ctl :
  effective_control path config = Some ctl ↔
  is_Some path ∧ config ≫= ac_control = Some ctl ∧ cc_enabled ctl = true.
Proof.
  unfold effective_control. destruct path as [p|]; cbn; [|split; [done|by intros [[? [=]] _]]].
  destruct (config ≫= ac_control) as [c|]; cbn; [|naive_solver].
  destruct (cc_enabled c) eqn:Hc; split; [naive_solver..|done|]. intros (_ & [= ->] & ?). congruence.
Qed.

(** How a start ends: at the configuration, or with the settings it gives. *)
Lemma start_split s s' r :
  start s = (s', r) → bt_control s = None →
  (bt_control s' = None ∧ disk (bt_fs s') = disk (bt_fs s) ∧ ∀ st, r ≠ Ok st) ∨
  ∃ config, let control := effective_control (discover_config_path args env) config in
    read_config (disk (bt_fs s)) config ∧
    (∀ cs, bt_control s' = Some cs → ∃ ctl, control = Some ctl ∧ service_of ctl cs) ∧
    ∀ st, r = Ok st → (bt_control s' = None ↔ control = None) ∧
      (st_daemon st = true ↔ runs_as_daemon config) ∧ writes_to config (st_sink st).
Proof.
  intros Hrun Hs. unfold AgentBoot.start in Hrun. pose proof (load_agent_config_spec s) as Hload.
  unfold mbind at 1, M_bind at 1, m_bind at 1 in Hrun.
  destruct (load_agent_config _ _ s) as [s1 [config|e|]]; destruct Hload as (Hd1 & Hc1 & Hcfg); rewrite Hs in Hc1.
  2,3: by injection Hrun as <- <-; left.
  right. exists config. cbn zeta in *. split; [by apply Hcfg|].
  pose proof (control_spec (effective_control (discover_config_path args env) config) s1 Hc1) as Hctl.
  unfold mbind at 1, M_bind at 1, m_bind at 1 in Hrun.
  destruct (start_control _ _ _ _ _ s1) as [s2 r2]. destruct Hctl as (_ & Hsvc & Hnone).
  assert (bt_control s' = bt_control s2 ∧ ∀ st, r = Ok st → r2 = Ok tt ∧
    (st_daemon st = true ↔ runs_as_daemon config) ∧ writes_to config (st_sink st)) as [-> Hst].
  { destruct r2 as [[]|e|]; [|by injection Hrun as <- <-..].
    unfold mbind at 1, M_bind at 1, m_bind at 1, lift at 1 in Hrun.
    destruct (resolve_output _ _) as [out|e|] eqn:Hout; [|by injection Hrun as <- <-..].
    apply output_spec in Hout as (ss & Hr & Hasks). unfold mbind at 1, M_bind at 1, m_bind at 1 in Hrun.
    pose proof (open_sink_spec out s2) as Hsink. destruct (open_sink out s2) as [s3 [sink|e|]]; injection Hrun as <- <-;
      destruct Hsink as [-> Hsink]; (split; [done|intros st [=]]). subst st. cbn.
    rewrite daemon_spec. split_and!; [done..|]. exists ss, out. split_and!; [done..|]. by apply Hsink. }
  split; [done|]. intros st (Hok & Hdae & Hsink)%Hst. by split_and!; [apply Hnone|..].
Qed.

Lemma started_service s s' r cs :
  start s = (s', r) → bt_control s = None → bt_control s' = Some cs →
  ∃ path cfg ctl, discover_config_path args env = Some path ∧ config_at (disk (bt_fs s)) path cfg ∧
    ac_control cfg = Some ctl ∧ cc_enabled ctl = true ∧ service_of ctl cs.
Proof.
  intros Hrun Hs Hcs. destruct (start_split s s' r Hrun Hs) as [(Hno & _)|(config & Hcfg & Hsvc & _)].
  { by rewrite Hno in Hcs. }
  destruct (Hsvc cs Hcs) as (ctl & ([path Hp] & Hctl & Hen)%effective_control_spec & Hsv).
  unfold read_config in Hcfg. rewrite Hp in Hcfg. destruct Hcfg as (cfg & -> & Hcfg).
  by exists path, cfg, ctl.
Qed.


(** ** What the started agent runs *)

Section service.
Context {A T : Type} `{!AuditSink A} `{!AuditLog A} `{!Transport T} `{!Ed25519Laws}.
Context `{!PayloadEncoder} `{!ResultEncoder} `{!FrameCodec} `{!Processes} (is_idle : string → bool).

(** The control section lets [cmd], served on the bridge [b], start the process [p]:
    real execution is on and allows that process of the action [cmd] names; the role
    the section gives the issuer permits the command; and its signature verifies under
    a key of the issuer's file in the trust directory. *)
Record configured (ctl : ControlConfig) (cmd : ControlCommand) (b : Bridge A) (p : string) : Prop := {
  conf_run : ∃ ap rec, cc_apply ctl = Some ap ∧ apply_enabled ap = true ∧
    actions b !! cmd_action_id cmd = Some rec ∧ allows ap (undoes (cmd_kind cmd)) (rec_action rec) p;
  conf_command : CommandKind.is_execution (cmd_kind cmd) = true ∧ cmd_schedule cmd = None;
  conf_role : ∃ role r, role_entry (cc_roles ctl) (cmd_actor cmd) = Some role ∧
    parse_role role = Ok r ∧ Role.permits r (cmd_kind cmd) = true;
  conf_signed : ∃ entries entry k raw sig, read_dir (cc_trust_dir ctl) = Ok entries ∧ entry ∈ entries ∧
    entry_contributes entry (cmd_actor cmd) k ∧
    hex_decode (as_bytes (cmd_signature cmd)) = inl raw ∧ sig_from_slice raw = Some sig ∧
    verify_strict k (as_bytes (payload cmd)) sig = true;
}.

Definition handler_of (cs : ControlService (Tls := Tls)) : AgentControlHandler ReloadableVerifier RolePolicy :=
  mkHandler (cs_verifier cs) (cs_policy cs) (cs_signer cs).

Lemma commanded_configured ctl cs cmd (b : Bridge A) g p :
  service_of ctl cs → commanded (handler_of cs) (cs_apply cs) cmd b g p → configured ctl cmd b p.
Proof.
  intros (_ & (v & Hv & Hver) & Hpol & _ & _ & Happ)
    [(Hsig & _ & Hperm & Hex & Hsch) (ap & rec & Hap & Hen & Hrec & Hall) _].
  split; [exists ap, rec; rewrite <-Happ; by split_and!|done| |].
  - unfold handler_of, ControlProps.permitted, authorized, RolePolicy_authorizer in Hperm. cbn in Hperm.
    pose proof (assign_all_spec _ _ _ Hpol (cmd_actor cmd)) as Hrole.
    destruct (role_entry (cc_roles ctl) (cmd_actor cmd)) as [role|] eqn:He.
    2:{ by rewrite Hrole in Hperm. }
    destruct Hrole as (r & Hparse & Hr). rewrite Hr in Hperm. by exists role, r.
  - unfold signed, handler_of in Hsig. cbn in Hsig. rewrite Hver in Hsig.
    by eapply load_trust_dir_verifies.
Qed.

(** C10: every process of the agent traces back to its configuration file.  Whatever the
    agent was started with and whatever bytes arrive on the connections of its control
    channel, take the commands in the frames it reads, one by one, with the bridge each
    of them meets: the processes the channel starts on the host are exactly those
    started while these commands were served, and each one was let by the file the
    agent was told to read: the control section is enabled, real execution is on and
    allows that process, the shell payload or rollback of the action the command names,
    on this very host; the role the section gives the command's issuer permits it; and
    the command's signature verifies under a key of the issuer's file in the trust
    directory. *)
Theorem processes_trace_to_the_configuration s s' r cs (sink : A) host conns :
  start s = (s', r) → bt_control s = None → bt_control s' = Some cs → events sink = [] →
  let host' := (control_accept_loop (T := T) (handler_of cs) is_idle (cs_apply cs) conns
                  (bridge_new sink, host)).1.2 in
  let js := journal (handler_of cs) (cs_apply cs) is_idle conns (bridge_new sink, host) in
  ∃ path cfg ctl, discover_config_path args env = Some path ∧ config_at (disk (bt_fs s)) path cfg ∧
    ac_control cfg = Some ctl ∧ cc_enabled ctl = true ∧
    host_log host' = host_log host ++ (js ≫= sv_ran) ∧
    ∀ e p, e ∈ js → Spawned p ∈ sv_ran e → configured ctl (sv_command e) (sv_bridge e) p.
Proof.
  intros Hrun Hs Hcs Hsink host' js.
  destruct (started_service s s' r cs Hrun Hs Hcs) as (path & cfg & ctl & Hp & Hcfg & Hc & Hen & Hsv). exists path, cfg, ctl.
  destruct (service_accounted (handler_of cs) (cs_apply cs) is_idle conns (bridge_new sink, host)) as [Hlog Hall];
    [by apply reachable_new|].
  split_and!; [done..|]. intros e p He Hpe. rewrite Forall_forall in Hall. destruct (Hall e He) as [_ Hj].
  eapply commanded_configured; [done|by apply Hj].
Qed.
End service.
End start.
End boot.
