(* ===== verification/FromEvents.v ===== *)
(** * From an event file to findings files

    [server/ingest/src/bin/findings-from-events.rs]: the batch program that reads the
    agent's NDJSON, runs the findings engine over it against the findings of earlier
    runs, and writes the findings and the remediation queue.  [serde_json] is an
    interface; the disk can fail and crash.  The theorems say what the files hold after
    a run, and what a run that fails leaves behind. *)

From Stdlib Require Import ZArith.
From stdpp Require Import base tactics gmap strings list.
From S2P Require Import Prelude Float32 Order Transport Scheduler Keys Version CveSource Text Findings Engine Ocsf.
From S2P Require Import Ingest IngestProps Fs JsonStore Feed FeedProps Nvd Enrich.

(** ** The command line *)

Record Args := mkArgs {
  arg_input : bytes; arg_findings_out : bytes; arg_remediation_out : bytes; arg_store : option bytes;
  arg_osv : option bytes; arg_nvd : option bytes; arg_enrich : option bytes;
}.

(** The flags read so far. *)
Record Flags := mkFlags {
  fl_input : option bytes; fl_findings_out : option bytes; fl_remediation_out : option bytes;
  fl_store : option bytes; fl_osv : option bytes; fl_nvd : option bytes; fl_enrich : option bytes;
}.

(** Where the value of a flag goes, if the flag is known. *)
Definition flag_slot (flag : bytes) (f : Flags) : option (bytes → Flags) :=
  if bool_decide (flag = as_bytes "--input") then
    Some (λ v, mkFlags (Some v) (fl_findings_out f) (fl_remediation_out f) (fl_store f) (fl_osv f) (fl_nvd f) (fl_enrich f))
  else if bool_decide (flag = as_bytes "--findings-out") then
    Some (λ v, mkFlags (fl_input f) (Some v) (fl_remediation_out f) (fl_store f) (fl_osv f) (fl_nvd f) (fl_enrich f))
  else if bool_decide (flag = as_bytes "--remediation-out") then
    Some (λ v, mkFlags (fl_input f) (fl_findings_out f) (Some v) (fl_store f) (fl_osv f) (fl_nvd f) (fl_enrich f))
  else if bool_decide (flag = as_bytes "--store") then
    Some (λ v, mkFlags (fl_input f) (fl_findings_out f) (fl_remediation_out f) (Some v) (fl_osv f) (fl_nvd f) (fl_enrich f))
  else if bool_decide (flag = as_bytes "--osv") then
    Some (λ v, mkFlags (fl_input f) (fl_findings_out f) (fl_remediation_out f) (fl_store f) (Some v) (fl_nvd f) (fl_enrich f))
  else if bool_decide (flag = as_bytes "--nvd") then
    Some (λ v, mkFlags (fl_input f) (fl_findings_out f) (fl_remediation_out f) (fl_store f) (fl_osv f) (Some v) (fl_enrich f))
  else if bool_decide (flag = as_bytes "--enrich") then
    Some (λ v, mkFlags (fl_input f) (fl_findings_out f) (fl_remediation_out f) (fl_store f) (fl_osv f) (fl_nvd f) (Some v))
  else None.

Fixpoint parse_flags (argv : list bytes) (f : Flags) : Result Flags :=
  match argv with
  | [] => Ok f
  | flag :: rest =>
      match flag_slot flag f with
      | Some set =>
          match rest with
          | [] => Err "missing value for a flag"
          | v :: rest => parse_flags rest (set v)
          end
      | None =>
          if bool_decide (flag = as_bytes "-h") || bool_decide (flag = as_bytes "--help") then Err "usage"
          else Err "unknown argument"
      end
  end.

Definition parse_args (argv : list bytes) : Result Args :=
  match parse_flags argv (mkFlags None None None None None None None) with
  | Err e => Err e
  | Panicked => Panicked
  | Ok f =>
      match fl_input f with
      | None => Err "--input is required"
      | Some input =>
          match fl_findings_out f with
          | None => Err "--findings-out is required"
          | Some findings_out =>
              match fl_remediation_out f with
              | None => Err "--remediation-out is required"
              | Some remediation_out =>
                  Ok (mkArgs input findings_out remediation_out (fl_store f) (fl_osv f) (fl_nvd f) (fl_enrich f))
              end
          end
      end
  end.

(** ** The sources *)

(** [Box<dyn CveSource>], [Box<dyn EnrichmentSource>]. *)
Definition DynCveSource : Type := string → string → string → string → string → list CveHit.
#[export] Instance DynCveSource_source : CveSource DynCveSource := λ f, f.
Definition DynEnrichment : Type := string → option Enrichment.
#[export] Instance DynEnrichment_source : EnrichmentSource DynEnrichment := λ f, f.

Definition empty_feed : CveFeed := mkCveFeed [].
Definition noop_enrichment : MapEnrichment := mkMapEnrichment ∅.
Definition default_asset_ctx : MapAssetContext :=
  mkMapAssetContext ∅ (mkAssetContext false Criticality.Normal false).

(** [serde_json] at the types of the program.  A writer gives the bytes it wrote and
    the error that stopped it. *)
Class EventsJson (V : Type) := {
  envelope_from_str : bytes → OcsfEnvelope V + string;
  value_from_str : bytes → V + string;
  values_from_str : bytes → list V + string;
  values_to_string : list V → bytes + string;
  osv_from_str : bytes → list OsvRecord + string;
  nvd_from_str : bytes → NvdBundle + string;
  finding_to_writer : Finding → bytes * option string;
  item_to_writer : RemediationItem → bytes * option string;
}.

Definition or_bail {S A} (r : A + string) : M S A :=
  match r with inl a => mret a | inr e => bail e end.

(** The names in a directory that end in [.json], sorted. *)
Definition has_json_extension (name : string) : bool :=
  ends_with (as_bytes ".json") (as_bytes name) && negb (bool_decide (name = ".json")).
Definition children (dir : Path) (d : Disk) : list string :=
  remove_dups (omap (λ kv : Path * Node, if under dir kv.1 then kv.1 !! length dir else None) (map_to_list d)).
Definition json_files (dir : Path) (d : Disk) : list Path :=
  (λ name, dir ++ [name]) <$> sort_by string_cmp (filter has_json_extension (children dir d)).

(** Which entries of a directory that is read by the [n]-th operation come as an
    error instead of an entry. *)
Class Listing := unlisted : nat → Path → bool.

(** The entries that do come; the others are dropped ([entry.ok()]). *)
Definition listed `{!Listing} (n : nat) (dir : Path) (d : Disk) : list Path :=
  filter (λ p, unlisted n p = false) (json_files dir d).

Section events.
Context {V : Type} `{!JsonValue V} `{!EventsJson V} `{!Deserialize V Detection} `{!Deserialize V ComplianceRecord}.
Context `{!Deserialize V DriftRecord} `{!Deserialize V FimRecord} `{!SnapshotJson} `{!FindingsJson} `{!Faults} `{!Listing} (pid : Z).

Definition read_json_files (dir : Path) : M FsState (list Path) :=
  n ← next_op;
  d ← gets disk;
  if fails n then bail "reading bundle directory"
  else
    let files := listed n dir d in
    if bool_decide (files = []) then bail "no .json files found in bundle directory"
    else mret files.

Fixpoint merge_files (records_of : bytes → list V + string) (files : list Path) (records : list V) :
    M FsState (list V) :=
  match files with
  | [] => mret records
  | f :: files =>
      text ← read_to_string f;
      parsed ← or_bail (records_of text);
      merge_files records_of files (records ++ parsed)
  end.

(** One file, or a directory of them merged. *)
Definition bundle_text (records_of : bytes → list V + string) (path : Path) : M FsState bytes :=
  dir ← gets (λ s, is_dir path (disk s));
  if (dir : bool) then
    files ← read_json_files path;
    records ← merge_files records_of files [];
    or_bail (values_to_string records)
  else read_to_string path.

Definition load_osv_source (path : Path) : M FsState OsvSource :=
  text ← bundle_text values_from_str path;
  records ← or_bail (osv_from_str text);
  mret (from_records records).

(** A bare array, or an object with [records]. *)
Definition nvd_records (text : bytes) : list V + string :=
  match value_from_str text with
  | inr e => inr e
  | inl v =>
      match json_as_array v with
      | Some arr => inl arr
      | None =>
          match json_as_array (json_index v "records") with
          | Some arr => inl arr
          | None => inr "NVD bundle has no records array"
          end
      end
  end.
Definition load_nvd_source (path : Path) : M FsState NvdSource :=
  text ← bundle_text nvd_records path;
  bundle ← or_bail (nvd_from_str text);
  mret (nvd_from_bundle bundle).

(** OSV before NVD, composed when both are given. *)
Definition load_feed (osv nvd : option bytes) : M FsState DynCveSource :=
  match osv, nvd with
  | None, None => mret (hits_for empty_feed)
  | Some o, None => s ← load_osv_source (path_components o); mret (hits_for s)
  | None, Some n => s ← load_nvd_source (path_components n); mret (hits_for s)
  | Some o, Some n =>
      os ← load_osv_source (path_components o);
      ns ← load_nvd_source (path_components n);
      mret (hits_for (composite_with (composite_with (mkCompositeCveSource []) os) ns))
  end.

Definition load_enrichment (dir : option bytes) : M FsState DynEnrichment :=
  match dir with
  | Some dir => b ← load_from_dir (path_components dir); mret (enr_lookup b)
  | None => mret (enr_lookup noop_enrichment)
  end.

(** ** The batch *)

(** A blank line is skipped, a malformed one is counted, and one that is not UTF-8 is an
    error of the reader. *)
Fixpoint parse_envelopes (lines : list bytes) (envelopes : list (OcsfEnvelope V)) (skipped : nat) :
    Result (list (OcsfEnvelope V) * nat) :=
  match lines with
  | [] => Ok (envelopes, skipped)
  | line :: lines =>
      if negb (utf8_valid line) then Err "stream did not contain valid UTF-8"
      else
        let trimmed := trim line in
        if bool_decide (trimmed = []) then parse_envelopes lines envelopes skipped
        else
          match envelope_from_str trimmed with
          | inl env => parse_envelopes lines (envelopes ++ [env]) skipped
          | inr _ => parse_envelopes lines envelopes (S skipped)
          end
  end.

(** [run_all_ingest] always returns. *)
Definition run_engine_with (envelopes : list (OcsfEnvelope V)) (feed : DynCveSource)
    (enrichment : DynEnrichment) (prior : list Finding) : IngestReport :=
  default (mkIngestReport [] []) (run_all_ingest envelopes feed enrichment default_asset_ctx prior).

(** ** The outputs *)

(** The lines that were written, up to the record that could not be. *)
Fixpoint ndjson {T} (to_writer : T → bytes * option string) (items : list T) : bytes * option string :=
  match items with
  | [] => ([], None)
  | item :: items =>
      match to_writer item with
      | (b, Some e) => (b, Some e)
      | (b, None) => let '(rest, err) := ndjson to_writer items in (b ++ [10]%Z ++ rest, err)
      end
  end.

Definition write_ndjson {T} (to_writer : T → bytes * option string) (path : Path) (items : list T) :
    M FsState unit :=
  (if bool_decide (parent path = []) then mret tt else create_dir_all (parent path));;
  create_file path;;
  let '(text, err) := ndjson to_writer items in
  (if bool_decide (text = []) then mret tt else write_all path text);;
  match err with Some e => bail e | None => mret tt end.

(** ** The program *)

Definition run_report (store : option bytes) (engine : list Finding → IngestReport) : M FsState IngestReport :=
  match store with
  | Some path => persisted_ingest (H := JsonFileStore_store pid (path_components path)) engine
  | None => mret (engine [])
  end.

(** The numbers of the last message: events, findings, remediation items, and lines that
    were skipped. *)
Definition run (argv : list bytes) : M FsState (nat * nat * nat * nat) :=
  args ← lift (parse_args argv);
  input ← read_found (path_components (arg_input args));
  parsed ← lift (parse_envelopes (text_lines input) [] 0);
  feed ← load_feed (arg_osv args) (arg_nvd args);
  enrichment ← load_enrichment (arg_enrich args);
  report ← run_report (arg_store args) (run_engine_with parsed.1 feed enrichment);
  write_ndjson finding_to_writer (path_components (arg_findings_out args)) (findings report);;
  write_ndjson item_to_writer (path_components (arg_remediation_out args)) (remediation_items report);;
  mret (length parsed.1, length (findings report), length (remediation_items report), parsed.2).
End events.

(** * What a run leaves behind *)

Lemma parse_flags_no_panic n argv f : (length argv ≤ n)%nat → parse_flags argv f ≠ Panicked.
Proof.
  revert argv f. induction n as [|n IH]; intros [|flag rest] f Hn; cbn in *; [done|lia|done|].
  destruct (flag_slot flag f) as [set|]; [|by destruct (_ || _)].
  destruct rest as [|v rest]; [done|]. apply IH. cbn in Hn. lia.
Qed.
Lemma parse_args_no_panic argv : parse_args argv ≠ Panicked.
Proof.
  unfold parse_args. pose proof (parse_flags_no_panic _ argv (mkFlags None None None None None None None) (le_n _)).
  by repeat case_match.
Qed.

Section props.
Context {V : Type} `{!JsonValue V} `{!EventsJson V} `{!Deserialize V Detection} `{!Deserialize V ComplianceRecord}.
Context `{!Deserialize V DriftRecord} `{!Deserialize V FimRecord} `{!SnapshotJson} `{!FindingsJson} `{!FindingsJsonLaws} `{!Listing}.
Implicit Types (d : Disk) (text line : bytes).

(** ** What the inputs are *)

(** The envelopes of a file: of its lines that are neither blank nor malformed. *)
Definition line_envelope line : option (OcsfEnvelope V) :=
  if bool_decide (trim line = []) then None
  else match envelope_from_str (trim line) with inl env => Some env | inr _ => None end.
Definition malformed line : bool :=
  negb (bool_decide (trim line = [])) && match envelope_from_str (V := V) (trim line) with inl _ => false | inr _ => true end.

Lemma parse_envelopes_spec lines acc k :
  parse_envelopes lines acc k =
  if forallb utf8_valid lines then Ok (acc ++ omap line_envelope lines, k + length (filter malformed lines))
  else Err "stream did not contain valid UTF-8".
Proof.
  revert acc k. induction lines as [|line lines IH]; intros acc k; cbn [parse_envelopes forallb].
  { by rewrite app_nil_r, Nat.add_0_r. }
  destruct (utf8_valid line); [|done]. cbn [negb andb]. cbn [omap list_omap]. rewrite filter_cons_bool.
  unfold malformed at 1, line_envelope at 1. case_bool_decide; cbn [negb andb]; [apply IH|].
  destruct (envelope_from_str (trim line)) as [env|e]; cbn [negb andb].
  - by rewrite IH, <-app_assoc.
  - rewrite IH. cbn [length]. by rewrite Nat.add_succ_r.
Qed.

(** The text of a bundle: a file, or the records of a directory's files in order, of
    those the reading of the directory gave. *)
Definition bundle_at (records_of : bytes → list V + string) d (path : Path) text : Prop :=
  if is_dir path d then
    ∃ n parts, listed n path d ≠ [] ∧
      Forall2 (λ f part, ∃ t, file_at d f = Some t ∧ utf8_valid t = true ∧ records_of t = inl part)
        (listed n path d) parts ∧
      values_to_string (concat parts) = inl text
  else file_at d path = Some text ∧ utf8_valid text = true.
Definition osv_at d (path : bytes) (s : OsvSource) : Prop :=
  ∃ text records, bundle_at values_from_str d (path_components path) text ∧ osv_from_str text = inl records ∧
    s = from_records records.
Definition nvd_at d (path : bytes) (s : NvdSource) : Prop :=
  ∃ text bundle, bundle_at nvd_records d (path_components path) text ∧ nvd_from_str text = inl bundle ∧
    s = nvd_from_bundle bundle.
Definition feed_at d (osv nvd : option bytes) (feed : DynCveSource) : Prop :=
  match osv, nvd with
  | None, None => feed = hits_for empty_feed
  | Some o, None => ∃ s, osv_at d o s ∧ feed = hits_for s
  | None, Some n => ∃ s, nvd_at d n s ∧ feed = hits_for s
  | Some o, Some n => ∃ os ns, osv_at d o os ∧ nvd_at d n ns ∧
      feed = hits_for (composite_with (composite_with (mkCompositeCveSource []) os) ns)
  end.
Definition enrichment_at d (dir : option bytes) (enr : DynEnrichment) : Prop :=
  match dir with
  | None => enr = enr_lookup noop_enrichment
  | Some dir => ∃ b, loaded (path_components dir) d b ∧ enr = enr_lookup b
  end.

Section reads.
Context `{!Faults}.
Abbreviation reads d0 m Q := (chl (λ _, False) (λ d, d = d0) m (ends (λ r d, d = d0 ∧ Q r) (λ d, d = d0))).

Lemma reads_bind {A B : Type} d0 (m : M FsState A) (k : A → M FsState B) (R : A → Prop) (Q : B → Prop) :
  reads d0 m R → (∀ a, R a → reads d0 (k a) Q) → reads d0 (m ≫= k) Q.
Proof.
  intros Hm Hk. eapply chl_bind; [exact Hm|]. intros a. apply chl_case. intros d [-> Ha]. by apply Hk.
Qed.
Lemma reads_ret {A : Type} d0 (a : A) (Q : A → Prop) : Q a → reads d0 (mret a) Q.
Proof. intros Ha. apply chl_ret. by intros d ->. Qed.
Lemma reads_or_bail {A : Type} d0 (r : A + string) (Q : A → Prop) : (∀ a, r = inl a → Q a) → reads d0 (or_bail r) Q.
Proof. intros HQ. destruct r as [a|e]; [by apply reads_ret, HQ|by apply chl_bail]. Qed.

Lemma merge_files_spec d0 records_of files acc :
  reads d0 (merge_files records_of files acc) (λ r, ∃ parts : list (list V),
    Forall2 (λ f part, ∃ t, file_at d0 f = Some t ∧ utf8_valid t = true ∧ records_of t = inl part) files parts ∧
    r = acc ++ concat parts).
Proof.
  revert acc. induction files as [|f files IH]; intros acc; cbn [merge_files].
  { apply reads_ret. exists []. by rewrite app_nil_r. }
  eapply reads_bind; [apply read_to_string_spec|]. intros t [Ht Hu].
  eapply reads_bind; [by apply (reads_or_bail _ _ (λ a, records_of t = inl a))|]. intros part Hp.
  eapply chl_conseq; [apply IH|done|done|]. intros [r|e|] d; [|done..].
  intros (-> & parts & Hall & ->). split; [done|]. exists (part :: parts). cbn. rewrite app_assoc.
  split; [|done]. constructor; eauto.
Qed.

Lemma bundle_text_spec d0 records_of path :
  reads d0 (bundle_text records_of path) (bundle_at records_of d0 path).
Proof.
  unfold bundle_text, bundle_at.
  eapply reads_bind; [apply (chl_gets _ _ (is_dir path) _ (λ b d, d = d0 ∧ b = is_dir path d0)); by intros d ->|].
  intros dir ->. destruct (is_dir path d0); [|apply read_to_string_spec].
  eapply (reads_bind _ _ _ (λ files, files ≠ [] ∧ ∃ n, files = listed n path d0)).
  { intros s Hs. exists []. rewrite app_nil_r. unfold read_json_files, next_op, mbind, M_bind, m_bind. cbn.
    destruct (fails _); cbn; [done|]. rewrite Hs. case_bool_decide; [done|]. cbn. naive_solver. }
  intros files (Hne & n & ->). eapply reads_bind; [apply merge_files_spec|]. intros records (parts & Hall & ->).
  apply reads_or_bail. intros text Htext. by exists n, parts.
Qed.

Lemma load_osv_spec d0 path : reads d0 (load_osv_source (path_components path)) (osv_at d0 path).
Proof.
  eapply reads_bind; [apply bundle_text_spec|]. intros text Ht.
  eapply reads_bind; [by apply (reads_or_bail _ _ (λ a, osv_from_str text = inl a))|]. intros records Hr.
  apply reads_ret. by exists text, records.
Qed.
Lemma load_nvd_spec d0 path : reads d0 (load_nvd_source (path_components path)) (nvd_at d0 path).
Proof.
  eapply reads_bind; [apply bundle_text_spec|]. intros text Ht.
  eapply reads_bind; [by apply (reads_or_bail _ _ (λ a, nvd_from_str text = inl a))|]. intros bundle Hr.
  apply reads_ret. by exists text, bundle.
Qed.
Lemma load_feed_spec d0 osv nvd : reads d0 (load_feed osv nvd) (feed_at d0 osv nvd).
Proof.
  unfold load_feed, feed_at. destruct osv as [o|], nvd as [n|].
  - eapply reads_bind; [apply load_osv_spec|]. intros os Ho.
    eapply reads_bind; [apply load_nvd_spec|]. intros ns Hn. apply reads_ret. by exists os, ns.
  - eapply reads_bind; [apply load_osv_spec|]. intros os Ho. apply reads_ret. by exists os.
  - eapply reads_bind; [apply load_nvd_spec|]. intros ns Hn. apply reads_ret. by exists ns.
  - by apply reads_ret.
Qed.
Lemma load_enrichment_spec d0 dir : reads d0 (load_enrichment dir) (enrichment_at d0 dir).
Proof.
  unfold load_enrichment, enrichment_at. destruct dir as [dir|]; [|by apply reads_ret].
  eapply reads_bind; [apply load_from_dir_spec|]. intros b Hb. apply reads_ret. by exists b.
Qed.
End reads.

(** ** What the outputs hold *)

(** Only the file at [path] may have changed. *)
Definition only_at (path : Path) d d' : Prop := ∀ q, q ≠ path → file_at d' q = file_at d q.

(** The records one to a line. *)
Definition lines_of {T} (to_writer : T → bytes * option string) (items : list T) : bytes :=
  item ← items; (to_writer item).1 ++ [10]%Z.

Lemma ndjson_lines {T} (to_writer : T → bytes * option string) items :
  (ndjson to_writer items).2 = None → (ndjson to_writer items).1 = lines_of to_writer items.
Proof.
  induction items as [|item items IH]; [done|]. cbn [ndjson]. unfold lines_of. cbn [mbind list_bind].
  destruct (to_writer item) as [b [e|]]; [done|]. destruct (ndjson to_writer items) as [rest err].
  cbn in *. intros Herr. rewrite (IH Herr). by rewrite <-app_assoc.
Qed.

Section writes.
Context `{!Faults}.
Abbreviation anytime := (λ _ : Disk, True).

Lemma make_parents_spec path d0 :
  chl anytime (λ d, d = d0) (if bool_decide (parent path = []) then mret tt else create_dir_all (parent path))
    (ends (λ _, only_at path d0) (only_at path d0)).
Proof.
  case_bool_decide; [apply chl_ret; by intros d -> q|].
  assert (∀ r, (∀ q, q ∈ prefixes r → q ∈ prefixes (parent path)) →
    forallb (λ q, negb (is_file q d0)) (prefixes (parent path)) = true → only_at path d0 (make_dirs r d0)) as Hmk.
  { intros r Hr Hf q _. apply file_at_make_dirs. intros q' Hq'%Hr.
    rewrite forallb_forall in Hf. apply list_elem_of_In, Hf in Hq'. unfold is_file in Hq'.
    by apply negb_true_iff, bool_decide_eq_false, eq_None_not_Some in Hq'. }
  apply chl_attempt.
  - intros n d -> Hf. split; [done|]. apply Hmk; [apply prefixes_take|done].
  - intros d -> Hf. split; [done|]. by apply Hmk.
  - by intros d -> q.
Qed.

Lemma only_at_insert path d d' n : only_at path d d' → only_at path d (<[path := n]> d').
Proof. intros Hd q Hq. rewrite file_at_insert, bool_decide_eq_false_2 by congruence. by apply Hd. Qed.

Lemma write_ndjson_spec {T} (to_writer : T → bytes * option string) path items d0 :
  chl anytime (λ d, d = d0) (write_ndjson to_writer path items)
    (ends (λ _ d, only_at path d0 d ∧ file_at d path = Some (lines_of to_writer items)) (only_at path d0)).
Proof.
  unfold write_ndjson. eapply chl_bind; [apply make_parents_spec|]. intros [].
  eapply (chl_bind _ _ _ _ _ (λ _ d, only_at path d0 d ∧ file_at d path = Some [])).
  { apply chl_attempt; [by intros n d Hd _; unfold same| |done].
    intros d Hd _. split; [done|]. split; [by apply only_at_insert|].
    by rewrite file_at_insert, bool_decide_eq_true_2. }
  intros []. pose proof (ndjson_lines to_writer items) as Hlines.
  destruct (ndjson to_writer items) as [text err]. cbn in Hlines.
  eapply (chl_bind _ _ _ _ _ (λ _ d, only_at path d0 d ∧ file_at d path = Some text)).
  - case_bool_decide as Ht; [subst text; by apply chl_ret|]. apply chl_attempt.
    + intros n d [Hd _] _. split; [done|]. unfold tear. destruct (torn n text); [by apply only_at_insert|done].
    + intros d [Hd _] _. split; [done|]. split; [by apply only_at_insert|].
      by rewrite file_at_insert, bool_decide_eq_true_2.
    + by intros d [Hd _].
  - intros []. destruct err as [e|]; [apply chl_bail; by intros d [Hd _]|].
    apply chl_ret. intros d. by rewrite Hlines.
Qed.
End writes.

(** ** The run *)

(** The batch that the arguments name, as a function of the findings of earlier runs. *)
Definition batch d (args : Args) (engine : list Finding → IngestReport) : Prop :=
  ∃ input feed enr, file_at d (path_components (arg_input args)) = Some input ∧
    Forall (λ line, utf8_valid line = true) (text_lines input) ∧
    feed_at d (arg_osv args) (arg_nvd args) feed ∧ enrichment_at d (arg_enrich args) enr ∧
    engine = run_engine_with (omap line_envelope (text_lines input)) feed enr.

Definition findings_path (args : Args) : Path := path_components (arg_findings_out args).
Definition remediation_path (args : Args) : Path := path_components (arg_remediation_out args).
(** The store, if there is one, holds [m]. *)
Definition remembers d (args : Args) (m : InMemoryStore) : Prop :=
  match arg_store args with Some p => stores (path_components p) d m | None => True end.
(** The files that are written are three different ones. *)
Definition separate (args : Args) : Prop :=
  findings_path args ≠ remediation_path args ∧
  ∀ p, arg_store args = Some p → path_components p ≠ findings_path args ∧ path_components p ≠ remediation_path args.

Lemma remembers_only_at path d d' args m :
  only_at path d d' → (∀ p, arg_store args = Some p → path_components p ≠ path) →
  remembers d args m → remembers d' args m.
Proof.
  unfold remembers. destruct (arg_store args) as [p|]; [|done]. intros Hd Hp.
  apply stores_eq. symmetry. by apply Hd, Hp.
Qed.

Section run.
Context `{!Faults} (pid : Z).
Abbreviation anytime := (λ _ : Disk, True).

Lemma run_report_spec args engine m :
  (arg_store args = None → m = store_new) → Forall storable (persisted_fresh engine m) →
  chl anytime (λ d, remembers d args m) (run_report pid (arg_store args) engine)
    (ends (λ rep d, rep = report_after engine m ∧ remembers d args (merged (findings rep) m))
       (λ d, remembers d args m)).
Proof.
  intros Hnew Hst. unfold run_report, remembers. destruct (arg_store args) as [p|].
  - eapply chl_conseq; [by apply persisted_ingest_spec|done|done|]. intros [rep|e|] d; [|done..]. by intros [-> ?].
  - apply chl_ret. intros d _. rewrite (Hnew eq_refl). split; [|done].
    unfold report_after, persisted_fresh, carry_forward_ops_states. cbn. by destruct (engine []).
Qed.

(** Reading, then the rest. *)
Lemma reads_then {A B : Type} d0 (m : M FsState A) (k : A → M FsState B) (R : A → Prop) (Q : B → Disk → Prop) (E : Disk → Prop) :
  chl (λ _, False) (λ d, d = d0) m (ends (λ r d, d = d0 ∧ R r) (λ d, d = d0)) → E d0 →
  (∀ a, R a → chl anytime (λ d, d = d0) (k a) (ends Q E)) → chl anytime (λ d, d = d0) (m ≫= k) (ends Q E).
Proof.
  intros Hm HE Hk. eapply (chl_bind _ _ _ _ _ (λ a d, d = d0 ∧ R a)).
  - eapply chl_conseq; [exact Hm|done|done|]. intros [a|e|] d; [done|by intros ->|done].
  - intros a. apply chl_case. intros d [-> Ha]. by apply Hk.
Qed.

(** The files after the store was written. *)
Lemma outputs_spec args engine m d0 (counts : nat * nat * nat * nat) :
  separate args → remembers d0 args m →
  chl anytime (λ d, d = d0)
    (write_ndjson finding_to_writer (findings_path args) (findings engine);;
     write_ndjson item_to_writer (remediation_path args) (remediation_items engine);; mret counts)
    (ends (λ _ d, file_at d (findings_path args) = Some (lines_of finding_to_writer (findings engine)) ∧
        file_at d (remediation_path args) = Some (lines_of item_to_writer (remediation_items engine)) ∧
        remembers d args m) (λ d, remembers d args m)).
Proof.
  intros [Hne Hstore] Hm.
  assert (∀ d d', only_at (findings_path args) d d' → remembers d args m → remembers d' args m) as Hf0.
  { intros d d' Hd. apply (remembers_only_at _ _ _ _ _ Hd). intros p Hp. by apply Hstore. }
  assert (∀ d d', only_at (remediation_path args) d d' → remembers d args m → remembers d' args m) as Hr0.
  { intros d d' Hd. apply (remembers_only_at _ _ _ _ _ Hd). intros p Hp. by apply Hstore. }
  eapply (chl_bind _ _ _ _ _ (λ _ d, remembers d args m ∧
    file_at d (findings_path args) = Some (lines_of finding_to_writer (findings engine)))).
  { eapply chl_conseq; [apply write_ndjson_spec|done|by intros d Hd; apply Hd|]. intros [[]|e|] d; cbn; [intros [Hd Hf]|intros Hd|done]; eauto. }
  intros []. apply chl_case. intros d1 [Hm1 Hf1]. eapply (chl_bind _ _ _ _ _ (λ _ d, remembers d args m ∧
    file_at d (findings_path args) = Some (lines_of finding_to_writer (findings engine)) ∧
    file_at d (remediation_path args) = Some (lines_of item_to_writer (remediation_items engine)))).
  { eapply chl_conseq; [apply write_ndjson_spec|done|by intros d Hd; apply Hd|]. intros [[]|e|] d; cbn; [intros [Hd Hf]|intros Hd|done]; [|eauto].
    split_and!; [eauto| |done]. by rewrite Hd. }
  intros []. apply chl_ret. naive_solver.
Qed.

(** The engine never panics, so the default of [run_engine_with] is never taken. *)
Lemma run_engine_total (envs : list (OcsfEnvelope V)) feed enr prior :
  run_all_ingest envs feed enr default_asset_ctx prior = Some (run_engine_with envs feed enr prior).
Proof.
  unfold run_engine_with, run_all_ingest.
  by destruct (run_ingest_spec envs feed enr default_asset_ctx prior) as (fs & -> & _).
Qed.

(** C17: from the event file to the findings files.  Let the findings file, the
    remediation file and the store be three different paths, and let every finding the
    run can add be one the store can hold.  A run that succeeds has read every line of
    the input that is neither blank nor malformed, in order, the evidence its arguments
    name, and the feeds they name, of a directory all the [.json] files among the
    entries the reading of it gave (an entry that comes as an error is skipped without
    a word; at least one file was left); the findings file holds the findings the
    engine reports for that batch on top of the stored ones, one to a line, with the
    operators' decisions carried forward, the remediation file the queue of fixes, and
    the store the stored findings with the new ones merged in.  A run that fails has
    either changed nothing, or has read all its inputs and leaves the store as it was
    or with the new findings merged in.  It never panics. *)
Theorem events_become_findings argv args s m :
  parse_args argv = Ok args → separate args →
  remembers (disk s) args m → (arg_store args = None → m = store_new) →
  (∀ engine, batch (disk s) args engine → Forall storable (persisted_fresh engine m)) →
  let '(s', r) := run pid argv s in
  match r with
  | Ok _ => ∃ engine, batch (disk s) args engine ∧
      let report := report_after engine m in
      file_at (disk s') (findings_path args) = Some (lines_of finding_to_writer (findings report)) ∧
      file_at (disk s') (remediation_path args) = Some (lines_of item_to_writer (remediation_items report)) ∧
      remembers (disk s') args (merged (findings report) m)
  | Err _ => disk s' = disk s ∨ ∃ engine, batch (disk s) args engine ∧
      (remembers (disk s') args m ∨ remembers (disk s') args (merged (findings (report_after engine m)) m))
  | Panicked => False
  end.
Proof.
  intros Hargs Hsep Hm Hnew Hst.
  set (Q := λ (_ : nat * nat * nat * nat) d', ∃ engine, batch (disk s) args engine ∧
    let report := report_after engine m in
    file_at d' (findings_path args) = Some (lines_of finding_to_writer (findings report)) ∧
    file_at d' (remediation_path args) = Some (lines_of item_to_writer (remediation_items report)) ∧
    remembers d' args (merged (findings report) m)).
  set (E := λ d', d' = disk s ∨ ∃ engine, batch (disk s) args engine ∧
    (remembers d' args m ∨ remembers d' args (merged (findings (report_after engine m)) m))).
  assert (chl anytime (λ d, d = disk s) (run pid argv) (ends Q E)) as Hrun.
  2:{ destruct (Hrun s eq_refl) as (_ & _ & _ & Hend). destruct (run pid argv s) as [s' [c|e|]]; exact Hend. }
  assert (E (disk s)) as HE by by left.
  unfold run. rewrite Hargs.
  eapply reads_then; [apply (reads_ret _ args (λ a, a = args)); done|done|]. intros ? ->.
  eapply reads_then; [apply read_found_spec|done|]. intros input Hin.
  rewrite parse_envelopes_spec. destruct (forallb utf8_valid _) eqn:Hutf; [|apply chl_bail; by intros d ->].
  eapply reads_then; [apply (reads_ret _ _ (λ p, p = (omap line_envelope (text_lines input),
    length (filter malformed (text_lines input))))); done|done|]. intros ? ->. cbn [fst snd].
  eapply reads_then; [apply load_feed_spec|done|]. intros feed Hfeed.
  eapply reads_then; [apply load_enrichment_spec|done|]. intros enr Henr.
  set (engine := run_engine_with _ feed enr).
  assert (batch (disk s) args engine) as Hb.
  { exists input, feed, enr. split_and!; [done| |done..]. apply Forall_forall. intros line Hline%list_elem_of_In.
    by apply (proj1 (forallb_forall utf8_valid _) Hutf). }
  eapply (chl_bind _ _ _ _ _ (λ rep d, rep = report_after engine m ∧ remembers d args (merged (findings rep) m))).
  { eapply chl_conseq; [by apply run_report_spec, Hst|done|by intros d ->|].
    intros [rep|e|] d Hr; [exact Hr|right; eauto|done]. }
  intros rep. apply chl_case. intros d1 [-> Hd1]. eapply chl_conseq; [by apply outputs_spec|done|done|].
  intros [c|e|] d Hr; [by exists engine|right; eauto|done].
Qed.

(** One line that is not UTF-8 loses the batch: the run fails and writes nothing, however
    many good lines the file has. *)
Theorem torn_line_loses_the_batch argv args s input :
  parse_args argv = Ok args → file_at (disk s) (path_components (arg_input args)) = Some input →
  ¬ Forall (λ line, utf8_valid line = true) (text_lines input) →
  (∃ e, (run pid argv s).2 = Err e) ∧ disk (run pid argv s).1 = disk s.
Proof.
  intros Hargs Hin Hbad.
  assert (chl (λ _, False) (λ d, d = disk s) (run pid argv) (ends (λ _ _, False) (λ d, d = disk s))) as Hrun.
  2:{ destruct (Hrun s eq_refl) as (_ & _ & _ & Hend). destruct (run pid argv s) as [s' [c|e|]]; [done|by eauto|done]. }
  unfold run. rewrite Hargs. change (lift (Ok args)) with (mret (M := M FsState) args). rewrite mret_bind.
  eapply chl_bind; [apply (read_found_spec (disk s))|]. intros b. apply chl_case. intros d [-> Hb].
  assert (b = input) as -> by congruence. rewrite parse_envelopes_spec.
  destruct (forallb utf8_valid (text_lines input)) eqn:Hutf; [|by apply chl_bail].
  destruct Hbad. apply Forall_forall. intros line Hline%list_elem_of_In.
  by apply (proj1 (forallb_forall utf8_valid _) Hutf).
Qed.
End run.
End props.
