(* ===== verification/CorrDemo.v ===== *)
(** * Correlation scenarios

    A concrete platform and short histories of bus events, to which the theorems
    about the correlator are applied. *)

From Stdlib Require Import ZArith.
From stdpp Require Import base tactics gmap strings list.
From S2P Require Import Prelude Transport Keys Version CveSource Ocsf Substrate.
From S2P Require Import ProcMon NetMon FileMon Corr CorrFacts CorrConserve CorrBounds.
From S2P Require Import CorrMemory CorrExec CorrTrace Float32 Findings Engine Ingest IngestDemo EndToEnd MonitorProps.

Local Open Scope Z_scope.

(** A clock that advances one millisecond per observation, maps walked in key order. *)
#[export] Instance demo_host : Host := {|
  instant n := from_millis (Z.of_nat n);
  wall_millis n := Z.of_nat n;
  hash_order _ V m := map_to_list m;
  to_lowercase := ascii_lower;
|}.

#[export] Instance demo_host_laws : HostLaws.
Proof. split; [|done|done]. intros i j Hij. simpl. unfold from_millis. lia. Qed.

Definition e_exec (pid ppid : Z) (image : string) (t : Z) : SubstrateEvent Json :=
  mkSubstrateEvent EventKind.ProcessExec t
    (JObj [("pid", JNum pid); ("ppid", JNum ppid); ("image", JStr image)]).
Definition e_exit (pid : Z) (t : Z) : SubstrateEvent Json :=
  mkSubstrateEvent EventKind.ProcessExit t (JObj [("pid", JNum pid); ("image", JStr "x")]).
Definition e_connect (pid : Z) (comm daddr : string) (dport : Z) : SubstrateEvent Json :=
  mkSubstrateEvent EventKind.NetConnect 0
    (JObj [("pid", JNum pid); ("image", JStr comm); ("daddr", JStr daddr); ("dport", JNum dport)]).
Definition e_write (pid : Z) (comm path : string) : SubstrateEvent Json :=
  mkSubstrateEvent EventKind.FileWrite 0
    (JObj [("pid", JNum pid); ("image", JStr comm); ("path", JStr path)]).
Definition e_read (pid : Z) (comm path : string) : SubstrateEvent Json :=
  mkSubstrateEvent EventKind.FileOpen 0
    (JObj [("pid", JNum pid); ("image", JStr comm); ("path", JStr path)]).

Definition final (ws : list (Wake Json)) : Corr := (run_task GRACE ws corr_new).1.
Definition summary (e : Emission) : string * Z * string * list string :=
  (activity (em_data e), em_severity e, pb_image (process (em_data e)), hit_rule <$> detections (em_data e)).

Definition dropper : list (Wake Json) :=
  Recv <$> [e_exec 10 1 "/tmp/nc" 5; e_write 10 "nc" "/etc/cron.d/x"; e_connect 10 "nc" "8.8.8.8" 4444].

Example dropper_then_c2 :
  summary <$> emitted (final dropper) =
  [("process_file", 4, "/tmp/nc", [CORRELATED_FILE_RULE]);
   ("process_network", 4, "/tmp/nc", [CORRELATED_RULE]);
   ("process_file_network", 4, "/tmp/nc", [CORRELATED_CHAIN_RULE])].
Proof. vm_compute. reflexivity. Qed.

(** ** The theorems at work *)

Lemma no_event_lost_or_duplicated_witness :
  (run_task GRACE dropper corr_new).2 = Ok tt ∧
  ∃ lost, conn_reported (final dropper) ++ conn_waiting (final dropper) ++ lost ≡ₚ
    [(10, "8.8.8.8", 4444, "tcp")] ∧
    pending_evicted (counters (final dropper)) = wrap_u64 (Z.of_nat (length lost)).
Proof.
  destruct (no_event_lost_or_duplicated GRACE dropper) as (Hok & Hc & _). split; [exact Hok|exact Hc].
Defined.

Definition no_emission : Emission := mkEmission 0 0 (mkCorrData "" (mkProcessBlock 0 "" [] false) None None []).

Lemma records_are_justified_witness :
  justified (accepted exec_of dropper) (take 2 (emitted (final dropper)))
    (nth 2 (emitted (final dropper)) no_emission).
Proof.
  refine (records_are_justified GRACE dropper _ _ [] _). vm_compute. reflexivity.
Defined.

Definition early : list (Wake Json) := [Recv (e_connect 10 "nc" "8.8.8.8" 4444)].
Definition reads : list (Wake Json) := Recv <$> replicate 6 (e_read 20 "cat" "/etc/shadow").

Lemma no_event_waits_past_its_grace_witness :
  conn_waiting (run_task (from_millis 5) (early ++ reads ++ [Tick]) corr_new).1 = [] ∧
  ∃ lost, conn_reported (run_task (from_millis 5) (early ++ reads ++ [Tick]) corr_new).1 ++ lost ≡ₚ
    [(10, "8.8.8.8", 4444, "tcp")].
Proof.
  destruct (no_event_waits_past_its_grace (from_millis 5) early reads) as (Hw & _ & (lost & Hl & _) & _);
    [vm_compute; reflexivity|vm_compute; reflexivity|vm_compute; reflexivity|vm_compute; discriminate|].
  split; [exact Hw|]. exists lost. exact Hl.
Defined.

Lemma memory_is_bounded_witness : (size (contexts (final dropper)) ≤ MAX_TRACKED)%nat.
Proof. exact (proj1 (memory_is_bounded GRACE dropper)). Defined.

Lemma exec_order_does_not_matter_witness :
  let evs := [e_connect 10 "nc" "8.8.8.8" 4444; e_connect 10 "nc" "10.0.0.1" 80] in
  said (run_task GRACE (Recv <$> e_exec 10 1 "/tmp/nc" 5 :: evs) corr_new).1 =
  said (run_task GRACE (Recv <$> evs ++ [e_exec 10 1 "/tmp/nc" 5]) corr_new).1.
Proof.
  intros evs.
  apply (exec_order_does_not_matter GRACE 10 "/tmp/nc" (e_exec 10 1 "/tmp/nc" 5) evs corr_new);
    [reflexivity|by repeat split|reflexivity|reflexivity|reflexivity| |].
  - repeat constructor; try done; intros p [= <-]; reflexivity.
  - apply (bool_decide_unpack _). vm_compute. exact I.
Defined.

Definition after_nc : Corr := final [Recv (e_exec 10 1 "/tmp/nc" 5)].

Lemma suspicion_follows_lineage_witness :
  ∃ c, contexts (run_task GRACE (Recv <$> [e_exec 11 10 "/bin/sh" 6; e_exec 12 11 "/usr/bin/id" 7]) after_nc).1
         !! wrap_u32 12 = Some c ∧ SEV_HIGH ≤ exec_severity c.
Proof.
  destruct (contexts after_nc !! wrap_u32 10) as [c0|] eqn:Hc0; [|vm_compute in Hc0; discriminate Hc0].
  pose proof Hc0 as Hv. vm_compute in Hv. injection Hv as Hv.
  destruct (suspicion_follows_lineage GRACE 10 c0 [e_exec 11 10 "/bin/sh" 6; e_exec 12 11 "/usr/bin/id" 7] 12 after_nc)
    as (c & Hc & Hle & _); [reflexivity|exact Hc0|subst c0; reflexivity|repeat econstructor|].
  exists c. split; [exact Hc|]. subst c0. exact Hle.
Defined.

#[export] Instance Json_detection_laws : DetectionLaws Json.
Proof. by intros [r w]. Qed.

Definition demo_meta : Metadata := mkMetadata "torda" "0" "t".

Lemma sensed_connections_become_findings_witness :
  mkIdentity "h1" "network:8.8.8.8:4444" "8.8.8.8" "network" ∈
  identity <$> aggregate_network_findings
    (out_emitted (for_each (NetMon.handle_event demo_meta (demo_device "h1"))
       [e_connect 10 "nc" "8.8.8.8" 4444] (mkOutbox [] 0)).1) default_assets.
Proof.
  apply (proj1 (proj2 (sensed_connections_become_findings demo_meta (demo_device "h1")
    [e_connect 10 "nc" "8.8.8.8" 4444] default_assets))).
  exists (e_connect 10 "nc" "8.8.8.8" 4444), "8.8.8.8", 4444.
  split_and!; [by left|reflexivity|by left|reflexivity].
Defined.

Lemma correlated_records_become_findings_witness :
  mkIdentity "h1" "correlation:/tmp/nc->8.8.8.8:4444" "/tmp/nc" "correlation" ∈
  identity <$> aggregate_correlation_findings
    (corr_envelope demo_meta (demo_device "h1") <$> emitted (final dropper) : list (OcsfEnvelope Json)) default_assets.
Proof.
  apply (proj2 (correlated_records_become_findings demo_meta (demo_device "h1") GRACE dropper default_assets)).
  exists (nth 1 (emitted (final dropper)) no_emission), (mkConnBlock "8.8.8.8" 4444 "tcp" (hits (NetMon.assess "8.8.8.8" 4444))).
  split_and!; [|discriminate|reflexivity|reflexivity].
  apply list_elem_of_lookup. exists 1%nat. vm_compute. reflexivity.
Defined.

Lemma external_addresses_witness : parse_ip "203.0.113.9" = Some (V4 (203, 0, 113, 9)).
Proof. apply (external_addresses (203, 0, 113, 9)). unfold is_ipv4, is_octet. lia. Defined.

Lemma exit_joins_its_exec_witness :
  ∃ env hs, last (ProcMon.emitted (ProcMon.run_events demo_meta (demo_device "h1")
      [e_exec 10 1 "/tmp/nc" 5; e_exec 11 1 "/bin/ls" 6; e_exit 10 9] procmon_new).1) = Some env ∧
    data env = exit_record 10 "/tmp/nc" (JNum 4) hs.
Proof.
  destruct (exit_joins_its_exec demo_meta (demo_device "h1") procmon_new (e_exec 10 1 "/tmp/nc" 5)
    [e_exec 11 1 "/bin/ls" 6] (e_exit 10 9) 10 "/tmp/nc" 10 "x") as (_ & env & hs & Hl & Hd & _);
    try reflexivity.
  - repeat constructor. intros p [= <-]. discriminate.
  - apply (bool_decide_unpack _). vm_compute. exact I.
  - exists env, hs. split; [exact Hl|exact Hd].
Defined.

(** ** What the code does not do *)

Definition blame (e : Emission) : string * bool * list RuleHit * list string :=
  (pb_image (process (em_data e)), pb_attributed (process (em_data e)),
   pb_detections (process (em_data e)), hit_rule <$> detections (em_data e)).

(** The exfiltration chain can accuse a benign process: a connection fired for
    [/tmp/nc]; then a sensitive read arrives for the same pid under another command
    name, is judged by that name (benign, no detection of its own), and completes
    the chain with the connection of the other process. *)
Theorem exfil_accuses_a_benign_process :
  (∃ e, last (emitted (final (Recv <$> [e_exec 10 1 "/tmp/nc" 5; e_connect 10 "nc" "8.8.8.8" 4444;
                                        e_read 10 "sleep" "/etc/shadow"]))) = Some e ∧
     blame e = ("sleep", true, [], ["read_of_sensitive_file"; "suspicious_port";
                                    "suspicious_port_to_external"; CORRELATED_EXFIL_RULE])) ∧
  assessed (ProcMon.assess "sleep") = SEV_INFORMATIONAL.
Proof. split; [|vm_compute; reflexivity]. eexists. split; vm_compute; reflexivity. Qed.

(** The command name of a connection is checked against the exec only when the
    exec came first: the same connection of [nc] is reported as [nc]'s, with the
    correlated detection, when pid 10 was known, but credited to the innocent
    process that is exec'd under pid 10 afterwards when it had to wait. *)
Theorem waiting_connection_is_miscredited :
  let c := e_connect 10 "nc" "8.8.8.8" 4444 in
  let x := e_exec 10 1 "/usr/bin/sleep" 5 in
  (λ e, (blame e).1.1) <$> emitted (final (Recv <$> [x; c])) = [("nc", true)] ∧
  (λ e, (blame e).1.1) <$> emitted (final (Recv <$> [c; x])) = [("/usr/bin/sleep", true)] ∧
  (λ e, (blame e).2) <$> emitted (final (Recv <$> [x; c])) = [[CORRELATED_RULE]] ∧
  (λ e, (blame e).2) <$> emitted (final (Recv <$> [c; x])) = [[]].
Proof. vm_compute. split_and!; reflexivity. Qed.

(** A high-severity process rule of the agent is unknown to the server: an
    encoded command line raises the verdict of [powershell] to high on the host,
    and its finding weighs no more than that of a plain [powershell]. *)
Theorem encoded_command_adds_no_weight :
  let exec cmd := mkSubstrateEvent EventKind.ProcessExec 5
    (JObj ([("pid", JNum 10); ("image", JStr "C:\bin\powershell.exe")] ++ cmd)) in
  let sent cmd := ProcMon.emitted (ProcMon.run_events demo_meta (demo_device "h1") [exec cmd] procmon_new).1 in
  severity_id <$> sent [] = [SEV_MEDIUM] ∧
  severity_id <$> sent [("cmdline", JStr "powershell -enc AAAA")] = [SEV_HIGH] ∧
  process_contribution <$> sent [("cmdline", JStr "powershell -enc AAAA")] = process_contribution <$> sent [].
Proof. vm_compute. split_and!; reflexivity. Qed.

(** A fired process-and-file-write record gives the server nothing to show. *)
Example fired_write_has_no_finding :
  summary <$> emitted (final (take 2 dropper)) = [("process_file", SEV_HIGH, "/tmp/nc", [CORRELATED_FILE_RULE])] ∧
  aggregate_correlation_findings
    (corr_envelope demo_meta (demo_device "h1") <$> emitted (final (take 2 dropper)) : list (OcsfEnvelope Json))
    default_assets = [].
Proof. vm_compute. split; reflexivity. Qed.
