(* ===== verification/PostureDemo.v ===== *)
(** * Posture scenarios

    Record encodings on the concrete JSON type in which the laws of [serde] hold, and
    a host whose posture changes between refreshes. *)

From Stdlib Require Import ZArith Floats.SpecFloat.
From stdpp Require Import base tactics gmap strings list.
From S2P Require Import Prelude Float32 Transport Keys Version CveSource Action Bridge Findings Engine.
From S2P Require Import Ocsf Ingest IngestDemo Substrate CorrDemo Posture PostureProps.

Local Open Scope Z_scope.

(** ** Encodings *)

Definition enc_f32 (x : f32) : Json :=
  match x with
  | S754_zero s => JArr [JBool s]
  | S754_finite s m e => JArr [JBool s; JNum (Zpos m); JNum e]
  | _ => JNull
  end.
Definition dec_f32 (v : Json) : option f32 :=
  match v with
  | JArr [JBool s] => Some (S754_zero s)
  | JArr [JBool s; JNum (Zpos m); JNum e] => Some (S754_finite s m e)
  | _ => None
  end.
Definition enc_opt (o : option string) : Json := match o with Some s => JStr s | None => JNull end.
Definition dec_opt (v : Json) : option (option string) :=
  match v with JStr s => Some (Some s) | JNull => Some None | _ => None end.
Definition enc_mapping (m : FrameworkMapping) : Json :=
  JObj [("framework", JStr (framework m)); ("control_ids", JArr (JStr <$> control_ids m))].
Definition dec_mapping (v : Json) : option FrameworkMapping :=
  f ← get_str v "framework";
  ids ← json_get v "control_ids" ≫= json_as_array;
  mkFrameworkMapping f <$> mapM json_as_str ids.

Lemma mapM_dec_enc {X Y} (enc : X → Y) (dec : Y → option X) l :
  (∀ x, dec (enc x) = Some x) → mapM dec (enc <$> l) = Some l.
Proof. intros Hx. induction l as [|x l IH]; [done|]. cbn. rewrite Hx. cbn. by rewrite IH. Qed.

Lemma dec_enc_mapping m : dec_mapping (enc_mapping m) = Some m.
Proof.
  destruct m as [f ids].
  change (mkFrameworkMapping f <$> mapM json_as_str (JStr <$> ids) = Some (mkFrameworkMapping f ids)).
  by rewrite (mapM_dec_enc JStr json_as_str).
Qed.

#[export] Instance Json_ser_compliance : Serialize Json ComplianceRecord := λ r,
  JObj [("control_id", JStr (cr_control_id r)); ("passed", JBool (cr_passed r));
        ("weight", enc_f32 (cr_weight r)); ("subject", JStr (cr_subject r));
        ("location", JStr (cr_location r)); ("remediation_key", JStr (cr_remediation_key r));
        ("frameworks", JArr (enc_mapping <$> cr_frameworks r))].
#[export] Instance Json_de_compliance : Deserialize Json ComplianceRecord := λ v,
  i ← get_str v "control_id"; p ← get_bool v "passed"; w ← json_get v "weight" ≫= dec_f32;
  s ← get_str v "subject"; l ← get_str v "location"; k ← get_str v "remediation_key";
  fs ← json_get v "frameworks" ≫= json_as_array;
  mkComplianceRecord i p w s l k <$> mapM dec_mapping fs.
#[export] Instance Json_compliance_laws : SerdeRoundTrip Json ComplianceRecord cr_weight.
Proof.
  intros [i p w s l k fs] Hw.
  assert (from_value (to_value (mkComplianceRecord i p w s l k fs)) =
    mkComplianceRecord i p w s l k <$> mapM dec_mapping (enc_mapping <$> fs)) as ->
    by (by destruct w).
  by rewrite (mapM_dec_enc enc_mapping dec_mapping) by apply dec_enc_mapping.
Qed.

#[export] Instance Json_ser_drift : Serialize Json DriftRecord := λ r,
  JObj [("entry_id", JStr (dr_entry_id r)); ("drifted", JBool (dr_drifted r));
        ("subject", JStr (dr_subject r)); ("location", JStr (dr_location r));
        ("weight", enc_f32 (dr_weight r)); ("expected", JStr (dr_expected r));
        ("actual", enc_opt (dr_actual r)); ("remediation_key", JStr (dr_remediation_key r))].
#[export] Instance Json_de_drift : Deserialize Json DriftRecord := λ v,
  i ← get_str v "entry_id"; d ← get_bool v "drifted"; s ← get_str v "subject";
  l ← get_str v "location"; w ← json_get v "weight" ≫= dec_f32; e ← get_str v "expected";
  a ← dec_opt (json_index v "actual"); k ← get_str v "remediation_key";
  Some (mkDriftRecord i d s l w e a k).
#[export] Instance Json_drift_laws : SerdeRoundTrip Json DriftRecord dr_weight.
Proof.
  intros [i d s l w e a k] Hw. by destruct w, a.
Qed.

#[export] Instance Json_ser_fim : Serialize Json FimRecord := λ r,
  JObj [("entry_id", JStr (fr_entry_id r)); ("violated", JBool (fr_violated r));
        ("path", JStr (fr_path r)); ("weight", enc_f32 (fr_weight r));
        ("expected_sha256", JStr (fr_expected_sha256 r));
        ("actual_sha256", enc_opt (fr_actual_sha256 r));
        ("remediation_key", JStr (fr_remediation_key r))].
#[export] Instance Json_de_fim : Deserialize Json FimRecord := λ v,
  i ← get_str v "entry_id"; d ← get_bool v "violated"; p ← get_str v "path";
  w ← json_get v "weight" ≫= dec_f32; e ← get_str v "expected_sha256";
  a ← dec_opt (json_index v "actual_sha256"); k ← get_str v "remediation_key";
  Some (mkFimRecord i d p w e a k).
#[export] Instance Json_fim_laws : SerdeRoundTrip Json FimRecord fr_weight.
Proof.
  intros [i d p w e a k] Hw. by destruct w, a.
Qed.

(** ** Text and hash *)

Fixpoint json_text (v : Json) : string :=
  match v with
  | JNull => "null"
  | JBool b => if b then "true" else "false"
  | JNum z => show_Z z
  | JStr s => "'" +:+ s +:+ "'"
  | JArr l => "[" +:+ (fix go l := match l with [] => "]" | x :: l => json_text x +:+ "," +:+ go l end) l
  | JObj l => "{" +:+ (fix go l := match l with
      | [] => "}" | (k, x) :: l => "'" +:+ k +:+ "':" +:+ json_text x +:+ "," +:+ go l end) l
  end.
#[export] Instance Json_text : JsonText Json := json_text.
#[export] Instance demo_hasher : DefaultHasher := λ s, foldl (λ h c, h * 31 + c) 7 (as_bytes s).

(** ** A host that is hardened, then breached *)

Definition row (l : list (string * string)) : Json := JObj (prod_map id JStr <$> l).
Definition serves (l : list (string * list Json)) (t : string) : option (list Json) := assoc t l.

Definition hardened : string → option (list Json) := serves
  [("sshd_config", [row [("key", "PermitRootLogin"); ("value", "no")]]);
   ("packages", [row [("name", "openssl"); ("version", "3.0.14")]]);
   ("files", [row [("path", "/etc/passwd");
                   ("sha256", "2222222222222222222222222222222222222222222222222222222222222222")]])].
Definition breached : string → option (list Json) := serves
  [("sshd_config", [row [("key", "PermitRootLogin"); ("value", "yes")]]);
   ("packages", [row [("name", "openssl"); ("version", "3.0.2")]; row [("name", "telnet")]]);
   ("files", [row [("path", "/etc/passwd"); ("sha256", "99")]])].

Definition no_login_defs : Policy :=
  mkPolicy ["CIS"] [mkControlOverride "telnet-not-installed" None (Some (f32_lit 9 10))].

Definition vuln_ids (fs : list Finding) : list string := (λ f, vuln_id (identity f)) <$> fs.

(** Two payloads with different hashes cannot collide. *)
Lemma no_collision_pair (payload : (string → option (list Json)) → Json) q1 q2 :
  stable_hash (payload q1) ≠ stable_hash (payload q2) → no_collision payload [q1; q1; q2].
Proof.
  intros Hne a b [->|[->|[->|[]%not_elem_of_nil]%elem_of_cons]%elem_of_cons]%elem_of_cons
    [->|[->|[->|[]%not_elem_of_nil]%elem_of_cons]%elem_of_cons]%elem_of_cons He; try done; by destruct Hne.
Qed.

Lemma posture_findings_are_current_witness :
  vuln_ids <$> ((λ env, compliance_findings_from_envelope (V := Json) env default_assets) <$>
    last (out_emitted (refreshes (compliance_collect demo_meta (demo_device "h1") no_login_defs)
      [hardened; hardened; breached] collector_new).1.2)) =
  Some ["sshd-root-login-disabled"; "telnet-not-installed"].
Proof.
  destruct (posture_findings_are_current (V := Json) demo_meta (demo_device "h1") no_login_defs
    [hardened; hardened] breached default_assets) as (Hc & _ & _).
  - by repeat constructor.
  - apply no_collision_pair. by vm_compute.
  - apply no_collision_pair. by vm_compute.
  - apply no_collision_pair. by vm_compute.
  - cbn [app] in Hc. rewrite Hc. vm_compute. reflexivity.
Defined.
