(* ===== verification/AgentDemo.v ===== *)
(** * The agent at work

    A host whose commands succeed at once, a connection that carries a scripted list
    of frames, and the theorems about the service applied to them. *)

From Stdlib Require Import ZArith.
From stdpp Require Import base tactics gmap strings list.
From S2P Require Import Prelude Float32 Action Bridge BridgeSpec BridgeFacts BridgeProps BridgeCalls BridgeDemo.
From S2P Require Import Substrate AgentExec Control ControlProps Scheduler SchedulerProps ControlDemo.
From S2P Require Import Transport Keys KeysProps ControlPlane ControlPlaneProps ControlPlaneDemo.
From S2P Require Import AgentService AgentProps Fs Emit AgentBoot.

(** ** The host *)

(** Every process exits with success at the second poll; an observation takes a
    nanosecond. *)
#[export] Instance demo_processes : Processes := {|
  spawns _ _ := true;
  try_wait n := if (n <? 3)%nat then Running else Exited (Some 0%Z);
  passes _ := 1%N;
|}.
Definition quiet_host : HostState := mkHostState 0 0 [].

Lemma run_is_bounded_witness :
  let res := run_bounded "true" (from_secs 1) 64 quiet_host in
  let huge := run_bounded "true" (from_secs (2 ^ 63 - 1)) 64 (mkHostState (from_secs 60) 0 []) in
  res.2 = Ok tt ∧ res.2 ≠ Panicked ∧ host_log res.1 = [Spawned "true"] ∧
  huge.2 = Panicked ∧ host_log huge.1 = [Spawned "true"].
Proof.
  destruct (run_is_bounded "true" (from_secs 1) 64 quiet_host) as [Hfit _]; [by vm_compute|].
  destruct (run_is_bounded "true" (from_secs (2 ^ 63 - 1)) 64 (mkHostState (from_secs 60) 0 []))
    as [_ Hover]; [by vm_compute|].
  destruct Hfit as (_ & Hp & _); [intros [_ Hlt]; by vm_compute in Hlt|].
  destruct Hover as [Hpan Hlog]; [by split; vm_compute|].
  split; [by vm_compute|]. split; [exact Hp|]. split; [by vm_compute|]. by split.
Defined.

(** A process that never ends is killed. *)
Example hanging_process_is_killed :
  let hangs := {| spawns _ _ := true; try_wait _ := Running; passes _ := 0%N |} in
  let res := run_bounded (H := hangs) "sleep" (from_secs 1) 64 quiet_host in
  res.2 = Err "timed out" ∧ host_log res.1 = [Spawned "sleep"; Killed].
Proof. by vm_compute. Qed.

(** ** The connection *)

Record Script := mkScript { incoming : list (option bytes); outgoing : list bytes }.
#[export] Instance Script_transport : Transport Script := {|
  send frame := modify (λ s, mkScript (incoming s) (outgoing s ++ [frame]));
  recv := λ s, match incoming s with
    | [] => (s, Ok None)
    | Some frame :: rest => (mkScript rest (outgoing s), Ok (Some frame))
    | None :: rest => (mkScript rest (outgoing s), Err "timed out")
    end;
|}.
Definition idle (e : string) : bool := bool_decide (e = "timed out").

Definition patch : RemediationAction :=
  mkRemediationAction "act-1" "patch openssl" Method.Shell "apt-get -y upgrade openssl"
    (mkAssetSelector ["h1"]) true true (Some "apt-get -y downgrade openssl")
    (mkVerifySpec []) (mkCanarySpec 1 f32_zero).

Definition script_cmds : list ControlCommand :=
  [demo_cmd "act-1" (CommandKind.Draft patch) "alice" "ka:" 1 None;
   demo_cmd "act-1" CommandKind.Submit "alice" "ka:" 2 None;
   demo_cmd "act-1" CommandKind.Approve "bob" "kb:" 3 None;
   demo_cmd "act-1" CommandKind.Canary "carol" "kc:" 4 None;
   demo_cmd "act-1" CommandKind.Canary "carol" "kc:" 4 (Some (mkSchedule 100 200))].

(** A command travels as its number, a result as its text. *)
#[local] Instance script_frames : FrameCodec := {|
  frame_to_vec f := match f with FCommand _ => Err "unsupported" | FResult r => Ok (as_bytes (res_detail r)) end;
  frame_from_slice b := match b with [n] => FCommand <$> script_cmds !! Z.to_nat n | _ => None end;
|}.

Definition on_h1 : option ApplyConfig := Some (mkApplyConfig true "h1" [Method.Shell] 300 65536).

Definition session (frames : list (option bytes)) (checks : list Z) : Accepted (T := Script) :=
  Connected "s1" (mkScript frames []) checks.
Definition serve (apply : option ApplyConfig) (cs : list (Accepted (T := Script))) : HostState :=
  (control_accept_loop demo_handler idle apply cs (bridge_new (mkVecAuditSink []), quiet_host)).1.2.

Definition to_canary : list (option bytes) := [Some [0%Z]; Some [1%Z]; Some [2%Z]; Some [3%Z]].

Example canary_runs_on_this_host :
  host_log (serve on_h1 [session to_canary [50; 50; 50; 50]%Z]) = [Spawned (action_payload patch)] ∧
  host_log (serve None [session to_canary [50; 50; 50; 50]%Z]) = [].
Proof. by vm_compute. Qed.

(** The journal of that connection: four commands, the last of which ran the payload. *)
Definition canary_journal : list (Served (A := VecAuditSink)) :=
  journal demo_handler on_h1 idle [session to_canary [50; 50; 50; 50]%Z]
    (bridge_new (mkVecAuditSink []), quiet_host).

Lemma agent_runs_only_what_is_commanded_witness :
  length canary_journal = 4 ∧
  ∃ e, canary_journal !! 3 = Some e ∧ sv_ran e = [Spawned (action_payload patch)] ∧
    cmd_kind (sv_command e) = CommandKind.Canary ∧
    commanded demo_handler on_h1 (sv_command e) (sv_bridge e) (sv_guard e) (action_payload patch).
Proof.
  split; [by vm_compute|].
  destruct (agent_runs_only_what_is_commanded demo_handler on_h1 idle (mkVecAuditSink []) quiet_host
    [session to_canary [50; 50; 50; 50]%Z] ltac:(by vm_compute)) as (_ & Hall).
  destruct (canary_journal !! 3) as [e|] eqn:He; [|by vm_compute in He].
  assert ((λ e, (sv_ran e, cmd_kind (sv_command e))) <$> canary_journal !! 3 =
    Some ([Spawned (action_payload patch)], CommandKind.Canary)) as Hran by by vm_compute.
  rewrite He in Hran. injection Hran as Hr Hk. exists e. split_and!; [done..|].
  apply (Hall e); [by eapply list_elem_of_lookup_2|]. rewrite Hr. by left.
Defined.

(** A timeout that no deadline can hold: the payload is started, nothing is answered
    and nothing after it is served, on this connection or on the next. *)
Definition patient : option ApplyConfig :=
  Some (mkApplyConfig true "h1" [Method.Shell] (2 ^ 63 - 1) 65536).
Example huge_timeout_ends_the_service :
  let res := control_accept_loop demo_handler idle patient
    [session to_canary [50; 50; 50; 50]%Z; session to_canary [50; 50; 50; 50]%Z]
    (bridge_new (A := VecAuditSink) (mkVecAuditSink []), mkHostState (from_secs 60) 0 []) in
  res.2 = Panicked ∧ host_log res.1.2 = [Spawned (action_payload patch)] ∧
  outgoing (serve_connection demo_handler idle RealVerifier [50; 50; 50; 50]%Z
    (mkScript to_canary [], (bridge_new (A := VecAuditSink) (mkVecAuditSink []),
      loop_with_session "s1" 0 (RealExecutor (default (mkApplyConfig true "" [] 0 0) patient)
        (mkHostState (from_secs 60) 0 []))))).1.1 =
    as_bytes <$> ["dry-run preview"; "applied"; "applied"].
Proof. by vm_compute. Qed.

(** ** A scheduled command *)

Definition to_window : list (option bytes) :=
  [Some [0%Z]; Some [1%Z]; Some [2%Z]; Some [4%Z]; None; None; None].

(** The service acknowledges a scheduled command and never runs it.  Carol's
    canary, signed, authorized, on an approved action, with the window 100..200, is
    answered as scheduled; the connection stays open through the whole window, and
    another one follows inside it; nothing releases the queue, and the host never
    runs the payload, which the same command without a window runs at once. *)
Theorem scheduled_command_is_lost :
  outgoing (serve_connection demo_handler idle RealVerifier [50; 50; 50; 50; 100; 150; 250]%Z
    (mkScript to_window [], (bridge_new (A := VecAuditSink) (mkVecAuditSink []),
      loop_with_session "s1" 0 (RealExecutor (default (mkApplyConfig true "" [] 0 0) on_h1) quiet_host)))).1.1 =
    as_bytes <$> ["dry-run preview"; "applied"; "applied"; "scheduled [100,200]"] ∧
  host_log (serve on_h1 [session to_window [50; 50; 50; 50; 100; 150; 250]%Z;
                         session [None] [150; 160]%Z]) = [] ∧
  host_log (serve on_h1 [session to_canary [50; 50; 50; 50]%Z]) = [Spawned (action_payload patch)].
Proof. by vm_compute. Qed.

(** ** An agent started from a configuration file *)

Definition control_section : ControlConfig :=
  mkControlConfig "127.0.0.1:9443" "tenant-a" (as_bytes "/etc/torda/trust") (as_bytes "/etc/torda/agent-1.key") true
    [mkRoleEntry "alice" "operator"; mkRoleEntry "bob" "approver"; mkRoleEntry "carol" "operator"] on_h1
    (mkCertPaths [] [] [] []).
Definition agent_config : AgentConfig := mkAgentConfig true None (Some control_section) ∅ None.

(** The one file the parser knows, and the files of the trust directory. *)
Definition config_text : bytes := as_bytes "[control]".
Definition demo_toml (b : bytes) : AgentConfig + string :=
  if bool_decide (b = config_text) then inl agent_config else inr "expected a table".
Definition demo_keys (dir : bytes) : Result (list (Result Keys.DirEntry)) :=
  Ok ((λ actor, Ok (mkDirEntry (actor +:+ ".pub") true (Some actor) (Ok 100%Z) (Ok demo_key_file)))
        <$> ["alice"; "bob"; "carol"]).
Definition demo_agent_key (path : bytes) : Keys.DirEntry :=
  mkDirEntry "agent-1.key" true (Some "agent-1") (Ok 100%Z) (Ok demo_key_file).

#[local] Instance quiet_disk : Faults := {|
  fails _ := false; torn _ _ := None; made _ := 0%nat; removed _ _ := false;
|}.
Definition agent_disk : FsState := mkFs {[["etc"; "torda.toml"] := File config_text]} 0 0 [].
Definition demo_start (args : list bytes) : Booting (Tls := unit) * Result Started :=
  start demo_toml (λ _, Ok tt) demo_keys demo_agent_key Ok args (λ _, None) (mkBooting agent_disk None).

Definition with_config : list bytes := [as_bytes "--config=/etc/torda.toml"].
Definition missing_config : list bytes := [as_bytes "--config"; as_bytes "/etc/other.toml"].


(** The last flag chooses the file and its rotation; a number that does not parse leaves
    the default. *)
Definition sink_of (flags : list string) : option (Path * Z) :=
  match (demo_start (with_config ++ (as_bytes <$> flags))).2 with
  | Ok st => (λ e, (base_path e, rotate_bytes e)) <$> st_sink st
  | _ => None
  end.
Example last_flag_chooses_the_sink :
  sink_of [] = None ∧
  sink_of ["--output"; "/old"; "--rotate-mb=7"; "--output=/var/log/a.ndjson"] =
    Some (["var"; "log"; "a.ndjson"], 7 * 2 ^ 20)%Z ∧
  sink_of ["--rotate-mb"; "7"; "--output=/var/log/a.ndjson"; "--rotate-mb"; "many"] =
    Some (["var"; "log"; "a.ndjson"], 64 * 2 ^ 20)%Z.
Proof. by vm_compute. Qed.

Definition signed_cmds : list ControlCommand :=
  (λ cmd, sign (mkSigner (demo_key : SigningKey) (cmd_actor cmd)) cmd) <$> script_cmds.
#[local] Instance signed_frames : FrameCodec := {|
  frame_to_vec f := match f with FCommand _ => Err "unsupported" | FResult r => Ok (as_bytes (res_detail r)) end;
  frame_from_slice b := match b with [n] => FCommand <$> signed_cmds !! Z.to_nat n | _ => None end;
|}.

Definition demo_service : ControlService (Tls := unit) :=
  default (mkControlService "" tt (reloadable_new verifier_new) policy_new agent_signer None)
    (bt_control (demo_start with_config).1).
Lemma demo_service_listens : bt_control (demo_start with_config).1 = Some demo_service.
Proof.
  assert (bool_decide (is_Some (bt_control (demo_start with_config).1)) = true) as Hs by by vm_compute.
  apply bool_decide_eq_true in Hs as [cs Hcs]. unfold demo_service. by rewrite Hcs.
Qed.

(** The approved canary runs, and its process traces back to the file. *)
Definition started_journal : list (Served (A := VecAuditSink)) :=
  journal (handler_of demo_service) (cs_apply demo_service) idle [session to_canary [50; 50; 50; 50]%Z]
    (bridge_new (mkVecAuditSink []), quiet_host).

Lemma processes_trace_to_the_configuration_witness :
  ∃ e, started_journal !! 3 = Some e ∧ sv_ran e = [Spawned (action_payload patch)] ∧
    configured demo_keys control_section (sv_command e) (sv_bridge e) (action_payload patch).
Proof.
  destruct (processes_trace_to_the_configuration demo_toml (λ _, Ok tt) demo_keys demo_agent_key Ok with_config
    (λ _, None) idle (mkBooting agent_disk None) (demo_start with_config).1 (demo_start with_config).2 demo_service
    (mkVecAuditSink []) quiet_host [session to_canary [50; 50; 50; 50]%Z])
    as (path & cfg & ctl & Hp & (b & Hb & _ & _ & Ht) & Hc & _ & _ & Hall);
    [apply surjective_pairing|done|apply demo_service_listens|by vm_compute|].
  vm_compute in Hp. injection Hp as <-. vm_compute in Hb. injection Hb as <-. vm_compute in Ht. injection Ht as <-.
  injection Hc as <-.
  destruct (started_journal !! 3) as [e|] eqn:He; [|by vm_compute in He].
  assert (sv_ran <$> started_journal !! 3 = Some [Spawned (action_payload patch)]) as Hr by by vm_compute.
  rewrite He in Hr. injection Hr as Hr. exists e. split_and!; [done..|].
  apply Hall; [by eapply list_elem_of_lookup_2|]. rewrite Hr. by left.
Defined.
