(* ===== verification/StoreDemo.v ===== *)
(** * Concrete stores

    Codecs that satisfy the laws, the theorems of the two stores applied to them, and
    two runs of the feed store in which the marker and the content disagree. *)

From Stdlib Require Import ZArith Strings.String.
From stdpp Require Import base tactics gmap strings list countable.
From S2P Require Import Prelude Float32 Transport Scheduler Keys ControlPlaneDemo CveSource Findings Ingest.
From S2P Require Import IngestProps IngestDemo Fs JsonStore Feed FeedProps FeedLive Engine Manager Enrich.

(** ** A disk that works *)

Definition no_faults : Faults := {|
  fails _ := false; torn _ _ := None; made _ := 0; removed _ _ := false;
|}.
(** One that fails at the given operations, half-way through them. *)
Definition faults_at (ops : list nat) : Faults := {|
  fails n := bool_decide (n ∈ ops); torn _ b := Some (take 1 b); made _ := 0; removed _ _ := true;
|}.

Definition booted (d : Disk) : FsState := mkFs d 0 0 [].

Definition disk_at (k : nat) (s : FsState) : Disk := default ∅ (history s !! k).
Lemma nth_disk k s : k < length (history s) → disk_at k s ∈ history s.
Proof.
  intros Hk. unfold disk_at. destruct (lookup_lt_is_Some_2 _ _ Hk) as [d Hd]. rewrite Hd.
  by eapply list_elem_of_lookup_2.
Qed.

(** A run and its outcome, without the state spelled out. *)
Lemma outcome {S A} (m : M S A) s r : (m s).2 = r → m s = ((m s).1, r).
Proof. by destruct (m s); intros <-. Qed.

(** ** Findings in a file *)

#[local] Instance Provenance_eq_dec : EqDecision Provenance.
Proof. solve_decision. Defined.
#[local] Instance Enrichment_eq_dec : EqDecision Enrichment.
Proof. solve_decision. Defined.
#[local] Instance AssetContext_eq_dec : EqDecision AssetContext.
Proof. solve_decision. Defined.
#[local] Instance ScoreExplain_eq_dec : EqDecision ScoreExplain.
Proof. solve_decision. Defined.
#[local] Instance Score_eq_dec : EqDecision Score.
Proof. solve_decision. Defined.
#[local] Instance Finding_eq_dec : EqDecision Finding.
Proof. solve_decision. Defined.

Definition first_batch : list Finding := demo_findings FindingState.Open.
Definition second_batch : list Finding := demo_findings FindingState.Accepted.

(** Writes one of the two batches. *)
#[local] Instance two_batches : FindingsJson := {|
  findings_to_vec l :=
    if bool_decide (l = first_batch) then inl [1%Z]
    else if bool_decide (l = second_batch) then inl [2%Z] else inr "not in the table";
  findings_from_slice b :=
    if bool_decide (b = [1%Z]) then inl first_batch
    else if bool_decide (b = [2%Z]) then inl second_batch else inr "expected value";
|}.
#[local] Instance two_batches_laws : FindingsJsonLaws.
Proof. split. intros l b _. cbn. repeat case_bool_decide; intros; simplify_eq; done. Qed.

Definition findings_path : Path := ["var"; "findings.json"].
Definition var_disk : Disk := {[["var"] := Dir]}.

Definition after_first : FsState :=
  (json_upsert (H := no_faults) 7 findings_path first_batch (booted var_disk)).1.
Definition during_second : FsState :=
  (json_upsert (H := no_faults) 7 findings_path second_batch (booted (disk after_first))).1.
(** The crash comes while the second batch is in the temporary file. *)
Definition crash_disk : Disk := disk_at 5 during_second.

Lemma acknowledged_batches_survive_witness :
  ∃ batches, committed [(first_batch, Some (Ok tt)); (second_batch, None)] batches ∧
    stores findings_path crash_disk (foldl (λ m fs, merged fs m) store_new batches).
Proof.
  apply (acknowledged_batches_survive findings_path 7 var_disk).
  - apply (runs_returned findings_path 7 (F := no_faults) (booted var_disk) after_first).
    + apply (outcome (json_upsert (H := no_faults) 7 findings_path first_batch)). by vm_compute.
    + apply (runs_crashed findings_path 7 (F := no_faults) (booted (disk after_first)) during_second
        second_batch (Ok tt) [] (history during_second) crash_disk).
      * apply (outcome (json_upsert (H := no_faults) 7 findings_path second_batch)). by vm_compute.
      * done.
      * apply elem_of_cons. right. apply nth_disk. vm_compute. lia.
      * constructor.
  - apply Forall_cons_2; [|apply Forall_cons_2; [|constructor]]; cbn [fst]; apply forallb_True; by vm_compute.
  - split_and!; repeat constructor.
Defined.

Lemma file_backed_ingest_refines_memory_witness :
  let '(s', r) := persisted_ingest (H := JsonFileStore_store (H := no_faults) 7 findings_path)
    (demo_run 1000) (booted var_disk) in
  match r with
  | Ok report => Ok report = (persisted_ingest (demo_run 1000) store_new).2 ∧
      stores findings_path (disk s') (persisted_ingest (demo_run 1000) store_new).1
  | Err _ => stores findings_path (disk s') store_new
  | Panicked => False
  end.
Proof.
  apply (file_backed_ingest_refines_memory findings_path (H1 := no_faults) 7 (demo_run 1000) store_new).
  - by apply forallb_True; vm_compute.
  - split_and!; repeat constructor.
Defined.

(** The pipeline over a file does succeed. *)
Example file_backed_ingest_succeeds :
  is_ok (persisted_ingest (H := JsonFileStore_store (H := no_faults) 7 findings_path)
    (demo_run 1000) (booted var_disk)).2 = true.
Proof. by vm_compute. Qed.

(** ** A feed codec: a struct is written as the bits of a number *)

Fixpoint bits (p : positive) : bytes :=
  match p with xH => [] | xO p => 48%Z :: bits p | xI p => 49%Z :: bits p end.
Fixpoint unbits (b : bytes) : positive :=
  match b with [] => xH | x :: b => if (x =? 48)%Z then xO (unbits b) else xI (unbits b) end.
Lemma unbits_bits p : unbits (bits p) = p.
Proof. induction p as [p IH|p IH|]; cbn; by rewrite ?IH. Qed.
Lemma bits_hex p : Forall lower_hex_digit (bits p).
Proof. induction p; constructor; done. Qed.

#[local] Instance FeedContentKind_eq_dec : EqDecision FeedContentKind.
Proof. solve_decision. Defined.
#[local] Instance FeedEntry_eq_dec : EqDecision FeedEntry.
Proof. solve_decision. Defined.
#[local] Instance FeedManifest_eq_dec : EqDecision FeedManifest.
Proof. solve_decision. Defined.
#[local] Instance FeedState_eq_dec : EqDecision FeedState.
Proof. solve_decision. Defined.

#[local] Program Instance FeedTier_countable : Countable FeedTier :=
  inj_countable' (λ t, match t with Community => false | Enterprise => true end)
    (λ b, if b : bool then Enterprise else Community) _.
Next Obligation. by intros []. Qed.
#[local] Program Instance FeedContentKind_countable : Countable FeedContentKind :=
  inj_countable' (λ k, match k with Osv => (false, false) | Nvd => (false, true)
                       | Epss => (true, false) | Kev => (true, true) end)
    (λ b, match b with (false, false) => Osv | (false, true) => Nvd
          | (true, false) => Epss | (true, true) => Kev end) _.
Next Obligation. by intros []. Qed.
#[local] Program Instance FeedEntry_countable : Countable FeedEntry :=
  inj_countable' (λ e, (fe_name e, fe_sha256 e, fe_kind e)) (λ '(n, h, k), mkFeedEntry n h k) _.
Next Obligation. by intros []. Qed.
#[local] Program Instance FeedManifest_countable : Countable FeedManifest :=
  inj_countable' (λ m, (fm_version m, fm_created_at m, fm_source m, fm_tier m, fm_entries m))
    (λ '(v, c, s, t, es), mkFeedManifest v c s t es) _.
Next Obligation. by intros []. Qed.
#[local] Program Instance FeedState_countable : Countable FeedState :=
  inj_countable' (λ m, (st_version m, st_source m, st_tier m, st_created_at m, st_applied_at m))
    (λ '(v, s, t, c, a), mkFeedState v s t c a) _.
Next Obligation. by intros []. Qed.

Definition read_bits {A} `{Countable A} (b : bytes) : A + string :=
  match decode (unbits b) with Some a => inl a | None => inr "expected value" end.

#[local] Instance bit_codec : FeedCodec := {|
  to_canonical_json_bytes m := bits (encode m);
  manifest_to_vec_pretty m := bits (encode m);
  manifest_from_str := read_bits;
  state_to_vec_pretty st := bits (encode st);
  state_from_slice := read_bits;
  sha256 b := [Z.of_nat (length b) mod 256; foldr Z.add 0 b mod 256]%Z;
|}.

#[local] Instance bit_codec_laws : FeedCodecLaws.
Proof.
  split; cbn; unfold read_bits.
  - intros m. by rewrite unbits_bits, decode_encode.
  - intros m. apply utf8_hex, bits_hex.
  - intros st. by rewrite unbits_bits, decode_encode.
  - intros b. repeat constructor; apply Z.mod_pos_bound; lia.
Qed.

#[local] Instance real_hex_alphabet : HexAlphabet.
Proof.
  intros b Hb. unfold hex_encode, real_hex. rewrite as_bytes_of_string by by apply hex_bytes_bytes.
  induction Hb as [|z b Hz _ IH]; [constructor|]. cbn [hex_bytes]. unfold is_byte in Hz.
  assert (∀ n, (0 ≤ n < 16)%Z → lower_hex_digit (hex_digit n)) as Hd.
  { intros n Hn. apply Is_true_true. unfold lower_hex_digit, hex_digit, in_range. case_match; lia. }
  constructor; [|constructor; [|done]]; apply Hd; [Z.to_euclidean_division_equations; lia|].
  apply Z.mod_pos_bound. lia.
Qed.

(** ** A bundle is built, then installed *)

Definition feed_key : SigningKey := "feed".
Definition demo_verifier : FeedVerifier := feed_trust (sk_verifying_key feed_key) feed_verifier_new.

(** A content directory and an empty store. *)
Definition source_disk (osv : bytes) : Disk :=
  {[["src"; "osv-bundle.json"] := File osv; ["src"; "epss-sample.csv"] := File (as_bytes "CVE-1,0.5,0.9");
    ["src"; "kev-sample.json"] := File [7%Z]; ["out"] := Dir]}.

Lemma source_file osv q b :
  file_at (source_disk osv) q = Some b → length b ≤ length osv + 20.
Proof.
  unfold file_at, source_disk. rewrite !lookup_insert.
  repeat (case_decide; [intros [= <-]; cbn; lia|]). rewrite lookup_singleton. by case_decide.
Qed.

Definition published (version : string) (d : Disk) : FsState :=
  let '(s, r) := manifest_from_content_dir (H2 := no_faults) ["src"] version 5 "qlucent" Community (booted d) in
  match r with
  | Ok m => (write_signed_bundle (H2 := no_faults) ["src"] ["out"] m feed_key s).1
  | _ => s
  end.

Definition store_root : Path := ["store"].
Definition installing (F : Faults) (d : Disk) : FsState * Result FeedManifest :=
  install (H2 := F) 7 store_root ["out"] demo_verifier 9 (booted d).

(** What a consumer of the store sees: the version of the marker and the content. *)
Definition seen (d : Disk) : option string * option bytes :=
  (match (active_version (H2 := no_faults) store_root (booted d)).2 with Ok o => o | _ => None end,
   file_at d (content_dir store_root ++ ["osv-bundle.json"])).

Definition first_bundle : Disk := disk (published "v1" (source_disk [1; 2; 3]%Z)).
Definition first_install : FsState := (installing no_faults first_bundle).1.
(** The next snapshot replaces the bundle. *)
Definition second_bundle : Disk :=
  disk (published "v2" (<[["src"; "osv-bundle.json"] := File [4; 5]%Z]> (disk first_install))).

Lemma fresh_store c : path_exists (staging_dir 7 store_root c) (disk (booted first_bundle)) = false.
Proof.
  apply path_exists_false. intros q [k ->]. destruct (_ !! _) as [n|] eqn:Hq; [|done]. exfalso.
  assert (map_Forall (λ q _, head q ≠ Some "store") first_bundle) as Hf
    by (apply (bool_decide_unpack _); by vm_compute).
  by apply (Hf _ _ Hq).
Qed.


Lemma verify_bundle_accepts_exactly_witness :
  ∃ m, verified ["out"] demo_verifier m first_bundle ∧ fm_version m = "v1".
Proof.
  destruct (verify_bundle (H2 := no_faults) ["out"] demo_verifier (booted first_bundle)).2 as [m|e|] eqn:Hv;
    [|exfalso; revert Hv; by vm_compute..].
  exists m. split.
  - by apply (verify_bundle_accepts_exactly (H2 := no_faults) ["out"] demo_verifier m (booted first_bundle)).
  - assert ((λ r, match r with Ok m => fm_version m | _ => "" end)
      (verify_bundle (H2 := no_faults) ["out"] demo_verifier (booted first_bundle)).2 = "v1") as Hver by by vm_compute.
    by rewrite Hv in Hver.
Defined.

(** The builder's two calls, one after the other. *)
Definition built : FsState * Result FeedManifest :=
  manifest_from_content_dir (H2 := no_faults) ["src"] "v1" 5 "qlucent" Community
    (booted (source_disk [1; 2; 3]%Z)).

Lemma published_bundle_verifies_witness :
  ∃ m, built.2 = Ok m ∧
    (verify_bundle (H2 := no_faults) ["out"] demo_verifier
       (write_signed_bundle (H2 := no_faults) ["src"] ["out"] m feed_key built.1).1).2 = Ok m.
Proof.
  destruct built as [s1 [m|e|]] eqn:Hb; [|exfalso; revert Hb; by vm_compute..].
  exists m. split; [done|]. cbn [fst].
  apply (published_bundle_verifies (F1 := no_faults) (F2 := no_faults) ["src"] ["out"] "v1" 5 "qlucent" Community
    feed_key demo_verifier m (booted (source_disk [1; 2; 3]%Z)) s1).
  - apply (bool_decide_unpack _). by vm_compute.
  - intros n _. done.
  - intros n b _ Hlen%source_file. unfold MAX_CONTENT_FILE_BYTES. cbn in Hlen. lia.
  - by left.
  - exact Hb.
  - assert ((let '(s, r) := built in match r with
      | Ok m => (write_signed_bundle (H2 := no_faults) ["src"] ["out"] m feed_key s).2
      | _ => Err "" end) = Ok tt) as Hw by by vm_compute.
    rewrite Hb in Hw. rewrite (surjective_pairing (write_signed_bundle _ _ _ _ _)). by rewrite Hw.
  - done.
Defined.

(** ** Enrichment from the store *)

(** An advisory for CVE-1 whose vector tells how long the snapshot is. *)
#[local] Instance toy_snapshots : SnapshotJson := {|
  cvss_from_str b := inl (CvssBare
    [mkOsvEnrichRecord "CVE-1" [mkOsvSeverity "CVSS_V3" (show_nat (length b))] None None]);
  kev_from_str b := inl ["CVE-1"];
|}.

Definition enriching (d : Disk) : FsState * Result BundledEnrichment :=
  load_from_feed_store (H0 := no_faults) store_root (booted d).
(** The vector and the version that a finding for CVE-1 cites. *)
Definition cited (d : Disk) : option (option string * option string) :=
  match (enriching d).2 with
  | Ok b => (λ e, (cvss_vector e, feed_version e)) <$> enr_lookup b "CVE-1"
  | _ => None
  end.

Definition first_enrichment : FsState * Result BundledEnrichment :=
  load_from_feed_store (H0 := no_faults) store_root first_install.


(** ** Where the marker and the content disagree *)

(** When the marker cannot be written after the content was swapped, the install
    fails and the store serves the new snapshot's content under the old snapshot's
    version, although a finding is meant to cite the snapshot that supplied its
    inputs, and so the loaded evidence names the wrong snapshot; when the old content cannot be removed completely, the version is served
    with no content at all. *)
Theorem failed_install_misattributes_content :
  seen (disk first_install) = (Some "v1", Some [1; 2; 3]%Z) ∧
  cited (disk first_install) = Some (Some "3", Some "v1") ∧
  (let '(s', r) := installing (faults_at [16]) second_bundle in
   is_err r = true ∧ seen (disk s') = (Some "v1", Some [4; 5]%Z) ∧
   cited (disk s') = Some (Some "2", Some "v1")) ∧
  (let '(s', r) := installing (faults_at [14]) second_bundle in
   is_err r = true ∧ seen (disk s') = (Some "v1", None)).
Proof. by vm_compute. Qed.

(** A staging directory that a process with the same id left behind, and that cannot
    be removed: its files are installed with the verified ones. *)
Definition stuck_removal : Faults := {|
  fails n := bool_decide (n = 9); torn _ _ := None; made _ := 0; removed _ _ := false;
|}.
Example leftover_staging_is_installed :
  let '(s', r) := installing stuck_removal
    (<[["store"; ".content-new-7-0"; "nvd-bundle.json"] := File [6; 6; 6]%Z]> first_bundle) in
  is_ok r = true ∧ file_at (disk s') (content_dir store_root ++ ["nvd-bundle.json"]) = Some [6; 6; 6]%Z.
Proof. by vm_compute. Qed.

(** ** An enterprise install *)

#[local] Instance Entitlement_eq_dec : EqDecision Entitlement.
Proof. solve_decision. Defined.
#[local] Program Instance Entitlement_countable : Countable Entitlement :=
  inj_countable' (λ e, (ent_subject e, ent_tier e, ent_issued_at e, ent_expires_at e, ent_feeds e))
    (λ '(s, t, i, x, fs), mkEntitlement s t i x fs) _.
Next Obligation. by intros []. Qed.

#[local] Instance bit_entitlements : EntitlementCodec := {|
  ent_canonical e := bits (encode e);
  ent_from_slice := read_bits;
|}.
#[local] Instance bit_entitlements_laws : EntitlementCodecLaws.
Proof.
  split; cbn.
  - intros e. unfold read_bits. by rewrite unbits_bits, decode_encode.
  - intros e. pose proof (bits_hex (encode e)) as Hb. rewrite Forall_forall in Hb |- *.
    intros x Hx%Hb%Is_true_true.
    unfold lower_hex_digit, in_range in Hx. unfold is_byte. lia.
Qed.

Definition issuer_key : SigningKey := "issuer".
Definition grant (tier : FeedTier) : Entitlement := mkEntitlement "acme" tier 0 100 ["osv"].

Lemma enterprise_needs_entitlement_and_signature_witness :
  ∃ m, (live_install (H3 := no_faults) (issue_token issuer_key (grant Enterprise)) (sk_verifying_key issuer_key)
          9 ["out"] 7 store_root demo_verifier (booted first_bundle)).2 = Ok m ∧
    verified ["out"] demo_verifier m first_bundle.
Proof.
  pose proof (enterprise_needs_entitlement_and_signature (H3 := no_faults)
    (issue_token issuer_key (grant Enterprise)) (sk_verifying_key issuer_key) 9 ["out"] 7 store_root
    demo_verifier (booted first_bundle)) as Hi.
  assert (is_ok (live_install (H3 := no_faults) (issue_token issuer_key (grant Enterprise))
    (sk_verifying_key issuer_key) 9 ["out"] 7 store_root demo_verifier (booted first_bundle)).2 = true)
    as Hok by by vm_compute.
  destruct (live_install _ _ _ _ _ _ _ _) as [s' [m|e|]]; [|discriminate Hok..].
  exists m. split; [done|]. destruct Hi as [(_ & Hv & _) _]; [..|exact Hv].
  - apply (bool_decide_unpack _). by vm_compute.
  - apply fresh_store.
Defined.

Lemma issued_token_valid_until_expiry_witness :
  verify_entitlement (issue_token issuer_key (grant Community)) (sk_verifying_key issuer_key) 101 =
  Err "entitlement expired".
Proof. rewrite (issued_token_valid_until_expiry issuer_key (grant Community) 101). reflexivity. Defined.
