(* ===== verification/RuntimeDemo.v ===== *)
(** * A concrete agent runtime

    Two modules under the scheduler and a small event file, with the theorems applied
    to them; a rotation whose rename fails; an interval that the clock cannot hold. *)

From Stdlib Require Import ZArith.
From stdpp Require Import base tactics gmap strings list pretty.
From S2P Require Import Prelude Float32 Transport Scheduler Keys Fs Emit Manager.

Local Open Scope Z_scope.

(** ** Modules *)

Record DemoModule := mkDemo { demo_id : string; demo_interval : option Z }.

(** A refresh reports itself; that of [drift] fails. *)
#[local] Instance demo_modules : AgentModule unit (list string) DemoModule := {|
  mod_id := demo_id;
  mod_init _ := mret tt;
  mod_start := mret tt;
  mod_stop := mret tt;
  mod_health _ := (true, "");
  mod_refresh := λ s, ((s.1, s.2 ++ [demo_id s.1]),
    if bool_decide (demo_id s.1 = "drift") then Err "unreadable" else Ok tt);
  mod_refresh_interval := demo_interval;
  mod_set_refresh_interval iv m := mkDemo (demo_id m) iv;
|}.
#[local] Instance one_ns : Elapse := λ _, 1.

Definition demo_fleet : list DemoModule :=
  [mkDemo "fim" (Some 30); mkDemo "corr" None; mkDemo "drift" (Some 60)].

Lemma every_module_is_refreshed_witness :
  ∃ s', run_periodic (C := unit) (2 + enough 60 30 3) (mkPeriodic demo_fleet [] [] 0 0 []) = (s', Ok tt) ∧
    ∃ r, r ∈ drop 2 (p_log s') ∧ r_module r = 2%nat.
Proof.
  destruct (every_module_is_refreshed (C := unit) 1 60 30 (λ n, ltac:(cbv; split; discriminate)) eq_refl
    (λ m e, ltac:(cbn; case_bool_decide; discriminate)) demo_fleet [] 0 2) as (s' & Hr & Hall).
  - intros m iv [->|[->|[->|[]%elem_of_nil]%elem_of_cons]%elem_of_cons]%elem_of_cons [= <-]; lia.
  - lia.
  - vm_compute. discriminate.
  - exists s'. split; [exact Hr|]. by apply (Hall 2%nat (mkDemo "drift" (Some 60)) 60).
Defined.

(** A minute after boot, an override from the configuration can be more than the clock
    holds. *)
Example huge_override_panics :
  (run_periodic (C := unit) 1 (mkPeriodic
     (modules (apply_refresh_overrides {[ "fim" := 2 ^ 63 - 1 ]} (mkManager tt demo_fleet [])))
     [] [] (from_secs 60) 0 [])).2 = Panicked.
Proof. by vm_compute. Qed.

(** ** The event file *)

Definition sound_disk : Faults := {|
  fails _ := false; torn _ _ := None; made _ := 0%nat; removed _ _ := false;
|}.
Definition log_disk : Disk :=
  {[["events"] := File (as_bytes "one" ++ [10]); ["events.1"] := File (as_bytes "zero" ++ [10])]}.
(** Room for eight bytes and two rolls. *)
Definition log_sink : Emitter := mkEmitter (mkFs log_disk 0 0 []) (Some ["events"]) [] 4 ["events"] 8 2.

Lemma log_disk_clean : clean [] "events" log_disk.
Proof.
  assert (∀ q, length q ≠ 1%nat → log_disk !! q = None) as Hlen.
  { intros q Hq. unfold log_disk. rewrite lookup_insert_ne by (by intros <-).
    apply lookup_singleton_ne. by intros <-. }
  assert (∀ q, log_disk !! q ≠ Some Dir) as Hdir.
  { intros q. unfold log_disk. rewrite lookup_insert. case_decide; [done|].
    rewrite lookup_singleton. by case_decide. }
  split_and!; [by intros; apply Hdir| |done]. intros i q [k ->] Hne. apply Hlen.
  rewrite slot_path, !length_app. destruct k; [by rewrite app_nil_r in Hne|]. cbn. lia.
Qed.

Lemma log_sink_ok : sink_ok [] "events" log_sink.
Proof.
  split; [done|]. split; [done|]. exists (as_bytes "one" ++ [10]). split; [|done].
  split; [done|]. split; [apply log_disk_clean|]. eexists. split; [|apply app_nil_r]. by vm_compute.
Qed.

Lemma emit_drops_only_the_oldest_roll_witness :
  ∃ e', emit (H := sound_disk) (as_bytes "three") log_sink = (e', Ok tt) ∧ sink_ok [] "events" e' ∧
    (0 < rotate_bytes log_sink → bytes_written e' ≤ 8).
Proof.
  destruct (emit_drops_only_the_oldest_roll (F := sound_disk) (λ _, eq_refl) [] "events" log_sink
    (as_bytes "three") log_sink_ok) as (e' & He & Hok & _ & _ & _ & _ & _ & Hsize); [done|].
  exists e'. split; [exact He|]. split; [exact Hok|]. exact Hsize.
Defined.

Definition sink_text (e : Emitter) : bytes := text (files [] "events" (disk (em_fs e))) (max_rolls e).

(** When the rename of the active file fails during a rotation, the error is
    ignored and the file is truncated: its records are gone although a roll is free and
    no write failed. *)
Theorem failed_rename_truncates_the_log :
  let stuck : Faults := {| fails n := bool_decide (n = 1%nat); torn _ _ := None; made _ := 0%nat;
                           removed _ _ := false |} in
  sink_text log_sink = as_bytes "zero" ++ [10] ++ as_bytes "one" ++ [10] ∧
  sink_text (emit (H := sound_disk) (as_bytes "three") log_sink).1 =
    as_bytes "zero" ++ [10] ++ as_bytes "one" ++ [10] ++ as_bytes "three" ++ [10] ∧
  (write_line (H := stuck) (as_bytes "three") log_sink).2 = Ok tt ∧
  sink_text (emit (H := stuck) (as_bytes "three") log_sink).1 =
    as_bytes "zero" ++ [10] ++ as_bytes "three" ++ [10].
Proof. by vm_compute. Qed.
