(* ===== verification/HostDemo.v ===== *)
(** * A concrete host

    A dpkg database, a sweep, two streams of bus events and the system calls of a process,
    with the theorems about the host inventory, the observers of the bus and the sensors
    applied to them; and an event file with the theorem about the batch program. *)

From Stdlib Require Import ZArith.
From stdpp Require Import base tactics gmap strings list.
From S2P Require Import Prelude Float32 Transport Scheduler Keys Version CveSource Text Findings Engine Ocsf Ingest IngestDemo.
From S2P Require Import Substrate NetMon MonitorProps CorrDemo Posture PostureDemo Manager Packages Listeners Sweep Snapshot Inventory Observe ObserveProps.
From S2P Require Import EngineProps IngestProps EndToEnd Sensors SensorProps EtwSensor Fs JsonStore Enrich FromEvents.

Local Open Scope Z_scope.

(** ** The dpkg database *)

Definition dpkg_stanzas_demo : list (list bytes * list bytes) :=
  [(as_bytes <$> ["Package: libssl3"; "Status: install ok installed"; "Version: 3.0.2-0"], [[]]);
   (as_bytes <$> ["Package: oldpkg"; "Status: deinstall ok config-files"; "Version: 1"], [[]; [32]])].
Definition dpkg_final_demo : list bytes :=
  as_bytes <$> ["Package: bash"; "Status: install ok installed"; "Version: 5.1-6"].
Definition dpkg_info_demo : list (bytes * option bytes) :=
  [(as_bytes "libssl3:amd64.list", Some (text_of (as_bytes <$> ["/usr/lib"; "/usr/lib/libssl.so.3"])));
   (as_bytes "bash.list", None)].

#[local] Instance line_dec l : Decision (is_line l).
Proof. unfold is_line. apply _. Defined.
#[local] Instance blank_dec l : Decision (blank l).
Proof. unfold blank. apply _. Defined.
#[local] Instance stanza_dec sb : Decision (stanza_ok sb).
Proof. unfold stanza_ok. apply _. Defined.
Ltac compute_dec := apply (bool_decide_unpack _); vm_compute; exact I.

Lemma dpkg_inventory_exact_witness :
  dpkg_packages
    (Some (text_of ((sb ← dpkg_stanzas_demo; sb.1 ++ sb.2) ++ dpkg_final_demo))) (Some dpkg_info_demo) =
  [mkPackage "libssl3" "3.0.2-0" "dpkg" ["/usr/lib/libssl.so.3"]; mkPackage "bash" "5.1-6" "dpkg" []].
Proof.
  rewrite (dpkg_inventory_exact dpkg_stanzas_demo dpkg_final_demo dpkg_info_demo) by compute_dec.
  vm_compute. reflexivity.
Defined.

(** ** A sweep *)

Lemma expand_cidr_exact_witness :
  (∀ a, a ∈ expand_cidr (as_bytes (dotted_quad (10, 0, 0, 5)) ++ 47 :: as_bytes (show_Z 30)) MAX_HOSTS ↔
     is_ipv4 a ∧ u32_of_ipv4 a / 4 = u32_of_ipv4 (10, 0, 0, 5) / 4) ∧
  expand_cidr (as_bytes "10.0.0.5/30") MAX_HOSTS = [(10, 0, 0, 4); (10, 0, 0, 5); (10, 0, 0, 6); (10, 0, 0, 7)].
Proof.
  split; [|by vm_compute].
  destruct (expand_cidr_exact (10, 0, 0, 5) 30 MAX_HOSTS []) as [[_ Hin] _].
  - unfold is_ipv4, is_octet. lia.
  - lia.
  - exact Hin.
Defined.

(** ** AI usage *)

Definition ai_dev : Device := mkDevice "laptop" "linux" "6.1".
Definition ai_meta : Metadata := mkMetadata "torda" "0" "t".
Definition ai_exec (pid : Z) (image cmdline : string) : SubstrateEvent Json :=
  mkSubstrateEvent EventKind.ProcessExec pid
    (JObj [("pid", JNum pid); ("image", JStr image); ("cmdline", JStr cmdline)]).

Definition ai_events : list (SubstrateEvent Json) :=
  [ai_exec 10 "/usr/bin/python3" "python3 /opt/aider.py"; e_connect 10 "python3" "8.8.8.8" 443;
   e_connect 11 "cursor" "127.0.0.1" 8080; e_exit 10 7; e_connect 10 "python3" "8.8.8.8" 443].

Lemma ai_events_ascii : Forall ascii_event ai_events.
Proof.
  assert (Hn : ∀ b : bytes, forallb (λ c, c <? 128) b = true → ascii_bytes b).
  { intros b Hb. apply Forall_forall. intros c Hc. rewrite forallb_forall in Hb.
    apply list_elem_of_In, Hb in Hc. lia. }
  repeat constructor; intros k s [->|[->|[]%elem_of_nil]%elem_of_cons]%elem_of_cons Hs;
    first [discriminate Hs|injection Hs as <-; apply Hn; by vm_compute].
Qed.

Lemma ai_usage_matches_reference_witness :
  ∃ t' o' l, aiusage_run ai_meta ai_dev ai_events (∅, mkOutbox [] 0) = ((t', o'), Ok tt)
    ∧ (data <$> out_emitted o') = [] ++ l ∧ l = ref_run ∅ ai_events ∧ length l = 2%nat.
Proof.
  destruct (ai_usage_matches_reference ai_meta ai_dev ai_events (mkOutbox [] 0) ai_events_ascii)
    as (t' & o' & l & Hrun & _ & Hout & _ & Hall).
  assert (Hw : within_cap ∅ ai_events).
  { unfold ai_events. cbn [within_cap]. split_and!; first [exact I|apply Nat.leb_le; vm_compute; reflexivity]. }
  specialize (Hall Hw). exists t', o', l. split_and!; [exact Hrun|exact Hout|exact Hall|].
  rewrite Hall. vm_compute. reflexivity.
Defined.

(** "é12" in the bytes of UTF-8. *)
Definition accented : string := string_of_bytes [195; 169; 49; 50].

Lemma non_ascii_name_kills_aiusage_witness :
  (aiusage_run ai_meta ai_dev [e_connect 5 accented "8.8.8.8" 443; e_connect 11 "cursor" "8.8.8.8" 443]
     (∅, mkOutbox [] 0)).1.2 = mkOutbox [] 0 ∧
  (aiusage_run ai_meta ai_dev [e_connect 5 accented "8.8.8.8" 443; e_connect 11 "cursor" "8.8.8.8" 443]
     (∅, mkOutbox [] 0)).2 = Panicked.
Proof.
  rewrite (non_ascii_name_kills_aiusage ai_meta ai_dev (e_connect 5 accented "8.8.8.8" 443)
    [e_connect 11 "cursor" "8.8.8.8" 443] accented 5 ∅ (mkOutbox [] 0)) by (vm_compute; reflexivity).
  by split.
Defined.

(** ** From the host to the findings *)

#[local] Instance demo_float : JsonFloat Json := enc_f32.
Definition demo_snap : StubSnapshot :=
  mkStubSnapshot "laptop" "linux" "6.1"
    [mkPackage "libssl3" "3.0.2-0" "dpkg" ["/usr/lib/libssl.so.3"]; mkPackage "bash" "5.1-6" "dpkg" []]
    [] [] [] [] [].
Definition demo_hits : CveFeed :=
  mkCveFeed [mkCveHit "libssl3" "3.0.2-0" "CVE-A" "upgrade:libssl3"; mkCveHit "bash" "5.1-6" "CVE-B" "upgrade:bash"].

Lemma host_inventory_to_findings_witness :
  ∃ rep, (∀ id, id ∈ identity <$> findings rep ↔
     ∃ p hit, p ∈ ss_packages demo_snap ∧
       hit ∈ hits_for demo_hits (pk_source p) "linux" "6.1" (pk_name p) (pk_version p) ∧
       id = mkIdentity "laptop" (hit_vuln_id hit) (pk_name p) (pk_source p)) ∧
   (mkIdentity "laptop" "CVE-A" "libssl3" "dpkg" ∈ identity <$> findings rep).
Proof.
  destruct (host_inventory_to_findings demo_snap ai_meta (λ _, usage_zero) budget_default 0
    [e_read 7 "curl" "/usr/lib/libssl.so.3"] demo_hits default_enrichment default_assets [])
    as (m & seen & o1 & o2 & rep & _ & _ & _ & _ & Hin & _).
  exists rep. split; [exact Hin|]. apply Hin.
  eexists (mkPackage "libssl3" "3.0.2-0" "dpkg" ["/usr/lib/libssl.so.3"]), (mkCveHit "libssl3" "3.0.2-0" "CVE-A" "upgrade:libssl3").
  split; [left|]. split; [|reflexivity]. vm_compute. left.
Defined.

(** ** System calls *)

(** A [connect] to 8.8.8.8:4444 by process 77, named "nc". *)
Definition nc_context : TracePointContext := {|
  read_at off := if bool_decide (off = CONNECT_USERVADDR_OFF) then Some 4096 else None;
  current_pid_tgid := Z.shiftl 77 32 + 78;
  current_comm := Some (as_bytes "nc" ++ replicate 14 0);
  probe_read_u16 p := if p =? 4096 then Some 2 else if p =? 4098 then Some (from_ne_bytes [17; 92]) else None;
  probe_read_u32 p := if p =? 4100 then Some (from_ne_bytes [8; 8; 8; 8]) else None;
  probe_read_str _ := None;
|}.

Lemma nc_context_ok : context_ok nc_context.
Proof.
  split; [by vm_compute|]. split; [by intros comm [= <-]|]. split; intros p v; cbn.
  - destruct (p =? 4096); [intros [= <-]; lia|]. destruct (p =? 4098); [intros [= <-]; lia|done].
  - destruct (p =? 4100); [intros [= <-]; lia|done].
Qed.
Lemma nc_address : sockaddr_in nc_context (8, 8, 8, 8) 4444.
Proof.
  split; [unfold is_ipv4, is_octet; lia|]. split; [lia|]. exists 4096. by split_and!.
Qed.

Lemma kernel_records_decode_witness :
  (λ e, map_net_record (V := Json) 5 (net_bytes e)) <$> (sys_enter_connect true nc_context).1 =
  Some (Some (mkSubstrateEvent EventKind.NetConnect 5
    [("pid", JNum 77); ("image", JStr "nc"); ("daddr", JStr "8.8.8.8"); ("dport", JNum 4444); ("proto", JStr "tcp")])).
Proof.
  destruct (kernel_records_decode (V := Json) nc_context 5 nc_context_ok) as (_ & _ & Hnet & _).
  exact (Hnet (8, 8, 8, 8) 4444 nc_address).
Defined.

Definition no_proc : Procfs := mkProcfs (λ _, None) (λ _, None) (λ _, None) (λ _ _, None).

Lemma connect_calls_become_findings_witness :
  mkIdentity "laptop" "network:8.8.8.8:4444" "8.8.8.8" "network" ∈
  identity <$> aggregate_network_findings (V := Json)
    (out_emitted (for_each (NetMon.handle_event ai_meta ai_dev)
       (drain_net (omap connect_reading [mkConnectCall nc_context true 5 no_proc])) (mkOutbox [] 0)).1) default_assets.
Proof.
  destruct (connect_calls_become_findings ai_meta ai_dev [mkConnectCall nc_context true 5 no_proc] default_assets)
    as [_ Hin].
  - constructor; [apply nc_context_ok|constructor].
  - apply Hin. exists (mkConnectCall nc_context true 5 no_proc), (8, 8, 8, 8), 4444.
    split; [left|]. split; [done|]. split; [apply nc_address|]. split; [compute_dec|reflexivity].
Defined.

#[local] Instance graphic_dec c : Decision (graphic c).
Proof. unfold graphic. apply _. Defined.

Lemma ppid_parsed_behind_any_name_witness :
  parse_ppid_from_stat (as_bytes "1234 ((sd-pam) x" ++ [41; 32] ++ as_bytes "S" ++ [32] ++ as_bytes "17" ++ as_bytes " 1234 0") =
  Some 17.
Proof.
  rewrite (ppid_parsed_behind_any_name (as_bytes "1234 ((sd-pam) x") (as_bytes "S") (as_bytes "17") (as_bytes " 1234 0")).
  - reflexivity.
  - split; [compute_dec|done].
  - split; [compute_dec|done].
  - by right.
  - compute_dec.
Defined.

(** ** An event file *)

(** The event "E" is an exec with a detection; a finding is written as its identifier. *)
#[local] Instance batch_json : EventsJson Json := {|
  envelope_from_str b := if bool_decide (b = as_bytes "E") then inl (IngestDemo.process_event 1000 "host-A" "/tmp/nc") else inr "malformed";
  value_from_str b := inr "not used";
  values_from_str b := inr "not used";
  values_to_string l := inr "not used";
  osv_from_str b := inr "not used";
  nvd_from_str b := inr "not used";
  finding_to_writer f := (as_bytes (finding_id f), None);
  item_to_writer i := (as_bytes (item_key i), None);
|}.
#[local] Instance batch_snapshots : SnapshotJson := {|
  cvss_from_str b := inr "not used"; kev_from_str b := inr "not used";
|}.
#[local] Instance batch_store : FindingsJson := {|
  findings_to_vec l := inr "not used"; findings_from_slice b := inr "not used";
|}.
#[local] Instance batch_store_laws : FindingsJsonLaws.
Proof. split. done. Qed.
#[local] Instance batch_faults : Faults := {|
  fails _ := false; torn _ _ := None; made _ := 0%nat; removed _ _ := false;
|}.

#[local] Instance batch_listing : Listing := λ _ _, false.

(** A directory of two feeds, one of which the reading of it does not give: the other is
    read alone, and nothing is said. *)
Example unlisted_feed_is_skipped :
  let half : Listing := λ _ p, bool_decide (p = ["feed"; "b.json"]) in
  let d : FsState := mkFs {[["feed"] := Dir; ["feed"; "a.json"] := Fs.File [1%Z]; ["feed"; "b.json"] := Fs.File [2%Z]]} 0 0 [] in
  (@read_json_files _ batch_listing ["feed"] d).2 = Ok [["feed"; "a.json"]; ["feed"; "b.json"]] ∧
  (@read_json_files _ half ["feed"] d).2 = Ok [["feed"; "a.json"]].
Proof. by vm_compute. Qed.

Definition batch_argv : list bytes :=
  as_bytes <$> ["--input"; "events.ndjson"; "--findings-out"; "out/f.ndjson"; "--remediation-out"; "out/r.ndjson"].
Definition batch_args : Args :=
  mkArgs (as_bytes "events.ndjson") (as_bytes "out/f.ndjson") (as_bytes "out/r.ndjson") None None None None.
(** A good line, a blank one, one that does not parse, and a good one again. *)
Definition batch_events : bytes := as_bytes "E" ++ [10; 32; 10] ++ as_bytes "{" ++ [10] ++ as_bytes "E" ++ [10].
Definition batch_disk (events : bytes) : FsState := mkFs {[["events.ndjson"] := Fs.File events]} 0 0 [].

Lemma events_become_findings_witness :
  (FromEvents.run 1 batch_argv (batch_disk batch_events)).2 = Ok (2, 1, 1, 1)%nat ∧
  ∃ engine, batch (disk (batch_disk batch_events)) batch_args engine ∧
    file_at (disk (FromEvents.run 1 batch_argv (batch_disk batch_events)).1) ["out"; "f.ndjson"] =
    Some (lines_of finding_to_writer (findings (report_after engine store_new))).
Proof.
  assert ((FromEvents.run 1 batch_argv (batch_disk batch_events)).2 = Ok (2, 1, 1, 1)%nat) as Hok by by vm_compute.
  split; [exact Hok|].
  pose proof (events_become_findings 1 batch_argv batch_args (batch_disk batch_events) store_new) as Hrun.
  destruct (FromEvents.run 1 batch_argv (batch_disk batch_events)) as [s' r] eqn:Heq. cbn [snd] in Hok. subst r.
  destruct Hrun as (engine & Hb & Hf & _).
  - by vm_compute.
  - split; [by vm_compute|done].
  - done.
  - done.
  - intros engine (input & feed & enr & Hin & _ & -> & -> & ->). vm_compute in Hin. injection Hin as <-.
    compute_dec.
  - exists engine. split; [exact Hb|].
    assert (findings_path batch_args = ["out"; "f.ndjson"]) as Hp by by vm_compute.
    rewrite <-Hp. exact Hf.
Defined.

(** The same file cut in the middle of a two-byte character. *)
Lemma torn_line_loses_the_batch_witness :
  ∃ e, (FromEvents.run 1 batch_argv (batch_disk (batch_events ++ [195]))).2 = Err e.
Proof.
  apply (torn_line_loses_the_batch 1 batch_argv batch_args (batch_disk (batch_events ++ [195])) (batch_events ++ [195])).
  - by vm_compute.
  - by vm_compute.
  - rewrite Forall_forall. intros Hall. specialize (Hall [195]). assert (utf8_valid [195] = true) as Hu; [|done].
    apply Hall. compute_dec.
Defined.
